(* ===== verification/_CoqProject ===== *)
-Q . S2P
Prelude.v
JsMap.v
Bytes.v
Utf8.v
Profiles.v
Envelope.v
RelayControl.v
Scheduler.v
Messages.v
Json.v
Negotiation.v
Ratchet.v
RatchetProps.v
SecureChannel.v
Reliable.v
ReliableProps.v
FileProtocol.v
FileReceiver.v
FileReceiverProps.v
FileSender.v
FileSenderProps.v
FileTransfer.v
Audio.v
Rooms.v
Connection.v
ConnectionProps.v
SessionView.v
CryptoClient.v
Voice.v
VoiceProps.v
VoicePlayback.v
VoiceResources.v
Session.v
SessionProps.v
SessionLive.v
SessionHandshake.v
JsString.v
VoiceLevel.v
Links.v
Dom.v
AppView.v
AppActions.v
AppProps.v
AppNotices.v
AppDetails.v
SessionSync.v
System.v
Runtime.v
