(* ===== verification/Prelude.v ===== *)
(** * OnlyTwo: a verification library of the browser client

    OnlyTwo connects two browsers over a relay that only forwards frames.
    This library models the TypeScript client under [src/client/src] and
    proves what makes its parts correct.  The relay (Go, [src/internal]) is
    not modelled; nothing here depends on it.

    ** How the program is put together

    A user message, a file chunk or a voice frame is an application message
    ([protocol/appMessages.ts]).  Control and text messages travel inside the
    reliable channel ([protocol/reliable.ts]), which numbers attempts,
    retries and drops duplicates.  The secure channel
    ([crypto/SecureChannel.ts]) turns a message into JSON, has the crypto
    worker ([crypto/cryptoWorker.ts]) pad and encrypt it under the next key
    of the sending chain, and makes an envelope ([protocol/envelope.ts]),
    whose header is authenticated with the ciphertext.  Envelopes wait in the
    packet scheduler ([transport/PacketScheduler.ts]), one queue per lane,
    until the connection ([transport/WebSocketConnection.ts]) drains them into
    its socket.  The page reaches the worker through the crypto client
    ([crypto/CryptoClient.ts]).  The receiving side runs the same path backwards, checks
    that the message belongs on its stream ([protocol/streams.ts]) and gives
    it to the file, voice or text features.  Before that the peers exchange
    handshakes, agree on keys and show a safety phrase
    ([protocol/negotiation.ts]).  The session controller
    ([session/SessionController.ts]) owns these parts, reacts to the relay, to
    packets and to the user, and gives every new state to the interface
    ([ui/AppView.ts]), which draws the page and turns clicks into calls on the
    controller.

    ** Files

    - [Prelude], [JsMap]: JavaScript strings, results with exceptions, safe
      integers, insertion-ordered maps and sets, tactics and hints.
    - [Bytes], [Utf8]: [utils/bytes.ts], with [btoa], [atob], [TextEncoder]
      and the fatal [TextDecoder] written out.
    - [Profiles]: [config/profiles.ts].
    - [Envelope]: [protocol/envelope.ts].  [RelayControl]:
      [protocol/relayControl.ts].
    - [Scheduler]: [transport/PacketScheduler.ts].
    - [Messages]: the objects of [protocol/appMessages.ts], the accessors of
      [utils/safeJson.ts], [protocol/streams.ts].  [Json]: [JSON.stringify]
      and [JSON.parse] and the codecs on bytes.
    - [Negotiation]: [protocol/negotiation.ts], [profileHashInput], and the
      part of [session/SessionController.ts] that makes and checks a
      handshake.
    - [Ratchet], [RatchetProps]: [crypto/cryptoWorker.ts].
    - [SecureChannel]: [crypto/SecureChannel.ts] over the worker.
    - [Reliable], [ReliableProps]: [protocol/reliable.ts].
    - [FileProtocol], [FileReceiver], [FileReceiverProps], [FileSender],
      [FileSenderProps], [FileTransfer]: [features/file].
    - [Audio]: the jitter buffer, the freshness queue, the voice gate and the
      sample conversion of [features/audio]; [VoiceLevel]: the level of a
      frame, which the gate tests.
    - [Rooms]: [utils/ids.ts], [protocol/rooms.ts] and
      [features/text/TextService.ts].
    - [Connection], [ConnectionProps]: [transport/WebSocketConnection.ts] and
      [transport/metrics.ts].
    - [SessionView]: [session/types.ts] and the methods of
      [session/SessionController.ts] that keep the transcript, the list of
      transfers and the choice of the next file.
    - [CryptoClient]: [crypto/CryptoClient.ts] in front of the worker of
      [Ratchet].
    - [Voice], [VoiceProps], [VoicePlayback], [VoiceResources]:
      [features/audio/VoiceService.ts].
    - [Session], [SessionProps]: [session/SessionController.ts], every method
      cut at its awaits; [SessionLive]: its activations and flags make
      progress; [SessionHandshake]: two controllers together; [SessionSync]:
      every change of the view is given to the listener.
    - [JsString], [Links]: string functions, doubles, and the room links of
      [utils/ids.ts] with the form encoding they use.
    - [Dom]: [ui/dom.ts] over a tree of elements.  [AppView], [AppActions],
      [AppProps], [AppNotices], [AppDetails]: [ui/AppView.ts].
    - [System]: the interface and the controller together.
    - [Runtime]: [runtime/SessionQueue.ts] and
      [session/SessionStateMachine.ts].

    ** How the code is rendered

    A number is a [Z]; where a field has a width it is reduced to it as the
    source does ([to_u32], [to_u64], [be]).  A string is the list of its
    UTF-16 units, a byte array a list of [Z] with [wf_bytes].  A function
    that throws returns [result], with the message of the exception.  A class
    is a record and its methods are functions on it.

    JavaScript runs one task at a time and switches only at an await, so an
    asynchronous method is cut at its awaits: the part up to the await is one
    definition, which notes in the state what is outstanding, and each
    continuation is another ([sendPending] and [sendPending_resume],
    [sendChunk], [read_done] and [send_done], and so on).  The state machines
    of [Reliable], [FileReceiver], [FileSender], [Connection], [CryptoClient],
    [Voice], [Session], [AppView] and [System] take such parts, timers
    and calls as events in any order that is possible; [run] replays a list of
    events and a theorem about all runs covers every interleaving.  Objects
    that are shared between closures and the map of a class live in a store
    and are referred to, because the code goes on using an object after it has
    left the map; sockets live in a store too, because handlers of a replaced
    socket still run, and contexts, microphones and sources have numbers, so
    that what is opened and what is closed can be compared.  A method's
    messages and callbacks are recorded in a log.  [r <| f := x |>] is the
    record [r] with another value of the field [f].

    The page is a tree of elements, each with the handler that its [onclick],
    [onchange] or [onsubmit] holds; a click is possible on a handler that is
    in the document and not disabled.  Text fields live in a store, because
    the view keeps references to fields it has removed.  Animation frames,
    timers and open promises are counted in the state, so that a theorem can
    say that an update is on its way.

    The worker handles one request at a time (the promise chain of the
    client and the one of the worker), so there a request is one transition;
    [calls_linearized] shows that the client makes it so.

    Outside the sources and therefore parameters: WebCrypto ([WebCrypto] with
    the laws [WebCryptoLaws]: lengths, symmetry of X25519, decryption inverts
    encryption), SHA-256 in [Negotiation] and in the file transfers, random
    bytes, clocks, identifiers, what the transport answers, and what the
    browser decides ([Browser]: how a time is written, the layout, the
    address, whether it can share; [Math.log10]).  Each theorem
    that uses them has a witness at a concrete instance.

    ** What is shown

    - The wire: messages and handshakes survive encoding and decoding
      ([message_wire_roundtrip], [handshake_wire]); what is accepted is within
      bounds and on its stream ([decode_message_sound],
      [validateInboundStream_iff]); frames are canonical and their header is
      what is authenticated ([unpack_pack_roundtrip], [pack_unpack_canonical],
      [aad_is_frame_header], [aad_injective]).
    - The session: two peers agree on chains and on the phrase
      ([key_agreement], [phrase_agreement]), the phrase binds what it should
      ([phrase_text_binds], [profile_text_injective]), no key is used twice
      ([encrypt_fresh_key]), packets are delivered out of order
      ([out_of_order_delivery], [authentic_packet_accepted]), a replay is
      rejected as long as no forged frame opened a gap ([replay_rejected],
      and [forged_gap_replay] for what happens otherwise), padding is undone
      ([padding_roundtrip]), and a message sealed by one side is the message
      the other side opens ([secure_delivery], [encryptAppMessage_total]).
    - Queues: the scheduler stays within its budgets and drains by priority
      ([scheduler_bounded], [enqueue_spec], [drain_order]); the voice buffers
      keep order and age ([jitter_order], [freshness_queue]).
    - Reliability: attempts, outcomes and deliveries are bounded and a message
      is never stuck ([retry_attempts_bounded], [reliable_terminates],
      [outcome_at_most_once], [body_at_most_once]).
    - Files: windows, bounds and contents ([window_invariant],
      [completed_means_acked], [received_file_is_sent], [receiver_bounded],
      [last_chunk_completes]), and the two sides together, through changes of
      the profile on either side ([file_end_to_end]).
    - The connection: lanes are first-in first-out through reconnects and
      drops ([lanes_in_order]), the queue cannot stall ([no_lost_wakeup]), a
      replaced socket and a disconnected client stay silent
      ([replaced_socket_inert], [disconnect_is_final]), reconnection backs off
      and ends ([reconnection_bounded]), the limits on buffered bytes hold
      ([backpressure_respected]), and the slot token survives a reload
      ([slot_token_kept]).
    - The crypto client: calls are answered in order, each once, as by a
      sequential worker, and none hangs ([calls_linearized],
      [every_call_settles]).
    - The view: lists are bounded and in order, an update touches nothing else,
      and the next file is the right one ([view_invariant], [upsert_spec],
      [next_queued_spec]).
    - Voice: samples are cut into the frames the peer accepts
      ([capture_reframed]), playback is in order, without overlap and with a
      bounded lead ([playback_in_order]), silence is not sent where the
      profile gates the voice ([silence_not_sent]), and [stop] releases the microphone
      and the contexts ([stop_releases_all]).
    - The controller: in each epoch at most one initial and one reply
      handshake are sent and none of an older epoch ([handshake_policy]), and
      nothing of an old session reaches the wire or the application after a
      newer one was used ([sessions_separated]).  No activation waits in vain
      or in a circle and no flag locks an operation out for good
      ([never_stuck], [guards_released]); crypto tasks run one at a time and
      in order ([crypto_serial]); and two controllers that wait in a room
      complete the handshake and show the same phrase
      ([handshake_completes]).
    - The interface: the page shows the present state of the controller or a
      frame is on its way ([page_shows_controller], [page_up_to_date]); the
      user can do exactly what the state permits ([page_offers_exactly],
      [actions_follow_controller]); the safety phrase is shown whole
      ([phrase_shown]); a redraw keeps text, focus, selection and scroll
      position ([position_kept]); a notice is shown until its own timer fires
      and an offer is announced once ([notice_lifetime],
      [offers_announced_once]); nothing of a chat stays after it was left
      ([leaving_forgets]); percentages are within bounds ([percent_bounded]).
    - Rooms: codes are canonical and a shared link opens its room
      ([room_code_canonical], [shared_link_opens_room]).  The session queue
      runs its tasks one at a time and in order ([session_queue_serial]).
    - Seven theorems record behaviour the code should not have:
      [forged_gap_replay], [delivered_then_failed],
      [cancelled_then_completed], [chunk_sent_after_reset],
      [voice_resources_leak], [disconnect_not_final],
      [share_leaves_menu_open].

    ** Fuel

    The loops that are not structural take fuel computed from their data: the
    JSON parser one unit per character plus one, which [stringify_parse] shows
    to be enough for every text that [stringify] makes; [pump_loop] the number
    of chunks not yet started; [binary_string] the number of bytes;
    [drain_all] in [drain_order] the number of packets; [drain_loop] the
    number of queued packets plus one, since every turn takes one or ends;
    [capture_loop] the number of samples, since every turn takes a frame
    ([capture_loop_spec]); [pop_fresh] the number of buffered frames plus one,
    which [pop_fresh_spec] shows to be enough.

    ** Not modelled yet

    In the order planned: the composition of the controller with the models
    of the components it calls (their calls are recorded, and their answers
    are arguments of a step), and liveness of the file sender.  Not planned:
    Web Audio itself, style and layout of the page, the zeroing of key
    buffers, and the text of fractional numbers, which no message contains. *)
From stdpp Require Export base list sets numbers decidable option pretty strings.
From Stdlib Require Export Lia ZifyNat.

#[export] Set Default Proof Using "Type".

(** ** Notations and scope of the development *)

Declare Scope onlytwo_scope.
Delimit Scope onlytwo_scope with ot.

(** A JavaScript string is its sequence of UTF-16 code units. *)
Abbreviation jstr := (list Z).

(** [js "text"] is the JavaScript string of an ASCII literal. *)
Fixpoint js (s : string) : jstr :=
  match s with
  | EmptyString => []
  | String c s' => Z.of_nat (Ascii.nat_of_ascii c) :: js s'
  end.

(** Decimal rendering of a JavaScript integer in a template literal. *)
Definition js_int (n : Z) : jstr := js (pretty n).

(** Truthiness of a JavaScript string: only the empty one is falsy. *)
Definition truthy (s : jstr) : bool := match s with [] => false | _ => true end.

(** ** Exceptions

    A fallible TypeScript function is a function into [result]: [Throw]
    carries the message of the [Error] it throws. *)
Inductive result (A : Type) : Type :=
| Ok (a : A)
| Throw (e : jstr).
Arguments Ok {A} a.
Arguments Throw {A} e.

Definition rbind {A B} (m : result A) (k : A -> result B) : result B :=
  match m with Ok a => k a | Throw e => Throw e end.

Lemma Ok_inj {A} (a b : A) : Ok a = Ok b -> a = b.
Proof. congruence. Qed.

Definition is_ok {A} (m : result A) : bool :=
  match m with Ok _ => true | Throw _ => false end.

Notation "'let!' x := m 'in' k" := (rbind m (fun x => k))
  (at level 10, x pattern, m at level 100, k at level 200)
  : onlytwo_scope.

(** [if (c) throw new Error(e)]: the guard idiom of the sources. *)
Notation "'throw_if' c 'with' e ; k" := (if c then Throw e else k)
  (at level 10, c at level 100, e at level 100, k at level 200)
  : onlytwo_scope.

#[global] Open Scope onlytwo_scope.
#[global] Open Scope Z_scope.

Lemma rbind_Ok {A B} (m : result A) (k : A -> result B) b :
  rbind m k = Ok b <-> exists a, m = Ok a /\ k a = Ok b.
Proof. destruct m; simpl; naive_solver. Qed.

(** ** Automation

    [simp_if] decides one boolean test of the model and turns it into the
    arithmetic fact it stands for; [crush] repeats that with [lia]. *)
Create HintDb onlytwo.
Create Rewrite HintDb onlytwo.

Ltac bool_facts :=
  repeat match goal with
  | H : andb _ _ = true |- _ => apply andb_prop in H; destruct H
  | H : orb _ _ = false |- _ => apply orb_false_elim in H; destruct H
  | H : negb _ = true |- _ => apply negb_true_iff in H
  | H : negb _ = false |- _ => apply negb_false_iff in H
  | H : (_ <? _) = true |- _ => apply Z.ltb_lt in H
  | H : (_ <? _) = false |- _ => apply Z.ltb_ge in H
  | H : (_ <=? _) = true |- _ => apply Z.leb_le in H
  | H : (_ <=? _) = false |- _ => apply Z.leb_gt in H
  | H : (_ =? _) = true |- _ => apply Z.eqb_eq in H
  | H : (_ =? _) = false |- _ => apply Z.eqb_neq in H
  | H : bool_decide _ = true |- _ => apply bool_decide_eq_true in H
  | H : bool_decide _ = false |- _ => apply bool_decide_eq_false in H
  end.

Ltac simp_if :=
  match goal with
  | H : context [if ?b then _ else _] |- _ =>
      let E := fresh "E" in destruct b eqn:E; try discriminate H
  | |- context [if ?b then _ else _] => let E := fresh "E" in destruct b eqn:E
  end.

Ltac simp_result :=
  repeat match goal with
  | H : Ok _ = Ok _ |- _ => injection H as H
  | H : Ok _ = Throw _ |- _ => discriminate H
  | H : Throw _ = Ok _ |- _ => discriminate H
  | H : rbind _ _ = Ok _ |- _ =>
      let a := fresh "a" in let Ha := fresh "Ha" in
      apply rbind_Ok in H; destruct H as (a & Ha & H)
  end.

Ltac crush :=
  repeat (simp_if; bool_facts; simp_result); bool_facts; simplify_eq/=; try lia; try done.

(** ** Field update

    [r <| f := x |>] is [r] with its field [f] replaced, the assignment
    [this.f = x] on a record of state.  A record joins by an instance of
    [Eta], its constructor applied to its own fields; [build_update] puts the
    new value in place of the field. *)
Class Eta (R : Type) := eta : R -> R.
Class Update {R T : Type} (field : R -> T) := { update : T -> R -> R }.
Arguments update {R T} field {_} x r : assert.

Ltac build_update :=
  lazymatch goal with
  | |- @Update ?R ?T ?field =>
      exact (@Build_Update R T field (fun (x : T) (r : R) =>
        ltac:(let e := eval unfold eta in (@eta R _ r) in
              let e := eval hnf in e in
              lazymatch eval pattern (field r) in e with
              | ?f _ => let y := eval cbv beta in (f x) in exact y
              end)))
  end.

#[export] Hint Extern 1 (Update _) => build_update : typeclass_instances.

Notation "r <| f := x |>" := (update f x r)
  (at level 1, f at level 200, x at level 200, left associativity) : onlytwo_scope.

(** ** Transition sequences

    The reflexive and transitive closure of a labelled step function or
    relation, used for every protocol run below. *)
Section Star.
Context {S : Type} (step : S -> S -> Prop).

Inductive star : S -> S -> Prop :=
| star_refl s : star s s
| star_step s1 s2 s3 : step s1 s2 -> star s2 s3 -> star s1 s3.

Lemma star_invariant (I : S -> Prop) :
  (forall s s', I s -> step s s' -> I s') ->
  forall s s', star s s' -> I s -> I s'.
Proof. intros Hstep s s' Hs. induction Hs; eauto. Qed.

Lemma star_trans s1 s2 s3 : star s1 s2 -> star s2 s3 -> star s1 s3.
Proof. intros H. induction H; eauto using star_step. Qed.

Lemma star_one s1 s2 : step s1 s2 -> star s1 s2.
Proof. eauto using star_step, star_refl. Qed.
End Star.

#[export] Hint Constructors star : onlytwo.

(** ** Arithmetic of JavaScript numbers used as integers *)

Definition MAX_SAFE_INTEGER : Z := 2 ^ 53 - 1.

Definition isSafeInteger (n : Z) : bool :=
  (- MAX_SAFE_INTEGER <=? n) && (n <=? MAX_SAFE_INTEGER).

(** [Math.ceil(a / b)] on integers whose quotient is exact enough to be
    rounded up: for [0 <= a < 2^53] and [0 < b] the double quotient of two
    integers is above an integer exactly when the real one is. *)
Definition ceil_div (a b : Z) : Z := - ((- a) / b).

Lemma ceil_div_spec a b :
  0 < b -> b * (ceil_div a b - 1) < a <= b * ceil_div a b.
Proof.
  intros Hb. unfold ceil_div.
  pose proof (Z.div_mod (- a) b ltac:(lia)).
  pose proof (Z.mod_pos_bound (- a) b Hb). nia.
Qed.

Lemma ceil_div_pos a b : 0 < a -> 0 < b -> 0 < ceil_div a b.
Proof. intros Ha Hb. pose proof (ceil_div_spec a b Hb). nia. Qed.

Lemma ceil_div_unique a b q :
  0 < b -> b * (q - 1) < a <= b * q -> ceil_div a b = q.
Proof. intros Hb Hq. pose proof (ceil_div_spec a b Hb). nia. Qed.

(** ** Lists *)

Definition zlength {A} (l : list A) : Z := Z.of_nat (length l).

Definition sum_by {A} (f : A -> Z) (l : list A) : Z := foldr (fun x n => f x + n) 0 l.

Lemma zlength_nonneg {A} (l : list A) : 0 <= zlength l.
Proof. unfold zlength; lia. Qed.

Lemma zlength_app {A} (l k : list A) : zlength (l ++ k) = zlength l + zlength k.
Proof. unfold zlength. rewrite length_app. lia. Qed.

Lemma zlength_cons {A} x (l : list A) : zlength (x :: l) = 1 + zlength l.
Proof. unfold zlength; simpl; lia. Qed.

Lemma zlength_nil {A} : zlength (@nil A) = 0.
Proof. done. Qed.

Lemma zlength_zero {A} (l : list A) : zlength l = 0 -> l = [].
Proof. destruct l; [done|]. rewrite zlength_cons. pose proof (zlength_nonneg l). lia. Qed.

Lemma sum_by_app {A} (f : A -> Z) l k : sum_by f (l ++ k) = sum_by f l + sum_by f k.
Proof. induction l; simpl; lia. Qed.

Lemma sum_by_cons {A} (f : A -> Z) x l : sum_by f (x :: l) = f x + sum_by f l.
Proof. done. Qed.

Lemma sum_by_nonneg {A} (f : A -> Z) l : (forall x, 0 <= f x) -> 0 <= sum_by f l.
Proof. intros Hf. induction l as [|a l IH]; simpl; [lia|]. specialize (Hf a); lia. Qed.

Lemma filter_all {A} (P : A -> Prop) `{!forall x, Decision (P x)} l :
  Forall P l -> filter P l = l.
Proof.
  induction 1 as [|x l Hx _ IH]; [done|]. rewrite filter_cons_True by done. by rewrite IH.
Qed.

Lemma filter_none {A} (P : A -> Prop) `{!forall x, Decision (P x)} l :
  Forall (fun x => ~ P x) l -> filter P l = [].
Proof. induction 1 as [|x l Hx _ IH]; [done|]. by rewrite filter_cons_False. Qed.

(** Dropping from a list without repetition all but its first elements. *)
Lemma filter_drop_take {A} `{EqDecision A} n (l : list A) :
  NoDup l -> filter (fun x => x ∉ drop n l) l = take n l.
Proof.
  intros Hnd. rewrite <- (take_drop n l) in Hnd. apply NoDup_app in Hnd as (_ & Hd & _).
  transitivity (filter (fun x => x ∉ drop n l) (take n l ++ drop n l)); [by rewrite take_drop|].
  rewrite filter_app, filter_all by (apply Forall_forall; intros x Hx Hx'; by apply (Hd x)).
  rewrite filter_none by (apply Forall_forall; intros x Hx Hn; done). apply app_nil_r.
Qed.

(** Distinct indices below [n], [n] of them: all of them. *)
Lemma NoDup_full_range (l : list Z) n :
  0 <= n -> NoDup l -> (forall i, i ∈ l -> 0 <= i < n) -> n <= zlength l ->
  forall i, 0 <= i < n -> i ∈ l.
Proof.
  intros Hn Hnd Hr Hlen i Hi.
  assert (l ≡ₚ seqZ 0 n) as Hp.
  { apply submseteq_length_Permutation.
    - apply NoDup_submseteq; [done|]. intros k Hk. apply elem_of_seqZ. apply Hr in Hk. lia.
    - rewrite length_seqZ. unfold zlength in Hlen. lia. }
  rewrite Hp. apply elem_of_seqZ. lia.
Qed.

Lemma NoDup_range_le (l : list Z) n :
  0 <= n -> NoDup l -> (forall i, i ∈ l -> 0 <= i < n) -> zlength l <= n.
Proof.
  intros Hn Hnd Hr. assert (l ⊆+ seqZ 0 n) as Hsub.
  { apply NoDup_submseteq; [done|]. intros k Hk. apply elem_of_seqZ. apply Hr in Hk. lia. }
  apply submseteq_length in Hsub. rewrite length_seqZ in Hsub. unfold zlength. lia.
Qed.

#[export] Hint Rewrite @zlength_app @zlength_cons @zlength_nil @sum_by_app @sum_by_cons : onlytwo.

#[export] Hint Resolve zlength_nonneg : onlytwo.
