(* ===== verification/JsMap.v ===== *)
(** * JavaScript [Map] and [Set]

    A [Map] iterates in insertion order; [set] on a present key keeps the
    position of the key and replaces the value, [delete] forgets the
    position.  The order is observable in the sources (oldest skipped
    message key first, queued transfers, retransmission order), so a [Map]
    is the list of its entries in iteration order, and a [Set] the list of
    its members. *)
From S2P Require Import Prelude.

Abbreviation jsmap K V := (list (K * V)).

Section JsMap.
Context {K V : Type} `{EqDecision K}.
Implicit Types (m : jsmap K V) (k : K) (v : V).

Fixpoint map_get (k : K) (m : jsmap K V) : option V :=
  match m with
  | [] => None
  | (k', v) :: m' => if decide (k = k') then Some v else map_get k m'
  end.

Definition map_has (k : K) (m : jsmap K V) : bool :=
  match map_get k m with Some _ => true | None => false end.

Fixpoint map_set (k : K) (v : V) (m : jsmap K V) : jsmap K V :=
  match m with
  | [] => [(k, v)]
  | (k', v') :: m' =>
      if decide (k = k') then (k, v) :: m' else (k', v') :: map_set k v m'
  end.

Definition map_delete (k : K) (m : jsmap K V) : jsmap K V :=
  filter (fun p => p.1 <> k) m.

Definition map_keys (m : jsmap K V) : list K := m.*1.
Definition map_values (m : jsmap K V) : list V := m.*2.

(** The representation invariant: a key occurs once. *)
Definition map_ok (m : jsmap K V) : Prop := NoDup (map_keys m).

Lemma map_get_set k k' v m :
  map_get k' (map_set k v m) = if decide (k' = k) then Some v else map_get k' m.
Proof.
  induction m as [|[k0 v0] m IH]; simpl; repeat case_decide; simpl;
    repeat case_decide; naive_solver.
Qed.

Lemma map_get_set_eq k v m : map_get k (map_set k v m) = Some v.
Proof. rewrite map_get_set. by case_decide. Qed.

Lemma map_get_set_ne k k' v m : k' <> k -> map_get k' (map_set k v m) = map_get k' m.
Proof. intros. rewrite map_get_set. by case_decide. Qed.

Lemma map_get_delete k k' m :
  map_get k' (map_delete k m) = if decide (k' = k) then None else map_get k' m.
Proof.
  unfold map_delete.
  induction m as [|[k0 v0] m IH]; simpl; [by case_decide|].
  destruct (decide (k0 = k)) as [->|Hne].
  - rewrite filter_cons_False by naive_solver.
    rewrite IH. repeat case_decide; naive_solver.
  - rewrite filter_cons_True by done. simpl.
    rewrite IH. repeat case_decide; naive_solver.
Qed.

Lemma map_get_None k m : map_get k m = None <-> k ∉ map_keys m.
Proof.
  unfold map_keys. induction m as [|[k0 v0] m IH]; simpl.
  - split; [intros _; apply not_elem_of_nil | done].
  - rewrite not_elem_of_cons. case_decide; naive_solver.
Qed.

Lemma map_get_is_Some k m : is_Some (map_get k m) <-> k ∈ map_keys m.
Proof.
  rewrite <- not_eq_None_Some, map_get_None.
  destruct (decide (k ∈ map_keys m)); naive_solver.
Qed.

Lemma map_has_spec k m : map_has k m = true <-> k ∈ map_keys m.
Proof.
  rewrite <- map_get_is_Some. unfold map_has.
  destruct (map_get k m); split; intros Hx; try done; by eexists.
Qed.

Lemma map_keys_set k v m :
  map_keys (map_set k v m) = if map_has k m then map_keys m else map_keys m ++ [k].
Proof.
  unfold map_keys, map_has. induction m as [|[k0 v0] m IH]; csimpl; [done|].
  case_decide; csimpl; [by subst|]. rewrite IH. by destruct (map_get k m).
Qed.

Lemma map_keys_delete k m : map_keys (map_delete k m) = filter (fun x => x <> k) (map_keys m).
Proof.
  unfold map_keys, map_delete. induction m as [|[k0 v0] m IH]; simpl; [done|].
  destruct (decide (k0 = k)).
  - rewrite !filter_cons_False by naive_solver. done.
  - rewrite !filter_cons_True by done. csimpl. by rewrite IH.
Qed.

Lemma map_ok_set k v m : map_ok m -> map_ok (map_set k v m).
Proof.
  unfold map_ok. rewrite map_keys_set. intros Hm.
  destruct (map_has k m) eqn:E; [done|].
  apply NoDup_app. split_and!; [done| |apply NoDup_singleton].
  intros x Hx ->%list_elem_of_singleton. apply map_has_spec in Hx. congruence.
Qed.

Lemma map_ok_delete k m : map_ok m -> map_ok (map_delete k m).
Proof. unfold map_ok. rewrite map_keys_delete. by apply NoDup_filter. Qed.

Lemma map_ok_nil : map_ok [].
Proof. apply NoDup_nil_2. Qed.

Lemma map_get_In k v m : map_get k m = Some v -> (k, v) ∈ m.
Proof.
  induction m as [|[k0 v0] m IH]; simpl; [done|].
  case_decide; intros; simplify_eq; set_solver.
Qed.

Lemma map_In_get k v m : map_ok m -> (k, v) ∈ m -> map_get k m = Some v.
Proof.
  unfold map_ok, map_keys. induction m as [|[k0 v0] m IH]; simpl; [set_solver|].
  rewrite NoDup_cons, elem_of_cons. intros [Hk Hm] [?|Hin]; simplify_eq.
  - by case_decide.
  - case_decide as Hd; [|by apply IH]. subst. exfalso. apply Hk.
    apply list_elem_of_fmap. by exists (k0, v).
Qed.

Lemma map_has_set k k' v m :
  map_has k' (map_set k v m) = bool_decide (k' = k) || map_has k' m.
Proof.
  unfold map_has. rewrite map_get_set.
  case_decide; case_bool_decide; naive_solver.
Qed.

Lemma map_has_delete k k' m :
  map_has k' (map_delete k m) = negb (bool_decide (k' = k)) && map_has k' m.
Proof.
  unfold map_has. rewrite map_get_delete.
  case_decide; case_bool_decide; naive_solver.
Qed.

Lemma elem_of_map_keys_set k k' v m :
  k' ∈ map_keys (map_set k v m) <-> k' = k \/ k' ∈ map_keys m.
Proof. by rewrite <- !map_has_spec, map_has_set, orb_true_iff, bool_decide_eq_true. Qed.

Lemma elem_of_map_keys_delete k k' m :
  k' ∈ map_keys (map_delete k m) <-> k' <> k /\ k' ∈ map_keys m.
Proof. by rewrite map_keys_delete, list_elem_of_filter. Qed.

Lemma map_size_set k v m :
  length (map_set k v m) = if map_has k m then length m else S (length m).
Proof.
  rewrite <- (length_fmap fst). change (_.*1) with (map_keys (map_set k v m)).
  rewrite map_keys_set. unfold map_keys.
  destruct (map_has k m); rewrite ?length_app, length_fmap; simpl; lia.
Qed.

Lemma map_size_delete_le k m : (length (map_delete k m) <= length m)%nat.
Proof. apply length_filter. Qed.

Lemma map_delete_not_in k m : map_get k m = None -> map_delete k m = m.
Proof.
  unfold map_delete. induction m as [|[k0 v0] m IH]; simpl; [done|].
  case_decide; [done|]. intros Hn. rewrite filter_cons_True by naive_solver.
  by rewrite IH.
Qed.

Lemma map_size_delete k m :
  map_ok m -> is_Some (map_get k m) -> S (length (map_delete k m)) = length m.
Proof.
  unfold map_ok, map_keys. induction m as [|[k0 v0] m IH]; simpl; [by intros _ [? ?]|].
  rewrite NoDup_cons. intros [Hk Hm] Hs. unfold map_delete. case_decide as Hd.
  - subst. rewrite filter_cons_False by naive_solver.
    fold (map_delete k0 m). rewrite map_delete_not_in; [done|].
    by apply map_get_None.
  - rewrite filter_cons_True by naive_solver. simpl. f_equal. by apply IH.
Qed.
End JsMap.

#[export] Hint Resolve map_ok_set map_ok_delete map_ok_nil : onlytwo.
#[export] Hint Rewrite @map_get_set_eq : onlytwo.

(** ** [Set]: a [Map] from members to [unit] in the same order *)
Section JsSet.
Context {A : Type} `{EqDecision A}.
Implicit Types (s : list A) (x : A).

Definition set_has (x : A) (s : list A) : bool := bool_decide (x ∈ s).
Definition set_add (x : A) (s : list A) : list A :=
  if set_has x s then s else s ++ [x].

Lemma set_has_spec x s : set_has x s = true <-> x ∈ s.
Proof. apply bool_decide_eq_true. Qed.

Lemma elem_of_set_add x y s : y ∈ set_add x s <-> y = x \/ y ∈ s.
Proof.
  unfold set_add. destruct (set_has x s) eqn:E.
  - apply set_has_spec in E. naive_solver.
  - rewrite elem_of_app, list_elem_of_singleton. naive_solver.
Qed.

Lemma NoDup_set_add x s : NoDup s -> NoDup (set_add x s).
Proof.
  unfold set_add. intros Hs. destruct (set_has x s) eqn:E; [done|].
  apply NoDup_app. split_and!; [done| |apply NoDup_singleton].
  intros y Hy ->%list_elem_of_singleton. apply set_has_spec in Hy. congruence.
Qed.
End JsSet.

#[export] Hint Resolve NoDup_set_add : onlytwo.
