(* ===== verification/Bytes.v ===== *)
(** * Bytes: [client/src/utils/bytes.ts]

    A [Uint8Array] is the list of its elements, integers of [0,256).  The
    file models big-endian [DataView] fields, hexadecimal and base64url
    text, concatenation, and the size formatter, and proves the round trips
    the protocol layers rely on. *)
From S2P Require Import Prelude.

Abbreviation bytes := (list Z).

Definition is_byte (b : Z) : Prop := 0 <= b < 256.
Definition wf_bytes (l : bytes) : Prop := Forall is_byte l.

(** ** [DataView] fields, big-endian

    [be n v] are the [n] bytes [view.setUint(8n)(_, v, false)] writes: the
    value is reduced modulo [2^(8n)]. *)
Fixpoint be (n : nat) (v : Z) : bytes :=
  match n with
  | O => []
  | S n' => (v / 256 ^ Z.of_nat n') mod 256 :: be n' v
  end.

Definition of_be (l : bytes) : Z := foldl (fun acc b => acc * 256 + b) 0 l.

(** [view.getUint(8n)(off, false)]; [None] is the [RangeError]. *)
Definition get_be (n off : nat) (l : bytes) : option Z :=
  if (off + n <=? length l)%nat then Some (of_be (take n (drop off l))) else None.

Lemma length_be n v : length (be n v) = n.
Proof. induction n; simpl; auto. Qed.

Lemma wf_be n v : wf_bytes (be n v).
Proof.
  induction n; simpl; constructor; [|done]. apply Z.mod_pos_bound. lia.
Qed.

Lemma foldl_be_acc l a :
  foldl (fun acc b => acc * 256 + b) a l = a * 256 ^ zlength l + of_be l.
Proof.
  unfold of_be. revert a. induction l as [|b l IH]; intros a; cbn [foldl].
  - rewrite zlength_nil. lia.
  - rewrite (IH (a * 256 + b)), (IH (0 * 256 + b)), zlength_cons, Z.pow_add_r
      by (try apply zlength_nonneg; lia). lia.
Qed.

Lemma of_be_cons b l : of_be (b :: l) = b * 256 ^ zlength l + of_be l.
Proof. unfold of_be at 1. cbn [foldl]. by rewrite foldl_be_acc. Qed.

Lemma of_be_bound l : wf_bytes l -> 0 <= of_be l < 256 ^ zlength l.
Proof.
  induction 1 as [|b l Hb Hl IH]; [done|].
  rewrite of_be_cons, zlength_cons, Z.pow_add_r by (try apply zlength_nonneg; lia).
  unfold is_byte in Hb. nia.
Qed.

Lemma of_be_be n v : of_be (be n v) = v mod 256 ^ Z.of_nat n.
Proof.
  induction n as [|n IH].
  - simpl. by rewrite Z.mod_1_r.
  - cbn [be]. rewrite of_be_cons, IH. unfold zlength. rewrite length_be.
    rewrite Nat2Z.inj_succ, Z.pow_succ_r by lia.
    rewrite (Z.mul_comm 256), Z.rem_mul_r by lia. lia.
Qed.

(** Bytes above the field are dropped: the wrap-around of [setUint]. *)
Lemma be_high k n x y :
  (k <= n)%nat -> be k (x * 256 ^ Z.of_nat n + y) = be k y.
Proof.
  induction k as [|k IH]; intros Hk; [done|]. cbn [be]. rewrite IH by lia. f_equal.
  replace (Z.of_nat n) with (1 + Z.of_nat (n - S k) + Z.of_nat k) by lia.
  rewrite !Z.pow_add_r, Z.mul_assoc by lia.
  rewrite Z.div_add_l by (apply Z.pow_nonzero; lia).
  replace (x * (256 ^ 1 * 256 ^ Z.of_nat (n - S k)))
    with (x * 256 ^ Z.of_nat (n - S k) * 256) by lia.
  rewrite Z.add_comm. by rewrite Z_mod_plus_full.
Qed.

Lemma be_of_be l n : wf_bytes l -> length l = n -> be n (of_be l) = l.
Proof.
  intros Hl <-. induction Hl as [|b l Hb Hl IH]; [done|].
  cbn [length be]. rewrite of_be_cons. pose proof (of_be_bound l Hl) as Hbd.
  unfold zlength in *. f_equal.
  - rewrite Z.div_add_l by lia. rewrite Z.div_small by done.
    rewrite Z.add_0_r. by apply Z.mod_small.
  - by rewrite be_high.
Qed.

(** ** Array operations *)

(** [concatBytes(parts)] copies the parts one after the other. *)
Definition concatBytes (parts : list bytes) : bytes := mjoin parts.

(** ** Hexadecimal *)

Definition hex_digit (n : Z) : Z := if n <? 10 then 48 + n else 87 + n.

Definition bytesToHex (l : bytes) : jstr :=
  mjoin ((fun b => [hex_digit (b / 16); hex_digit (b mod 16)]) <$> l).

(** Lexicographic [<] on JavaScript strings. *)
Fixpoint str_ltb (a b : jstr) : bool :=
  match a, b with
  | _, [] => false
  | [], _ :: _ => true
  | x :: a', y :: b' => (x <? y) || ((x =? y) && str_ltb a' b')
  end.

Lemma hex_digit_lt m n :
  0 <= m < 16 -> 0 <= n < 16 -> (hex_digit m <? hex_digit n) = (m <? n).
Proof. unfold hex_digit. intros. destruct (Z.ltb_spec m n); repeat simp_if; bool_facts; lia. Qed.

Lemma hex_digit_eq m n :
  0 <= m < 16 -> 0 <= n < 16 -> (hex_digit m =? hex_digit n) = (m =? n).
Proof. unfold hex_digit. intros. destruct (Z.eqb_spec m n); repeat simp_if; bool_facts; lia. Qed.

Lemma byte_div_mod_16 b : is_byte b -> 0 <= b / 16 < 16 /\ 0 <= b mod 16 < 16.
Proof.
  intros Hb. unfold is_byte in Hb. split; [|by apply Z.mod_pos_bound].
  split; [apply Z.div_pos; lia|]. apply Z.div_lt_upper_bound; lia.
Qed.

Lemma length_bytesToHex l : length (bytesToHex l) = (2 * length l)%nat.
Proof. unfold bytesToHex. induction l; csimpl; lia. Qed.

Lemma bytesToHex_cons b l :
  bytesToHex (b :: l) = hex_digit (b / 16) :: hex_digit (b mod 16) :: bytesToHex l.
Proof. done. Qed.

Lemma bytesToHex_inj l k :
  wf_bytes l -> wf_bytes k -> bytesToHex l = bytesToHex k -> l = k.
Proof.
  intros Hl. revert k. induction Hl as [|a l Ha Hl IH]; intros [|b k] Hk; try done.
  rewrite !bytesToHex_cons. intros [= H1 H2 H3].
  apply Forall_cons in Hk as [Hb Hk].
  destruct (byte_div_mod_16 a Ha), (byte_div_mod_16 b Hb).
  apply Z.eqb_eq in H1, H2. rewrite hex_digit_eq in H1, H2 by done.
  apply Z.eqb_eq in H1, H2. f_equal; [|by apply IH].
  rewrite (Z.div_mod a 16), (Z.div_mod b 16) by lia. congruence.
Qed.

(** Hexadecimal text sorts like the bytes it renders. *)
Lemma bytesToHex_ltb l k :
  wf_bytes l -> wf_bytes k -> str_ltb (bytesToHex l) (bytesToHex k) = str_ltb l k.
Proof.
  intros Hl. revert k. induction Hl as [|a l Ha Hl IH]; intros [|b k] Hk; try done.
  apply Forall_cons in Hk as [Hb Hk].
  rewrite !bytesToHex_cons. cbn [str_ltb].
  destruct (byte_div_mod_16 a Ha), (byte_div_mod_16 b Hb).
  rewrite !hex_digit_lt, !hex_digit_eq, IH by done.
  pose proof (Z.div_mod a 16 ltac:(lia)). pose proof (Z.div_mod b 16 ltac:(lia)).
  destruct (Z.ltb_spec (a / 16) (b / 16)), (Z.eqb_spec (a / 16) (b / 16)),
    (Z.ltb_spec (a mod 16) (b mod 16)), (Z.eqb_spec (a mod 16) (b mod 16)),
    (Z.ltb_spec a b), (Z.eqb_spec a b); simpl; try done; lia.
Qed.

(** ** Base64

    [btoa] and [atob] are the browser's; [atob] follows the forgiving
    decoder of the WHATWG Infra standard.  A group of three bytes is four
    six-bit values. *)
Fixpoint sextets (l : bytes) : list Z :=
  match l with
  | a :: b :: c :: l' =>
      a / 4 :: (a mod 4) * 16 + b / 16 :: (b mod 16) * 4 + c / 64 :: c mod 64 :: sextets l'
  | [a; b] => [a / 4; (a mod 4) * 16 + b / 16; (b mod 16) * 4]
  | [a] => [a / 4; (a mod 4) * 16]
  | [] => []
  end.

Fixpoint unsextets (l : list Z) : bytes :=
  match l with
  | p :: q :: r :: s :: l' =>
      p * 4 + q / 16 :: (q mod 16) * 16 + r / 4 :: (r mod 4) * 64 + s :: unsextets l'
  | [p; q; r] => [p * 4 + q / 16; (q mod 16) * 16 + r / 4]
  | [p; q] => [p * 4 + q / 16]
  | _ => []
  end.

Definition b64_char (n : Z) : Z :=
  if n <? 26 then 65 + n else if n <? 52 then 71 + n else if n <? 62 then n - 4
  else if n =? 62 then 43 else 47.

Definition b64_val (c : Z) : option Z :=
  if (65 <=? c) && (c <=? 90) then Some (c - 65)
  else if (97 <=? c) && (c <=? 122) then Some (c - 71)
  else if (48 <=? c) && (c <=? 57) then Some (c + 4)
  else if c =? 43 then Some 62 else if c =? 47 then Some 63 else None.

(** The six-bit values of a text; [None] when a character is not base64. *)
Fixpoint b64_vals (s : jstr) : option (list Z) :=
  match s with
  | [] => Some []
  | c :: s' => v ← b64_val c; vs ← b64_vals s'; Some (v :: vs)
  end.

(** Characters [=], [+], [/], [-], [_]. *)
Definition c_eq : Z := 61.
Definition c_plus : Z := 43.
Definition c_slash : Z := 47.
Definition c_minus : Z := 45.
Definition c_under : Z := 95.

Definition btoa (binary : bytes) : jstr :=
  (b64_char <$> sextets binary) ++ replicate ((3 - length binary mod 3) mod 3) c_eq.

Definition is_ascii_space (c : Z) : bool :=
  (c =? 9) || (c =? 10) || (c =? 12) || (c =? 13) || (c =? 32).

Fixpoint strip_trailing_eq (max : nat) (r : jstr) : jstr :=
  match max, r with
  | S n, c :: r' => if c =? c_eq then strip_trailing_eq n r' else r
  | _, _ => r
  end.

Definition atob (data : jstr) : result bytes :=
  let data := filter (fun c => is_ascii_space c = false) data in
  let data := if (length data mod 4 =? 0)%nat
              then reverse (strip_trailing_eq 2 (reverse data)) else data in
  if (length data mod 4 =? 1)%nat then Throw (js "InvalidCharacterError")
  else match b64_vals data with
       | Some vs => Ok (unsextets vs)
       | None => Throw (js "InvalidCharacterError")
       end.

(** [s.replace(/x/g, y)] for one character. *)
Definition replace_char (x y : Z) (s : jstr) : jstr :=
  (fun c => if c =? x then y else c) <$> s.

(** [s.replace(/=+$/g, "")]. *)
Definition strip_eq (s : jstr) : jstr := reverse (strip_trailing_eq (length s) (reverse s)).

(** [String.fromCharCode] over consecutive slices of [chunk] bytes. *)
Fixpoint binary_string (fuel chunk : nat) (l : bytes) : jstr :=
  match fuel, l with
  | S f, _ :: _ => take chunk l ++ binary_string f chunk (drop chunk l)
  | _, _ => []
  end.

Definition bytesToBase64Url (l : bytes) : jstr :=
  strip_eq (replace_char c_slash c_under (replace_char c_plus c_minus
    (btoa (binary_string (length l) (Z.to_nat 0x8000) l)))).

(** [value.padEnd(n, "=")]. *)
Definition pad_end (n : nat) (s : jstr) : jstr := s ++ replicate (n - length s) c_eq.

Definition base64UrlToBytes (value : jstr) : result bytes :=
  let normalized := replace_char c_under c_slash (replace_char c_minus c_plus value) in
  atob (pad_end ((length normalized + 3) / 4 * 4) normalized).

(** *** Round trip *)

Lemma list_ind3 {A} (P : list A -> Prop) :
  P [] -> (forall a, P [a]) -> (forall a b, P [a; b]) ->
  (forall a b c l, P l -> P (a :: b :: c :: l)) -> forall l, P l.
Proof.
  intros H0 H1 H2 H3. fix IH 1.
  intros [|a [|b [|c l]]]; [apply H0|apply H1|apply H2|apply H3, IH].
Qed.

Ltac byte_arith :=
  repeat match goal with
  | H : is_byte _ |- _ => unfold is_byte in H
  | H : wf_bytes (_ :: _) |- _ => apply Forall_cons in H as [? H]
  | H : Forall is_byte (_ :: _) |- _ => apply Forall_cons in H as [? H]
  end; Z.to_euclidean_division_equations; lia.

Lemma sextets_range l : wf_bytes l -> Forall (fun n => 0 <= n < 64) (sextets l).
Proof.
  induction l as [|a|a b|a b c l IH] using list_ind3; intros Hl; simpl; repeat (constructor; [byte_arith|]);
    try constructor.
  apply IH. by do 3 apply Forall_cons in Hl as [_ Hl].
Qed.

Lemma unsextets_sextets l : wf_bytes l -> unsextets (sextets l) = l.
Proof.
  induction l as [|a|a b|a b c l IH] using list_ind3; intros Hl; simpl; [done| | |].
  - f_equal. byte_arith.
  - f_equal; [byte_arith|f_equal; byte_arith].
  - f_equal; [byte_arith|f_equal; [byte_arith|f_equal; [byte_arith|]]].
    apply IH. by do 3 apply Forall_cons in Hl as [_ Hl].
Qed.

(** A text of [n] bytes has a multiple of four characters plus 0, 2 or 3. *)
Lemma length_sextets l :
  (length l mod 3 = 0 /\ length (sextets l) mod 4 = 0 \/
   length l mod 3 = 1 /\ length (sextets l) mod 4 = 2 \/
   length l mod 3 = 2 /\ length (sextets l) mod 4 = 3)%nat.
Proof.
  induction l as [|a|a b|a b c l IH] using list_ind3; [cbn; tauto..|]. cbn [length sextets].
  revert IH. generalize (length (sextets l)) (length l). intros m n.
  replace (S (S (S n))) with (n + 1 * 3)%nat by lia.
  replace (S (S (S (S m)))) with (m + 1 * 4)%nat by lia.
  by rewrite !Nat.Div0.mod_add.
Qed.

Lemma binary_string_id fuel chunk l :
  (0 < chunk)%nat -> (length l <= fuel)%nat -> binary_string fuel chunk l = l.
Proof.
  intros Hc. revert l. induction fuel as [|f IH]; intros [|b l] Hl; simpl in *; try done; [lia|].
  rewrite IH by (destruct chunk; [lia|]; simpl; rewrite length_drop; lia).
  apply take_drop.
Qed.

Lemma b64_val_char n : 0 <= n < 64 -> b64_val (b64_char n) = Some n.
Proof. unfold b64_char, b64_val. intros. repeat simp_if; bool_facts; f_equal; try lia; crush. Qed.

(** The characters [btoa] produces for data. *)
Definition is_b64 (c : Z) : Prop := exists n, 0 <= n < 64 /\ c = b64_char n.

Lemma is_b64_plain c :
  is_b64 c -> c <> c_eq /\ c <> c_minus /\ c <> c_under /\ is_ascii_space c = false.
Proof.
  intros (n & Hn & ->). unfold b64_char, is_ascii_space, c_eq, c_minus, c_under.
  repeat simp_if; bool_facts; split_and!; try lia;
    repeat (apply orb_false_intro); apply Z.eqb_neq; lia.
Qed.

Lemma b64_chars l : wf_bytes l -> Forall is_b64 (b64_char <$> sextets l).
Proof.
  intros Hl%sextets_range. apply Forall_fmap. eapply Forall_impl; [done|].
  intros n Hn. by exists n.
Qed.

Lemma b64_vals_chars vs :
  Forall (fun n => 0 <= n < 64) vs -> b64_vals (b64_char <$> vs) = Some vs.
Proof.
  induction 1 as [|n vs Hn _ IH]; [done|].
  csimpl. by rewrite b64_val_char, IH.
Qed.

Lemma strip_trailing_eq_replicate n k r :
  (k <= n)%nat -> strip_trailing_eq n (replicate k c_eq ++ r) = strip_trailing_eq (n - k) r.
Proof. revert n. induction k as [|k IH]; intros [|n] Hn; simpl; try done; [lia|]. apply IH. lia. Qed.

Lemma strip_trailing_eq_stop n cs :
  Forall (fun c => c <> c_eq) cs -> strip_trailing_eq n cs = cs.
Proof.
  intros H. destruct n, cs as [|c cs]; try done. simpl.
  apply Forall_cons in H as [Hc _]. by apply Z.eqb_neq in Hc as ->.
Qed.

Lemma strip_suffix n k cs :
  Forall (fun c => c <> c_eq) cs -> (k <= n)%nat ->
  reverse (strip_trailing_eq n (reverse (cs ++ replicate k c_eq))) = cs.
Proof.
  intros Hcs Hk. rewrite reverse_app, reverse_replicate, strip_trailing_eq_replicate by done.
  rewrite strip_trailing_eq_stop by by apply Forall_reverse. apply reverse_involutive.
Qed.

Lemma replace_char_fresh x y s : Forall (fun c => c <> x) s -> replace_char x y s = s.
Proof.
  unfold replace_char. induction 1 as [|c s Hc _ IH]; csimpl; [done|].
  apply Z.eqb_neq in Hc as ->. by rewrite IH.
Qed.

(** The URL-safe substitutions of the encoder are undone by the decoder. *)
Lemma replace_char_url s :
  Forall is_b64 s ->
  replace_char c_under c_slash (replace_char c_minus c_plus
    (replace_char c_slash c_under (replace_char c_plus c_minus s))) = s.
Proof.
  unfold replace_char. induction 1 as [|c s Hc _ IH]; csimpl; [done|]. rewrite IH. f_equal.
  apply is_b64_plain in Hc. unfold c_under, c_slash, c_minus, c_plus in *.
  repeat (simp_if; bool_facts); lia.
Qed.

Lemma replace_char_keeps z x y s :
  Forall (fun c => c <> z) s -> y <> z -> Forall (fun c => c <> z) (replace_char x y s).
Proof.
  intros Hs Hy. unfold replace_char. apply Forall_fmap.
  eapply Forall_impl; [done|]. intros c Hc. simpl. by destruct (c =? x).
Qed.

Lemma replace_char_app x y s t :
  replace_char x y (s ++ t) = replace_char x y s ++ replace_char x y t.
Proof. apply fmap_app. Qed.

(** [atob] on an unpadded text that was padded back to four characters. *)
Lemma atob_padded vs :
  Forall (fun n => 0 <= n < 64) vs -> (length vs mod 4 <> 1)%nat ->
  atob (pad_end ((length vs + 3) / 4 * 4) (b64_char <$> vs)) = Ok (unsextets vs).
Proof.
  intros Hvs Hlen. set (cs := b64_char <$> vs).
  assert (Hcs : Forall is_b64 cs).
  { apply Forall_fmap. eapply Forall_impl; [done|]. intros n Hn. by exists n. }
  assert (Hl : length cs = length vs) by apply length_fmap.
  unfold pad_end. rewrite Hl. set (k := ((length vs + 3) / 4 * 4 - length vs)%nat).
  assert (Hk : (k <= 2 /\ (length vs + k) mod 4 = 0)%nat).
  { subst k. clear -Hlen. zify. Z.to_euclidean_division_equations. lia. }
  unfold atob.
  rewrite filter_all.
  2:{ apply Forall_app. split.
      - eapply Forall_impl; [exact Hcs|]. intros c Hc. by apply is_b64_plain.
      - by apply Forall_replicate. }
  rewrite length_app, length_replicate, Hl. destruct Hk as [Hk ->]. cbn [Nat.eqb].
  rewrite strip_suffix; [|eapply Forall_impl; [exact Hcs|]; intros c Hc; by apply is_b64_plain|done].
  rewrite Hl. destruct (Nat.eqb_spec (length vs mod 4) 1); [done|].
  unfold cs. by rewrite b64_vals_chars.
Qed.

(** The text without its padding. *)
Lemma base64Url_text l :
  wf_bytes l ->
  bytesToBase64Url l = replace_char c_slash c_under (replace_char c_plus c_minus (b64_char <$> sextets l)).
Proof.
  intros Hl. pose proof (b64_chars l Hl) as Hcs.
  unfold bytesToBase64Url, btoa. rewrite binary_string_id by lia.
  rewrite !replace_char_app, (replace_char_fresh _ _ (replace_char _ _ (replicate _ _))).
  2:{ apply replace_char_keeps; [|done]. by apply Forall_replicate. }
  rewrite (replace_char_fresh _ _ (replicate _ _)) by by apply Forall_replicate.
  unfold strip_eq. apply strip_suffix.
  - do 2 (apply replace_char_keeps; [|done]). eapply Forall_impl; [exact Hcs|]. intros c Hc. by apply is_b64_plain.
  - rewrite length_app, length_replicate. lia.
Qed.

Lemma base64Url_roundtrip l :
  wf_bytes l -> base64UrlToBytes (bytesToBase64Url l) = Ok l.
Proof.
  intros Hl. pose proof (b64_chars l Hl) as Hcs.
  pose proof (sextets_range l Hl) as Hr. pose proof (length_sextets l) as Hlen.
  rewrite base64Url_text by done. unfold base64UrlToBytes.
  set (cs := b64_char <$> sextets l) in *.
  rewrite replace_char_url by done. unfold cs at 1. rewrite length_fmap. unfold cs. rewrite atob_padded; [|done|lia].
  by rewrite unsextets_sextets.
Qed.

Lemma length_base64Url l : wf_bytes l -> length (bytesToBase64Url l) = length (sextets l).
Proof. intros Hl. rewrite base64Url_text by done. unfold replace_char. by rewrite !length_fmap. Qed.

Lemma sextets_bound l : (4 * length l <= 3 * length (sextets l) <= 4 * length l + 2)%nat.
Proof. induction l as [| | |a b c l IH] using list_ind3; cbn [sextets length]; lia. Qed.

Lemma base64Url_ascii l : wf_bytes l -> Forall (fun c => 0 <= c < 128) (bytesToBase64Url l).
Proof.
  intros Hl. rewrite base64Url_text by done. unfold replace_char. apply Forall_fmap, Forall_fmap.
  eapply Forall_impl; [by apply b64_chars|]. intros c (n & Hn & ->). cbn.
  unfold b64_char, c_slash, c_plus, c_under, c_minus. repeat (simp_if; bool_facts); lia.
Qed.

(** ** [formatBytes]

    Dividing by 1024 is exact on doubles, so [value] is the rational
    [bytes / 1024^unit]; [toFixed] picks the nearest decimal, the larger one
    on a tie.  The argument is a finite integer, so the
    [Number.isFinite] guard only leaves the sign test. *)
Fixpoint format_unit (fuel : nat) (b unit : Z) : Z :=
  match fuel with
  | O => unit
  | S f => if (1024 ^ (unit + 1) <=? b) && (unit <? 3) then format_unit f b (unit + 1) else unit
  end.

Definition toFixed (num den p : Z) : jstr :=
  let n := (2 * num * 10 ^ p + den) / (2 * den) in
  let frac := js_int (n mod 10 ^ p) in
  js_int (n / 10 ^ p) ++
  (if p =? 0 then [] else js "." ++ replicate (Z.to_nat p - length frac) 48 ++ frac).

Definition format_units : list jstr := [js "B"; js "KB"; js "MB"; js "GB"].

Definition formatBytes (b : Z) : jstr :=
  if b <? 0 then js "0 B"
  else
    let unit := format_unit 3 b 0 in
    let den := 1024 ^ unit in
    let precision := if unit =? 0 then 0 else if 10 * den <=? b then 1 else 2 in
    toFixed b den precision ++ js " " ++ nth (Z.to_nat unit) format_units [].

Example formatBytes_small : formatBytes 1000 = js "1000 B".
Proof. reflexivity. Qed.
Example formatBytes_mb : formatBytes 52428800 = js "50.0 MB".
Proof. reflexivity. Qed.
Example formatBytes_kb : formatBytes 1536 = js "1.50 KB".
Proof. reflexivity. Qed.
