(* ===== verification/Utf8.v ===== *)
(** * Text encoding: [utf8Encode] and [utf8Decode] of
      [client/src/utils/bytes.ts]

    [TextEncoder] replaces an unpaired surrogate by U+FFFD; [TextDecoder]
    with [fatal: true] throws on any ill-formed sequence and drops one
    leading byte order mark. *)
From S2P Require Import Prelude Bytes.

Definition is_unit (u : Z) : Prop := 0 <= u < 0x10000.
Definition is_high (u : Z) : bool := (0xD800 <=? u) && (u <=? 0xDBFF).
Definition is_low (u : Z) : bool := (0xDC00 <=? u) && (u <=? 0xDFFF).

(** The bytes of a Unicode scalar value. *)
Definition utf8_scalar (c : Z) : bytes :=
  if c <? 0x80 then [c]
  else if c <? 0x800 then [0xC0 + c / 64; 0x80 + c mod 64]
  else if c <? 0x10000 then [0xE0 + c / 4096; 0x80 + c / 64 mod 64; 0x80 + c mod 64]
  else [0xF0 + c / 262144; 0x80 + c / 4096 mod 64; 0x80 + c / 64 mod 64; 0x80 + c mod 64].

Definition surrogate_pair (h l : Z) : Z := 0x10000 + (h - 0xD800) * 1024 + (l - 0xDC00).

Fixpoint utf8Encode (s : jstr) : bytes :=
  match s with
  | [] => []
  | u :: s' =>
      if is_high u then
        match s' with
        | v :: s'' => if is_low v then utf8_scalar (surrogate_pair u v) ++ utf8Encode s''
                      else utf8_scalar 0xFFFD ++ utf8Encode s'
        | [] => utf8_scalar 0xFFFD
        end
      else if is_low u then utf8_scalar 0xFFFD ++ utf8Encode s'
      else utf8_scalar u ++ utf8Encode s'
  end.

(** UTF-16 code units of a scalar value. *)
Definition utf16_scalar (c : Z) : jstr :=
  if c <? 0x10000 then [c]
  else [0xD800 + (c - 0x10000) / 1024; 0xDC00 + (c - 0x10000) mod 1024].

Definition in_range (lo hi b : Z) : bool := (lo <=? b) && (b <=? hi).
Definition is_cont (b : Z) : bool := in_range 0x80 0xBF b.

Definition utf8_error : jstr := js "The encoded data was not valid.".

(** One step per scalar value, with the ranges of the WHATWG decoder for the
    second byte, so that overlong forms and encoded surrogates are errors. *)
Fixpoint utf8_decode_loop (l : bytes) : result jstr :=
  match l with
  | [] => Ok []
  | b0 :: l1 =>
      if b0 <? 0x80 then let! r := utf8_decode_loop l1 in Ok (b0 :: r)
      else if in_range 0xC2 0xDF b0 then
        match l1 with
        | b1 :: l2 =>
            if is_cont b1 then
              let! r := utf8_decode_loop l2 in
              Ok (utf16_scalar ((b0 - 0xC0) * 64 + (b1 - 0x80)) ++ r)
            else Throw utf8_error
        | _ => Throw utf8_error
        end
      else if in_range 0xE0 0xEF b0 then
        match l1 with
        | b1 :: b2 :: l3 =>
            if in_range (if b0 =? 0xE0 then 0xA0 else 0x80) (if b0 =? 0xED then 0x9F else 0xBF) b1
               && is_cont b2 then
              let! r := utf8_decode_loop l3 in
              Ok (utf16_scalar ((b0 - 0xE0) * 4096 + (b1 - 0x80) * 64 + (b2 - 0x80)) ++ r)
            else Throw utf8_error
        | _ => Throw utf8_error
        end
      else if in_range 0xF0 0xF4 b0 then
        match l1 with
        | b1 :: b2 :: b3 :: l4 =>
            if in_range (if b0 =? 0xF0 then 0x90 else 0x80) (if b0 =? 0xF4 then 0x8F else 0xBF) b1
               && is_cont b2 && is_cont b3 then
              let! r := utf8_decode_loop l4 in
              Ok (utf16_scalar ((b0 - 0xF0) * 262144 + (b1 - 0x80) * 4096 +
                                (b2 - 0x80) * 64 + (b3 - 0x80)) ++ r)
            else Throw utf8_error
        | _ => Throw utf8_error
        end
      else Throw utf8_error
  end.

Definition utf8Decode (value : bytes) : result jstr :=
  match value with
  | 0xEF :: 0xBB :: 0xBF :: rest => utf8_decode_loop rest
  | _ => utf8_decode_loop value
  end.

(** A string without unpaired surrogates. *)
Fixpoint well_formed (s : jstr) : bool :=
  match s with
  | [] => true
  | u :: s' =>
      if is_high u then
        match s' with v :: s'' => is_low v && well_formed s'' | [] => false end
      else negb (is_low u) && well_formed s'
  end.

Definition starts_with_bom (s : jstr) : bool :=
  match s with u :: _ => u =? 0xFEFF | [] => false end.

(** ** Round trip *)

Definition is_scalar (c : Z) : Prop := 0 <= c < 0xD800 \/ 0xDFFF < c < 0x110000.

Ltac div_lia := Z.to_euclidean_division_equations; lia.

Lemma in_range_true lo hi b : lo <= b <= hi -> in_range lo hi b = true.
Proof. intros. apply andb_true_intro. split; apply Z.leb_le; lia. Qed.

Lemma in_range_false lo hi b : b < lo \/ hi < b -> in_range lo hi b = false.
Proof. unfold in_range. intros. apply andb_false_iff. rewrite !Z.leb_gt. lia. Qed.

Lemma decode_scalar2 c rest :
  0x80 <= c < 0x800 ->
  utf8_decode_loop ([0xC0 + c / 64; 0x80 + c mod 64] ++ rest) =
  let! r := utf8_decode_loop rest in Ok (c :: r).
Proof.
  intros Hc. assert (H1 : 2 <= c / 64 < 32) by div_lia. assert (H2 : 0 <= c mod 64 < 64) by div_lia.
  cbn [app utf8_decode_loop]. rewrite (proj2 (Z.ltb_ge _ _)) by lia.
  rewrite in_range_true by lia. unfold is_cont. rewrite in_range_true by lia.
  replace ((_ - 0xC0) * 64 + _) with c by (pose proof (Z.div_mod c 64); lia).
  unfold utf16_scalar. by rewrite (proj2 (Z.ltb_lt _ _)) by lia.
Qed.

Lemma decode_scalar3 c rest :
  0x800 <= c < 0x10000 -> is_scalar c ->
  utf8_decode_loop ([0xE0 + c / 4096; 0x80 + c / 64 mod 64; 0x80 + c mod 64] ++ rest) =
  let! r := utf8_decode_loop rest in Ok (c :: r).
Proof.
  unfold is_scalar. intros Hc Hs.
  assert (H1 : 0 <= c / 4096 < 16) by div_lia. assert (H2 : 0 <= c mod 64 < 64) by div_lia.
  assert (H3 : 0 <= c / 64 mod 64 < 64) by div_lia.
  assert (Hsum : c = c / 4096 * 4096 + c / 64 mod 64 * 64 + c mod 64) by div_lia.
  cbn [app utf8_decode_loop]. rewrite (proj2 (Z.ltb_ge _ _)) by lia.
  rewrite in_range_false by lia. rewrite in_range_true by lia. unfold is_cont.
  rewrite (in_range_true 0x80 0xBF) by lia. rewrite in_range_true.
  2:{ destruct (Z.eqb_spec (0xE0 + c / 4096) 0xE0), (Z.eqb_spec (0xE0 + c / 4096) 0xED); lia. }
  cbn [andb]. replace ((_ - 0xE0) * 4096 + _ + _) with c by lia.
  unfold utf16_scalar. by rewrite (proj2 (Z.ltb_lt _ _)) by lia.
Qed.

Lemma decode_scalar4 c rest :
  0x10000 <= c < 0x110000 ->
  utf8_decode_loop ([0xF0 + c / 262144; 0x80 + c / 4096 mod 64; 0x80 + c / 64 mod 64;
                     0x80 + c mod 64] ++ rest) =
  let! r := utf8_decode_loop rest in Ok (utf16_scalar c ++ r).
Proof.
  intros Hc. assert (H1 : 0 <= c / 262144 < 5) by div_lia. assert (H2 : 0 <= c mod 64 < 64) by div_lia.
  assert (H3 : 0 <= c / 64 mod 64 < 64) by div_lia. assert (H4 : 0 <= c / 4096 mod 64 < 64) by div_lia.
  assert (Hsum : c = c / 262144 * 262144 + c / 4096 mod 64 * 4096 + c / 64 mod 64 * 64 + c mod 64)
    by div_lia.
  cbn [app utf8_decode_loop]. rewrite (proj2 (Z.ltb_ge _ _)) by lia.
  rewrite !in_range_false by lia. rewrite in_range_true by lia. unfold is_cont.
  rewrite !(in_range_true 0x80 0xBF) by lia. rewrite in_range_true.
  2:{ destruct (Z.eqb_spec (0xF0 + c / 262144) 0xF0), (Z.eqb_spec (0xF0 + c / 262144) 0xF4); lia. }
  cbn [andb]. replace ((_ - 0xF0) * 262144 + _ + _ + _) with c by lia. done.
Qed.

Lemma decode_scalar c rest :
  is_scalar c ->
  utf8_decode_loop (utf8_scalar c ++ rest) =
  let! r := utf8_decode_loop rest in Ok (utf16_scalar c ++ r).
Proof.
  intros Hs. unfold utf8_scalar.
  destruct (Z.ltb_spec c 0x80).
  { cbn [app utf8_decode_loop]. rewrite (proj2 (Z.ltb_lt c 0x80)) by lia. unfold utf16_scalar.
    by rewrite (proj2 (Z.ltb_lt c _)) by lia. }
  assert (Hu : c < 0x10000 -> utf16_scalar c = [c]).
  { intros Hc. unfold utf16_scalar. by rewrite (proj2 (Z.ltb_lt c _)). }
  destruct (Z.ltb_spec c 0x800); [rewrite decode_scalar2, Hu by lia; done|].
  destruct (Z.ltb_spec c 0x10000); [rewrite decode_scalar3, Hu by (lia || done); done|].
  apply decode_scalar4. unfold is_scalar in Hs. lia.
Qed.

Lemma surrogate_pair_scalar h l :
  is_high h = true -> is_low l = true ->
  is_scalar (surrogate_pair h l) /\ utf16_scalar (surrogate_pair h l) = [h; l].
Proof.
  unfold is_high, is_low, surrogate_pair, is_scalar, utf16_scalar. intros Hh Hl. bool_facts.
  split; [lia|]. rewrite (proj2 (Z.ltb_ge _ _)) by lia. f_equal; [div_lia|f_equal; div_lia].
Qed.

Lemma utf8_loop_encode s :
  Forall is_unit s -> well_formed s = true -> utf8_decode_loop (utf8Encode s) = Ok s.
Proof.
  remember (length s) as n eqn:Hn. revert s Hn.
  induction n as [n IH] using lt_wf_ind. intros [|u s] -> Hu Hw; [done|].
  apply Forall_cons in Hu as [Hu Hs]. unfold is_unit in Hu.
  cbn [utf8Encode well_formed] in *. destruct (is_high u) eqn:Eh.
  - destruct s as [|v s]; [done|]. apply andb_prop in Hw as [Hl Hw]. rewrite Hl.
    destruct (surrogate_pair_scalar u v Eh Hl) as [Hsc Hp].
    rewrite decode_scalar, Hp by done. apply Forall_cons in Hs as [_ Hs].
    by rewrite (IH (length s)) by (simpl; lia || done).
  - apply andb_prop in Hw as [Hl Hw]. apply negb_true_iff in Hl. rewrite Hl.
    assert (is_scalar u) as Hsc.
    { unfold is_high, is_low, is_scalar in *. lia. }
    rewrite decode_scalar by done. rewrite (IH (length s)) by (simpl; lia || done).
    simpl. unfold utf16_scalar. by rewrite (proj2 (Z.ltb_lt _ _)) by lia.
Qed.

(** The decoder's check for a byte order mark does not fire on other text. *)
Lemma utf8Decode_no_bom l : take 3 l <> [0xEF; 0xBB; 0xBF] -> utf8Decode l = utf8_decode_loop l.
Proof.
  intros H. unfold utf8Decode.
  repeat match goal with |- context [match ?x with _ => _ end] => is_var x; destruct x; try done end.
Qed.

Lemma utf8Decode_encode s :
  Forall is_unit s -> well_formed s = true -> starts_with_bom s = false ->
  utf8Decode (utf8Encode s) = Ok s.
Proof.
  intros Hu Hw Hb. pose proof (utf8_loop_encode s Hu Hw) as Hl.
  rewrite utf8Decode_no_bom; [done|]. intros Ht.
  rewrite <- (take_drop 3 (utf8Encode s)), Ht in Hl. cbn -[utf8_decode_loop] in Hl.
  change (utf8_decode_loop (0xEF :: 0xBB :: 0xBF :: drop 3 (utf8Encode s)))
    with (let! r := utf8_decode_loop (drop 3 (utf8Encode s)) in Ok (0xFEFF :: r)) in Hl.
  destruct (utf8_decode_loop _) as [r|]; [|done]. injection Hl as <-. done.
Qed.

(** Text survives the UTF-8 round trip when it has no unpaired surrogate
    and does not start with a byte order mark. *)
Theorem utf8_roundtrip s :
  Forall is_unit s -> well_formed s = true -> starts_with_bom s = false ->
  utf8Decode (utf8Encode s) = Ok s.
Proof. apply utf8Decode_encode. Qed.

Lemma utf8_roundtrip_witness :
  utf8Decode (utf8Encode [72; 233; 0x20AC; 0xD83D; 0xDE00]) = Ok [72; 233; 0x20AC; 0xD83D; 0xDE00].
Proof.
  apply utf8_roundtrip; [|reflexivity|reflexivity].
  repeat (apply Forall_cons; split; [unfold is_unit; lia|]). apply Forall_nil. exact I.
Defined.

Lemma utf8_scalar_wf c : 0 <= c < 0x110000 -> wf_bytes (utf8_scalar c).
Proof.
  intros Hc. unfold utf8_scalar, wf_bytes.
  repeat simp_if; bool_facts; repeat (constructor; [unfold is_byte; div_lia|]); constructor.
Qed.

Lemma utf8Encode_wf s : Forall is_unit s -> wf_bytes (utf8Encode s).
Proof.
  remember (length s) as n eqn:Hn. revert s Hn.
  induction n as [n IH] using lt_wf_ind. intros [|u s] -> Hu; [constructor|].
  apply Forall_cons in Hu as [Hu Hs]. cbn [utf8Encode].
  assert (Hrest : wf_bytes (utf8Encode s)) by (apply (IH (length s)); simpl; (done || lia)).
  assert (Hfffd : wf_bytes (utf8_scalar 0xFFFD)) by by apply utf8_scalar_wf.
  destruct (is_high u) eqn:Eh.
  - destruct s as [|v s]; [done|]. apply Forall_cons in Hs as [Hv Hs].
    destruct (is_low v) eqn:El; [|by apply Forall_app].
    apply Forall_app. split; [|apply (IH (length s)); simpl; (done || lia)].
    apply utf8_scalar_wf. unfold is_high, is_low, surrogate_pair in *. lia.
  - destruct (is_low u); apply Forall_app; (split; [|done]); [done|].
    apply utf8_scalar_wf. unfold is_unit in Hu. lia.
Qed.
