(* ===== verification/Profiles.v ===== *)
(** * Transport profiles: [client/src/config/profiles.ts]

    The four canonical profiles, their lane budgets and the lookups on
    them. *)
From S2P Require Import Prelude.

Module Lane.
Inductive LaneName := control | text | file | voice.
End Lane.
Abbreviation LaneName := Lane.LaneName.
Module ProfileId.
Inductive TransportProfileId := balanced | low_data | voice_first | maximum_privacy.
End ProfileId.
Abbreviation TransportProfileId := ProfileId.TransportProfileId.
Inductive VoicePrivacyMode := mode_efficient | mode_maximum_privacy.
Inductive DropPolicy := drop_fail | drop_oldest.

#[export] Instance LaneName_eq_dec : EqDecision LaneName.
Proof. solve_decision. Defined.
#[export] Instance TransportProfileId_eq_dec : EqDecision TransportProfileId.
Proof. solve_decision. Defined.
#[export] Instance VoicePrivacyMode_eq_dec : EqDecision VoicePrivacyMode.
Proof. solve_decision. Defined.
#[export] Instance DropPolicy_eq_dec : EqDecision DropPolicy.
Proof. solve_decision. Defined.

Record LaneBudget := {
  priority : Z;
  maxPackets : Z;
  maxBytes : Z;
  dropPolicy : DropPolicy;
}.

Record Outbox := {
  outbox_maxPackets : Z;
  outbox_maxBytes : Z;
  maxBufferedAmountBytes : Z;
  resumeBufferedAmountBytes : Z;
  drainYieldMs : Z;
}.

Record Reconnect := {
  maxAttempts : Z;
  baseDelayMs : Z;
  maxDelayMs : Z;
  jitterMs : Z;
}.

Record FilePolicy := {
  smallBytes : Z;
  mediumBytes : Z;
  maxFileBytes : Z;
  maxMemoryReceiveBytes : Z;
  chunkBytes : Z;
  windowChunks : Z;
  ackTimeoutMs : Z;
  maxRetries : Z;
}.

Record VoicePolicy := {
  voice_enabled : bool;
  voice_mode : VoicePrivacyMode;
  frameMs : Z;
  jitterTargetMs : Z;
  jitterMaxFrames : Z;
  vadEnabled : bool;
  vadStartDb : Z;
  vadStopDb : Z;
  vadPreRollMs : Z;
  vadHangoverMs : Z;
  vadMinSpeechMs : Z;
  maxQueuedLatencyMs : Z;
}.

Record TransportProfile := {
  profile_id : TransportProfileId;
  protocolVersion : Z;
  maxFrameBytes : Z;
  paddingBuckets : list Z;
  maxSkippedMessageKeys : Z;
  outbox : Outbox;
  lanes : LaneName -> LaneBudget;
  reconnect : Reconnect;
  files : FilePolicy;
  voicePolicy : VoicePolicy;
}.

Definition KB : Z := 1024.
Definition MB : Z := 1024 * KB.

(** A [Partial<LaneBudget>] override; absent fields keep the base value. *)
Record LaneOverride := {
  o_priority : option Z;
  o_maxPackets : option Z;
  o_maxBytes : option Z;
  o_dropPolicy : option DropPolicy;
}.

Definition no_override : LaneOverride :=
  {| o_priority := None; o_maxPackets := None; o_maxBytes := None; o_dropPolicy := None |}.

Definition base_budget (lane : LaneName) : LaneBudget :=
  match lane with
  | Lane.control => {| priority := 100; maxPackets := 128; maxBytes := 2 * MB; dropPolicy := drop_fail |}
  | Lane.voice => {| priority := 80; maxPackets := 12; maxBytes := 768 * KB; dropPolicy := drop_oldest |}
  | Lane.text => {| priority := 60; maxPackets := 256; maxBytes := 4 * MB; dropPolicy := drop_fail |}
  | Lane.file => {| priority := 10; maxPackets := 16; maxBytes := 2 * MB; dropPolicy := drop_fail |}
  end.

Definition cloneLaneBudgets (overrides : LaneName -> LaneOverride) (lane : LaneName) : LaneBudget :=
  let b := base_budget lane in
  let o := overrides lane in
  {| priority := default (priority b) (o_priority o);
     maxPackets := default (maxPackets b) (o_maxPackets o);
     maxBytes := default (maxBytes b) (o_maxBytes o);
     dropPolicy := default (dropPolicy b) (o_dropPolicy o) |}.

Definition COMMON_RECONNECT : Reconnect :=
  {| maxAttempts := 18; baseDelayMs := 450; maxDelayMs := 5000; jitterMs := 350 |}.

(** The [voice] and [file] overrides are the only ones the profiles use. *)
Definition overrides_vf (v f : LaneOverride) (lane : LaneName) : LaneOverride :=
  match lane with Lane.voice => v | Lane.file => f | _ => no_override end.

Definition budget_override (p b : Z) : LaneOverride :=
  {| o_priority := None; o_maxPackets := Some p; o_maxBytes := Some b; o_dropPolicy := None |}.

Definition full_override (pr p b : Z) (d : DropPolicy) : LaneOverride :=
  {| o_priority := Some pr; o_maxPackets := Some p; o_maxBytes := Some b; o_dropPolicy := Some d |}.

Definition profile_balanced : TransportProfile := {|
  profile_id := ProfileId.balanced;
  protocolVersion := 2;
  maxFrameBytes := 256 * KB;
  paddingBuckets := [4 * KB; 16 * KB; 64 * KB; 128 * KB];
  maxSkippedMessageKeys := 512;
  outbox := {| outbox_maxPackets := 384; outbox_maxBytes := 16 * MB;
               maxBufferedAmountBytes := 2 * MB; resumeBufferedAmountBytes := 768 * KB;
               drainYieldMs := 0 |};
  lanes := cloneLaneBudgets (fun _ => no_override);
  reconnect := COMMON_RECONNECT;
  files := {| smallBytes := 10 * MB; mediumBytes := 25 * MB; maxFileBytes := 50 * MB;
              maxMemoryReceiveBytes := 50 * MB; chunkBytes := 32 * KB; windowChunks := 4;
              ackTimeoutMs := 12000; maxRetries := 8 |};
  voicePolicy := {| voice_enabled := true; voice_mode := mode_efficient; frameMs := 40;
                    jitterTargetMs := 120; jitterMaxFrames := 12; vadEnabled := true;
                    vadStartDb := -45; vadStopDb := -52; vadPreRollMs := 120;
                    vadHangoverMs := 250; vadMinSpeechMs := 60; maxQueuedLatencyMs := 400 |};
|}.

Definition profile_low_data : TransportProfile := {|
  profile_id := ProfileId.low_data;
  protocolVersion := 2;
  maxFrameBytes := 128 * KB;
  paddingBuckets := [4 * KB; 16 * KB; 64 * KB];
  maxSkippedMessageKeys := 512;
  outbox := {| outbox_maxPackets := 192; outbox_maxBytes := 8 * MB;
               maxBufferedAmountBytes := 1 * MB; resumeBufferedAmountBytes := 384 * KB;
               drainYieldMs := 0 |};
  lanes := cloneLaneBudgets (overrides_vf (budget_override 8 (384 * KB))
                                          (budget_override 8 (1 * MB)));
  reconnect := {| maxAttempts := 20; baseDelayMs := 600; maxDelayMs := 6000; jitterMs := 450 |};
  files := {| smallBytes := 5 * MB; mediumBytes := 10 * MB; maxFileBytes := 25 * MB;
              maxMemoryReceiveBytes := 25 * MB; chunkBytes := 16 * KB; windowChunks := 2;
              ackTimeoutMs := 16000; maxRetries := 10 |};
  voicePolicy := {| voice_enabled := true; voice_mode := mode_efficient; frameMs := 60;
                    jitterTargetMs := 180; jitterMaxFrames := 10; vadEnabled := true;
                    vadStartDb := -43; vadStopDb := -50; vadPreRollMs := 120;
                    vadHangoverMs := 300; vadMinSpeechMs := 80; maxQueuedLatencyMs := 500 |};
|}.

Definition profile_voice_first : TransportProfile := {|
  profile_id := ProfileId.voice_first;
  protocolVersion := 2;
  maxFrameBytes := 256 * KB;
  paddingBuckets := [4 * KB; 16 * KB; 64 * KB];
  maxSkippedMessageKeys := 512;
  outbox := {| outbox_maxPackets := 256; outbox_maxBytes := 10 * MB;
               maxBufferedAmountBytes := 1536 * KB; resumeBufferedAmountBytes := 512 * KB;
               drainYieldMs := 0 |};
  lanes := cloneLaneBudgets (overrides_vf (full_override 95 10 (640 * KB) drop_oldest)
                                          (full_override 5 8 (1 * MB) drop_fail));
  reconnect := {| maxAttempts := 18; baseDelayMs := 350; maxDelayMs := 4000; jitterMs := 250 |};
  files := {| smallBytes := 5 * MB; mediumBytes := 25 * MB; maxFileBytes := 50 * MB;
              maxMemoryReceiveBytes := 50 * MB; chunkBytes := 24 * KB; windowChunks := 2;
              ackTimeoutMs := 12000; maxRetries := 8 |};
  voicePolicy := {| voice_enabled := true; voice_mode := mode_efficient; frameMs := 30;
                    jitterTargetMs := 100; jitterMaxFrames := 14; vadEnabled := true;
                    vadStartDb := -47; vadStopDb := -54; vadPreRollMs := 120;
                    vadHangoverMs := 220; vadMinSpeechMs := 50; maxQueuedLatencyMs := 250 |};
|}.

Definition profile_maximum_privacy : TransportProfile := {|
  profile_id := ProfileId.maximum_privacy;
  protocolVersion := 2;
  maxFrameBytes := 256 * KB;
  paddingBuckets := [64 * KB; 128 * KB];
  maxSkippedMessageKeys := 512;
  outbox := {| outbox_maxPackets := 192; outbox_maxBytes := 24 * MB;
               maxBufferedAmountBytes := 2 * MB; resumeBufferedAmountBytes := 768 * KB;
               drainYieldMs := 0 |};
  lanes := cloneLaneBudgets (overrides_vf (full_override 85 16 (1 * MB) drop_oldest)
                                          (budget_override 8 (1 * MB)));
  reconnect := {| maxAttempts := 18; baseDelayMs := 500; maxDelayMs := 5000; jitterMs := 400 |};
  files := {| smallBytes := 5 * MB; mediumBytes := 10 * MB; maxFileBytes := 25 * MB;
              maxMemoryReceiveBytes := 25 * MB; chunkBytes := 24 * KB; windowChunks := 2;
              ackTimeoutMs := 16000; maxRetries := 10 |};
  voicePolicy := {| voice_enabled := true; voice_mode := mode_maximum_privacy; frameMs := 60;
                    jitterTargetMs := 180; jitterMaxFrames := 10; vadEnabled := false;
                    vadStartDb := -45; vadStopDb := -52; vadPreRollMs := 0;
                    vadHangoverMs := 0; vadMinSpeechMs := 0; maxQueuedLatencyMs := 500 |};
|}.

Definition PROFILES (i : TransportProfileId) : TransportProfile :=
  match i with
  | ProfileId.balanced => profile_balanced
  | ProfileId.low_data => profile_low_data
  | ProfileId.voice_first => profile_voice_first
  | ProfileId.maximum_privacy => profile_maximum_privacy
  end.

(** [Object.keys(PROFILES)], with the string of every key. *)
Definition profile_key (i : TransportProfileId) : jstr :=
  match i with
  | ProfileId.balanced => js "balanced"
  | ProfileId.low_data => js "low_data"
  | ProfileId.voice_first => js "voice_first"
  | ProfileId.maximum_privacy => js "maximum_privacy"
  end.

Definition PROFILE_IDS : list TransportProfileId :=
  [ProfileId.balanced; ProfileId.low_data; ProfileId.voice_first; ProfileId.maximum_privacy].

(** [isTransportProfileId] as a parser: the own property of that name. *)
Definition parseProfileId (s : jstr) : option TransportProfileId :=
  find (fun i => bool_decide (profile_key i = s)) PROFILE_IDS.

Definition getProfile (i : TransportProfileId) : TransportProfile := PROFILES i.

Lemma parseProfileId_key i : parseProfileId (profile_key i) = Some i.
Proof. by destruct i. Qed.

Lemma parseProfileId_Some s i : parseProfileId s = Some i -> s = profile_key i.
Proof.
  unfold parseProfileId. intros [_ H]%find_some. by apply bool_decide_eq_true in H.
Qed.
