(* ===== verification/Envelope.v ===== *)
(** * Binary envelope: [client/src/protocol/envelope.ts]

    The 38-byte big-endian frame header, its writer [packEnvelope], its
    reader [unpackEnvelope] and the associated data [encodeAad] the
    authenticated cipher binds.  The writers fill a zeroed buffer field by
    field at the offsets of the source. *)
From S2P Require Import Prelude Bytes Profiles.

Definition MAGIC_A : Z := 0x4f.
Definition MAGIC_B : Z := 0x54.
Definition HEADER_BYTES : Z := 38.
Definition AAD_BYTES : Z := 34.
Definition NONCE_BYTES : Z := 12.

Module OuterType.
Definition HANDSHAKE : Z := 1.
Definition DATA : Z := 2.
End OuterType.

Record AadContext := {
  aad_protocolVersion : Z;
  aad_outerType : Z;
  aad_flags : Z;
  aad_streamId : Z;
  aad_sequence : Z;
}.

Record Envelope := {
  env_protocolVersion : Z;
  env_outerType : Z;
  env_flags : Z;
  env_streamId : Z;
  env_sequence : Z;
  env_counter : Z;
  env_nonce : bytes;
  env_payload : bytes;
  env_lane : LaneName;
}.

(** [x >>> 0] and [BigInt.asUintN(64, x)]. *)
Definition to_u32 (x : Z) : Z := x mod 2 ^ 32.
Definition to_u64 (x : Z) : Z := x mod 2 ^ 64.

(** [out.set(bs, off)] or a [DataView] write of [bs] at [off]. *)
Definition put (off : nat) (bs buf : bytes) : bytes :=
  take off buf ++ bs ++ drop (off + length bs) buf.

Definition createAadContext (env : Envelope) (profile : TransportProfile) : AadContext := {|
  aad_protocolVersion := protocolVersion profile;
  aad_outerType := env_outerType env;
  aad_flags := env_flags env;
  aad_streamId := env_streamId env;
  aad_sequence := env_sequence env;
|}.

Definition encodeAad (context : AadContext) (counter : Z) (nonce : bytes) : result bytes :=
  throw_if negb (zlength nonce =? NONCE_BYTES) with js "Invalid nonce length";
  let out := replicate (Z.to_nat AAD_BYTES) 0 in
  let out := put 0 (be 1 MAGIC_A) out in
  let out := put 1 (be 1 MAGIC_B) out in
  let out := put 2 (be 1 (aad_protocolVersion context)) out in
  let out := put 3 (be 1 (aad_outerType context)) out in
  let out := put 4 (be 1 (Z.land (aad_flags context) 0xff)) out in
  let out := put 5 (be 1 HEADER_BYTES) out in
  let out := put 6 (be 4 (to_u32 (aad_streamId context))) out in
  let out := put 10 (be 4 (to_u32 (aad_sequence context))) out in
  let out := put 14 (be 8 (to_u64 counter)) out in
  let out := put 22 nonce out in
  Ok out.

Definition packEnvelope (env : Envelope) (profile : TransportProfile) : result bytes :=
  throw_if negb (zlength (env_nonce env) =? NONCE_BYTES) with js "Invalid nonce length";
  throw_if negb (env_protocolVersion env =? protocolVersion profile)
    with js "Protocol/profile mismatch";
  throw_if negb (env_outerType env =? OuterType.HANDSHAKE)
           && negb (env_outerType env =? OuterType.DATA)
    with js "Invalid envelope type";
  let total := HEADER_BYTES + zlength (env_payload env) in
  throw_if maxFrameBytes profile <? total
    with js "Frame too large: " ++ js_int total ++ js " > " ++ js_int (maxFrameBytes profile);
  let out := replicate (Z.to_nat total) 0 in
  let out := put 0 (be 1 MAGIC_A) out in
  let out := put 1 (be 1 MAGIC_B) out in
  let out := put 2 (be 1 (protocolVersion profile)) out in
  let out := put 3 (be 1 (env_outerType env)) out in
  let out := put 4 (be 1 (Z.land (env_flags env) 0xff)) out in
  let out := put 5 (be 1 HEADER_BYTES) out in
  let out := put 6 (be 4 (to_u32 (env_streamId env))) out in
  let out := put 10 (be 4 (to_u32 (env_sequence env))) out in
  let out := put 14 (be 8 (to_u64 (env_counter env))) out in
  let out := put 22 (env_nonce env) out in
  let out := put 34 (be 4 (zlength (env_payload env))) out in
  let out := put (Z.to_nat HEADER_BYTES) (env_payload env) out in
  Ok out.

(** [view.getUint(8n)(off, false)] on a buffer long enough to hold it. *)
Definition field (off n : nat) (buf : bytes) : Z := of_be (take n (drop off buf)).

Definition unpackEnvelope (buffer : bytes) (profile : TransportProfile) : result Envelope :=
  throw_if zlength buffer <? HEADER_BYTES with js "Frame too small";
  throw_if maxFrameBytes profile <? zlength buffer with js "Frame too large";
  throw_if negb (field 0 1 buffer =? MAGIC_A) || negb (field 1 1 buffer =? MAGIC_B)
    with js "Invalid frame magic";
  let version := field 2 1 buffer in
  throw_if negb (version =? protocolVersion profile)
    with js "Unsupported protocol version: " ++ js_int version;
  let outerType := field 3 1 buffer in
  throw_if negb (outerType =? OuterType.HANDSHAKE) && negb (outerType =? OuterType.DATA)
    with js "Unknown frame type";
  let flags := field 4 1 buffer in
  throw_if negb (flags =? 0) with js "Reserved frame flags set";
  let headerLen := field 5 1 buffer in
  throw_if negb (headerLen =? HEADER_BYTES) with js "Invalid frame header length";
  let payloadLen := field 34 4 buffer in
  throw_if negb (payloadLen + HEADER_BYTES =? zlength buffer)
    with js "Invalid frame payload length";
  Ok {| env_protocolVersion := version;
        env_outerType := outerType;
        env_flags := flags;
        env_streamId := field 6 4 buffer;
        env_sequence := field 10 4 buffer;
        env_counter := field 14 8 buffer;
        env_nonce := take 12 (drop 22 buffer);
        env_payload := drop (Z.to_nat HEADER_BYTES) buffer;
        env_lane := if outerType =? OuterType.HANDSHAKE then Lane.control else Lane.text |}.

(** ** Layout

    Every write extends the written prefix of the zeroed buffer, so the
    frame is the concatenation of its fields. *)
Lemma put_extend pre bs k :
  put (length pre) bs (pre ++ replicate (length bs + k) 0) = (pre ++ bs) ++ replicate k 0.
Proof.
  unfold put. rewrite take_app_length, <- drop_drop, drop_app_length, replicate_add.
  rewrite drop_app_length' by (by rewrite length_replicate). by rewrite app_assoc.
Qed.

Lemma put_next off pre bs n k :
  off = length pre -> n = (length bs + k)%nat ->
  put off bs (pre ++ replicate n 0) = (pre ++ bs) ++ replicate k 0.
Proof. intros -> ->. apply put_extend. Qed.

(** The 34 authenticated header bytes. *)
Definition header (version outerType flags streamId sequence counter : Z) (nonce : bytes) : bytes :=
  be 1 MAGIC_A ++ be 1 MAGIC_B ++ be 1 version ++ be 1 outerType ++
  be 1 (Z.land flags 0xff) ++ be 1 HEADER_BYTES ++ be 4 (to_u32 streamId) ++
  be 4 (to_u32 sequence) ++ be 8 (to_u64 counter) ++ nonce.

Lemma length_header v t f s q c nonce :
  length nonce = 12%nat -> length (header v t f s q c nonce) = 34%nat.
Proof. intros Hn. unfold header. rewrite !length_app, !length_be, Hn. done. Qed.

Lemma header_wf v t f s q c nonce : wf_bytes nonce -> wf_bytes (header v t f s q c nonce).
Proof. intros. unfold header. repeat (apply Forall_app; split); try apply wf_be; done. Qed.

(** Replay the writes over [pre ++ zeros]. *)
Ltac layout_lengths :=
  rewrite ?length_app, ?length_be;
  match goal with H : length _ = 12%nat |- _ => rewrite ?H end; reflexivity.

Ltac layout_step := erewrite put_next; [| layout_lengths | layout_lengths ].

Lemma encodeAad_layout ctx c nonce :
  length nonce = 12%nat ->
  encodeAad ctx c nonce =
  Ok (header (aad_protocolVersion ctx) (aad_outerType ctx) (aad_flags ctx)
        (aad_streamId ctx) (aad_sequence ctx) c nonce).
Proof.
  intros Hn. unfold encodeAad, zlength. rewrite Hn. simpl negb. cbv iota zeta.
  change (replicate (Z.to_nat AAD_BYTES) 0) with ([] ++ replicate 34 0).
  do 10 layout_step. cbn [replicate]. by rewrite app_nil_r, <- !app_assoc.
Qed.

(** A frame: the header, the payload length, the payload. *)
Definition frame (p : TransportProfile) (env : Envelope) : bytes :=
  header (protocolVersion p) (env_outerType env) (env_flags env) (env_streamId env)
    (env_sequence env) (env_counter env) (env_nonce env) ++
  be 4 (zlength (env_payload env)) ++ env_payload env.

(** What [packEnvelope] requires of its arguments. *)
Definition packable (p : TransportProfile) (env : Envelope) : Prop :=
  length (env_nonce env) = 12%nat /\
  env_protocolVersion env = protocolVersion p /\
  (env_outerType env = OuterType.HANDSHAKE \/ env_outerType env = OuterType.DATA) /\
  HEADER_BYTES + zlength (env_payload env) <= maxFrameBytes p.

Lemma outerType_guard t :
  negb (t =? OuterType.HANDSHAKE) && negb (t =? OuterType.DATA) = false <->
  t = OuterType.HANDSHAKE \/ t = OuterType.DATA.
Proof.
  rewrite andb_false_iff, !negb_false_iff, !Z.eqb_eq. done.
Qed.

Lemma packEnvelope_frame p env : packable p env -> packEnvelope env p = Ok (frame p env).
Proof.
  intros (Hn & Hv & Ht & Hlen). unfold packEnvelope, zlength. rewrite Hn.
  apply outerType_guard in Ht. rewrite Ht.
  apply Z.eqb_eq in Hv. rewrite Hv. apply Z.ltb_ge in Hlen. unfold zlength in Hlen. rewrite Hlen.
  simpl negb. cbv iota zeta.
  replace (Z.to_nat (HEADER_BYTES + Z.of_nat (length (env_payload env))))
    with (38 + length (env_payload env))%nat by (unfold HEADER_BYTES; lia).
  change (replicate (38 + length (env_payload env)) 0)
    with ([] ++ replicate (38 + length (env_payload env)) 0).
  do 11 layout_step.
  erewrite (put_next _ _ _ _ 0);
    [|by rewrite ?length_app, ?length_be, Hn|lia].
  unfold frame, header. cbn [replicate]. by rewrite app_nil_r, <- !app_assoc.
Qed.

Lemma packEnvelope_Ok p env out :
  packEnvelope env p = Ok out <-> packable p env /\ out = frame p env.
Proof.
  split; [|intros [H ->]; by apply packEnvelope_frame].
  intros H. assert (Hp : packable p env).
  { unfold packEnvelope in H. unfold packable.
    destruct (negb (zlength (env_nonce env) =? NONCE_BYTES)) eqn:E1; [done|].
    destruct (negb (env_protocolVersion env =? protocolVersion p)) eqn:E2; [done|].
    destruct (negb (env_outerType env =? OuterType.HANDSHAKE) &&
              negb (env_outerType env =? OuterType.DATA)) eqn:E3; [done|].
    cbv zeta in H. destruct (maxFrameBytes p <? _) eqn:E4; [done|].
    apply outerType_guard in E3. bool_facts. unfold zlength, NONCE_BYTES in *.
    split_and!; [lia|done|done|lia]. }
  split; [done|]. rewrite packEnvelope_frame in H by done. by simplify_eq.
Qed.

(** ** Reading fields back *)

(** The slice a segment of a concatenation occupies. *)
Lemma slice_segment segs i (s : bytes) :
  segs !! i = Some s ->
  take (length s) (drop (length (mjoin (take i segs))) (mjoin segs)) = s.
Proof.
  intros Hi. rewrite <- (take_drop_middle segs i s Hi) at 2.
  rewrite join_app. cbn. rewrite drop_app_length.
  change (mjoin (s :: drop (S i) segs)) with (s ++ mjoin (drop (S i) segs)).
  by rewrite take_app_length.
Qed.

Definition segments (p : TransportProfile) (env : Envelope) : list bytes :=
  [be 1 MAGIC_A; be 1 MAGIC_B; be 1 (protocolVersion p); be 1 (env_outerType env);
   be 1 (Z.land (env_flags env) 0xff); be 1 HEADER_BYTES; be 4 (to_u32 (env_streamId env));
   be 4 (to_u32 (env_sequence env)); be 8 (to_u64 (env_counter env)); env_nonce env;
   be 4 (zlength (env_payload env)); env_payload env].

Lemma frame_segments p env : frame p env = mjoin (segments p env).
Proof. unfold frame, header. rewrite <- !app_assoc. cbn. by rewrite app_nil_r. Qed.

Lemma field_frame p env i (s : bytes) off n :
  length (env_nonce env) = 12%nat ->
  segments p env !! i = Some s ->
  off = length (mjoin (take i (segments p env))) -> n = length s ->
  take n (drop off (frame p env)) = s /\ field off n (frame p env) = of_be s.
Proof.
  intros Hn Hi -> ->. unfold field. rewrite frame_segments, slice_segment by done. done.
Qed.

Ltac segment_offset :=
  cbn -[be]; rewrite ?length_app, ?length_be;
  match goal with H : length _ = 12%nat |- _ => rewrite ?H end; reflexivity.

Lemma of_be_be1 v : 0 <= v < 256 -> of_be (be 1 v) = v.
Proof. intros. rewrite of_be_be. by apply Z.mod_small. Qed.

Lemma length_frame p env :
  length (env_nonce env) = 12%nat -> zlength (frame p env) = HEADER_BYTES + zlength (env_payload env).
Proof.
  intros Hn. unfold frame, zlength.
  rewrite !length_app, length_be, length_header by done. unfold HEADER_BYTES. lia.
Qed.

Ltac seg i :=
  etransitivity;
  [ eapply (field_frame _ _ i); [done|reflexivity|segment_offset|reflexivity]
  | by rewrite of_be_be ].

(** Every field of a written frame, as the reader sees it. *)
Lemma frame_fields p env (F := frame p env) :
  length (env_nonce env) = 12%nat ->
  field 0 1 F = MAGIC_A /\ field 1 1 F = MAGIC_B /\
  field 2 1 F = protocolVersion p mod 256 /\ field 3 1 F = env_outerType env mod 256 /\
  field 4 1 F = Z.land (env_flags env) 0xff mod 256 /\ field 5 1 F = HEADER_BYTES /\
  field 6 4 F = to_u32 (env_streamId env) mod 256 ^ 4 /\
  field 10 4 F = to_u32 (env_sequence env) mod 256 ^ 4 /\
  field 14 8 F = to_u64 (env_counter env) mod 256 ^ 8 /\
  take 12 (drop 22 F) = env_nonce env /\
  field 34 4 F = zlength (env_payload env) mod 256 ^ 4 /\
  drop 38 F = env_payload env.
Proof.
  intros Hn. subst F.
  split_and!; [seg 0%nat|seg 1%nat|seg 2%nat|seg 3%nat|seg 4%nat|seg 5%nat|seg 6%nat|seg 7%nat
              |seg 8%nat| |seg 10%nat|].
  - eapply (field_frame p env 9); [done|reflexivity|segment_offset|by rewrite Hn].
  - unfold frame. rewrite app_assoc. apply drop_app_length'.
    by rewrite length_app, length_be, length_header.
Qed.

(** The envelope a peer reads: fields reduced to their width, the lane
    recovered from the frame type. *)
Definition received (env : Envelope) : Envelope := {|
  env_protocolVersion := env_protocolVersion env;
  env_outerType := env_outerType env;
  env_flags := 0;
  env_streamId := to_u32 (env_streamId env);
  env_sequence := to_u32 (env_sequence env);
  env_counter := to_u64 (env_counter env);
  env_nonce := env_nonce env;
  env_payload := env_payload env;
  env_lane := if env_outerType env =? OuterType.HANDSHAKE then Lane.control else Lane.text;
|}.

Lemma unpack_frame p env :
  packable p env -> 0 <= protocolVersion p < 256 -> maxFrameBytes p <= 2 ^ 32 ->
  Z.land (env_flags env) 0xff = 0 ->
  unpackEnvelope (frame p env) p = Ok (received env).
Proof.
  intros (Hn & Hv & Ht & Hlen) Hpv Hmax Hfl.
  pose proof (zlength_nonneg (env_payload env)) as Hnn.
  destruct (frame_fields p env Hn) as (F0&F1&F2&F3&F4&F5&F6&F7&F8&F9&F10&F11).
  unfold unpackEnvelope. rewrite (length_frame p env Hn), F0, F1, F2, F3, F4, F5, F6, F7, F8, F9, F10.
  replace (Z.to_nat HEADER_BYTES) with 38%nat by done. rewrite F11, Hfl.
  unfold HEADER_BYTES in *. rewrite (proj2 (Z.ltb_ge _ 38)), (proj2 (Z.ltb_ge (maxFrameBytes p) _)) by lia.
  rewrite (Z.mod_small (protocolVersion p)), (Z.mod_small (zlength _)) by lia.
  rewrite (Z.mod_small (env_outerType env)) by (unfold OuterType.HANDSHAKE, OuterType.DATA in *; lia).
  rewrite Z.add_comm, !Z.eqb_refl. apply outerType_guard in Ht. rewrite Ht.
  cbv zeta. simpl negb. cbv iota. unfold received, to_u32, to_u64.
  by rewrite Hv, !Z.mod_mod.
Qed.

Lemma be_field off n b :
  wf_bytes b -> (off + n <= length b)%nat -> be n (field off n b) = take n (drop off b).
Proof.
  intros Hb Hl. apply be_of_be; [by apply Forall_take, Forall_drop|].
  rewrite length_take, length_drop. lia.
Qed.

Lemma field_bound off n b :
  wf_bytes b -> (off + n <= length b)%nat -> 0 <= field off n b < 256 ^ Z.of_nat n.
Proof.
  intros Hb Hl. unfold field.
  assert (Hn : length (take n (drop off b)) = n) by (rewrite length_take, length_drop; lia).
  rewrite <- Hn at 3. apply of_be_bound. by apply Forall_take, Forall_drop.
Qed.

Lemma slice_step (b : bytes) off n m :
  m = (off + n)%nat -> take n (drop off b) ++ drop m b = drop off b.
Proof. intros ->. rewrite <- drop_drop. apply take_drop. Qed.

Lemma unpackEnvelope_Ok p b env :
  wf_bytes b -> unpackEnvelope b p = Ok env -> packable p env /\ b = frame p env.
Proof.
  intros Hwf H. unfold unpackEnvelope in H. cbv zeta in H.
  destruct (zlength b <? HEADER_BYTES) eqn:E1; [done|].
  destruct (maxFrameBytes p <? zlength b) eqn:E2; [done|].
  destruct (negb (field 0 1 b =? MAGIC_A) || negb (field 1 1 b =? MAGIC_B)) eqn:E3; [done|].
  destruct (negb (field 2 1 b =? protocolVersion p)) eqn:E4; [done|].
  destruct (negb (field 3 1 b =? OuterType.HANDSHAKE) &&
            negb (field 3 1 b =? OuterType.DATA)) eqn:E5; [done|].
  destruct (negb (field 4 1 b =? 0)) eqn:E6; [done|].
  destruct (negb (field 5 1 b =? HEADER_BYTES)) eqn:E7; [done|].
  destruct (negb (field 34 4 b + HEADER_BYTES =? zlength b)) eqn:E8; [done|].
  apply outerType_guard in E5. apply orb_false_iff in E3 as [E3 E3'].
  bool_facts. injection H as <-.
  unfold zlength, HEADER_BYTES in *. change (Z.to_nat 38) with 38%nat.
  assert (Hl : length (drop 38 b) = Z.to_nat (field 34 4 b)) by (rewrite length_drop; lia).
  split.
  - unfold packable; cbn [env_nonce env_protocolVersion env_outerType env_payload].
    unfold zlength, HEADER_BYTES. rewrite length_take, !length_drop.
    split_and!; [lia|done|done|lia].
  - unfold frame, header; cbn -[be drop take]. unfold to_u32, to_u64.
    pose proof (field_bound 6 4 b Hwf). pose proof (field_bound 10 4 b Hwf).
    pose proof (field_bound 14 8 b Hwf). pose proof (field_bound 34 4 b Hwf).
    rewrite !Z.mod_small by lia.
    replace (zlength (drop _ b)) with (field 34 4 b) by (unfold zlength; lia).
    unfold HEADER_BYTES. rewrite <- E3, <- E3', <- E4, E6, <- E7. change (Z.land 0 255) with 0. rewrite <- E6.
    rewrite !be_field by (done || lia). rewrite <- !app_assoc.
    rewrite (slice_step b 34 4 38), (slice_step b 22 12 34), (slice_step b 14 8 22), (slice_step b 10 4 14),
      (slice_step b 6 4 10), (slice_step b 5 1 6), (slice_step b 4 1 5), (slice_step b 3 1 4),
      (slice_step b 2 1 3), (slice_step b 1 1 2) by done.
    by rewrite (slice_step b 0 1 1).
Qed.

(** ** The associated data determines what it was computed from *)

Definition aad_in_range (ctx : AadContext) : Prop :=
  0 <= aad_protocolVersion ctx < 256 /\ 0 <= aad_outerType ctx < 256 /\
  0 <= aad_flags ctx < 256 /\ 0 <= aad_streamId ctx < 2 ^ 32 /\ 0 <= aad_sequence ctx < 2 ^ 32.

Lemma be_inj n x y : 0 <= x < 256 ^ Z.of_nat n -> 0 <= y < 256 ^ Z.of_nat n -> be n x = be n y -> x = y.
Proof.
  intros Hx Hy H. apply (f_equal of_be) in H. rewrite !of_be_be, !Z.mod_small in H; done.
Qed.

Lemma be_app_inj n x y (l k : bytes) :
  0 <= x < 256 ^ Z.of_nat n -> 0 <= y < 256 ^ Z.of_nat n ->
  be n x ++ l = be n y ++ k -> x = y /\ l = k.
Proof.
  intros Hx Hy [H1 H2]%app_inj_1; [|by rewrite !length_be]. split; [by eapply be_inj|done].
Qed.

Lemma land_ff x : 0 <= x < 256 -> Z.land x 0xff = x.
Proof. intros. change 0xff with (Z.ones 8). rewrite Z.land_ones by lia. by apply Z.mod_small. Qed.

Lemma header_inj v v' t t' f f' s s' q q' c c' n n' :
  0 <= v < 256 -> 0 <= v' < 256 -> 0 <= t < 256 -> 0 <= t' < 256 ->
  0 <= f < 256 -> 0 <= f' < 256 -> 0 <= s < 2 ^ 32 -> 0 <= s' < 2 ^ 32 ->
  0 <= q < 2 ^ 32 -> 0 <= q' < 2 ^ 32 -> 0 <= c < 2 ^ 64 -> 0 <= c' < 2 ^ 64 ->
  header v t f s q c n = header v' t' f' s' q' c' n' ->
  v = v' /\ t = t' /\ f = f' /\ s = s' /\ q = q' /\ c = c' /\ n = n'.
Proof.
  intros. unfold header, to_u32, to_u64 in *.
  rewrite !land_ff, !Z.mod_small in * by done.
  repeat match goal with
  | H : be _ _ ++ _ = be _ _ ++ _ |- _ => apply be_app_inj in H as [? H]; [|done..]
  end. done.
Qed.

(** ** Properties *)

(** A frame that [packEnvelope] builds is read back by [unpackEnvelope]
    as the same envelope, its numbers reduced to the width of their field. *)
Theorem unpack_pack_roundtrip p env out :
  packEnvelope env p = Ok out ->
  0 <= protocolVersion p < 256 -> maxFrameBytes p <= 2 ^ 32 ->
  Z.land (env_flags env) 0xff = 0 ->
  unpackEnvelope out p = Ok (received env).
Proof. intros [Hp ->]%packEnvelope_Ok. by apply unpack_frame. Qed.

(** The encoding is canonical: re-packing what was read reproduces the
    frame byte for byte. *)
Theorem pack_unpack_canonical p b env :
  wf_bytes b -> unpackEnvelope b p = Ok env -> packEnvelope env p = Ok b.
Proof. intros Hb [Hp ->]%unpackEnvelope_Ok; [|done]. by apply packEnvelope_frame. Qed.

(** The associated data authenticated with a message is exactly the
    first 34 bytes of its frame. *)
Theorem aad_is_frame_header p env out :
  packEnvelope env p = Ok out ->
  encodeAad (createAadContext env p) (env_counter env) (env_nonce env) = Ok (take 34 out).
Proof.
  intros [(Hn & _) ->]%packEnvelope_Ok. rewrite encodeAad_layout by done. f_equal.
  unfold frame. rewrite take_app_length' by (by rewrite length_header). done.
Qed.

(** Two messages with the same associated data agree on version, type,
    flags, stream, sequence, counter and nonce, so a frame cannot be moved
    to another stream or position without failing authentication. *)
Theorem aad_injective c1 n1 k1 c2 n2 k2 a :
  aad_in_range c1 -> aad_in_range c2 -> 0 <= n1 < 2 ^ 64 -> 0 <= n2 < 2 ^ 64 ->
  encodeAad c1 n1 k1 = Ok a -> encodeAad c2 n2 k2 = Ok a ->
  c1 = c2 /\ n1 = n2 /\ k1 = k2.
Proof.
  intros (?&?&?&?&?) (?&?&?&?&?) Hn1 Hn2 HA HB.
  assert (L : forall c n k, encodeAad c n k = Ok a -> length k = 12%nat).
  { intros c n k. unfold encodeAad.
    destruct (negb (zlength k =? NONCE_BYTES)) eqn:E; [done|].
    bool_facts. unfold zlength, NONCE_BYTES in *. lia. }
  rewrite encodeAad_layout in HA, HB by (by eapply L).
  rewrite <- HB in HA. apply Ok_inj in HA.
  apply header_inj in HA as (?&?&?&?&?&?&?); [|done..].
  destruct c1, c2; simpl in *; by subst.
Qed.

(** ** Witnesses *)

Definition sample_env : Envelope := {|
  env_protocolVersion := 2; env_outerType := OuterType.DATA; env_flags := 0;
  env_streamId := 3; env_sequence := 7; env_counter := 9;
  env_nonce := [1; 2; 3; 4; 5; 6; 7; 8; 9; 10; 11; 12];
  env_payload := [200; 201; 202]; env_lane := Lane.file;
|}.

Definition sample_frame : bytes := frame profile_balanced sample_env.

Lemma unpack_pack_roundtrip_witness :
  unpackEnvelope sample_frame profile_balanced = Ok (received sample_env).
Proof. apply (unpack_pack_roundtrip _ sample_env); vm_compute; (done || by split). Defined.

Lemma pack_unpack_canonical_witness :
  packEnvelope (received sample_env) profile_balanced = Ok sample_frame.
Proof.
  apply pack_unpack_canonical; [|by vm_compute].
  apply (bool_decide_unpack _). by vm_compute.
Defined.

Lemma aad_is_frame_header_witness :
  encodeAad (createAadContext sample_env profile_balanced) 9 (env_nonce sample_env)
  = Ok (take 34 sample_frame).
Proof. apply (aad_is_frame_header profile_balanced sample_env). by vm_compute. Defined.

Lemma aad_injective_witness :
  createAadContext sample_env profile_balanced = createAadContext sample_env profile_balanced
  /\ 9 = 9 /\ env_nonce sample_env = env_nonce sample_env.
Proof.
  apply (aad_injective _ _ _ _ _ _ (take 34 sample_frame)); try (vm_compute; intuition congruence);
    by vm_compute.
Defined.
