(* ===== verification/RelayControl.v ===== *)
(** * Relay control frames: [client/src/protocol/relayControl.ts]

    The four-byte frames the relay and the client exchange beside the
    encrypted envelopes. *)
From S2P Require Import Prelude Bytes Profiles Envelope.

Definition RELAY_MAGIC_A : Z := 0x4f.
Definition RELAY_MAGIC_B : Z := 0x52.
Definition VERSION : Z := 1.
Definition FRAME_BYTES : Z := 4.

Inductive RelayControlType :=
  PEER_PRESENT | PEER_DISCONNECTED | PEER_REJOINED | SESSION_END | SESSION_ENDED.

Definition relay_type_code (t : RelayControlType) : Z :=
  match t with
  | PEER_PRESENT => 1 | PEER_DISCONNECTED => 2 | PEER_REJOINED => 3
  | SESSION_END => 4 | SESSION_ENDED => 5
  end.

Inductive RelayEvent := peer_present | peer_disconnected | peer_rejoined | session_ended.

Definition encode (t : RelayControlType) : bytes :=
  [RELAY_MAGIC_A; RELAY_MAGIC_B; VERSION; relay_type_code t].

Definition encodeSessionEndCommand : bytes := encode SESSION_END.

(** The cast [type as RelayControlType] after the range test. *)
Definition relay_type_of_code (c : Z) : option RelayControlType :=
  if c =? 1 then Some PEER_PRESENT else if c =? 2 then Some PEER_DISCONNECTED
  else if c =? 3 then Some PEER_REJOINED else if c =? 4 then Some SESSION_END
  else if c =? 5 then Some SESSION_ENDED else None.

Definition decodeType (bs : bytes) : option RelayControlType :=
  if negb (zlength bs =? FRAME_BYTES) then None
  else if negb (nth 0 bs 0 =? RELAY_MAGIC_A) || negb (nth 1 bs 0 =? RELAY_MAGIC_B)
          || negb (nth 2 bs 0 =? VERSION) then None
  else
    let type := nth 3 bs 0 in
    if (type <? relay_type_code PEER_PRESENT) || (relay_type_code SESSION_ENDED <? type) then None
    else relay_type_of_code type.

Definition decodeRelayEvent (buffer : bytes) : option RelayEvent :=
  match decodeType buffer with
  | Some PEER_PRESENT => Some peer_present
  | Some PEER_DISCONNECTED => Some peer_disconnected
  | Some PEER_REJOINED => Some peer_rejoined
  | Some SESSION_ENDED => Some session_ended
  | None | Some SESSION_END => None
  end.

Definition isRelayControlFrame (buffer : bytes) : bool :=
  match decodeType buffer with Some _ => true | None => false end.

Lemma decodeType_encode t : decodeType (encode t) = Some t.
Proof. by destruct t. Qed.

Lemma decodeType_Some bs t : decodeType bs = Some t -> bs = encode t.
Proof.
  unfold decodeType. intros H.
  destruct (negb (zlength bs =? FRAME_BYTES)) eqn:El; [done|]. bool_facts.
  destruct bs as [|a [|b [|c [|d [|e bs]]]]]; try done.
  2:{ unfold zlength, FRAME_BYTES in El. cbn [length] in El. lia. }
  cbn [nth] in H.
  destruct (negb (a =? RELAY_MAGIC_A) || negb (b =? RELAY_MAGIC_B) || negb (c =? VERSION)) eqn:E;
    [done|]. bool_facts. cbv zeta in H.
  destruct ((d <? _) || _); [done|]. unfold relay_type_of_code in H.
  repeat (simp_if; bool_facts); simplify_eq; done.
Qed.

(** A frame is a relay control frame exactly when it is the encoding of
    one of the five control types, and such a frame is never accepted as an
    envelope: relay traffic and peer traffic cannot be confused. *)
Theorem relay_frames_disjoint buffer :
  (isRelayControlFrame buffer = true <-> exists t, buffer = encode t) /\
  (isRelayControlFrame buffer = true -> forall p, is_ok (unpackEnvelope buffer p) = false).
Proof.
  assert (Hiff : isRelayControlFrame buffer = true <-> exists t, buffer = encode t).
  { unfold isRelayControlFrame. split.
    - destruct (decodeType buffer) as [t|] eqn:E; [|done]. exists t. by apply decodeType_Some.
    - intros [t ->]. by rewrite decodeType_encode. }
  split; [done|]. intros [t ->]%Hiff p. by destruct t.
Qed.
