(* ===== verification/Scheduler.v ===== *)
(** * Packet scheduler: [client/src/transport/PacketScheduler.ts]

    Four bounded lanes with per-lane and global budgets.  [enqueue] makes
    room in a drop-oldest lane or refuses, [next] serves the non-empty lane
    of highest priority.  The counters [totalPackets], [totalBytes] and the
    per-lane byte counts are state of their own in the source; [acct_ok]
    states that they agree with the queues. *)
From S2P Require Import Prelude Bytes Profiles.

Record QueuedPacket := { pkt_lane : LaneName; pkt_bytes : bytes }.

Record LaneQueue := { packets : list QueuedPacket; q_bytes : Z }.

Record EnqueueResult := { ok : bool; dropped : Z; reason : option jstr }.

Record QueueSnapshot := {
  snap_packets : Z;
  snap_bytes : Z;
  snap_lanePackets : LaneName -> Z;
  snap_laneBytes : LaneName -> Z;
}.

Record PacketScheduler := {
  q_control : LaneQueue;
  q_voice : LaneQueue;
  q_text : LaneQueue;
  q_file : LaneQueue;
  totalPackets : Z;
  totalBytes : Z;
  sched_profile : TransportProfile;
}.

Definition LANES : list LaneName := [Lane.control; Lane.voice; Lane.text; Lane.file].

Definition empty_queue : LaneQueue := {| packets := []; q_bytes := 0 |}.

Definition newScheduler (profile : TransportProfile) : PacketScheduler := {|
  q_control := empty_queue; q_voice := empty_queue; q_text := empty_queue; q_file := empty_queue;
  totalPackets := 0; totalBytes := 0; sched_profile := profile;
|}.

(** [this.queues[lane]] and the assignment of a changed queue and totals. *)
Definition queues (s : PacketScheduler) (lane : LaneName) : LaneQueue :=
  match lane with
  | Lane.control => q_control s
  | Lane.voice => q_voice s
  | Lane.text => q_text s
  | Lane.file => q_file s
  end.

Definition set_queue (s : PacketScheduler) (lane : LaneName) (q : LaneQueue) (tp tb : Z)
  : PacketScheduler := {|
  q_control := if decide (lane = Lane.control) then q else q_control s;
  q_voice := if decide (lane = Lane.voice) then q else q_voice s;
  q_text := if decide (lane = Lane.text) then q else q_text s;
  q_file := if decide (lane = Lane.file) then q else q_file s;
  totalPackets := tp; totalBytes := tb; sched_profile := sched_profile s;
|}.

Definition setProfile (profile : TransportProfile) (s : PacketScheduler) : PacketScheduler := {|
  q_control := q_control s; q_voice := q_voice s; q_text := q_text s; q_file := q_file s;
  totalPackets := totalPackets s; totalBytes := totalBytes s; sched_profile := profile;
|}.

Definition pkt_size (p : QueuedPacket) : Z := zlength (pkt_bytes p).

Definition wouldOverflow (profile : TransportProfile) (cfg : LaneBudget)
    (q : LaneQueue) (tp tb nextBytes : Z) : bool :=
  (maxPackets cfg <=? zlength (packets q)) ||
  (maxBytes cfg <? q_bytes q + nextBytes) ||
  (outbox_maxPackets (outbox profile) <=? tp) ||
  (outbox_maxBytes (outbox profile) <? tb + nextBytes).

(** The [while] loop of [enqueue].  [pkts] is [q.packets]; every turn shifts
    its head, so the recursion is structural.  The result is the state of
    the lane, the totals, the number of dropped packets, and whether the
    loop ended without refusing. *)
Fixpoint make_room (profile : TransportProfile) (cfg : LaneBudget) (nextBytes : Z)
    (pkts : list QueuedPacket) (qb tp tb dropped : Z) : LaneQueue * Z * Z * Z * bool :=
  let q := {| packets := pkts; q_bytes := qb |} in
  if wouldOverflow profile cfg q tp tb nextBytes then
    if bool_decide (dropPolicy cfg <> drop_oldest) then (q, tp, tb, dropped, false)
    else match pkts with
         | [] => (q, tp, tb, dropped, false)
         | removed :: rest =>
             make_room profile cfg nextBytes rest (qb - pkt_size removed) (tp - 1)
               (tb - pkt_size removed) (dropped + 1)
         end
  else (q, tp, tb, dropped, true).

Definition enqueue (packet : QueuedPacket) (s : PacketScheduler)
  : PacketScheduler * EnqueueResult :=
  let profile := sched_profile s in
  if maxFrameBytes profile <? pkt_size packet then
    (s, {| ok := false; dropped := 0; reason := Some (js "frame_too_large") |})
  else
    let lane := pkt_lane packet in
    let q := queues s lane in
    let cfg := lanes profile lane in
    let '(q', tp, tb, d, room) :=
      make_room profile cfg (pkt_size packet) (packets q) (q_bytes q)
        (totalPackets s) (totalBytes s) 0 in
    if room then
      (set_queue s lane {| packets := packets q' ++ [packet]; q_bytes := q_bytes q' + pkt_size packet |}
         (tp + 1) (tb + pkt_size packet),
       {| ok := true; dropped := d; reason := None |})
    else
      (set_queue s lane q' tp tb,
       {| ok := false; dropped := d; reason := Some (js "queue_full") |}).

(** [lanes.sort((a, b) => priority[b] - priority[a])]: stable, descending. *)
Fixpoint insert_lane (profile : TransportProfile) (a : LaneName) (l : list LaneName) : list LaneName :=
  match l with
  | [] => [a]
  | b :: l' => if priority (lanes profile b) <=? priority (lanes profile a) then a :: l
               else b :: insert_lane profile a l'
  end.

Definition sort_lanes (profile : TransportProfile) (l : list LaneName) : list LaneName :=
  foldr (insert_lane profile) [] l.

Definition nonempty (s : PacketScheduler) (lane : LaneName) : bool :=
  match packets (queues s lane) with [] => false | _ => true end.

Definition next (s : PacketScheduler) : PacketScheduler * option QueuedPacket :=
  match sort_lanes (sched_profile s) (filter (fun l => nonempty s l = true) LANES) with
  | [] => (s, None)
  | lane :: _ =>
      let q := queues s lane in
      match packets q with
      | [] => (s, None)
      | packet :: rest =>
          (set_queue s lane {| packets := rest; q_bytes := q_bytes q - pkt_size packet |}
             (totalPackets s - 1) (totalBytes s - pkt_size packet),
           Some packet)
      end
  end.

Definition clearLane (lane : LaneName) (s : PacketScheduler) : PacketScheduler :=
  let q := queues s lane in
  set_queue s lane empty_queue (totalPackets s - zlength (packets q)) (totalBytes s - q_bytes q).

Definition clearVolatile (s : PacketScheduler) : PacketScheduler := clearLane Lane.voice s.

Definition clear (s : PacketScheduler) : PacketScheduler :=
  foldl (fun s lane => clearLane lane s) s LANES.

Definition snapshot (s : PacketScheduler) : QueueSnapshot := {|
  snap_packets := totalPackets s;
  snap_bytes := totalBytes s;
  snap_lanePackets lane := zlength (packets (queues s lane));
  snap_laneBytes lane := q_bytes (queues s lane);
|}.

(** ** Invariants *)

Definition lane_ok (q : LaneQueue) : Prop := q_bytes q = sum_by pkt_size (packets q).

(** The counters are the sizes of the queues. *)
Definition acct_ok (s : PacketScheduler) : Prop :=
  (forall lane, lane_ok (queues s lane)) /\
  totalPackets s = sum_by (fun l => zlength (packets (queues s l))) LANES /\
  totalBytes s = sum_by (fun l => q_bytes (queues s l)) LANES.

(** The budgets of the profile hold, and every queued packet is in the lane
    it names and fits a frame. *)
Definition bounded (s : PacketScheduler) : Prop :=
  let p := sched_profile s in
  (forall lane, zlength (packets (queues s lane)) <= maxPackets (lanes p lane) /\
                q_bytes (queues s lane) <= maxBytes (lanes p lane)) /\
  totalPackets s <= outbox_maxPackets (outbox p) /\
  totalBytes s <= outbox_maxBytes (outbox p) /\
  (forall lane, Forall (fun k => pkt_lane k = lane /\ pkt_size k <= maxFrameBytes p)
                  (packets (queues s lane))).

(** A budget that admits an empty scheduler. *)
Definition sane_profile (p : TransportProfile) : Prop :=
  (forall lane, 0 <= maxPackets (lanes p lane) /\ 0 <= maxBytes (lanes p lane)) /\
  0 <= outbox_maxPackets (outbox p) /\ 0 <= outbox_maxBytes (outbox p).

(** ** Lemmas *)

Lemma queues_set_queue s lane q tp tb l :
  queues (set_queue s lane q tp tb) l = if decide (l = lane) then q else queues s l.
Proof. by destruct l, lane. Qed.

Lemma sum_set_queue (f : LaneQueue -> Z) s lane q tp tb :
  sum_by (fun l => f (queues (set_queue s lane q tp tb) l)) LANES =
  sum_by (fun l => f (queues s l)) LANES - f (queues s lane) + f q.
Proof. destruct lane; simpl; lia. Qed.

(** Replacing one queue by a consistent one and moving the totals by the
    difference keeps the accounts. *)
Lemma acct_set_queue s lane q tp tb :
  acct_ok s -> lane_ok q ->
  tp = totalPackets s - zlength (packets (queues s lane)) + zlength (packets q) ->
  tb = totalBytes s - q_bytes (queues s lane) + q_bytes q ->
  acct_ok (set_queue s lane q tp tb).
Proof.
  intros (Hl & Hp & Hb) Hq -> ->. split_and!.
  - intros l. rewrite queues_set_queue. by case_decide.
  - rewrite (sum_set_queue (fun q => zlength (packets q))). cbn [totalPackets set_queue]. lia.
  - rewrite (sum_set_queue q_bytes). cbn [totalBytes set_queue]. lia.
Qed.

Lemma sum_by_take_drop {A} (f : A -> Z) k l :
  sum_by f l = sum_by f (take k l) + sum_by f (drop k l).
Proof. by rewrite <- sum_by_app, take_drop. Qed.

(** What the loop does: it drops the [k] oldest packets of the lane, and
    only while the packet would not fit. *)
Record made_room (profile : TransportProfile) (cfg : LaneBudget) (n : Z)
    (pkts : list QueuedPacket) (qb tp tb : Z) (q' : LaneQueue) (tp' tb' : Z)
    (k : nat) (room : bool) : Prop := {
  mr_k : (k <= length pkts)%nat;
  mr_packets : packets q' = drop k pkts;
  mr_bytes : q_bytes q' = qb - sum_by pkt_size (take k pkts);
  mr_tp : tp' = tp - Z.of_nat k;
  mr_tb : tb' = tb - sum_by pkt_size (take k pkts);
  mr_room : wouldOverflow profile cfg q' tp' tb' n = negb room;
  mr_policy : dropPolicy cfg <> drop_oldest -> k = 0%nat;
  mr_full : room = false -> dropPolicy cfg = drop_oldest -> k = length pkts;
  mr_least : forall j, (j < k)%nat ->
    wouldOverflow profile cfg
      {| packets := drop j pkts; q_bytes := qb - sum_by pkt_size (take j pkts) |}
      (tp - Z.of_nat j) (tb - sum_by pkt_size (take j pkts)) n = true;
}.

Lemma made_room_here profile cfg n pkts qb tp tb room :
  wouldOverflow profile cfg {| packets := pkts; q_bytes := qb |} tp tb n = negb room ->
  (room = false -> dropPolicy cfg = drop_oldest -> pkts = []) ->
  made_room profile cfg n pkts qb tp tb {| packets := pkts; q_bytes := qb |} tp tb 0 room.
Proof.
  intros Hw Hf. split; simpl; rewrite ?take_0, ?drop_0, ?Z.sub_0_r; try done; try lia.
  intros Hr Hd. by rewrite Hf.
Qed.

Lemma made_room_shift profile cfg n r pkts qb tp tb q' tp' tb' k room :
  dropPolicy cfg = drop_oldest ->
  wouldOverflow profile cfg {| packets := r :: pkts; q_bytes := qb |} tp tb n = true ->
  made_room profile cfg n pkts (qb - pkt_size r) (tp - 1) (tb - pkt_size r) q' tp' tb' k room ->
  made_room profile cfg n (r :: pkts) qb tp tb q' tp' tb' (S k) room.
Proof.
  intros Hd Hw []. split; cbn [take drop length]; rewrite ?sum_by_cons; try done; try lia.
  intros [|j] Hj; cbn [take drop]; rewrite ?sum_by_cons.
  - cbn. by rewrite !Z.sub_0_r.
  - specialize (mr_least0 j ltac:(lia)).
    replace (qb - (pkt_size r + sum_by pkt_size (take j pkts)))
      with (qb - pkt_size r - sum_by pkt_size (take j pkts)) by lia.
    replace (tp - Z.of_nat (S j)) with (tp - 1 - Z.of_nat j) by lia.
    replace (tb - (pkt_size r + sum_by pkt_size (take j pkts)))
      with (tb - pkt_size r - sum_by pkt_size (take j pkts)) by lia. done.
Qed.

Lemma make_room_spec profile cfg n pkts qb tp tb d q' tp' tb' d' room :
  make_room profile cfg n pkts qb tp tb d = (q', tp', tb', d', room) ->
  exists k, d' = d + Z.of_nat k /\ made_room profile cfg n pkts qb tp tb q' tp' tb' k room.
Proof.
  revert qb tp tb d. induction pkts as [|r pkts IH]; intros qb tp tb d; cbn [make_room];
    destruct (wouldOverflow _ _ _ _ _ _) eqn:E; try case_bool_decide; intros H'.
  all: try (injection H' as <- <- <- <- <-; exists 0%nat; split; [lia|];
            by apply made_room_here).
  apply IH in H' as (k & -> & Hk). exists (S k). split; [lia|].
  apply made_room_shift; [|done|done]. destruct (dropPolicy cfg); naive_solver.
Qed.

Lemma lane_ok_made_room profile cfg n q tp tb q' tp' tb' k room :
  lane_ok q -> made_room profile cfg n (packets q) (q_bytes q) tp tb q' tp' tb' k room -> lane_ok q'.
Proof.
  unfold lane_ok. intros Hq []. rewrite mr_bytes0, mr_packets0, Hq.
  rewrite (sum_by_take_drop pkt_size k). lia.
Qed.

(** [enqueue] in terms of [made_room]. *)
Lemma enqueue_cases packet s s' r (lane := pkt_lane packet) (p := sched_profile s)
    (q := queues s lane) :
  enqueue packet s = (s', r) ->
  (maxFrameBytes p < pkt_size packet /\ s' = s /\
   r = {| ok := false; dropped := 0; reason := Some (js "frame_too_large") |}) \/
  (pkt_size packet <= maxFrameBytes p /\
   exists q' tp tb k room,
     made_room p (lanes p lane) (pkt_size packet) (packets q) (q_bytes q)
       (totalPackets s) (totalBytes s) q' tp tb k room /\
     dropped r = Z.of_nat k /\ ok r = room /\
     reason r = (if room then None else Some (js "queue_full")) /\
     s' = if room
          then set_queue s lane
                 {| packets := packets q' ++ [packet]; q_bytes := q_bytes q' + pkt_size packet |}
                 (tp + 1) (tb + pkt_size packet)
          else set_queue s lane q' tp tb).
Proof.
  unfold enqueue. fold lane p q.
  destruct (Z.ltb_spec (maxFrameBytes p) (pkt_size packet)); [intros [= <- <-]; by left|].
  destruct (make_room _ _ _ _ _ _ _ _) as [[[[q' tp] tb] d] room] eqn:E. intros H'.
  apply make_room_spec in E as (k & -> & Hk). right. split; [done|].
  exists q', tp, tb, k, room. destruct room; injection H' as <- <-; done.
Qed.

Lemma enqueue_acct packet s : acct_ok s -> acct_ok (enqueue packet s).1.
Proof.
  intros Hs. destruct (enqueue packet s) as [s' r] eqn:E.
  apply enqueue_cases in E as [(_ & -> & _)|(_ & q' & tp & tb & k & room & Hm & _ & _ & _ & ->)];
    [done|]. simpl.
  pose proof (lane_ok_made_room _ _ _ _ _ _ _ _ _ _ _ (proj1 Hs (pkt_lane packet)) Hm) as Hq.
  destruct Hm. destruct room; apply acct_set_queue; try done; cbn [packets q_bytes].
  - unfold lane_ok in *. cbn [packets q_bytes]. rewrite sum_by_app, Hq, sum_by_cons. simpl. lia.
  - rewrite mr_packets0, zlength_app, zlength_cons, zlength_nil.
    unfold zlength. rewrite length_drop. lia.
  - lia.
  - rewrite mr_packets0. unfold zlength. rewrite length_drop. lia.
  - lia.
Qed.

Lemma clearLane_acct lane s : acct_ok s -> acct_ok (clearLane lane s).
Proof. intros Hs. apply acct_set_queue; [done|done| |]; simpl; rewrite ?zlength_nil; lia. Qed.

(** The head of the sorted list is a member of maximal priority. *)
Lemma sort_lanes_head p l lane rest :
  sort_lanes p l = lane :: rest ->
  lane ∈ l /\ forall l', l' ∈ l -> priority (lanes p l') <= priority (lanes p lane).
Proof.
  revert lane rest. induction l as [|a l IH]; intros lane rest; simpl; [done|].
  destruct (sort_lanes p l) as [|b r] eqn:E; simpl.
  - intros [= <- <-]. assert (l = []) as ->.
    { destruct l as [|c l]; [done|]. simpl in E. destruct (sort_lanes p l); simpl in E; [done|].
      by destruct (_ <=? _). }
    split; [set_solver|]. intros l' Hl'. apply list_elem_of_singleton in Hl' as ->. lia.
  - destruct (IH b r eq_refl) as [Hb Hmax].
    destruct (Z.leb_spec (priority (lanes p b)) (priority (lanes p a))); intros [= <- <-];
      (split; [set_solver|]); intros l' [->|Hl']%elem_of_cons; try lia;
      specialize (Hmax _ Hl'); lia.
Qed.

Lemma sort_lanes_nil p l : sort_lanes p l = [] -> l = [].
Proof.
  destruct l as [|a l]; [done|]. simpl. destruct (sort_lanes p l); simpl; [done|].
  by destruct (_ <=? _).
Qed.

Lemma nonempty_spec s lane : nonempty s lane = true <-> packets (queues s lane) <> [].
Proof. unfold nonempty. by destruct (packets _). Qed.

Lemma all_lanes lane : lane ∈ LANES.
Proof. unfold LANES. destruct lane; set_solver. Qed.

(** [next]: nothing when every lane is empty, otherwise the oldest packet of
    a non-empty lane no other non-empty lane outranks. *)
Lemma next_cases s :
  (next s = (s, None) /\ forall lane, packets (queues s lane) = []) \/
  exists lane packet rest,
    packets (queues s lane) = packet :: rest /\
    (forall l, packets (queues s l) <> [] ->
       priority (lanes (sched_profile s) l) <= priority (lanes (sched_profile s) lane)) /\
    next s = (set_queue s lane {| packets := rest; q_bytes := q_bytes (queues s lane) - pkt_size packet |}
                (totalPackets s - 1) (totalBytes s - pkt_size packet), Some packet).
Proof.
  unfold next.
  destruct (sort_lanes _ _) as [|lane r] eqn:E.
  - left. split; [done|]. intros lane. apply sort_lanes_nil in E.
    destruct (packets (queues s lane)) eqn:Eq; [done|].
    assert (Hin : lane ∈ filter (fun l => nonempty s l = true) LANES).
    { apply list_elem_of_filter. split; [|apply all_lanes]. by rewrite nonempty_spec, Eq. }
    rewrite E in Hin. by apply not_elem_of_nil in Hin.
  - right. apply sort_lanes_head in E as [Hin Hmax].
    apply list_elem_of_filter in Hin as [Hne _]. apply nonempty_spec in Hne.
    destruct (packets (queues s lane)) as [|packet rest] eqn:Eq; [done|].
    exists lane, packet, rest. split_and!; [done| |done].
    intros l Hl. apply Hmax. apply list_elem_of_filter. split; [by apply nonempty_spec|apply all_lanes].
Qed.

Lemma next_acct s : acct_ok s -> acct_ok (next s).1.
Proof.
  intros Hs. destruct (next_cases s) as [[-> _]|(lane & k & rest & Hq & _ & ->)]; [done|].
  simpl. pose proof (proj1 Hs lane) as Hl. unfold lane_ok in Hl.
  rewrite Hq, sum_by_cons in Hl.
  apply acct_set_queue; [done| | |]; unfold lane_ok; cbn [packets q_bytes];
    rewrite ?Hq, ?zlength_cons; lia.
Qed.

Lemma pkt_size_nonneg k : 0 <= pkt_size k.
Proof. apply zlength_nonneg. Qed.

Lemma sum_pkt_nonneg l : 0 <= sum_by pkt_size l.
Proof. apply sum_by_nonneg, pkt_size_nonneg. Qed.

(** Shrinking one lane and the totals stays within budget. *)
Lemma bounded_shrink s lane q tp tb :
  bounded s ->
  zlength (packets q) <= zlength (packets (queues s lane)) -> q_bytes q <= q_bytes (queues s lane) ->
  tp <= totalPackets s -> tb <= totalBytes s ->
  (forall k, k ∈ packets q -> k ∈ packets (queues s lane)) ->
  bounded (set_queue s lane q tp tb).
Proof.
  intros (Hl & Hp & Hb & Hk) ? ? ? ? Hin. unfold bounded. cbn [sched_profile set_queue totalPackets totalBytes].
  split_and!; [|lia|lia|]; intros l; rewrite queues_set_queue; case_decide; subst; try done.
  - specialize (Hl lane). lia.
  - specialize (Hk lane). rewrite Forall_forall in *. auto.
Qed.

Lemma enqueue_bounded packet s : acct_ok s -> bounded s -> bounded (enqueue packet s).1.
Proof.
  intros Ha Hs. destruct (enqueue packet s) as [s' r] eqn:E.
  apply enqueue_cases in E as [(_ & -> & _)|(Hf & q' & tp & tb & k & room & Hm & _ & _ & _ & ->)];
    [done|]. simpl. destruct Hm.
  pose proof (sum_pkt_nonneg (take k (packets (queues s (pkt_lane packet))))) as Hnn.
  destruct room.
  - destruct Hs as (Hl & Hp & Hb & Hk). unfold wouldOverflow in mr_room0. simpl in mr_room0.
    repeat apply orb_false_iff in mr_room0 as [mr_room0 ?]. bool_facts.
    unfold bounded. cbn [sched_profile set_queue totalPackets totalBytes].
    split_and!; [|lia|lia|]; intros l; rewrite queues_set_queue; case_decide; subst; try done;
      cbn [packets q_bytes].
    + rewrite zlength_app, zlength_cons, zlength_nil. lia.
    + rewrite mr_packets0. apply Forall_app. split; [by apply Forall_drop|by constructor].
  - apply bounded_shrink; [done| |lia|lia|lia|]; rewrite mr_packets0.
    + unfold zlength. rewrite length_drop. lia.
    + intros p Hp. apply list_elem_of_In. apply list_elem_of_In in Hp.
      rewrite <- (take_drop k (packets _)). apply in_app_iff. by right.
Qed.

Lemma next_bounded s : bounded s -> bounded (next s).1.
Proof.
  intros Hs. destruct (next_cases s) as [[-> _]|(lane & k & rest & Hq & _ & ->)]; [done|].
  simpl. pose proof (pkt_size_nonneg k).
  apply bounded_shrink; cbn [packets q_bytes]; [done| |lia|lia|lia|]; rewrite Hq.
  - rewrite zlength_cons. lia.
  - set_solver.
Qed.

Lemma acct_nonneg s lane : acct_ok s -> 0 <= q_bytes (queues s lane).
Proof. intros [Hl _]. rewrite (Hl lane). apply sum_pkt_nonneg. Qed.

Lemma clearLane_bounded lane s : acct_ok s -> bounded s -> bounded (clearLane lane s).
Proof.
  intros Ha Hs. pose proof (acct_nonneg s lane Ha).
  pose proof (zlength_nonneg (packets (queues s lane))).
  apply bounded_shrink; cbn [packets q_bytes empty_queue]; rewrite ?zlength_nil; try done; try lia.
  set_solver.
Qed.

(** ** Runs of the scheduler *)

Inductive sched_op :=
| OpEnqueue (packet : QueuedPacket)
| OpNext
| OpClearVolatile
| OpClear.

Definition apply_op (s : PacketScheduler) (o : sched_op) : PacketScheduler :=
  match o with
  | OpEnqueue packet => (enqueue packet s).1
  | OpNext => (next s).1
  | OpClearVolatile => clearVolatile s
  | OpClear => clear s
  end.

Lemma apply_op_ok s o : acct_ok s /\ bounded s -> acct_ok (apply_op s o) /\ bounded (apply_op s o).
Proof.
  intros [Ha Hb]. destruct o; cbn [apply_op].
  - split; [by apply enqueue_acct|by apply enqueue_bounded].
  - split; [by apply next_acct|by apply next_bounded].
  - split; [by apply clearLane_acct|by apply clearLane_bounded].
  - unfold clear, LANES. cbn [foldl].
    split; repeat first [apply clearLane_acct | apply clearLane_bounded]; done.
Qed.

Lemma new_scheduler_ok p : sane_profile p -> acct_ok (newScheduler p) /\ bounded (newScheduler p).
Proof.
  intros (Hl & Hp & Hb). split.
  - split_and!; [by intros []|done|done].
  - split_and!; simpl; [|done|done|by intros []]. intros lane. specialize (Hl lane).
    destruct lane; simpl; rewrite zlength_nil; lia.
Qed.


(** [enqueue] on every branch.  An oversized frame changes nothing; a
    lane whose policy is not drop-oldest never loses a queued packet; a
    drop-oldest lane loses its oldest packets and no more than needed; an
    accepted packet is last in its lane; the other lanes are untouched. *)
Theorem enqueue_spec packet s s' r :
  enqueue packet s = (s', r) ->
  let lane := pkt_lane packet in
  let old := packets (queues s lane) in
  (forall l, l <> lane -> queues s' l = queues s l) /\
  exists k, (k <= length old)%nat /\ dropped r = Z.of_nat k /\
    packets (queues s' lane) = drop k old ++ (if ok r then [packet] else []) /\
    (dropPolicy (lanes (sched_profile s) lane) <> drop_oldest -> k = 0%nat) /\
    (reason r = Some (js "frame_too_large") <-> maxFrameBytes (sched_profile s) < pkt_size packet) /\
    (forall j, (j < k)%nat -> wouldOverflow (sched_profile s) (lanes (sched_profile s) lane)
       {| packets := drop j old; q_bytes := q_bytes (queues s lane) - sum_by pkt_size (take j old) |}
       (totalPackets s - Z.of_nat j) (totalBytes s - sum_by pkt_size (take j old))
       (pkt_size packet) = true).
Proof.
  intros H. simpl.
  apply enqueue_cases in H as
    [(Hf & -> & ->)|(Hf & q' & tp & tb & k & room & Hm & Hd & Ho & Hr & ->)].
  - split; [done|]. exists 0%nat. simpl. rewrite app_nil_r. split_and!; try done; lia.
  - destruct Hm. split.
    + intros l Hl. by destruct room; rewrite queues_set_queue, decide_False.
    + exists k. rewrite Ho. split_and!; try done.
      * destruct room; rewrite queues_set_queue, decide_True by done; simpl; rewrite mr_packets0;
          by rewrite ?app_nil_r.
      * rewrite Hr. split; [by destruct room|lia].
Qed.

(** [next] returns nothing only when every lane is empty; otherwise it
    takes the oldest packet of a lane of highest priority among the
    non-empty ones and leaves the other lanes untouched. *)
Theorem next_spec s :
  match (next s).2 with
  | None => (next s).1 = s /\ forall lane, packets (queues s lane) = []
  | Some packet => exists lane,
      packets (queues s lane) = packet :: packets (queues (next s).1 lane) /\
      (forall l, l <> lane -> queues (next s).1 l = queues s l) /\
      (forall l, packets (queues s l) <> [] ->
         priority (lanes (sched_profile s) l) <= priority (lanes (sched_profile s) lane))
  end.
Proof.
  destruct (next_cases s) as [[-> Hn]|(lane & k & rest & Hq & Hmax & ->)]; [done|].
  simpl. exists lane. rewrite queues_set_queue, decide_True by done. split_and!; [done| |done].
  intros l Hl. by rewrite queues_set_queue, decide_False.
Qed.

(** ** Draining order *)

(** Calling [next] [n] times, as the drain loop of the connection does. *)
Fixpoint drain_all (n : nat) (s : PacketScheduler) : list QueuedPacket :=
  match n with
  | O => []
  | S n' => match next s with
            | (s', Some packet) => packet :: drain_all n' s'
            | (_, None) => []
            end
  end.

(** The abstract scheduler: one list, the lanes one after the other. *)
Definition queue_order (s : PacketScheduler) : list QueuedPacket :=
  mjoin ((fun l => packets (queues s l)) <$> LANES).

Definition canonical_priorities (p : TransportProfile) : Prop :=
  priority (lanes p Lane.voice) < priority (lanes p Lane.control) /\
  priority (lanes p Lane.text) < priority (lanes p Lane.voice) /\
  priority (lanes p Lane.file) < priority (lanes p Lane.text).

Lemma queue_order_unfold s :
  queue_order s = packets (q_control s) ++ packets (q_voice s) ++ packets (q_text s) ++ packets (q_file s).
Proof. unfold queue_order. simpl. by rewrite app_nil_r. Qed.

Lemma next_refines s :
  canonical_priorities (sched_profile s) ->
  match next s with
  | (s', Some k) => queue_order s = k :: queue_order s' /\ sched_profile s' = sched_profile s
  | (_, None) => queue_order s = []
  end.
Proof.
  intros (H1 & H2 & H3).
  destruct (next_cases s) as [[-> Hn]|(lane & k & rest & Hq & Hmax & ->)].
  - rewrite queue_order_unfold. pose proof (Hn Lane.control) as E1. pose proof (Hn Lane.voice) as E2.
    pose proof (Hn Lane.text) as E3. pose proof (Hn Lane.file) as E4. simpl in *.
    by rewrite E1, E2, E3, E4.
  - split; [|done]. rewrite !queue_order_unfold.
    assert (Hlow : forall l, priority (lanes (sched_profile s) lane) < priority (lanes (sched_profile s) l) ->
      packets (queues s l) = []).
    { intros l Hl. destruct (packets (queues s l)) eqn:E; [done|]. exfalso.
      specialize (Hmax l). rewrite E in Hmax. specialize (Hmax ltac:(done)). lia. }
    pose proof (Hlow Lane.control) as L1. pose proof (Hlow Lane.voice) as L2.
    pose proof (Hlow Lane.text) as L3. clear Hlow Hmax.
    destruct lane; simpl in *; rewrite Hq; try rewrite L1 by lia; try rewrite L2 by lia;
      try rewrite L3 by lia; done.
Qed.

(** The scheduler refines a single priority-ordered list: draining it
    yields every queued packet once, control before voice before text before
    file, each lane in the order it was filled. *)
Theorem drain_order s :
  canonical_priorities (sched_profile s) ->
  drain_all (length (queue_order s)) s =
  packets (q_control s) ++ packets (q_voice s) ++ packets (q_text s) ++ packets (q_file s).
Proof.
  intros Hc. rewrite <- queue_order_unfold.
  remember (length (queue_order s)) as n eqn:Hn. revert s Hc Hn.
  induction n as [|n IH]; intros s Hc Hn; cbn [drain_all].
  - by destruct (queue_order s).
  - pose proof (next_refines s Hc) as Hr. destruct (next s) as [s' [k|]].
    + destruct Hr as [Ho Hp]. rewrite Ho. f_equal. apply IH; [by rewrite Hp|].
      rewrite Ho in Hn. by simplify_eq/=.
    + by rewrite Hr in Hn.
Qed.

(** The four profiles admit a scheduler and order the lanes canonically. *)
Lemma profiles_sane i : sane_profile (PROFILES i) /\ canonical_priorities (PROFILES i).
Proof.
  unfold sane_profile, canonical_priorities.
  destruct i; split_and!; try done; intros []; by vm_compute.
Qed.

(** ** Witnesses *)

Definition sample_packet (lane : LaneName) (n : nat) : QueuedPacket :=
  {| pkt_lane := lane; pkt_bytes := replicate n 7 |}.

Definition sample_scheduler : PacketScheduler :=
  foldl apply_op (newScheduler profile_balanced)
    [OpEnqueue (sample_packet Lane.file 3); OpEnqueue (sample_packet Lane.text 2);
     OpEnqueue (sample_packet Lane.voice 1); OpEnqueue (sample_packet Lane.control 4)].


Lemma enqueue_spec_witness :
  exists k, dropped (enqueue (sample_packet Lane.text 5) sample_scheduler).2 = Z.of_nat k /\
    packets (queues (enqueue (sample_packet Lane.text 5) sample_scheduler).1 Lane.text)
    = drop k [sample_packet Lane.text 2] ++ [sample_packet Lane.text 5].
Proof.
  destruct (enqueue_spec (sample_packet Lane.text 5) sample_scheduler
    (enqueue (sample_packet Lane.text 5) sample_scheduler).1
    (enqueue (sample_packet Lane.text 5) sample_scheduler).2 ltac:(by vm_compute))
    as (_ & k & _ & Hd & Hp & _).
  exists k. split; [exact Hd|exact Hp].
Defined.

Lemma drain_order_witness :
  drain_all 4 sample_scheduler =
  [sample_packet Lane.control 4; sample_packet Lane.voice 1;
   sample_packet Lane.text 2; sample_packet Lane.file 3].
Proof. apply (drain_order sample_scheduler). by vm_compute. Defined.
