(* ===== verification/Messages.v ===== *)
(** * Application messages:
      [client/src/utils/safeJson.ts], [client/src/protocol/appMessages.ts],
      [client/src/protocol/streams.ts]

    The values of [JSON.parse], the typed accessors on them, the message
    types, their decoders with every bound and error, and the check of a
    message against the stream it arrived on. *)
From S2P Require Import Prelude Bytes Profiles.

(** ** JSON values

    A number is classified as the sources classify it: an integral double,
    a finite non-integral one, or an infinity ([JSON.parse] rounds a literal
    such as [1e999] to it). *)
Inductive jnum := NInt (z : Z) | NFrac (num : Z) (den : positive) | NInf (negative : bool).

Inductive json :=
| JNull
| JBool (b : bool)
| JNum (n : jnum)
| JStr (s : jstr)
| JArr (l : list json)
| JObj (fields : list (jstr * json)).

Abbreviation obj := (list (jstr * json)).

Fixpoint jstr_eqb (a b : jstr) : bool :=
  match a, b with
  | [], [] => true
  | x :: a', y :: b' => (x =? y) && jstr_eqb a' b'
  | _, _ => false
  end.

Lemma jstr_eqb_eq a b : jstr_eqb a b = true <-> a = b.
Proof.
  revert b. induction a as [|x a IH]; intros [|y b]; simpl; try done.
  rewrite andb_true_iff, Z.eqb_eq, IH. naive_solver.
Qed.

Lemma jstr_eqb_refl a : jstr_eqb a a = true.
Proof. by apply jstr_eqb_eq. Qed.

(** [obj[key]] on an object made by [JSON.parse]; [None] is [undefined]. *)
Fixpoint obj_get (key : jstr) (o : obj) : option json :=
  match o with
  | [] => None
  | (k, v) :: o' => if jstr_eqb key k then Some v else obj_get key o'
  end.

(** *** safeJson.ts *)

(** [parseJsonObject], after [JSON.parse]. *)
Definition asJsonObject (parsed : json) : result obj :=
  match parsed with
  | JObj o => Ok o
  | _ => Throw (js "Expected JSON object")
  end.

Definition requireString (o : obj) (key : jstr) : result jstr :=
  match obj_get key o with
  | Some (JStr s) => Ok s
  | _ => Throw (js "Missing string: " ++ key)
  end.

Definition optionalString (o : obj) (key fallback : jstr) : jstr :=
  match obj_get key o with Some (JStr s) => s | _ => fallback end.

Definition isFinite (n : jnum) : bool := match n with NInf _ => false | _ => true end.

Definition requireNumber (o : obj) (key : jstr) : result jnum :=
  match obj_get key o with
  | Some (JNum n) => if isFinite n then Ok n else Throw (js "Missing number: " ++ key)
  | _ => Throw (js "Missing number: " ++ key)
  end.

Definition optionalNumber (o : obj) (key : jstr) (fallback : jnum) : jnum :=
  match obj_get key o with
  | Some (JNum n) => if isFinite n then n else fallback
  | _ => fallback
  end.

Definition requireInteger (o : obj) (key : jstr) (min : Z) : result Z :=
  let! value := requireNumber o key in
  match value with
  | NInt z => if isSafeInteger z && (min <=? z) then Ok z else Throw (js "Invalid integer: " ++ key)
  | _ => Throw (js "Invalid integer: " ++ key)
  end.

(** ** Message types *)

Definition MAX_TEXT_MESSAGE_CHARS : Z := 8000.
Definition PRODUCT_VERSION : jstr := js "2.0.0-beta.3".
Definition APP_VERSION : jstr := js "onlytwo-client-" ++ PRODUCT_VERSION.
Definition FEATURE_FLAGS : list jstr :=
  [js "text.v2"; js "file.window.v1"; js "voice.pcm16.v2"; js "verify.phrase.v1";
   js "reliable.v1"; js "voice.vad.v1"; js "voice.queue.v1"; js "relay.lifecycle.v1";
   js "room.profile.v1"].

Record HandshakeMessage := {
  hs_publicKey : jstr;
  hs_profileId : TransportProfileId;
  hs_profileHash : jstr;
  hs_appVersion : jstr;
  hs_featureFlags : list jstr;
}.

Inductive ReliableChannelName := channel_control | channel_text.

#[export] Instance ReliableChannelName_eq_dec : EqDecision ReliableChannelName.
Proof. solve_decision. Defined.

Inductive CoreAppMessage :=
| session_verified (at_ : Z)
| text_message (messageId body : jstr) (createdAt : Z)
| file_offer (fileId name mime : jstr) (size chunkSize totalChunks : Z) (sha256 : option jstr)
| file_accept (fileId : jstr)
| file_reject (fileId reason : jstr)
| file_chunk (fileId : jstr) (index totalChunks : Z) (data : jstr)
| file_ack (fileId : jstr) (index : Z)
| file_nack (fileId : jstr) (index : Z) (reason : jstr)
| file_pause (fileId reason : jstr)
| file_resume (fileId : jstr)
| file_cancel (fileId reason : jstr)
| file_complete (fileId : jstr) (sha256 : option jstr)
| voice_start (streamId : jstr) (sampleRate frameMs : Z) (mode : option VoicePrivacyMode)
| voice_frame (streamId : jstr) (seq sentAt sampleRate frameMs : Z) (pcm16 : jstr)
| voice_stop (streamId : jstr).

Inductive AppMessage :=
| Core (m : CoreAppMessage)
| reliable_msg (msg_id : jstr) (channel : ReliableChannelName) (body : CoreAppMessage)
    (createdAt attempt : Z)
| reliable_ack (msg_id : jstr)
| reliable_nack (msg_id reason : jstr).

(** The kinds a reliable wrapper may carry: [ReliableBodyMessage] is the
    subset of [CoreAppMessage] on which this is true. *)
Definition isReliableBody (m : CoreAppMessage) : bool :=
  match m with
  | file_chunk _ _ _ _ | file_ack _ _ | file_nack _ _ _ | voice_frame _ _ _ _ _ _ => false
  | _ => true
  end.

(** ** Decoders *)

Definition boundedString (o : obj) (key : jstr) (max : Z) : result jstr :=
  let! value := requireString o key in
  throw_if (zlength value =? 0) || (max <? zlength value) with js "Invalid string: " ++ key;
  Ok value.

Definition boundedOptionalString (o : obj) (key fallback : jstr) (max : Z) : result jstr :=
  let value := optionalString o key fallback in
  throw_if max <? zlength value with js "Invalid string: " ++ key;
  Ok value.

(** [/^[a-f0-9]{n}$/.test(s)]; [$] without the [m] flag only matches the end. *)
Definition is_hex_char (c : Z) : bool :=
  ((97 <=? c) && (c <=? 102)) || ((48 <=? c) && (c <=? 57)).

Definition is_hex (n : nat) (s : jstr) : bool := (length s =? n)%nat && forallb is_hex_char s.

Definition optionalSha256 (o : obj) : result jstr :=
  let value := optionalString o (js "sha256") [] in
  throw_if truthy value && negb (is_hex 64 value) with js "Invalid sha256";
  Ok value.

(** [...(s ? { sha256: s } : {})]. *)
Definition opt_of_str (s : jstr) : option jstr := if truthy s then Some s else None.

Definition MAX_TIMESTAMP : Z := 8640000000000000.

(** [now] is [Date.now()] during the synchronous decode. *)
Definition optionalTimestamp (now : Z) (o : obj) (key : jstr) : Z :=
  match optionalNumber o key (NInt now) with
  | NInt z => if negb (isSafeInteger z) || (z <? 0) || (MAX_TIMESTAMP <? z) then now else z
  | _ => now
  end.

Definition voice_mode_of (s : jstr) : result (option VoicePrivacyMode) :=
  if negb (truthy s) then Ok None
  else if jstr_eqb s (js "efficient") then Ok (Some mode_efficient)
  else if jstr_eqb s (js "maximum_privacy") then Ok (Some mode_maximum_privacy)
  else Throw (js "Invalid voice mode").

(** [switch (obj.kind) { case kind: ... }]. *)
Definition kind_is (o : obj) (kind : string) : bool :=
  match obj_get (js "kind") o with Some (JStr s) => jstr_eqb s (js kind) | _ => false end.

Definition ID_MAX : Z := 160.
Definition REASON_MAX : Z := 240.
Definition STREAM_MAX : Z := 80.
Definition DATA_MAX : Z := 400000.

Definition decodeCoreAppMessageObject (now : Z) (o : obj) : result CoreAppMessage :=
  let fileId := boundedString o (js "fileId") ID_MAX in
  let reason := boundedString o (js "reason") REASON_MAX in
  let streamId := boundedString o (js "streamId") STREAM_MAX in
  if kind_is o "session.verified" then Ok (session_verified (optionalTimestamp now o (js "at")))
  else if kind_is o "text.message" then
    let! messageId := boundedString o (js "messageId") ID_MAX in
    let! body := boundedString o (js "body") MAX_TEXT_MESSAGE_CHARS in
    Ok (text_message messageId body (optionalTimestamp now o (js "createdAt")))
  else if kind_is o "file.offer" then
    let! sha256 := optionalSha256 o in
    let! f := fileId in
    let! name := boundedString o (js "name") 180 in
    let! mime := boundedOptionalString o (js "mime") (js "application/octet-stream") 160 in
    let! size := requireInteger o (js "size") 1 in
    let! chunkSize := requireInteger o (js "chunkSize") 1 in
    let! totalChunks := requireInteger o (js "totalChunks") 1 in
    Ok (file_offer f name mime size chunkSize totalChunks (opt_of_str sha256))
  else if kind_is o "file.accept" then let! f := fileId in Ok (file_accept f)
  else if kind_is o "file.reject" then
    let! f := fileId in let! r := reason in Ok (file_reject f r)
  else if kind_is o "file.chunk" then
    let! f := fileId in
    let! index := requireInteger o (js "index") 0 in
    let! totalChunks := requireInteger o (js "totalChunks") 1 in
    let! data := boundedString o (js "data") DATA_MAX in
    Ok (file_chunk f index totalChunks data)
  else if kind_is o "file.ack" then
    let! f := fileId in let! index := requireInteger o (js "index") 0 in Ok (file_ack f index)
  else if kind_is o "file.nack" then
    let! f := fileId in
    let! index := requireInteger o (js "index") 0 in
    let! r := reason in Ok (file_nack f index r)
  else if kind_is o "file.pause" then
    let! f := fileId in let! r := reason in Ok (file_pause f r)
  else if kind_is o "file.resume" then let! f := fileId in Ok (file_resume f)
  else if kind_is o "file.cancel" then
    let! f := fileId in let! r := reason in Ok (file_cancel f r)
  else if kind_is o "file.complete" then
    let! sha256 := optionalSha256 o in
    let! f := fileId in Ok (file_complete f (opt_of_str sha256))
  else if kind_is o "voice.start" then
    let! mode := voice_mode_of (optionalString o (js "mode") []) in
    let! s := streamId in
    let! sampleRate := requireInteger o (js "sampleRate") 1 in
    let! frameMs := requireInteger o (js "frameMs") 1 in
    Ok (voice_start s sampleRate frameMs mode)
  else if kind_is o "voice.frame" then
    let! s := streamId in
    let! seq := requireInteger o (js "seq") 0 in
    let! sentAt := requireInteger o (js "sentAt") 0 in
    let! sampleRate := requireInteger o (js "sampleRate") 1 in
    let! frameMs := requireInteger o (js "frameMs") 1 in
    let! pcm16 := boundedString o (js "pcm16") DATA_MAX in
    Ok (voice_frame s seq sentAt sampleRate frameMs pcm16)
  else if kind_is o "voice.stop" then let! s := streamId in Ok (voice_stop s)
  else Throw (js "Unknown app message").

Definition decodeAppMessageObject (now : Z) (o : obj) : result AppMessage :=
  if kind_is o "reliable.msg" then
    let! channel := requireString o (js "channel") in
    let! ch := (if jstr_eqb channel (js "control") then Ok channel_control
                else if jstr_eqb channel (js "text") then Ok channel_text
                else Throw (js "Invalid reliable channel")) in
    let! body := (match obj_get (js "body") o with
                  | Some (JObj b) => Ok b
                  | _ => Throw (js "Invalid reliable body")
                  end) in
    let! decodedBody := decodeCoreAppMessageObject now body in
    throw_if negb (isReliableBody decodedBody) with js "Message kind is not reliable-wrappable";
    let! i := boundedString o (js "id") ID_MAX in
    let createdAt := optionalTimestamp now o (js "createdAt") in
    let! attempt := requireInteger o (js "attempt") 1 in
    Ok (reliable_msg i ch decodedBody createdAt attempt)
  else if kind_is o "reliable.ack" then
    let! i := boundedString o (js "id") ID_MAX in Ok (reliable_ack i)
  else if kind_is o "reliable.nack" then
    let! i := boundedString o (js "id") ID_MAX in
    let! r := boundedString o (js "reason") REASON_MAX in Ok (reliable_nack i r)
  else let! m := decodeCoreAppMessageObject now o in Ok (Core m).

(** [featureFlags.some(v => typeof v !== "string" || ...)], negated. *)
Fixpoint flags_of (l : list json) : option (list jstr) :=
  match l with
  | [] => Some []
  | JStr s :: l' =>
      if (zlength s =? 0) || (64 <? zlength s) then None
      else fs ← flags_of l'; Some (s :: fs)
  | _ => None
  end.

Definition decodeHandshakeObject (o : obj) : result HandshakeMessage :=
  throw_if negb (kind_is o "handshake.v2") with js "Unsupported handshake";
  let! flags := (match obj_get (js "featureFlags") o with
                 | Some (JArr l) =>
                     if 64 <? zlength l then Throw (js "Invalid feature flags")
                     else match flags_of l with
                          | Some fs => Ok fs
                          | None => Throw (js "Invalid feature flags")
                          end
                 | _ => Throw (js "Invalid feature flags")
                 end) in
  let! profileId := requireString o (js "profileId") in
  let! profileHashValue := requireString o (js "profileHash") in
  let! i := (match parseProfileId profileId with
             | Some i => Ok i
             | None => Throw (js "Invalid room profile")
             end) in
  throw_if negb (is_hex 32 profileHashValue) with js "Invalid profile hash";
  let! publicKey := boundedString o (js "publicKey") 100 in
  let! appVersion := boundedOptionalString o (js "appVersion") (js "unknown") 100 in
  Ok {| hs_publicKey := publicKey; hs_profileId := i; hs_profileHash := profileHashValue;
        hs_appVersion := appVersion; hs_featureFlags := flags |}.

(** ** Encoders

    The object [JSON.parse(JSON.stringify(message))]: [JSON.stringify] drops
    the optional properties that are absent. *)
Definition field_str (k : string) (s : jstr) : jstr * json := (js k, JStr s).
Definition field_int (k : string) (z : Z) : jstr * json := (js k, JNum (NInt z)).
Definition field_opt (k : string) (o : option jstr) : obj :=
  match o with Some s => [field_str k s] | None => [] end.
Definition kind (k : string) : jstr * json := field_str "kind" (js k).

Definition voice_mode_str (m : VoicePrivacyMode) : jstr :=
  match m with
  | mode_efficient => js "efficient"
  | mode_maximum_privacy => js "maximum_privacy"
  end.

Definition core_to_object (m : CoreAppMessage) : obj :=
  match m with
  | session_verified a => [kind "session.verified"; field_int "at" a]
  | text_message i b c =>
      [kind "text.message"; field_str "messageId" i; field_str "body" b; field_int "createdAt" c]
  | file_offer f n m s c t h =>
      [kind "file.offer"; field_str "fileId" f; field_str "name" n; field_str "mime" m;
       field_int "size" s; field_int "chunkSize" c; field_int "totalChunks" t] ++ field_opt "sha256" h
  | file_accept f => [kind "file.accept"; field_str "fileId" f]
  | file_reject f r => [kind "file.reject"; field_str "fileId" f; field_str "reason" r]
  | file_chunk f i t d =>
      [kind "file.chunk"; field_str "fileId" f; field_int "index" i; field_int "totalChunks" t;
       field_str "data" d]
  | file_ack f i => [kind "file.ack"; field_str "fileId" f; field_int "index" i]
  | file_nack f i r =>
      [kind "file.nack"; field_str "fileId" f; field_int "index" i; field_str "reason" r]
  | file_pause f r => [kind "file.pause"; field_str "fileId" f; field_str "reason" r]
  | file_resume f => [kind "file.resume"; field_str "fileId" f]
  | file_cancel f r => [kind "file.cancel"; field_str "fileId" f; field_str "reason" r]
  | file_complete f h => [kind "file.complete"; field_str "fileId" f] ++ field_opt "sha256" h
  | voice_start s r f m =>
      [kind "voice.start"; field_str "streamId" s; field_int "sampleRate" r; field_int "frameMs" f]
      ++ field_opt "mode" (voice_mode_str <$> m)
  | voice_frame s q a r f p =>
      [kind "voice.frame"; field_str "streamId" s; field_int "seq" q; field_int "sentAt" a;
       field_int "sampleRate" r; field_int "frameMs" f; field_str "pcm16" p]
  | voice_stop s => [kind "voice.stop"; field_str "streamId" s]
  end.

Definition channel_str (c : ReliableChannelName) : jstr :=
  match c with channel_control => js "control" | channel_text => js "text" end.

Definition message_to_object (m : AppMessage) : obj :=
  match m with
  | Core m => core_to_object m
  | reliable_msg i ch b c a =>
      [kind "reliable.msg"; field_str "id" i; field_str "channel" (channel_str ch);
       (js "body", JObj (core_to_object b)); field_int "createdAt" c; field_int "attempt" a]
  | reliable_ack i => [kind "reliable.ack"; field_str "id" i]
  | reliable_nack i r => [kind "reliable.nack"; field_str "id" i; field_str "reason" r]
  end.

Definition handshake_to_object (h : HandshakeMessage) : obj :=
  [kind "handshake.v2"; field_str "publicKey" (hs_publicKey h);
   field_str "profileId" (profile_key (hs_profileId h));
   field_str "profileHash" (hs_profileHash h); field_str "appVersion" (hs_appVersion h);
   (js "featureFlags", JArr (JStr <$> hs_featureFlags h))].

(** ** Well-formed messages: the bounds a decoded message satisfies *)

Definition str_in (max : Z) (s : jstr) : bool := negb (zlength s =? 0) && (zlength s <=? max).
Definition int_from (min z : Z) : bool := isSafeInteger z && (min <=? z).
Definition timestamp_ok (z : Z) : bool := (0 <=? z) && (z <=? MAX_TIMESTAMP).
Definition sha_ok (o : option jstr) : bool :=
  match o with None => true | Some s => is_hex 64 s end.

Definition core_valid (m : CoreAppMessage) : bool :=
  match m with
  | session_verified a => timestamp_ok a
  | text_message i b c => str_in ID_MAX i && str_in MAX_TEXT_MESSAGE_CHARS b && timestamp_ok c
  | file_offer f n m s c t h =>
      str_in ID_MAX f && str_in 180 n && (zlength m <=? 160) &&
      int_from 1 s && int_from 1 c && int_from 1 t && sha_ok h
  | file_accept f | file_resume f => str_in ID_MAX f
  | file_reject f r | file_pause f r | file_cancel f r => str_in ID_MAX f && str_in REASON_MAX r
  | file_chunk f i t d => str_in ID_MAX f && int_from 0 i && int_from 1 t && str_in DATA_MAX d
  | file_ack f i => str_in ID_MAX f && int_from 0 i
  | file_nack f i r => str_in ID_MAX f && int_from 0 i && str_in REASON_MAX r
  | file_complete f h => str_in ID_MAX f && sha_ok h
  | voice_start s r f _ => str_in STREAM_MAX s && int_from 1 r && int_from 1 f
  | voice_frame s q a r f p =>
      str_in STREAM_MAX s && int_from 0 q && int_from 0 a && int_from 1 r && int_from 1 f &&
      str_in DATA_MAX p
  | voice_stop s => str_in STREAM_MAX s
  end.

Definition message_valid (m : AppMessage) : bool :=
  match m with
  | Core m => core_valid m
  | reliable_msg i _ b c a =>
      str_in ID_MAX i && core_valid b && isReliableBody b && timestamp_ok c && int_from 1 a
  | reliable_ack i => str_in ID_MAX i
  | reliable_nack i r => str_in ID_MAX i && str_in REASON_MAX r
  end.

Definition handshake_valid (h : HandshakeMessage) : bool :=
  str_in 100 (hs_publicKey h) && is_hex 32 (hs_profileHash h) &&
  (zlength (hs_appVersion h) <=? 100) && (zlength (hs_featureFlags h) <=? 64) &&
  forallb (str_in 64) (hs_featureFlags h).

(** ** Accessors on encoded objects *)

Lemma boundedString_ok o key s max :
  obj_get key o = Some (JStr s) -> str_in max s = true -> boundedString o key max = Ok s.
Proof.
  intros Hg Hs. unfold boundedString, requireString. rewrite Hg. simpl.
  unfold str_in in Hs. bool_facts. rewrite (proj2 (Z.eqb_neq _ _)), (proj2 (Z.ltb_ge _ _)) by lia. done.
Qed.

Lemma requireInteger_ok o key z min :
  obj_get key o = Some (JNum (NInt z)) -> int_from min z = true -> requireInteger o key min = Ok z.
Proof.
  intros Hg Hz. unfold requireInteger, requireNumber. rewrite Hg. simpl.
  unfold int_from in Hz. by rewrite Hz.
Qed.

Lemma optionalTimestamp_ok now o key z :
  obj_get key o = Some (JNum (NInt z)) -> timestamp_ok z = true -> optionalTimestamp now o key = z.
Proof.
  intros Hg Hz. unfold optionalTimestamp, optionalNumber. rewrite Hg. simpl.
  unfold timestamp_ok, isSafeInteger, MAX_TIMESTAMP, MAX_SAFE_INTEGER in *. crush.
Qed.

Lemma boundedOptionalString_ok o key d s max :
  obj_get key o = Some (JStr s) -> (zlength s <=? max) = true -> boundedOptionalString o key d max = Ok s.
Proof.
  intros Hg Hs. unfold boundedOptionalString, optionalString. rewrite Hg. crush.
Qed.

Lemma is_hex_truthy n s : is_hex (S n) s = true -> truthy s = true.
Proof. by destruct s. Qed.

Lemma optionalSha256_ok o h :
  obj_get (js "sha256") o = JStr <$> h -> sha_ok h = true ->
  exists s, optionalSha256 o = Ok s /\ opt_of_str s = h.
Proof.
  intros Hg Hs. unfold optionalSha256, optionalString, opt_of_str. rewrite Hg.
  destruct h as [h|]; simpl in *; [|by exists []].
  exists h. rewrite Hs, (is_hex_truthy _ _ Hs). done.
Qed.

Lemma voice_mode_of_ok o m :
  obj_get (js "mode") o = (JStr ∘ voice_mode_str) <$> m ->
  voice_mode_of (optionalString o (js "mode") []) = Ok m.
Proof. intros Hg. unfold optionalString. rewrite Hg. by destruct m as [[]|]. Qed.

(** Decide the [switch] on the kind of an encoded object. *)
Ltac run_kind :=
  repeat match goal with
  | |- context [kind_is ?o ?k] =>
      let b := eval vm_compute in (kind_is o k) in
      change (kind_is o k) with b; cbv iota
  end.

Ltac run_field :=
  first
    [ erewrite boundedString_ok; [|reflexivity|eassumption]
    | erewrite requireInteger_ok; [|reflexivity|eassumption]
    | erewrite optionalTimestamp_ok; [|reflexivity|eassumption]
    | erewrite boundedOptionalString_ok; [|reflexivity|eassumption] ];
  cbn [rbind].

Ltac split_valid :=
  repeat match goal with H : andb _ _ = true |- _ => apply andb_prop in H; destruct H end.

Lemma obj_get_field_opt k k' h rest o :
  obj_get (js k) rest = None ->
  obj_get (js k) (rest ++ field_opt k' h) = o <-> obj_get (js k) (field_opt k' h) = o.
Proof.
  intros Hn. assert (obj_get (js k) (rest ++ field_opt k' h) = obj_get (js k) (field_opt k' h)) as ->; [|done].
  revert Hn. induction rest as [|[k0 v0] rest IH]; simpl; [done|]. by destruct (jstr_eqb _ _).
Qed.

Lemma decode_core_roundtrip now m :
  core_valid m = true -> decodeCoreAppMessageObject now (core_to_object m) = Ok m.
Proof.
  intros Hv. destruct m; cbn [core_valid] in Hv; split_valid;
    unfold decodeCoreAppMessageObject; cbv zeta; run_kind; cbn [core_to_object].
  all: try (repeat run_field; reflexivity).
  - edestruct optionalSha256_ok as (s & -> & Hs);
      [|eassumption|cbn [rbind]; repeat run_field; by rewrite Hs].
    by destruct sha256.
  - edestruct optionalSha256_ok as (s & -> & Hs);
      [|eassumption|cbn [rbind]; repeat run_field; by rewrite Hs].
    by destruct sha256.
  - erewrite voice_mode_of_ok; [cbn [rbind]; repeat run_field; reflexivity|].
    by destruct mode as [[]|].
Qed.

Lemma decode_channel ch :
  (if jstr_eqb (channel_str ch) (js "control") then Ok channel_control
   else if jstr_eqb (channel_str ch) (js "text") then Ok channel_text
   else Throw (js "Invalid reliable channel")) = Ok ch.
Proof. by destruct ch. Qed.

(** Decoding the object of a well-formed message, wrapped or not, returns
    the message itself. *)
Lemma decode_message_encode now m :
  message_valid m = true -> decodeAppMessageObject now (message_to_object m) = Ok m.
Proof.
  intros Hv. destruct m as [m|i ch b c a|i|i r]; cbn [message_valid] in Hv; split_valid.
  - unfold decodeAppMessageObject. cbn [message_to_object].
    assert (forall k, k = "reliable.msg"%string \/ k = "reliable.ack"%string \/ k = "reliable.nack"%string ->
      kind_is (core_to_object m) k = false) as Hk by (destruct m; naive_solver).
    rewrite !Hk by tauto. by rewrite decode_core_roundtrip.
  - unfold decodeAppMessageObject. run_kind. cbn [message_to_object].
    change (requireString _ (js "channel")) with (Ok (channel_str ch)). cbn [rbind].
    rewrite decode_channel. cbn [rbind].
    change (obj_get (js "body") _) with (Some (JObj (core_to_object b))). cbn [rbind].
    rewrite decode_core_roundtrip by done. cbn [rbind].
    replace (isReliableBody b) with true by done. cbn [negb]. cbv zeta. by repeat run_field.
  - unfold decodeAppMessageObject. run_kind. cbn [message_to_object]. by repeat run_field.
  - unfold decodeAppMessageObject. run_kind. cbn [message_to_object]. by repeat run_field.
Qed.

(** ** Soundness of the decoders *)

Lemma boundedString_sound o key max s : boundedString o key max = Ok s -> str_in max s = true.
Proof.
  unfold boundedString, str_in. intros H. simp_result. crush.
Qed.

Lemma requireInteger_sound o key min z : requireInteger o key min = Ok z -> int_from min z = true.
Proof.
  unfold requireInteger, int_from. intros H. simp_result. destruct a; [|done|done].
  destruct (isSafeInteger z0 && (min <=? z0)) eqn:E; by simplify_eq.
Qed.

Lemma boundedOptionalString_sound o key d max s :
  boundedOptionalString o key d max = Ok s -> (zlength s <=? max) = true.
Proof. unfold boundedOptionalString. intros H. crush. Qed.

Lemma optionalSha256_sound o s : optionalSha256 o = Ok s -> sha_ok (opt_of_str s) = true.
Proof.
  unfold optionalSha256, opt_of_str. intros H.
  destruct (truthy (optionalString o (js "sha256") []) && _) eqn:E; simp_result. subst.
  destruct (truthy _) eqn:Et; [|done]. simpl in *. by apply negb_false_iff in E.
Qed.

Lemma optionalTimestamp_sound now o key :
  timestamp_ok now = true -> timestamp_ok (optionalTimestamp now o key) = true.
Proof.
  intros Hn. unfold optionalTimestamp. destruct (optionalNumber _ _ _) as [z| |]; [|done|done].
  destruct (_ || _) eqn:E; [done|]. bool_facts. unfold timestamp_ok, MAX_TIMESTAMP in *.
  apply andb_true_intro. split; apply Z.leb_le; lia.
Qed.

#[export] Hint Resolve boundedString_sound requireInteger_sound boundedOptionalString_sound
  optionalSha256_sound optionalTimestamp_sound : onlytwo.

Ltac prove_valid :=
  cbn [core_valid message_valid handshake_valid]; rewrite ?andb_true_iff; split_and?;
  eauto with onlytwo.

Lemma decode_core_sound now o m :
  timestamp_ok now = true -> decodeCoreAppMessageObject now o = Ok m -> core_valid m = true.
Proof.
  intros Hn H. unfold decodeCoreAppMessageObject in H. cbv zeta in H.
  repeat match type of H with
  | (if kind_is ?o ?k then _ else _) = _ => destruct (kind_is o k)
  end; simp_result; subst; try done; prove_valid.
Qed.

Lemma decode_message_valid now o m :
  timestamp_ok now = true -> decodeAppMessageObject now o = Ok m -> message_valid m = true.
Proof.
  intros Hn H. unfold decodeAppMessageObject in H.
  destruct (kind_is o "reliable.msg").
  - simp_result.
    match type of H with (if negb ?b then _ else _) = _ => destruct b eqn:Eb end; [|done].
    cbn [negb] in H. cbv zeta in H. simp_result. subst. prove_valid; eauto using decode_core_sound.
  - destruct (kind_is o "reliable.ack"); [simp_result; subst; prove_valid|].
    destruct (kind_is o "reliable.nack"); simp_result; subst; prove_valid.
    by eapply decode_core_sound.
Qed.

(** C27: every message the decoder accepts satisfies the bounds of its type:
    identifiers, texts and payloads are non-empty and no longer than their
    limit, integers are safe and above their minimum, digests are 64 lower
    hexadecimal digits, timestamps are valid dates, and a reliable wrapper
    never carries a chunk, an acknowledgement or a voice frame. *)
Theorem decode_message_sound now o m :
  timestamp_ok now = true -> decodeAppMessageObject now o = Ok m -> message_valid m = true.
Proof. apply decode_message_valid. Qed.

Lemma flags_of_str l : forallb (str_in 64) l = true -> flags_of (JStr <$> l) = Some l.
Proof.
  induction l as [|s l IH]; [done|]. cbn [forallb]. intros [Hs Hl]%andb_prop.
  csimpl. rewrite IH by done. unfold str_in in Hs. bool_facts.
  rewrite (proj2 (Z.eqb_neq _ _)), (proj2 (Z.ltb_ge _ _)) by lia. done.
Qed.

Lemma flags_of_sound l fs :
  flags_of l = Some fs -> zlength fs = zlength l /\ forallb (str_in 64) fs = true.
Proof.
  revert fs. induction l as [|v l IH]; intros fs; simpl; [intros [= <-]; done|].
  destruct v as [| | |s| |]; try done. destruct (_ || _) eqn:E; [done|]. bool_facts.
  destruct (flags_of l) as [fs'|]; simpl; [|done]. intros [= <-].
  destruct (IH fs' eq_refl) as [Hl Hf]. rewrite !zlength_cons, Hl. split; [done|].
  cbn [forallb]. rewrite Hf, andb_true_r. unfold str_in.
  apply andb_true_intro. split; [apply negb_true_iff, Z.eqb_neq|apply Z.leb_le]; lia.
Qed.

Lemma decode_handshake_encode h :
  handshake_valid h = true -> decodeHandshakeObject (handshake_to_object h) = Ok h.
Proof.
  intros Hv. destruct h as [pk i hash v fl]. unfold handshake_valid in Hv. cbn in Hv. split_valid.
  unfold decodeHandshakeObject. run_kind. cbn [negb].
  change (obj_get (js "featureFlags") _) with (Some (JArr (JStr <$> fl))). cbv iota beta.
  replace (64 <? zlength (JStr <$> fl)) with false.
  2:{ symmetry. apply Z.ltb_ge. unfold zlength. rewrite length_fmap. fold (zlength fl). bool_facts. lia. }
  rewrite flags_of_str by done. cbn [rbind].
  change (requireString _ (js "profileId")) with (Ok (profile_key i)).
  change (requireString _ (js "profileHash")) with (Ok hash). cbn [rbind].
  rewrite parseProfileId_key. cbn [rbind].
  replace (is_hex 32 hash) with true by done. cbn [negb]. by repeat run_field.
Qed.

Lemma decode_handshake_sound o h : decodeHandshakeObject o = Ok h -> handshake_valid h = true.
Proof.
  unfold decodeHandshakeObject. intros H. destruct (kind_is o "handshake.v2"); [|done].
  cbn [negb] in H. simp_result.
  match type of H with (if negb ?b then _ else _) = _ => destruct b eqn:Eb end; [|done].
  cbn [negb] in H. simp_result. subst. unfold handshake_valid. cbn.
  destruct (obj_get _ o) as [[| | | |l|]|]; try done. destruct (64 <? zlength l) eqn:El; [done|].
  destruct (flags_of l) as [fs|] eqn:Ef; simp_result; subst. apply flags_of_sound in Ef as [Hl Hf].
  rewrite Eb, Hl, Hf. bool_facts. prove_valid. apply Z.leb_le. lia.
Qed.

(** ** Streams: [validateInboundStream] *)

Definition is_text_message (m : CoreAppMessage) : bool :=
  match m with text_message _ _ _ => true | _ => false end.

Definition validateInboundStream (message : AppMessage) (streamId : Z) : result unit :=
  if streamId =? 1 then
    match message with
    | reliable_ack _ | reliable_nack _ _ | Core (file_ack _ _) | Core (file_nack _ _ _) => Ok tt
    | reliable_msg _ channel_control body _ _ =>
        if negb (is_text_message body) then Ok tt
        else Throw (js "Message kind does not match control stream")
    | _ => Throw (js "Message kind does not match control stream")
    end
  else if streamId =? 2 then
    match message with
    | reliable_msg _ channel_text (text_message _ _ _) _ _ => Ok tt
    | _ => Throw (js "Message kind does not match text stream")
    end
  else if streamId =? 3 then
    match message with
    | Core (file_chunk _ _ _ _) => Ok tt
    | _ => Throw (js "Message kind does not match file stream")
    end
  else if streamId =? 4 then
    match message with
    | Core (voice_frame _ _ _ _ _ _) => Ok tt
    | _ => Throw (js "Message kind does not match voice stream")
    end
  else Throw (js "Unknown encrypted stream").

(** The one stream a message may use; 0 when there is none. *)
Definition stream_of (m : AppMessage) : Z :=
  match m with
  | reliable_ack _ | reliable_nack _ _ | Core (file_ack _ _) | Core (file_nack _ _ _) => 1
  | reliable_msg _ channel_control body _ _ => if is_text_message body then 0 else 1
  | reliable_msg _ channel_text body _ _ => if is_text_message body then 2 else 0
  | Core (file_chunk _ _ _ _) => 3
  | Core (voice_frame _ _ _ _ _ _) => 4
  | _ => 0
  end.

Lemma validateInboundStream_spec m s :
  validateInboundStream m s = Ok tt <-> s = stream_of m /\ s <> 0.
Proof.
  unfold validateInboundStream.
  destruct (Z.eqb_spec s 1) as [->|]; [|destruct (Z.eqb_spec s 2) as [->|];
    [|destruct (Z.eqb_spec s 3) as [->|]; [|destruct (Z.eqb_spec s 4) as [->|]]]].
  all: destruct m as [m|i ch b c a| |]; try destruct m; try destruct ch; try destruct b;
    cbn; split; try done; lia.
Qed.

(** A message is accepted on a stream exactly when it is the one stream of
    that message, so an authenticated frame can never deliver a message kind
    that belongs to another stream. *)
Theorem validateInboundStream_iff m s :
  validateInboundStream m s = Ok tt <-> s = stream_of m /\ s <> 0.
Proof. apply validateInboundStream_spec. Qed.

(** ** Witnesses *)

Definition sample_offer : CoreAppMessage :=
  file_offer (js "file_1") (js "a.txt") (js "text/plain") 10 4 3 (Some (replicate 64 97)).

Definition sample_reliable : AppMessage :=
  reliable_msg (js "rel-1") channel_control sample_offer 5 1.

Lemma decode_message_sound_witness : message_valid sample_reliable = true.
Proof.
  apply (decode_message_sound 7 (message_to_object sample_reliable)); by vm_compute.
Defined.

(** A wrapper around a voice frame is refused. *)
Example reject_wrapped_frame :
  decodeAppMessageObject 7
    [kind "reliable.msg"; field_str "id" (js "r"); field_str "channel" (js "control");
     (js "body", JObj (core_to_object (voice_frame (js "v") 1 1 48000 20 (js "AA"))));
     field_int "createdAt" 1; field_int "attempt" 1]
  = Throw (js "Message kind is not reliable-wrappable").
Proof. vm_compute. reflexivity. Qed.
