(* ===== verification/Json.v ===== *)
(** * JSON text: [JSON.stringify] and [JSON.parse]

    The text level of the messages: [encodeAppMessage], [decodeAppMessage],
    [encodeHandshake] and [decodeHandshake] of
    [client/src/protocol/appMessages.ts] and [parseJsonObject] of
    [client/src/utils/safeJson.ts], over the objects of [Messages]. *)
From S2P Require Import Prelude JsMap Bytes Utf8 Profiles Messages.

(** ** [JSON.stringify] *)

Definition c_quote : Z := 34.
Definition c_backslash : Z := 92.

(** [\uXXXX] with lower case digits. *)
Definition unicode_escape (u : Z) : jstr :=
  [c_backslash; 117; hex_digit (u / 4096); hex_digit (u / 256 mod 16);
   hex_digit (u / 16 mod 16); hex_digit (u mod 16)].

Definition quote_unit (u : Z) : jstr :=
  if u =? c_quote then [c_backslash; c_quote]
  else if u =? c_backslash then [c_backslash; c_backslash]
  else if u =? 8 then [c_backslash; 98]
  else if u =? 9 then [c_backslash; 116]
  else if u =? 10 then [c_backslash; 110]
  else if u =? 12 then [c_backslash; 102]
  else if u =? 13 then [c_backslash; 114]
  else if u <? 32 then unicode_escape u
  else [u].

(** An unpaired surrogate is escaped. *)
Fixpoint quote_units (s : jstr) : jstr :=
  match s with
  | [] => []
  | u :: s' =>
      if is_high u then
        match s' with
        | v :: s'' => if is_low v then u :: v :: quote_units s'' else unicode_escape u ++ quote_units s'
        | [] => unicode_escape u
        end
      else if is_low u then unicode_escape u ++ quote_units s'
      else quote_unit u ++ quote_units s'
  end.

Definition quote (s : jstr) : jstr := [c_quote] ++ quote_units s ++ [c_quote].

(** The text of a fractional double is not modelled: no message has one. *)
Definition number_text (n : jnum) : option jstr :=
  match n with
  | NInt z => Some (js_int z)
  | NFrac _ _ => None
  | NInf _ => Some (js "null")
  end.

Fixpoint commas (parts : list jstr) : jstr :=
  match parts with
  | [] => []
  | [p] => p
  | p :: parts' => p ++ js "," ++ commas parts'
  end.

Fixpoint stringify (v : json) : option jstr :=
  match v with
  | JNull => Some (js "null")
  | JBool b => Some (if b then js "true" else js "false")
  | JNum n => number_text n
  | JStr s => Some (quote s)
  | JArr l => parts ← mapM stringify l; Some (js "[" ++ commas parts ++ js "]")
  | JObj fields =>
      parts ← mapM (fun p => t ← stringify p.2; Some (quote p.1 ++ js ":" ++ t)) fields;
      Some (js "{" ++ commas parts ++ js "}")
  end.

(** ** [JSON.parse] *)

Definition is_ws (c : Z) : bool := (c =? 32) || (c =? 9) || (c =? 10) || (c =? 13).

Fixpoint skip_ws (s : jstr) : jstr :=
  match s with c :: s' => if is_ws c then skip_ws s' else s | [] => [] end.

Definition hex_value (c : Z) : option Z :=
  if (48 <=? c) && (c <=? 57) then Some (c - 48)
  else if (97 <=? c) && (c <=? 102) then Some (c - 87)
  else if (65 <=? c) && (c <=? 70) then Some (c - 55)
  else None.

Definition escaped (c : Z) : option Z :=
  if (c =? c_quote) || (c =? c_backslash) || (c =? 47) then Some c
  else if c =? 98 then Some 8
  else if c =? 116 then Some 9
  else if c =? 110 then Some 10
  else if c =? 102 then Some 12
  else if c =? 114 then Some 13
  else None.

(** After the opening quote. *)
Fixpoint parse_string (s : jstr) : option (jstr * jstr) :=
  match s with
  | [] => None
  | c :: s1 =>
      if c =? c_quote then Some ([], s1)
      else if c =? c_backslash then
        match s1 with
        | [] => None
        | e :: s2 =>
            if e =? 117 then
              match s2 with
              | a :: b :: c' :: d :: s3 =>
                  a ← hex_value a; b ← hex_value b; c' ← hex_value c'; d ← hex_value d;
                  p ← parse_string s3;
                  Some (a * 4096 + b * 256 + c' * 16 + d :: p.1, p.2)
              | _ => None
              end
            else
              u ← escaped e; p ← parse_string s2; Some (u :: p.1, p.2)
        end
      else if c <? 32 then None
      else p ← parse_string s1; Some (c :: p.1, p.2)
  end.

Definition is_digit (c : Z) : bool := (48 <=? c) && (c <=? 57).

Fixpoint digits (s : jstr) : jstr * jstr :=
  match s with
  | c :: s' => if is_digit c then let '(d, r) := digits s' in (c :: d, r) else ([], s)
  | [] => ([], [])
  end.

Definition value_of (ds : jstr) : Z := foldl (fun acc c => acc * 10 + (c - 48)) 0 ds.

(** Round half to even. *)
Definition round_even (num den : Z) : Z :=
  let q := num / den in
  let r := num mod den in
  if (den <? 2 * r) || ((den =? 2 * r) && Z.odd q) then q + 1 else q.

(** The double nearest to [num / den], for positive [num] and [den]. *)
Definition nearest (num den : Z) : jnum :=
  let e := Z.log2 (num * 2 ^ 1100 / den) - 1100 in
  let shift := Z.max (-1074) (e - 52) in
  let q := if 0 <=? shift then round_even num (den * 2 ^ shift)
           else round_even (num * 2 ^ (- shift)) den in
  if 0 <=? shift then
    if 2 ^ 1024 <=? q * 2 ^ shift then NInf false else NInt (q * 2 ^ shift)
  else if q mod 2 ^ (- shift) =? 0 then NInt (q / 2 ^ (- shift))
  else NFrac q (Z.to_pos (2 ^ (- shift))).

Definition negate (n : jnum) : jnum :=
  match n with NInt z => NInt (- z) | NFrac a b => NFrac (- a) b | NInf b => NInf (negb b) end.

(** [m * 10^e]: integers below 2^53 are doubles themselves. *)
Definition number_value (m e : Z) : jnum :=
  if m =? 0 then NInt 0
  else if 0 <=? e then
    let n := m * 10 ^ e in if n <? 2 ^ 53 then NInt n else nearest n 1
  else nearest m (10 ^ (- e)).

(** The digits after a dot, and the exponent. *)
Definition parse_fraction (s : jstr) : option (jstr * jstr) :=
  match s with
  | 46 :: s' => match digits s' with ([], _) => None | (d, r) => Some (d, r) end
  | _ => Some ([], s)
  end.

Definition parse_exponent (s : jstr) : option (Z * jstr) :=
  match s with
  | c :: s' =>
      if (c =? 101) || (c =? 69) then
        let '(sign, s2) := match s' with
                           | 43 :: r => (1, r)
                           | 45 :: r => (-1, r)
                           | _ => (1, s')
                           end in
        match digits s2 with ([], _) => None | (d, r) => Some (sign * value_of d, r) end
      else Some (0, s)
  | [] => Some (0, [])
  end.

(** After an optional minus sign; no leading zeros. *)
Definition parse_unsigned (s : jstr) : option (jnum * jstr) :=
  let '(d, r) := digits s in
  match d with
  | [] => None
  | c :: d' =>
      if (c =? 48) && negb (zlength d' =? 0) then None
      else
        f ← parse_fraction r;
        x ← parse_exponent f.2;
        Some (number_value (value_of (d ++ f.1)) (x.1 - zlength f.1), x.2)
  end.

Definition parse_number (s : jstr) : option (jnum * jstr) :=
  match s with
  | 45 :: s' => p ← parse_unsigned s'; Some (negate p.1, p.2)
  | _ => parse_unsigned s
  end.

Fixpoint strip (word s : jstr) : option jstr :=
  match word, s with
  | [], _ => Some s
  | w :: word', c :: s' => if w =? c then strip word' s' else None
  | _, [] => None
  end.

(** The recursion of the parser: one unit of fuel per value and per member,
    each of which takes at least one character. *)
Fixpoint parse_value (fuel : nat) (s : jstr) : option (json * jstr) :=
  match fuel with
  | O => None
  | S f =>
      match skip_ws s with
      | [] => None
      | c :: r =>
          if c =? 123 then
            match skip_ws r with
            | 125 :: r' => Some (JObj [], r')
            | _ => parse_members f [] r
            end
          else if c =? 91 then
            match skip_ws r with
            | 93 :: r' => Some (JArr [], r')
            | _ => parse_elements f [] r
            end
          else if c =? c_quote then p ← parse_string r; Some (JStr p.1, p.2)
          else if c =? 110 then r' ← strip (js "null") (c :: r); Some (JNull, r')
          else if c =? 116 then r' ← strip (js "true") (c :: r); Some (JBool true, r')
          else if c =? 102 then r' ← strip (js "false") (c :: r); Some (JBool false, r')
          else p ← parse_number (c :: r); Some (JNum p.1, p.2)
      end
  end
with parse_members (fuel : nat) (acc : obj) (s : jstr) : option (json * jstr) :=
  match fuel with
  | O => None
  | S f =>
      match skip_ws s with
      | 34 :: r =>
          k ← parse_string r;
          match skip_ws k.2 with
          | 58 :: r2 =>
              v ← parse_value f r2;
              let acc := map_set k.1 v.1 acc in
              match skip_ws v.2 with
              | 44 :: r3 => parse_members f acc r3
              | 125 :: r3 => Some (JObj acc, r3)
              | _ => None
              end
          | _ => None
          end
      | _ => None
      end
  end
with parse_elements (fuel : nat) (acc : list json) (s : jstr) : option (json * jstr) :=
  match fuel with
  | O => None
  | S f =>
      v ← parse_value f s;
      let acc := acc ++ [v.1] in
      match skip_ws v.2 with
      | 44 :: r => parse_elements f acc r
      | 93 :: r => Some (JArr acc, r)
      | _ => None
      end
  end.

Definition syntax_error : jstr := js "Unexpected token in JSON".

Definition JSON_parse (text : jstr) : result json :=
  match parse_value (S (length text)) text with
  | Some (v, rest) => match skip_ws rest with [] => Ok v | _ => Throw syntax_error end
  | None => Throw syntax_error
  end.

(** ** The codecs of the sources *)

Definition parseJsonObject (text : jstr) : result obj :=
  let! v := JSON_parse text in asJsonObject v.

Definition encode_object (o : obj) : option bytes := utf8Encode <$> stringify (JObj o).

Definition encodeAppMessage (message : AppMessage) : option bytes :=
  encode_object (message_to_object message).

Definition decodeAppMessage (now : Z) (plaintext : bytes) : result AppMessage :=
  let! text := utf8Decode plaintext in
  let! o := parseJsonObject text in
  decodeAppMessageObject now o.

Definition encodeHandshake (message : HandshakeMessage) : option bytes :=
  encode_object (handshake_to_object message).

Definition decodeHandshake (payload : bytes) : result HandshakeMessage :=
  let! text := utf8Decode payload in
  let! o := parseJsonObject text in
  decodeHandshakeObject o.

(** ** Strings come back *)

Lemma hex_value_digit n : 0 <= n < 16 -> hex_value (hex_digit n) = Some n.
Proof.
  intros Hn. unfold hex_value, hex_digit. destruct (Z.ltb_spec n 10).
  - destruct (Z.leb_spec 48 (48 + n)), (Z.leb_spec (48 + n) 57); try lia. cbn. f_equal. lia.
  - destruct (Z.leb_spec 48 (87 + n)), (Z.leb_spec (87 + n) 57); try lia.
    destruct (Z.leb_spec 97 (87 + n)), (Z.leb_spec (87 + n) 102); try lia. cbn. f_equal. lia.
Qed.

Lemma parse_unicode u rest :
  is_unit u ->
  parse_string (unicode_escape u ++ rest) = (p ← parse_string rest; Some (u :: p.1, p.2)).
Proof.
  intros Hu. unfold is_unit in Hu. unfold unicode_escape. cbn [app parse_string].
  change (c_backslash =? c_quote) with false. change (c_backslash =? c_backslash) with true.
  change (117 =? 117) with true. cbv iota.
  rewrite !hex_value_digit by (Z.to_euclidean_division_equations; lia). cbn [mbind option_bind].
  destruct (parse_string rest) as [p|]; cbn [mbind option_bind]; [|done].
  do 3 f_equal. Z.to_euclidean_division_equations; lia.
Qed.

Lemma parse_quoted u rest :
  is_unit u -> is_high u = false -> is_low u = false ->
  parse_string (quote_unit u ++ rest) = (p ← parse_string rest; Some (u :: p.1, p.2)).
Proof.
  intros Hu _ _. unfold quote_unit. unfold is_unit in Hu.
  repeat (case_match; [bool_facts; subst; reflexivity|]).
  case_match; bool_facts; [by apply parse_unicode|].
  cbn [app parse_string]. destruct (Z.eqb_spec u c_quote); [done|]. destruct (Z.eqb_spec u c_backslash); [done|].
  destruct (Z.ltb_spec u 32); [lia|done].
Qed.

Lemma parse_plain u rest :
  32 <= u -> u <> c_quote -> u <> c_backslash ->
  parse_string (u :: rest) = (p ← parse_string rest; Some (u :: p.1, p.2)).
Proof.
  intros H1 H2 H3. cbn [parse_string]. destruct (Z.eqb_spec u c_quote); [done|].
  destruct (Z.eqb_spec u c_backslash); [done|]. destruct (Z.ltb_spec u 32); [lia|done].
Qed.

Lemma parse_string_quote s rest :
  Forall is_unit s -> parse_string (quote_units s ++ c_quote :: rest) = Some (s, rest).
Proof.
  remember (length s) as n eqn:Hn. revert s Hn.
  induction n as [n IH] using lt_wf_ind. intros [|u s] -> Hu; [done|].
  apply Forall_cons in Hu as [Hu Hs]. cbn [quote_units].
  assert (parse_string (quote_units s ++ c_quote :: rest) = Some (s, rest)) as Htail.
  { apply (IH (length s)); [cbn; lia|done|done]. }
  destruct (is_high u) eqn:Eh.
  - destruct s as [|v s].
    { rewrite parse_unicode by done. reflexivity. }
    destruct (is_low v) eqn:El.
    + cbn [app]. apply Forall_cons in Hs as [Hv Hs]. unfold is_high, is_low in *. bool_facts.
      rewrite parse_plain by (unfold c_quote, c_backslash; lia).
      rewrite parse_plain by (unfold c_quote, c_backslash; lia).
      rewrite (IH (length s)) by (cbn; lia || done). done.
    + rewrite <- app_assoc, parse_unicode by done. by rewrite Htail.
  - destruct (is_low u) eqn:El.
    + rewrite <- app_assoc, parse_unicode by done. by rewrite Htail.
    + rewrite <- app_assoc, parse_quoted by done. by rewrite Htail.
Qed.

(** ** Integers come back *)

Lemma js_app a b : js (a +:+ b) = js a ++ js b.
Proof. induction a as [|c a IH]; [done|]. cbn. by rewrite <- IH. Qed.

Definition digit_char (n : N) : Z := Z.of_nat (Ascii.nat_of_ascii (pretty_N_char n)).

Lemma digit_char_spec n : (n < 10)%N -> digit_char n = 48 + Z.of_N n.
Proof.
  intros Hn. assert (Forall (fun k => digit_char (N.of_nat k) = 48 + Z.of_nat k) (seq 0 10)) as Hall
    by (repeat constructor).
  rewrite Forall_forall in Hall. specialize (Hall (N.to_nat n)). rewrite N2Nat.id, N_nat_Z in Hall.
  apply Hall, elem_of_seq. lia.
Qed.

Lemma value_of_app d k : value_of (d ++ k) = value_of d * 10 ^ zlength k + value_of k.
Proof.
  unfold value_of. rewrite foldl_app. generalize (foldl (fun acc c => acc * 10 + (c - 48)) 0 d). intros a.
  revert a. induction k as [|c k IH]; intros a; cbn [foldl].
  - rewrite zlength_nil. lia.
  - rewrite IH, (IH (0 * 10 + (c - 48))), zlength_cons.
    rewrite Z.pow_add_r by (pose proof (zlength_nonneg k); lia). lia.
Qed.

Lemma pretty_go_digits x s :
  exists ds, js (pretty_N_go x s) = ds ++ js s /\ Forall (fun c => is_digit c = true) ds /\
    value_of ds = Z.of_N x /\ ((0 < x)%N -> exists c d, ds = c :: d /\ c <> 48).
Proof.
  revert s. induction (N.lt_wf_0 x) as [x _ IH]. intros s.
  destruct (decide (x = 0)%N) as [->|Hx].
  { exists []. rewrite pretty_N_go_0. split_and!; try done. }
  rewrite pretty_N_go_step by lia.
  pose proof (N.mod_lt x 10 ltac:(lia)) as Hm.
  destruct (IH (x / 10)%N ltac:(apply N.div_lt; lia) (String (pretty_N_char (x mod 10)) s))
    as (ds & Hds & Hall & Hval & Hhead).
  exists (ds ++ [digit_char (x mod 10)]). split_and!.
  - rewrite Hds. cbn [js]. by rewrite <- app_assoc.
  - apply Forall_app. split; [done|]. apply Forall_singleton. rewrite digit_char_spec by done.
    unfold is_digit. destruct (Z.leb_spec 48 (48 + Z.of_N (x mod 10))), (Z.leb_spec (48 + Z.of_N (x mod 10)) 57);
      (done || lia).
  - rewrite value_of_app, Hval. change (zlength [digit_char (x mod 10)]) with 1.
    change (value_of [digit_char (x mod 10)]) with (0 * 10 + (digit_char (x mod 10) - 48)).
    rewrite digit_char_spec by done. pose proof (N.div_mod x 10 ltac:(lia)). lia.
  - intros _. destruct (decide (x / 10 = 0)%N) as [Hz|Hz].
    + assert (ds = []) as ->.
      { rewrite Hz in Hds. rewrite pretty_N_go_0 in Hds. cbn [js] in Hds.
        destruct ds as [|c ds]; [done|]. apply (f_equal length) in Hds. rewrite length_app in Hds. cbn in Hds. lia. }
      eexists _, _. split; [reflexivity|]. rewrite digit_char_spec by done.
      pose proof (N.div_mod x 10 ltac:(lia)). lia.
    + destruct Hhead as (c & d & -> & Hc); [lia|]. by eexists _, _.
Qed.

Lemma js_int_digits n :
  0 <= n -> exists c d, js_int n = c :: d /\ Forall (fun c => is_digit c = true) (c :: d) /\
    value_of (c :: d) = n /\ (c = 48 -> d = []).
Proof.
  intros Hn. destruct n as [|p|p]; [|..|lia].
  - exists 48, []. split_and!; try done. by repeat constructor.
  - unfold js_int. change (pretty (Z.pos p)) with (pretty_N_go (N.pos p) "").
    destruct (pretty_go_digits (N.pos p) "") as (ds & Hds & Hall & Hval & Hhead).
    rewrite app_nil_r in Hds. destruct Hhead as (c & d & -> & Hc); [lia|].
    exists c, d. split_and!; done.
Qed.

(** What may follow a value in a text. *)
Definition ends (rest : jstr) : Prop :=
  match rest with
  | [] => True
  | c :: _ => is_digit c = false /\ c <> 46 /\ c <> 101 /\ c <> 69
  end.

Lemma digits_stop ds rest :
  Forall (fun c => is_digit c = true) ds -> ends rest -> digits (ds ++ rest) = (ds, rest).
Proof.
  intros Hd He. induction Hd as [|c ds Hc _ IH]; cbn [app digits].
  - destruct rest as [|c r]; [done|]. destruct He as (Hc & _). cbn. by rewrite Hc.
  - by rewrite Hc, IH.
Qed.

Lemma parse_unsigned_int n rest :
  0 <= n < 2 ^ 53 -> ends rest -> parse_unsigned (js_int n ++ rest) = Some (NInt n, rest).
Proof.
  intros Hn He. destruct (js_int_digits n) as (c & d & -> & Hall & Hval & Hz); [lia|].
  unfold parse_unsigned. rewrite (digits_stop (c :: d)) by done.
  destruct ((c =? 48) && negb (zlength d =? 0)) eqn:Hlead.
  { bool_facts. apply Hz in H. subst d. done. }
  assert (parse_fraction rest = Some ([], rest)) as ->.
  { unfold parse_fraction. destruct rest as [|x r]; [done|]. destruct He as (_ & H46 & _).
    repeat case_match; congruence. }
  assert (parse_exponent rest = Some (0, rest)) as Hexp.
  { unfold parse_exponent. destruct rest as [|x r]; [done|]. destruct He as (_ & _ & H1 & H2).
    destruct (Z.eqb_spec x 101), (Z.eqb_spec x 69); done. }
  cbn [mbind option_bind fst snd]. rewrite Hexp. cbn [mbind option_bind fst snd].
  rewrite app_nil_r, Hval. unfold number_value. change (0 - zlength (A := Z) []) with 0.
  destruct (Z.eqb_spec n 0) as [->|]; [done|]. cbn [Z.leb Z.compare]. rewrite Z.pow_0_r, Z.mul_1_r.
  destruct (Z.ltb_spec n (2 ^ 53)); [done|lia].
Qed.

Lemma parse_number_int z rest :
  isSafeInteger z = true -> ends rest -> parse_number (js_int z ++ rest) = Some (NInt z, rest).
Proof.
  unfold isSafeInteger, MAX_SAFE_INTEGER. intros Hz He. apply andb_prop in Hz as [H1%Z.leb_le H2%Z.leb_le].
  destruct (decide (0 <= z)) as [Hp|Hn].
  - destruct (js_int_digits z Hp) as (c & d & Heq & Hall & _). rewrite Heq. apply Forall_cons in Hall as [Hc _].
    cbn [app]. unfold parse_number. assert (c <> 45) as Hne by (intros ->; done).
    assert (parse_unsigned (c :: d ++ rest) = Some (NInt z, rest)) as Hu.
    { change (c :: d ++ rest) with ((c :: d) ++ rest). rewrite <- Heq. apply parse_unsigned_int; [lia|done]. }
    rewrite <- Hu. repeat case_match; congruence.
  - destruct z as [|p|p]; [lia|lia|]. change (js_int (Z.neg p)) with (45 :: js_int (Z.pos p)).
    cbn [app parse_number]. rewrite parse_unsigned_int by (lia || done). done.
Qed.

(** ** Values come back *)

Section JsonInd.
Context (P : json -> Prop).
Hypotheses (Hnull : P JNull) (Hbool : forall b, P (JBool b)) (Hnum : forall n, P (JNum n))
  (Hstr : forall s, P (JStr s)) (Harr : forall l, Forall P l -> P (JArr l))
  (Hobj : forall o, Forall (fun p => P p.2) o -> P (JObj o)).

Fixpoint json_induction (v : json) : P v :=
  match v with
  | JNull => Hnull
  | JBool b => Hbool b
  | JNum n => Hnum n
  | JStr s => Hstr s
  | JArr l => Harr l ((fix go (l : list json) : Forall P l :=
                         match l with
                         | [] => @List.Forall_nil _ P
                         | v :: l' => @List.Forall_cons _ P v l' (json_induction v) (go l')
                         end) l)
  | JObj o => Hobj o ((fix go (o : obj) : Forall (fun p => P p.2) o :=
                         match o with
                         | [] => @List.Forall_nil _ (fun p => P p.2)
                         | p :: o' => @List.Forall_cons _ (fun p => P p.2) p o' (json_induction p.2) (go o')
                         end) o)
  end.
End JsonInd.

Definition units_ok (s : jstr) : bool := forallb (fun u => (0 <=? u) && (u <? 0x10000)) s.

Lemma units_ok_spec s : units_ok s = true -> Forall is_unit s.
Proof.
  unfold units_ok. rewrite forallb_forall, Forall_forall. intros Hs x Hx.
  apply list_elem_of_In, Hs in Hx. bool_facts. unfold is_unit. lia.
Qed.

(** What the sources put into a message: safe integers, strings of UTF-16
    units, objects with distinct keys. *)
Fixpoint json_ok (v : json) : bool :=
  match v with
  | JNull | JBool _ => true
  | JNum (NInt z) => isSafeInteger z
  | JNum _ => false
  | JStr s => units_ok s
  | JArr l => forallb json_ok l
  | JObj o => bool_decide (NoDup o.*1) && forallb (fun p => units_ok p.1 && json_ok p.2) o
  end.

(** The first character of the text of a value. *)
Lemma stringify_head v s :
  json_ok v = true -> stringify v = Some s ->
  exists c r, s = c :: r /\ is_ws c = false /\ c <> 93 /\ c <> 125.
Proof.
  destruct v as [|b|n|s'|l|o]; cbn [json_ok stringify]; intros Hok Hs.
  - injection Hs as <-. by eexists _, _.
  - injection Hs as <-. destruct b; by eexists _, _.
  - destruct n as [z| |]; [|done|done]. cbn in Hs. injection Hs as <-.
    destruct (decide (0 <= z)) as [Hp|Hn].
    + destruct (js_int_digits z Hp) as (c & d & -> & Hall & _). apply Forall_cons in Hall as [Hc _].
      exists c, d. split; [done|]. unfold is_digit, is_ws in *. bool_facts.
      split_and!; [|lia|lia]. repeat rewrite (proj2 (Z.eqb_neq _ _)) by lia. done.
    + destruct z as [|p|p]; [lia|lia|]. by exists 45, (js_int (Z.pos p)).
  - injection Hs as <-. by eexists _, _.
  - destruct (mapM stringify l); [|done]. injection Hs as <-. by eexists _, _.
  - destruct (mapM _ o); [|done]. injection Hs as <-. by eexists _, _.
Qed.

Definition comes_back (v : json) : Prop :=
  json_ok v = true -> forall s fuel rest, stringify v = Some s -> (length s < fuel)%nat -> ends rest ->
  parse_value fuel (s ++ rest) = Some (v, rest).

Lemma skip_ws_head c r : is_ws c = false -> skip_ws (c :: r) = c :: r.
Proof. intros Hc. cbn. by rewrite Hc. Qed.

Lemma mapM_cons_inv {A B} (f : A -> option B) x l ps :
  mapM f (x :: l) = Some ps -> exists y ys, ps = y :: ys /\ f x = Some y /\ mapM f l = Some ys.
Proof. intros Hp. apply mapM_Some in Hp. inv Hp as [|? y ? ys]. exists y, ys. by rewrite mapM_Some. Qed.

Lemma elements_back l :
  Forall comes_back l -> forallb json_ok l = true -> l <> [] ->
  forall parts fuel acc rest, mapM stringify l = Some parts -> (length (commas parts) < fuel)%nat ->
  parse_elements (S fuel) acc (commas parts ++ 93 :: rest) = Some (JArr (acc ++ l), rest).
Proof.
  induction 1 as [|v l Hv Hl IH]; intros Hok Hne parts fuel acc rest Hp Hf; [done|].
  cbn [forallb] in Hok. apply andb_prop in Hok as [Hokv Hokl].
  destruct (mapM_cons_inv _ _ _ _ Hp) as (t & ps & -> & Ht & Hps).
  cbn [parse_elements].
  destruct l as [|v2 l].
  - injection Hps as <-. cbn [commas] in *. rewrite Hv with (s := t) by (done || lia).
    cbn [mbind option_bind fst snd]. rewrite skip_ws_head by done. done.
  - destruct ps as [|p2 ps]; [by apply length_mapM in Hps|].
    assert (commas (t :: p2 :: ps) = t ++ 44 :: commas (p2 :: ps)) as Hc by done. rewrite Hc in *.
    rewrite length_app in Hf. cbn [length] in Hf. rewrite <- app_assoc, <- app_comm_cons.
    rewrite Hv with (s := t) by (done || lia).
    cbn [mbind option_bind fst snd]. rewrite skip_ws_head by done. cbv iota.
    destruct fuel as [|f]; [lia|].
    rewrite IH by (done || lia). by rewrite <- app_assoc.
Qed.

Lemma map_set_fresh {V} (k : jstr) (v : V) m : k ∉ m.*1 -> map_set k v m = m ++ [(k, v)].
Proof.
  induction m as [|[k' v'] m IH]; [done|]. rewrite fmap_cons, not_elem_of_cons. intros [Hne Hk].
  cbn [map_set app]. rewrite decide_False by done. by rewrite IH.
Qed.

Abbreviation member_text p := (t ← stringify p.2; Some (quote p.1 ++ js ":" ++ t)).

Lemma member_back p t fuel acc rest :
  comes_back p.2 -> units_ok p.1 && json_ok p.2 = true -> member_text p = Some t ->
  (length t < fuel)%nat -> p.1 ∉ acc.*1 -> ends rest ->
  parse_members (S fuel) acc (t ++ rest) =
    match skip_ws rest with
    | 44 :: r3 => parse_members fuel (acc ++ [p]) r3
    | 125 :: r3 => Some (JObj (acc ++ [p]), r3)
    | _ => None
    end.
Proof.
  intros Hv Hok Ht Hf Hk He. apply andb_prop in Hok as [Hu%units_ok_spec Hokv]. destruct p as [k v]. cbn [fst snd] in *.
  destruct (stringify v) as [tv|] eqn:Htv; [|done]. cbn [mbind option_bind] in Ht. apply (inj Some) in Ht. subst t.
  unfold quote in *. rewrite !length_app in Hf. cbn [length] in Hf.
  replace (([c_quote] ++ quote_units k ++ [c_quote]) ++ js ":" ++ tv) with
    (c_quote :: quote_units k ++ c_quote :: 58 :: tv) by (cbn; by rewrite <- !app_assoc).
  rewrite <- !app_comm_cons, <- app_assoc, <- !app_comm_cons. cbn [parse_members].
  rewrite skip_ws_head by done. change c_quote with 34 at 1. cbv iota.
  rewrite parse_string_quote by done. cbn [mbind option_bind fst snd].
  rewrite skip_ws_head by done. cbv iota. rewrite Hv with (s := tv) by (done || (cbn in Hf; lia)).
  cbn [mbind option_bind fst snd]. by rewrite map_set_fresh by done.
Qed.

Lemma members_back o :
  Forall (fun p => comes_back p.2) o -> forallb (fun p => units_ok p.1 && json_ok p.2) o = true -> o <> [] ->
  forall parts fuel acc rest, mapM (fun p => member_text p) o = Some parts ->
  (length (commas parts) < fuel)%nat -> NoDup (acc ++ o).*1 ->
  parse_members (S fuel) acc (commas parts ++ 125 :: rest) = Some (JObj (acc ++ o), rest).
Proof.
  induction 1 as [|p o Hv Hl IH]; intros Hok Hne parts fuel acc rest Hp Hf Hnd; [done|].
  cbn [forallb] in Hok. apply andb_prop in Hok as [Hokv Hokl].
  destruct (mapM_cons_inv _ _ _ _ Hp) as (t & ps & -> & Ht & Hps).
  assert (p.1 ∉ acc.*1) as Hk.
  { rewrite fmap_app, fmap_cons in Hnd. apply NoDup_app in Hnd as (_ & Hd & _).
    intros Hin. apply (Hd _ Hin). set_solver. }
  destruct o as [|p2 o].
  - injection Hps as <-. cbn [commas] in *. rewrite (member_back p) by (done || lia).
    by rewrite skip_ws_head by done.
  - destruct ps as [|t2 ps].
    { exfalso. apply length_mapM in Hps. done. }
    assert (commas (t :: t2 :: ps) = t ++ 44 :: commas (t2 :: ps)) as Hc by done. rewrite Hc in *.
    rewrite length_app in Hf. cbn [length] in Hf. rewrite <- app_assoc, <- app_comm_cons.
    rewrite (member_back p) by (done || lia). rewrite skip_ws_head by done. cbv iota.
    destruct fuel as [|f]; [lia|].
    rewrite IH with (fuel := f) by (done || lia || (by rewrite <- app_assoc)). by rewrite <- app_assoc.
Qed.

Lemma number_back n :
  comes_back (JNum n).
Proof.
  intros Hok s fuel rest Hs Hf He. destruct fuel as [|f]; [lia|].
  destruct (stringify_head _ _ Hok Hs) as (c & r & Hc & Hws & _ & _).
  destruct n as [z| |]; [|done|done]. cbn in Hs. injection Hs as Hs.
  pose proof (parse_number_int z rest Hok He) as Hn. rewrite Hs, Hc in Hn.
  assert (c = 45 \/ is_digit c = true) as Hcd.
  { destruct (decide (0 <= z)) as [Hp|Hneg].
    - destruct (js_int_digits z Hp) as (c' & d' & Heq & Hall & _). apply Forall_cons in Hall as [Hd _].
      right. congruence.
    - left. destruct z as [|p|p]; [lia|lia|]. change (js_int (Z.neg p)) with (45 :: js_int (Z.pos p)) in Hs.
      congruence. }
  rewrite Hc. cbn [app parse_value] in *. rewrite skip_ws_head by done.
  unfold is_digit in Hcd.
  destruct (Z.eqb_spec c 123), (Z.eqb_spec c 91), (Z.eqb_spec c c_quote), (Z.eqb_spec c 110),
    (Z.eqb_spec c 116), (Z.eqb_spec c 102); subst; try (destruct Hcd; discriminate).
  by rewrite Hn.
Qed.

Lemma array_back l :
  Forall comes_back l -> comes_back (JArr l).
Proof.
  intros IH Hok s fuel rest Hs Hf He. destruct fuel as [|f]; [lia|].
  cbn [json_ok] in Hok. cbn [stringify] in Hs. destruct (mapM stringify l) as [parts|] eqn:Hp; [|done].
  cbn [mbind option_bind] in Hs. apply (inj Some) in Hs. subst s. rewrite !length_app in Hf. cbn [length js] in Hf.
  change (js "[") with [91] in *. change (js "]") with [93] in *.
  rewrite <- !app_assoc. cbn [app parse_value]. rewrite skip_ws_head by done.
  change (91 =? 123) with false. change (91 =? 91) with true. cbv iota.
  destruct l as [|v l]; [injection Hp as <-; done|].
  assert (exists c r, commas parts = c :: r /\ is_ws c = false /\ c <> 93) as (c & r & Hc & Hws & H93).
  { cbn in Hok. apply andb_prop in Hok as [Hv _].
    destruct (mapM_cons_inv _ _ _ _ Hp) as (t & ps & -> & Ht & _).
    destruct (stringify_head v t Hv Ht) as (c & r & -> & Hws & H93 & _).
    exists c. destruct ps; cbn; eauto. }
  destruct f as [|f]; [rewrite Hc in Hf; cbn in Hf; lia|].
  pose proof (elements_back (v :: l) IH Hok ltac:(done) parts f [] rest Hp ltac:(cbn in Hf; lia)) as Hel.
  rewrite Hc in *. cbn [app] in *. rewrite skip_ws_head by done. rewrite <- Hel.
  repeat case_match; congruence.
Qed.

Lemma object_back o :
  Forall (fun p => comes_back p.2) o -> comes_back (JObj o).
Proof.
  intros IH Hok s fuel rest Hs Hf He. destruct fuel as [|f]; [lia|].
  cbn [json_ok] in Hok. apply andb_prop in Hok as [Hnd%bool_decide_eq_true Hok].
  cbn [stringify] in Hs. destruct (mapM _ o) as [parts|] eqn:Hp; [|done].
  cbn [mbind option_bind] in Hs. apply (inj Some) in Hs. subst s. rewrite !length_app in Hf. cbn [length js] in Hf.
  change (js "{") with [123] in *. change (js "}") with [125] in *.
  rewrite <- !app_assoc. cbn [app parse_value]. rewrite skip_ws_head by done.
  change (123 =? 123) with true. cbv iota.
  destruct o as [|p o]; [injection Hp as <-; done|].
  assert (exists r, commas parts = 34 :: r) as (r & Hc).
  { destruct (mapM_cons_inv _ _ _ _ Hp) as (t & ps & -> & Ht & _).
    destruct (stringify p.2) as [tv|]; [|done]. cbn [mbind option_bind] in Ht. apply (inj Some) in Ht. subst t.
    destruct ps; cbn; eauto. }
  destruct f as [|f]; [rewrite Hc in Hf; cbn in Hf; lia|].
  pose proof (members_back (p :: o) IH Hok ltac:(done) parts f [] rest Hp ltac:(cbn in Hf; lia) Hnd) as Hmem.
  rewrite Hc in *. cbn [app] in *. rewrite skip_ws_head by done. exact Hmem.
Qed.

Lemma stringify_parse v : comes_back v.
Proof.
  induction v as [|b|n|s'|l IH|o IH] using json_induction;
    [..|apply number_back| |by apply array_back|by apply object_back];
    intros Hok s fuel rest Hs Hf He; (destruct fuel as [|f]; [lia|]).
  - injection Hs as <-. reflexivity.
  - injection Hs as <-. destruct b; reflexivity.
  - cbn in Hok. apply units_ok_spec in Hok. cbn [stringify] in Hs. apply (inj Some) in Hs. subst s. unfold quote.
    rewrite <- !app_assoc. cbn [app parse_value]. rewrite skip_ws_head by done.
    change (c_quote =? 123) with false. change (c_quote =? 91) with false. change (c_quote =? c_quote) with true.
    cbv iota. by rewrite parse_string_quote by done.
Qed.

Lemma JSON_parse_stringify v s : json_ok v = true -> stringify v = Some s -> JSON_parse s = Ok v.
Proof.
  intros Hok Hs. unfold JSON_parse.
  pose proof (stringify_parse v Hok s (S (length s)) [] Hs ltac:(lia) I) as Hp.
  rewrite app_nil_r in Hp. by rewrite Hp.
Qed.

(** ** The text of a value is well-formed UTF-16 *)

Definition text_ok (s : jstr) : Prop := Forall is_unit s /\ well_formed s = true.

Lemma well_formed_app a b : well_formed a = true -> well_formed (a ++ b) = well_formed b.
Proof.
  remember (length a) as n eqn:Hn. revert a Hn. induction n as [n IH] using lt_wf_ind.
  intros [|u a] -> Hw; [done|]. cbn [well_formed app] in *. destruct (is_high u).
  - destruct a as [|v a]; [done|]. apply andb_prop in Hw as [Hl Hw]. cbn [app]. rewrite Hl.
    apply (IH (length a)); [cbn; lia|done|done].
  - apply andb_prop in Hw as [Hl Hw]. rewrite Hl. apply (IH (length a)); [cbn; lia|done|done].
Qed.

Lemma text_ok_app a b : text_ok a -> text_ok b -> text_ok (a ++ b).
Proof.
  intros [Ha Hwa] [Hb Hwb]. split; [by apply Forall_app|]. by rewrite well_formed_app.
Qed.

Lemma text_ok_plain a : Forall (fun c => 0 <= c < 0xD800) a -> text_ok a.
Proof.
  induction 1 as [|c a Hc _ [IHu IHw]]; [done|]. split.
  - constructor; [unfold is_unit; lia|done].
  - cbn [well_formed]. unfold is_high, is_low.
    destruct (Z.leb_spec 0xD800 c), (Z.leb_spec 0xDC00 c); (done || lia).
Qed.

Lemma js_text_ok t : text_ok (js t).
Proof.
  apply text_ok_plain. induction t as [|c t IH]; [constructor|]. cbn [js]. constructor; [|done].
  pose proof (Ascii.nat_ascii_bounded c). lia.
Qed.

Lemma unicode_escape_ok u : is_unit u -> text_ok (unicode_escape u).
Proof.
  intros Hu. unfold is_unit in Hu. apply text_ok_plain. unfold unicode_escape, hex_digit, c_backslash.
  repeat constructor; try lia; simp_if; bool_facts; Z.to_euclidean_division_equations; lia.
Qed.

Lemma quote_unit_ok u : is_unit u -> is_high u = false -> is_low u = false -> text_ok (quote_unit u).
Proof.
  intros Hu Hh Hl. unfold quote_unit, c_quote, c_backslash.
  do 7 (case_match; [apply text_ok_plain; repeat constructor; lia|]).
  case_match; [by apply unicode_escape_ok|]. split; [by apply Forall_singleton|]. cbn. by rewrite Hh, Hl.
Qed.

Lemma quote_units_ok s : Forall is_unit s -> text_ok (quote_units s).
Proof.
  remember (length s) as n eqn:Hn. revert s Hn. induction n as [n IH] using lt_wf_ind.
  intros [|u s] -> Hu; [done|]. apply Forall_cons in Hu as [Hu Hs]. cbn [quote_units].
  assert (text_ok (quote_units s)) as Htail by (apply (IH (length s)); [cbn; lia|done|done]).
  destruct (is_high u) eqn:Eh.
  - destruct s as [|v s]; [by apply unicode_escape_ok|].
    destruct (is_low v) eqn:El; [|by apply text_ok_app; [apply unicode_escape_ok|]].
    apply Forall_cons in Hs as [Hv Hs].
    destruct (IH (length s) ltac:(cbn; lia) s eq_refl Hs) as [H1 H2].
    split; [by apply Forall_cons; split; [|apply Forall_cons]|]. cbn [well_formed]. by rewrite Eh, El.
  - destruct (is_low u) eqn:El; (apply text_ok_app; [|done]).
    + by apply unicode_escape_ok.
    + by apply quote_unit_ok.
Qed.

Lemma quote_ok s : Forall is_unit s -> text_ok (quote s).
Proof.
  intros Hs. unfold quote. assert (text_ok [c_quote]) by by apply text_ok_plain; repeat constructor; unfold c_quote; lia.
  repeat apply text_ok_app; (done || by apply quote_units_ok).
Qed.

Lemma js_int_ok z : text_ok (js_int z).
Proof. apply js_text_ok. Qed.

Lemma commas_ok parts : Forall text_ok parts -> text_ok (commas parts).
Proof.
  induction 1 as [|p [|p' ps] Hp _ IH]; [done|done|]. cbn [commas] in *.
  repeat apply text_ok_app; try done. apply js_text_ok.
Qed.

(** A value of the sources has a text, and the text is well-formed. *)
Lemma stringify_total v : json_ok v = true -> exists s, stringify v = Some s /\ text_ok s.
Proof.
  induction v as [|b|n|s'|l IH|o IH] using json_induction; intros Hok; cbn [stringify json_ok] in *.
  - eexists. split; [done|apply js_text_ok].
  - eexists. split; [done|]. destruct b; apply js_text_ok.
  - destruct n; [|done|done]. eexists. split; [done|apply js_int_ok].
  - eexists. split; [done|]. by apply quote_ok, units_ok_spec.
  - assert (exists parts, mapM stringify l = Some parts /\ Forall text_ok parts) as (parts & -> & Hp).
    { induction IH as [|v l Hv _ IHl]; [by exists []|]. cbn [forallb] in Hok.
      apply andb_prop in Hok as [Hok1 Hok2]. destruct (Hv Hok1) as (t & Ht & Hto).
      destruct (IHl Hok2) as (ps & Hps & Hpo). exists (t :: ps). cbn. rewrite Ht. cbn.
      rewrite Hps. by split; [|constructor]. }
    eexists. split; [done|]. repeat apply text_ok_app; auto using js_text_ok, commas_ok.
  - apply andb_prop in Hok as [_ Hok].
    assert (exists parts, mapM (fun p => member_text p) o = Some parts /\ Forall text_ok parts)
      as (parts & -> & Hp).
    { induction IH as [|p o Hv _ IHl]; [by exists []|]. cbn [forallb] in Hok.
      apply andb_prop in Hok as [[Hk Hok1]%andb_prop Hok2]. destruct (Hv Hok1) as (t & Ht & Hto).
      destruct (IHl Hok2) as (ps & Hps & Hpo). exists ((quote p.1 ++ js ":" ++ t) :: ps).
      cbn [mapM]. rewrite Ht. cbn [mbind option_bind]. rewrite Hps. split; [done|]. constructor; [|done].
      apply text_ok_app; [by apply quote_ok, units_ok_spec|]. apply text_ok_app; [apply js_text_ok|done]. }
    eexists. split; [done|]. repeat apply text_ok_app; auto using js_text_ok, commas_ok.
Qed.

Lemma encode_object_back o :
  json_ok (JObj o) = true ->
  exists b, encode_object o = Some b /\ wf_bytes b /\
    (let! text := utf8Decode b in parseJsonObject text) = Ok o.
Proof.
  intros Hok. destruct (stringify_total _ Hok) as (s & Hs & Hu & Hw). unfold encode_object.
  rewrite Hs. exists (utf8Encode s). split_and!; [done|by apply utf8Encode_wf|].
  assert (starts_with_bom s = false) as Hb.
  { cbn [stringify] in Hs. destruct (mapM _ o); [|done]. cbn [mbind option_bind] in Hs.
    apply (inj Some) in Hs. by subst s. }
  rewrite utf8Decode_encode by done. cbn [rbind]. unfold parseJsonObject.
  by rewrite (JSON_parse_stringify _ _ Hok Hs).
Qed.

(** ** Messages on the wire *)

(** The strings of a message. *)
Definition opt_strings (o : option jstr) : list jstr := match o with Some s => [s] | None => [] end.

Definition core_strings (m : CoreAppMessage) : list jstr :=
  match m with
  | session_verified _ => []
  | text_message i b _ => [i; b]
  | file_offer f n m _ _ _ h => [f; n; m] ++ opt_strings h
  | file_accept f | file_resume f | file_ack f _ => [f]
  | file_reject f r | file_pause f r | file_cancel f r | file_nack f _ r => [f; r]
  | file_chunk f _ _ d => [f; d]
  | file_complete f h => [f] ++ opt_strings h
  | voice_start s _ _ _ => [s]
  | voice_frame s _ _ _ _ p => [s; p]
  | voice_stop s => [s]
  end.

Definition message_strings (m : AppMessage) : list jstr :=
  match m with
  | Core m => core_strings m
  | reliable_msg i _ b _ _ => i :: core_strings b
  | reliable_ack i => [i]
  | reliable_nack i r => [i; r]
  end.

Definition message_units (m : AppMessage) : bool := forallb units_ok (message_strings m).

Definition handshake_units (h : HandshakeMessage) : bool :=
  forallb units_ok (hs_publicKey h :: hs_profileHash h :: hs_appVersion h :: hs_featureFlags h).

Lemma timestamp_safe z : timestamp_ok z = true -> isSafeInteger z = true.
Proof.
  unfold timestamp_ok, isSafeInteger, MAX_TIMESTAMP, MAX_SAFE_INTEGER. intros. bool_facts.
  apply andb_true_intro. split; apply Z.leb_le; lia.
Qed.

Lemma int_from_safe min z : int_from min z = true -> isSafeInteger z = true.
Proof. unfold int_from. intros [? _]%andb_prop. done. Qed.

Ltac field_ok :=
  repeat match goal with
  | H : timestamp_ok ?z = true |- context [isSafeInteger ?z] => rewrite (timestamp_safe z H)
  | H : int_from _ ?z = true |- context [isSafeInteger ?z] => rewrite (int_from_safe _ z H)
  | H : units_ok ?s = true |- context [units_ok ?s] => rewrite H
  end.

Lemma core_json_ok m :
  core_valid m = true -> forallb units_ok (core_strings m) = true ->
  json_ok (JObj (core_to_object m)) = true.
Proof.
  intros Hv Hu. destruct m; repeat match goal with o : option _ |- _ => destruct o as [?|] end;
    try match goal with v : VoicePrivacyMode |- _ => destruct v end;
    cbn [core_valid core_strings forallb app opt_strings] in *; split_valid;
    cbn [json_ok core_to_object app field_opt fmap option_fmap option_map voice_mode_str forallb
         kind field_str field_int fst snd]; field_ok; by vm_compute.
Qed.

Lemma message_json_ok m :
  message_valid m = true -> message_units m = true -> json_ok (JObj (message_to_object m)) = true.
Proof.
  intros Hv Hu. unfold message_units in Hu. destruct m as [m|i ch b c a|i|i r];
    cbn [message_valid message_strings forallb] in *; split_valid; [by apply core_json_ok|..].
  - pose proof (core_json_ok b ltac:(done) ltac:(done)) as Hb.
    unfold message_to_object. cbn [json_ok forallb kind field_str field_int fst snd] in *.
    rewrite Hb. field_ok. by destruct ch; vm_compute.
  - cbn [json_ok message_to_object forallb kind field_str fst snd]. field_ok. by vm_compute.
  - cbn [json_ok message_to_object forallb kind field_str fst snd]. field_ok. by vm_compute.
Qed.

Lemma encodeAppMessage_back now m :
  message_valid m = true -> message_units m = true ->
  exists b, encodeAppMessage m = Some b /\ wf_bytes b /\ decodeAppMessage now b = Ok m.
Proof.
  intros Hv Hu. destruct (encode_object_back _ (message_json_ok m Hv Hu)) as (b & Hb & Hwf & Hback).
  exists b. split_and!; [done|done|]. unfold decodeAppMessage.
  destruct (utf8Decode b) as [text|]; [|done]. cbn [rbind] in *. rewrite Hback.
  by apply decode_message_encode.
Qed.

(** C18: every well-formed message whose strings are JavaScript strings (any
    UTF-16 units, unpaired surrogates included) has an encoding, the encoding
    is a sequence of bytes, and [decodeAppMessage] returns the same message
    from it, through the JSON text and its UTF-8 form. *)
Theorem message_wire_roundtrip now m :
  message_valid m = true -> message_units m = true ->
  exists b, encodeAppMessage m = Some b /\ wf_bytes b /\ decodeAppMessage now b = Ok m.
Proof. apply encodeAppMessage_back. Qed.

Lemma handshake_json_ok h :
  handshake_units h = true -> json_ok (JObj (handshake_to_object h)) = true.
Proof.
  intros Hu. unfold handshake_units in Hu. cbn [forallb] in Hu. split_valid.
  assert (forallb json_ok (JStr <$> hs_featureFlags h) = true) as Hf.
  { destruct h as [? ? ? ? fl]. cbn [hs_featureFlags] in *. induction fl as [|s fl IH]; [done|].
    cbn [forallb] in *. split_valid. csimpl. cbn [forallb json_ok]. rewrite IH; by apply andb_true_intro || done. }
  unfold handshake_to_object. cbn [json_ok forallb kind field_str fst snd]. rewrite Hf. field_ok.
  by destruct (hs_profileId h); vm_compute.
Qed.

(** A well-formed handshake comes back from its bytes, and whatever
    [decodeHandshake] accepts names a known profile, carries a 32-digit
    hexadecimal profile hash, and has bounded key, version and feature
    flags. *)
Theorem handshake_wire :
  (forall h, handshake_valid h = true -> handshake_units h = true ->
     exists b, encodeHandshake h = Some b /\ decodeHandshake b = Ok h) /\
  (forall b h, decodeHandshake b = Ok h -> handshake_valid h = true).
Proof.
  split.
  - intros h Hv Hu. destruct (encode_object_back _ (handshake_json_ok h Hu)) as (b & Hb & _ & Hback).
    exists b. split; [done|]. unfold decodeHandshake.
    destruct (utf8Decode b) as [text|]; [|done]. cbn [rbind] in *. rewrite Hback.
    by apply decode_handshake_encode.
  - intros b h H. unfold decodeHandshake in H. simp_result. by eapply decode_handshake_sound.
Qed.

(** ** Witnesses *)

Definition sample_handshake : HandshakeMessage :=
  {| hs_publicKey := js "BPub"; hs_profileId := ProfileId.balanced; hs_profileHash := replicate 32 97;
     hs_appVersion := APP_VERSION; hs_featureFlags := FEATURE_FLAGS |}.

Lemma handshake_wire_witness :
  exists b, encodeHandshake sample_handshake = Some b /\ decodeHandshake b = Ok sample_handshake.
Proof. apply handshake_wire; by vm_compute. Defined.

Lemma message_wire_roundtrip_witness :
  exists b, encodeAppMessage sample_reliable = Some b /\ wf_bytes b /\
    decodeAppMessage 7 b = Ok sample_reliable.
Proof. apply message_wire_roundtrip; by vm_compute. Defined.

(** An unpaired surrogate crosses the wire as an escape, and a text with
    spaces, a nested array, a fraction and an exponent parses. *)
Example lone_surrogate_text :
  stringify (JStr [0xD800; 97]) = Some ([34] ++ js "\ud800a" ++ [34]) /\
  JSON_parse (js " [ 1.5e1 , -0 , true ] ") = Ok (JArr [JNum (NInt 15); JNum (NInt 0); JBool true]).
Proof. split; vm_compute; reflexivity. Qed.

Example leading_zero_refused : JSON_parse (js "[01]") = Throw syntax_error.
Proof. vm_compute. reflexivity. Qed.
