(* ===== verification/Negotiation.v ===== *)
(** * Negotiation: [client/src/protocol/negotiation.ts] and
      [profileHashInput] of [client/src/config/profiles.ts]

    The canonical text of a profile and its hash, the handshake a client
    sends and the one it accepts ([sendHandshake] and the compatibility check
    of [handleHandshake] in [client/src/session/SessionController.ts]), and
    the safety phrase.  SHA-256 is a parameter. *)
From S2P Require Import Prelude JsMap Bytes Utf8 Profiles Messages Json.

(** ** The text of a profile *)

Definition drop_policy_str (d : DropPolicy) : jstr :=
  match d with drop_fail => js "fail" | drop_oldest => js "drop-oldest" end.

Definition field_bool (k : string) (b : bool) : jstr * json := (js k, JBool b).
Definition field_obj (k : string) (o : obj) : jstr * json := (js k, JObj o).

Definition budget_object (b : LaneBudget) : obj :=
  [field_int "priority" (priority b); field_int "maxPackets" (maxPackets b);
   field_int "maxBytes" (maxBytes b); field_str "dropPolicy" (drop_policy_str (dropPolicy b))].

Definition outbox_object (o : Outbox) : obj :=
  [field_int "maxPackets" (outbox_maxPackets o); field_int "maxBytes" (outbox_maxBytes o);
   field_int "maxBufferedAmountBytes" (maxBufferedAmountBytes o);
   field_int "resumeBufferedAmountBytes" (resumeBufferedAmountBytes o);
   field_int "drainYieldMs" (drainYieldMs o)].

(** In the order [cloneLaneBudgets] creates them. *)
Definition lanes_object (l : LaneName -> LaneBudget) : obj :=
  [field_obj "control" (budget_object (l Lane.control)); field_obj "voice" (budget_object (l Lane.voice));
   field_obj "text" (budget_object (l Lane.text)); field_obj "file" (budget_object (l Lane.file))].

Definition reconnect_object (r : Reconnect) : obj :=
  [field_int "maxAttempts" (maxAttempts r); field_int "baseDelayMs" (baseDelayMs r);
   field_int "maxDelayMs" (maxDelayMs r); field_int "jitterMs" (jitterMs r)].

Definition files_object (f : FilePolicy) : obj :=
  [field_int "smallBytes" (smallBytes f); field_int "mediumBytes" (mediumBytes f);
   field_int "maxFileBytes" (maxFileBytes f); field_int "maxMemoryReceiveBytes" (maxMemoryReceiveBytes f);
   field_int "chunkBytes" (chunkBytes f); field_int "windowChunks" (windowChunks f);
   field_int "ackTimeoutMs" (ackTimeoutMs f); field_int "maxRetries" (maxRetries f)].

Definition voice_object (v : VoicePolicy) : obj :=
  [field_bool "enabled" (voice_enabled v); field_str "mode" (voice_mode_str (voice_mode v));
   field_str "codec" (js "pcm16"); field_int "frameMs" (frameMs v);
   field_int "jitterTargetMs" (jitterTargetMs v); field_int "jitterMaxFrames" (jitterMaxFrames v);
   field_bool "vadEnabled" (vadEnabled v); field_int "vadStartDb" (vadStartDb v);
   field_int "vadStopDb" (vadStopDb v); field_int "vadPreRollMs" (vadPreRollMs v);
   field_int "vadHangoverMs" (vadHangoverMs v); field_int "vadMinSpeechMs" (vadMinSpeechMs v);
   field_int "maxQueuedLatencyMs" (maxQueuedLatencyMs v)].

Definition profile_object (p : TransportProfile) : obj :=
  [field_str "id" (profile_key (profile_id p)); field_int "protocolVersion" (protocolVersion p);
   field_int "maxFrameBytes" (maxFrameBytes p);
   (js "paddingBuckets", JArr ((fun n => JNum (NInt n)) <$> paddingBuckets p));
   field_int "maxSkippedMessageKeys" (maxSkippedMessageKeys p);
   field_obj "outbox" (outbox_object (outbox p)); field_obj "lanes" (lanes_object (lanes p));
   field_obj "reconnect" (reconnect_object (reconnect p)); field_obj "files" (files_object (files p));
   field_obj "voice" (voice_object (voicePolicy p))].

(** [None] would be a number without a modelled text. *)
Definition profileHashInput (p : TransportProfile) : option jstr := stringify (JObj (profile_object p)).

(** ** The safety phrase *)

Definition WORDS : list jstr := js <$> [
  "river"; "lunar"; "copper"; "hawk"; "signal"; "stone"; "violet"; "orbit"; "cedar"; "silver";
  "ember"; "north"; "silent"; "anchor"; "prism"; "comet"; "field"; "winter"; "summit"; "clear";
  "falcon"; "harbor"; "magnet"; "solar"; "forest"; "quartz"; "velvet"; "island"; "canyon"; "brave";
  "delta"; "marble"; "radar"; "willow"; "aurora"; "coral"; "sable"; "meteor"; "bison"; "atlas";
  "frost"; "olive"; "binary"; "echo"; "granite"; "lotus"; "nebula"; "onyx"; "pixel"; "raven";
  "saffron"; "tundra"; "umbra"; "vector"; "yonder"; "zenith"; "amber"; "brook"; "cipher"; "drift";
  "forge"; "meadow"; "plain"; "root"]%string.

(** [Array.prototype.sort] on strings: by UTF-16 units. *)
Fixpoint insert_str (s : jstr) (l : list jstr) : list jstr :=
  match l with
  | [] => [s]
  | t :: l' => if str_ltb t s then t :: insert_str s l' else s :: l
  end.

Definition sort_strings (l : list jstr) : list jstr := foldr insert_str [] l.

(** [Array.prototype.join]. *)
Fixpoint join (sep : jstr) (l : list jstr) : jstr :=
  match l with
  | [] => []
  | [s] => s
  | s :: l' => s ++ sep ++ join sep l'
  end.

Record PhraseInput := {
  localPublicKey : bytes;
  peerPublicKey : bytes;
  in_profile : TransportProfile;
  sessionCode : jstr;
  peerAppVersion : jstr;
  peerFeatureFlags : list jstr;
}.

Section Negotiation.
Context (sha256 : bytes -> bytes).

Definition short_hash (b : bytes) : jstr := bytesToHex (take 16 (sha256 b)).

Definition profileHash (p : TransportProfile) : option jstr :=
  text ← profileHashInput p; Some (short_hash (utf8Encode text)).

(** [localHex < peerHex ? [localHex, peerHex] : [peerHex, localHex]]. *)
Definition identities (i : PhraseInput) : jstr * jstr :=
  let localHex := bytesToHex (localPublicKey i) in
  let peerHex := bytesToHex (peerPublicKey i) in
  if str_ltb localHex peerHex then (localHex, peerHex) else (peerHex, localHex).

Definition material (i : PhraseInput) (hash : jstr) : obj :=
  [field_str "app" (js "onlytwo"); field_str "appVersion" APP_VERSION;
   field_str "peerAppVersion" (peerAppVersion i);
   (js "featureFlags", JArr (JStr <$> FEATURE_FLAGS));
   (js "peerFeatureFlags", JArr (JStr <$> sort_strings (peerFeatureFlags i)));
   field_int "protocolVersion" (protocolVersion (in_profile i));
   field_str "profileHash" hash;
   field_str "sessionCodeHash" (short_hash (utf8Encode (sessionCode i)));
   field_str "identityA" (identities i).1; field_str "identityB" (identities i).2].

(** The text that is hashed. *)
Definition material_text (i : PhraseInput) : option jstr :=
  hash ← profileHash (in_profile i); stringify (JObj (material i hash)).

Definition phrase_of_digest (digest : bytes) : jstr :=
  join (js " ") ((fun b => default [] (WORDS !! Z.to_nat (Z.land b 63))) <$> take 8 digest).

Definition verificationPhrase (i : PhraseInput) : option jstr :=
  text ← material_text i; Some (phrase_of_digest (sha256 (utf8Encode text))).

(** ** The handshake of a client, and the one it accepts *)

Definition local_handshake (key : bytes) (p : TransportProfile) : option HandshakeMessage :=
  hash ← profileHash p;
  Some {| hs_publicKey := bytesToBase64Url key; hs_profileId := profile_id p; hs_profileHash := hash;
          hs_appVersion := APP_VERSION; hs_featureFlags := FEATURE_FLAGS |}.

Definition compatible (p : TransportProfile) (hs : HandshakeMessage) : bool :=
  match profileHash p with
  | None => false
  | Some expected =>
      jstr_eqb (hs_appVersion hs) APP_VERSION && bool_decide (hs_profileId hs = profile_id p) &&
      jstr_eqb (hs_profileHash hs) expected &&
      forallb (fun flag => existsb (jstr_eqb flag) (hs_featureFlags hs)) FEATURE_FLAGS
  end.

(** What a client shows once it accepted [hs] as its peer's handshake:
    [None] when it refuses it. *)
Definition phrase_for (key : bytes) (p : TransportProfile) (code : jstr) (hs : HandshakeMessage) : option jstr :=
  match base64UrlToBytes (hs_publicKey hs) with
  | Throw _ => None
  | Ok peerKey =>
      if jstr_eqb (bytesToBase64Url peerKey) (bytesToBase64Url key) then None
      else if compatible p hs then
        verificationPhrase {| localPublicKey := key; peerPublicKey := peerKey; in_profile := p;
                              sessionCode := code; peerAppVersion := hs_appVersion hs;
                              peerFeatureFlags := hs_featureFlags hs |}
      else None
  end.
End Negotiation.

(** ** Injectivity of the texts *)

Lemma stringify_inj v w s :
  json_ok v = true -> json_ok w = true -> stringify v = Some s -> stringify w = Some s -> v = w.
Proof.
  intros Hv Hw Hsv Hsw. apply Ok_inj. rewrite <- (JSON_parse_stringify v s Hv Hsv).
  by apply JSON_parse_stringify.
Qed.

Lemma JObj_inj a b : JObj a = JObj b -> a = b.
Proof. congruence. Qed.

Lemma profile_key_inj i j : profile_key i = profile_key j -> i = j.
Proof. by destruct i, j. Qed.

Lemma drop_policy_str_inj a b : drop_policy_str a = drop_policy_str b -> a = b.
Proof. by destruct a, b. Qed.

Lemma voice_mode_str_inj a b : voice_mode_str a = voice_mode_str b -> a = b.
Proof. by destruct a, b. Qed.

Lemma field_obj_inj k a b : field_obj k a = field_obj k b -> a = b.
Proof. by injection 1. Qed.

(** Read one field off an equality of objects. *)
Ltac by_field H := unfold field_int, field_str, field_bool, field_obj in H; congruence.

Lemma budget_object_inj a b : budget_object a = budget_object b -> a = b.
Proof.
  destruct a as [pa na ba da], b as [pb nb bb db]. unfold budget_object. cbn [priority maxPackets maxBytes dropPolicy].
  intros H. assert (drop_policy_str da = drop_policy_str db) as Hd%drop_policy_str_inj by by_field H.
  by_field H.
Qed.

Lemma outbox_object_inj a b : outbox_object a = outbox_object b -> a = b.
Proof. destruct a, b. unfold outbox_object. cbn. intros H. by_field H. Qed.

Lemma reconnect_object_inj a b : reconnect_object a = reconnect_object b -> a = b.
Proof. destruct a, b. unfold reconnect_object. cbn. intros H. by_field H. Qed.

Lemma files_object_inj a b : files_object a = files_object b -> a = b.
Proof. destruct a, b. unfold files_object. cbn. intros H. by_field H. Qed.

Lemma voice_object_inj a b : voice_object a = voice_object b -> a = b.
Proof.
  destruct a as [? ma], b as [? mb]. unfold voice_object.
  cbn -[voice_mode_str].
  intros H. assert (voice_mode_str ma = voice_mode_str mb) as Hd%voice_mode_str_inj by by_field H.
  by_field H.
Qed.

Lemma lanes_object_inj a b : lanes_object a = lanes_object b -> forall l, a l = b l.
Proof.
  unfold lanes_object. intros H l.
  assert (budget_object (a l) = budget_object (b l)) as Hb by (destruct l; by_field H).
  by apply budget_object_inj.
Qed.

Lemma num_list_inj (a b : list Z) :
  (fun n => JNum (NInt n)) <$> a = (fun n => JNum (NInt n)) <$> b -> a = b.
Proof. apply list_fmap_eq_inj. by injection 1. Qed.

(** What two profiles with the same text have in common: everything but the
    label and the description. *)
Definition same_profile (p q : TransportProfile) : Prop :=
  profile_id p = profile_id q /\ protocolVersion p = protocolVersion q /\
  maxFrameBytes p = maxFrameBytes q /\ paddingBuckets p = paddingBuckets q /\
  maxSkippedMessageKeys p = maxSkippedMessageKeys q /\ outbox p = outbox q /\
  (forall l, lanes p l = lanes q l) /\ reconnect p = reconnect q /\ files p = files q /\
  voicePolicy p = voicePolicy q.

Lemma profile_object_inj p q : profile_object p = profile_object q -> same_profile p q.
Proof.
  unfold profile_object, field_obj, field_str, field_int. intros H. unfold same_profile.
  assert (profile_key (profile_id p) = profile_key (profile_id q)) as H1%profile_key_inj by congruence.
  assert (paddingBuckets p = paddingBuckets q) as H2 by (apply num_list_inj; congruence).
  assert (outbox p = outbox q) as H3 by (apply outbox_object_inj; congruence).
  assert (lanes_object (lanes p) = lanes_object (lanes q)) as H4 by congruence.
  assert (reconnect p = reconnect q) as H5 by (apply reconnect_object_inj; congruence).
  assert (files p = files q) as H6 by (apply files_object_inj; congruence).
  assert (voicePolicy p = voicePolicy q) as H7 by (apply voice_object_inj; congruence).
  split_and!; try done; try congruence. by apply lanes_object_inj.
Qed.

(** The text that identifies a profile determines it: two profiles with
    the same text agree on the identifier, the frame and padding sizes, the
    key cache bound, every queue and lane budget, and the reconnect, file and
    voice policies. *)
Theorem profile_text_injective p q text :
  json_ok (JObj (profile_object p)) = true -> json_ok (JObj (profile_object q)) = true ->
  profileHashInput p = Some text -> profileHashInput q = Some text -> same_profile p q.
Proof.
  intros Hp Hq Htp Htq. apply profile_object_inj.
  assert (JObj (profile_object p) = JObj (profile_object q)) as Heq by by eapply stringify_inj.
  by apply JObj_inj.
Qed.

Lemma canonical_profile_ok i : json_ok (JObj (profile_object (getProfile i))) = true.
Proof. by destruct i; vm_compute. Qed.

(** ** Reading the phrase *)

Definition no_space (s : jstr) : bool := forallb (fun c => negb (c =? 32)) s.

Lemma split_at_space s s' r r' :
  no_space s = true -> no_space s' = true -> s ++ 32 :: r = s' ++ 32 :: r' -> s = s' /\ r = r'.
Proof.
  revert s'. induction s as [|c s IH]; intros [|c' s']; cbn [no_space forallb app].
  - intros _ _ H. by injection H.
  - intros _ Hc H. injection H as <- _. done.
  - intros Hc _ H. injection H as -> _. done.
  - intros [_ Hs]%andb_prop [_ Hs']%andb_prop [= -> Heq]. destruct (IH s' Hs Hs' Heq) as [-> ->]. done.
Qed.

Lemma join_inj l k :
  Forall (fun s => no_space s = true) l -> Forall (fun s => no_space s = true) k -> length l = length k ->
  join (js " ") l = join (js " ") k -> l = k.
Proof.
  intros Hl. revert k. induction Hl as [|s [|s2 l] Hs _ IH]; intros [|t [|t2 k]] Hk Hlen; try done.
  - cbn. by intros ->.
  - apply Forall_cons in Hk as [Ht Hk]. change (join (js " ") (s :: s2 :: l)) with (s ++ 32 :: join (js " ") (s2 :: l)).
    change (join (js " ") (t :: t2 :: k)) with (t ++ 32 :: join (js " ") (t2 :: k)).
    intros [-> Hr]%split_at_space; [|done|done]. f_equal. apply IH; [done|cbn in *; lia|done].
Qed.

Lemma words_spaceless : forallb no_space WORDS = true.
Proof. by vm_compute. Qed.

Lemma words_NoDup : NoDup WORDS.
Proof. by apply (bool_decide_eq_true_1 _); vm_compute. Qed.

Definition word (b : Z) : jstr := default [] (WORDS !! Z.to_nat (Z.land b 63)).

Lemma word_lookup b : WORDS !! Z.to_nat (Z.land b 63) = Some (word b).
Proof.
  unfold word. change 63 with (Z.ones 6). rewrite Z.land_ones by done.
  pose proof (Z.mod_pos_bound b (2 ^ 6) ltac:(done)).
  destruct (WORDS !! Z.to_nat (b mod 2 ^ 6)) eqn:E; [done|].
  apply lookup_ge_None in E. change (length WORDS) with 64%nat in E. lia.
Qed.

Lemma word_inj a b : word a = word b -> Z.land a 63 = Z.land b 63.
Proof.
  intros H. pose proof (word_lookup a) as Ha. pose proof (word_lookup b) as Hb. rewrite H in Ha.
  pose proof (NoDup_lookup _ _ _ _ words_NoDup Ha Hb) as He.
  apply Z2Nat.inj in He; [done|apply Z.land_nonneg; lia|apply Z.land_nonneg; lia].
Qed.

Lemma word_spaceless b : no_space (word b) = true.
Proof.
  eapply (proj1 (forallb_forall _ _) words_spaceless), list_elem_of_In, list_elem_of_lookup_2, word_lookup.
Qed.

(** A safety phrase of a digest of at least eight bytes is eight words of
    the list, and two phrases are equal exactly when the low six bits of the
    first eight digest bytes are: 48 bits of the digest are compared. *)
Theorem phrase_reads_digest d d' :
  8 <= zlength d -> 8 <= zlength d' ->
  (exists ws, phrase_of_digest d = join (js " ") ws /\ length ws = 8%nat /\ Forall (fun w => w ∈ WORDS) ws) /\
  (phrase_of_digest d = phrase_of_digest d' <->
   (fun b => Z.land b 63) <$> take 8 d = (fun b => Z.land b 63) <$> take 8 d').
Proof.
  unfold zlength. intros Hd Hd'. split.
  - exists (word <$> take 8 d). split_and!; [done|rewrite length_fmap, length_take; lia|].
    apply Forall_fmap, Forall_true. intros b. eapply list_elem_of_lookup_2, word_lookup.
  - change (phrase_of_digest d) with (join (js " ") (word <$> take 8 d)).
    change (phrase_of_digest d') with (join (js " ") (word <$> take 8 d')). split.
    + intros H%join_inj; [|by apply Forall_fmap, Forall_true; intros; apply word_spaceless..|
        rewrite !length_fmap, !length_take; lia].
      revert H. generalize (take 8 d) (take 8 d'). intros l. induction l as [|a l IH]; intros [|b k]; try done.
      rewrite !fmap_cons. intros H. assert (word a = word b) as Hw%word_inj by congruence.
      f_equal; [done|]. apply IH. congruence.
    + intros H. f_equal. revert H. generalize (take 8 d) (take 8 d'). intros l.
      induction l as [|a l IH]; intros [|b k]; try done. rewrite !fmap_cons. intros H.
      f_equal; [|apply IH; congruence]. unfold word. do 3 f_equal. congruence.
Qed.

(** ** Agreement of the two peers *)

Lemma str_ltb_irrefl s : str_ltb s s = false.
Proof. induction s as [|c s IH]; [done|]. cbn. by rewrite Z.ltb_irrefl, Z.eqb_refl, IH. Qed.

Lemma str_ltb_flip a b : a <> b -> str_ltb b a = negb (str_ltb a b).
Proof.
  revert b. induction a as [|x a IH]; intros [|y b] Hne; try done. cbn [str_ltb].
  destruct (Z.ltb_spec x y), (Z.eqb_spec x y), (Z.ltb_spec y x), (Z.eqb_spec y x); try lia; try done.
  subst. cbn. apply IH. congruence.
Qed.

Lemma identities_swap a b p code v fl (mk := fun l r =>
    {| localPublicKey := l; peerPublicKey := r; in_profile := p; sessionCode := code;
       peerAppVersion := v; peerFeatureFlags := fl |}) :
  identities (mk a b) = identities (mk b a).
Proof.
  subst mk. unfold identities. cbn [localPublicKey peerPublicKey]. destruct (decide (bytesToHex a = bytesToHex b)) as [->|Hne]; [done|].
  rewrite (str_ltb_flip _ _ Hne). by destruct (str_ltb _ _).
Qed.

Lemma units_ok_hex b : wf_bytes b -> units_ok (bytesToHex b) = true.
Proof.
  induction 1 as [|x l Hx _ IH]; [done|]. rewrite bytesToHex_cons. unfold is_byte in Hx.
  unfold units_ok in *. cbn [forallb]. rewrite IH. unfold hex_digit.
  repeat simp_if; bool_facts; repeat (apply andb_true_intro; split); try done;
    (apply Z.leb_le || apply Z.ltb_lt); Z.to_euclidean_division_equations; lia.
Qed.

Lemma insert_str_perm s l : Permutation (insert_str s l) (s :: l).
Proof.
  induction l as [|t l IH]; [done|]. cbn. destruct (str_ltb t s); [|done]. rewrite IH. constructor.
Qed.

Lemma sort_strings_perm l : Permutation (sort_strings l) l.
Proof. induction l as [|s l IH]; [done|]. cbn. by rewrite insert_str_perm, IH. Qed.

Lemma forallb_perm {A} (f : A -> bool) l k : Permutation l k -> forallb f l = forallb f k.
Proof. induction 1; cbn; try congruence. by rewrite !andb_assoc, (andb_comm (f _)). Qed.

Lemma json_ok_strings l : forallb json_ok (JStr <$> l) = forallb units_ok l.
Proof. induction l as [|s l IH]; [done|]. csimpl. cbn [forallb json_ok]. by rewrite IH. Qed.

Section Phrase.
Context (sha256 : bytes -> bytes).
Hypothesis sha256_bytes : forall b, wf_bytes (sha256 b).
#[local] Set Default Proof Using "All".

Definition phrase_units (i : PhraseInput) : bool :=
  units_ok (peerAppVersion i) && forallb units_ok (peerFeatureFlags i) &&
  isSafeInteger (protocolVersion (in_profile i)).

Lemma short_hash_ok b : units_ok (short_hash sha256 b) = true.
Proof. apply units_ok_hex. by apply Forall_take, sha256_bytes. Qed.

Lemma material_ok i hash :
  wf_bytes (localPublicKey i) -> wf_bytes (peerPublicKey i) -> phrase_units i = true ->
  units_ok hash = true -> json_ok (JObj (material sha256 i hash)) = true.
Proof.
  intros Hl Hp Hu Hh. unfold phrase_units in Hu. apply andb_prop in Hu as [[Hv Hf]%andb_prop Hs].
  assert (units_ok (identities i).1 = true /\ units_ok (identities i).2 = true) as [H1 H2].
  { unfold identities. destruct (str_ltb _ _); split; by apply units_ok_hex. }
  unfold material. cbn [json_ok forallb field_str field_int fst snd].
  rewrite !json_ok_strings, (forallb_perm _ _ _ (sort_strings_perm _)), Hv, Hf, Hs, Hh, H1, H2, short_hash_ok.
  by vm_compute.
Qed.

Lemma profileHash_ok i : exists h, profileHash sha256 (getProfile i) = Some h /\ units_ok h = true.
Proof.
  destruct (stringify_total _ (canonical_profile_ok i)) as (s & Hs & _).
  unfold profileHash, profileHashInput. rewrite Hs. eexists. split; [done|]. apply short_hash_ok.
Qed.

Lemma compatible_local key i hs :
  local_handshake sha256 key (getProfile i) = Some hs -> compatible sha256 (getProfile i) hs = true.
Proof.
  unfold local_handshake, compatible. destruct (profileHash_ok i) as (h & -> & _).
  cbn [mbind option_bind]. intros [= <-]. cbn [hs_appVersion hs_profileId hs_profileHash hs_featureFlags].
  rewrite !jstr_eqb_refl, bool_decide_true by done. by vm_compute.
Qed.

Lemma base64Url_inj a b : wf_bytes a -> wf_bytes b -> bytesToBase64Url a = bytesToBase64Url b -> a = b.
Proof.
  intros Ha Hb H. apply Ok_inj. rewrite <- (base64Url_roundtrip a Ha), <- (base64Url_roundtrip b Hb). by f_equal.
Qed.

(** What a client with key [a] computes from the honest handshake of key [b]. *)
Lemma phrase_for_local a b i code hs :
  wf_bytes a -> wf_bytes b -> a <> b -> local_handshake sha256 b (getProfile i) = Some hs ->
  phrase_for sha256 a (getProfile i) code hs =
    verificationPhrase sha256 {| localPublicKey := a; peerPublicKey := b; in_profile := getProfile i;
      sessionCode := code; peerAppVersion := APP_VERSION; peerFeatureFlags := FEATURE_FLAGS |}.
Proof.
  intros Ha Hb Hne Hhs. unfold phrase_for. rewrite (compatible_local _ _ _ Hhs).
  unfold local_handshake in Hhs. destruct (profileHash_ok i) as (h & Hh & _). rewrite Hh in Hhs.
  cbn [mbind option_bind] in Hhs. injection Hhs as <-. cbn [hs_publicKey hs_appVersion hs_featureFlags].
  rewrite base64Url_roundtrip by done.
  destruct (jstr_eqb _ _) eqn:E; [|done]. apply jstr_eqb_eq, base64Url_inj in E; [congruence|done|done].
Qed.

Lemma verificationPhrase_swap a b p code v fl (mk := fun l r =>
    {| localPublicKey := l; peerPublicKey := r; in_profile := p; sessionCode := code;
       peerAppVersion := v; peerFeatureFlags := fl |}) :
  verificationPhrase sha256 (mk a b) = verificationPhrase sha256 (mk b a).
Proof.
  unfold verificationPhrase, material_text, material. subst mk. cbn [in_profile peerAppVersion peerFeatureFlags sessionCode].
  by rewrite identities_swap.
Qed.

Lemma verificationPhrase_local a b i code :
  wf_bytes a -> wf_bytes b ->
  exists phrase, verificationPhrase sha256 {| localPublicKey := a; peerPublicKey := b; in_profile := getProfile i;
    sessionCode := code; peerAppVersion := APP_VERSION; peerFeatureFlags := FEATURE_FLAGS |} = Some phrase.
Proof.
  intros Ha Hb. destruct (profileHash_ok i) as (h & Hh & Hu).
  unfold verificationPhrase, material_text. cbn [in_profile]. rewrite Hh. cbn [mbind option_bind].
  destruct (stringify_total (JObj (material sha256 {| localPublicKey := a; peerPublicKey := b;
    in_profile := getProfile i; sessionCode := code; peerAppVersion := APP_VERSION;
    peerFeatureFlags := FEATURE_FLAGS |} h))) as (t & -> & _); [|by eexists].
  apply material_ok; try done. by destruct i; vm_compute.
Qed.

(** Two clients that use the same profile and room code and receive each
    other's handshakes both accept them and show the same safety phrase. *)
Theorem phrase_agreement a b i code hsa hsb :
  wf_bytes a -> wf_bytes b -> a <> b ->
  local_handshake sha256 a (getProfile i) = Some hsa ->
  local_handshake sha256 b (getProfile i) = Some hsb ->
  exists phrase, phrase_for sha256 a (getProfile i) code hsb = Some phrase /\
                 phrase_for sha256 b (getProfile i) code hsa = Some phrase.
Proof.
  intros Ha Hb Hne Hhsa Hhsb. rewrite (phrase_for_local a b), (phrase_for_local b a) by done.
  rewrite verificationPhrase_swap. destruct (verificationPhrase_local b a i code) as [phrase ->]; [done|done|].
  by exists phrase.
Qed.

(** The hashed text of the phrase determines everything it is meant to
    bind: the unordered pair of public keys, the profile hash and protocol
    version, the peer's version and set of feature flags, and the hash of
    the room code.  A relay that substitutes a key therefore changes the
    text. *)
Theorem phrase_text_binds i j text :
  wf_bytes (localPublicKey i) -> wf_bytes (peerPublicKey i) -> phrase_units i = true ->
  wf_bytes (localPublicKey j) -> wf_bytes (peerPublicKey j) -> phrase_units j = true ->
  material_text sha256 i = Some text -> material_text sha256 j = Some text ->
  ((localPublicKey i = localPublicKey j /\ peerPublicKey i = peerPublicKey j) \/
   (localPublicKey i = peerPublicKey j /\ peerPublicKey i = localPublicKey j)) /\
  profileHash sha256 (in_profile i) = profileHash sha256 (in_profile j) /\
  protocolVersion (in_profile i) = protocolVersion (in_profile j) /\
  peerAppVersion i = peerAppVersion j /\ Permutation (peerFeatureFlags i) (peerFeatureFlags j) /\
  short_hash sha256 (utf8Encode (sessionCode i)) = short_hash sha256 (utf8Encode (sessionCode j)).
Proof.
  intros Hli Hpi Hui Hlj Hpj Huj Hi Hj. unfold material_text in *.
  destruct (profileHash sha256 (in_profile i)) as [hi|] eqn:Ehi; [|done].
  destruct (profileHash sha256 (in_profile j)) as [hj|] eqn:Ehj; [|done]. cbn [mbind option_bind] in Hi, Hj.
  assert (forall p h, profileHash sha256 p = Some h -> units_ok h = true) as Hu.
  { unfold profileHash. intros p h. destruct (profileHashInput p); [|done]. cbn. intros [= <-]. apply short_hash_ok. }
  assert (material sha256 i hi = material sha256 j hj) as Hm.
  { apply JObj_inj. eapply stringify_inj; eauto using material_ok. }
  unfold material, field_str, field_int in Hm.
  assert (identities i = identities j) as Hid by (apply injective_projections; congruence).
  split_and!; try congruence.
  - unfold identities in Hid. destruct (str_ltb _ _), (str_ltb _ _); injection Hid as H1 H2;
      apply bytesToHex_inj in H1, H2; auto.
  - rewrite <- (sort_strings_perm (peerFeatureFlags i)), <- (sort_strings_perm (peerFeatureFlags j)).
    assert (sort_strings (peerFeatureFlags i) = sort_strings (peerFeatureFlags j)) as ->; [|done].
    apply (list_fmap_eq_inj JStr); [by injection 1|]. congruence.
Qed.
End Phrase.

(** ** Witnesses *)

(** A stand-in for SHA-256 that folds its input into one byte. *)
Definition demo_sha (b : bytes) : bytes := replicate 31 7 ++ [foldl (fun h x => (h * 31 + x) mod 256) 1 b].

Lemma demo_sha_bytes b : wf_bytes (demo_sha b).
Proof.
  apply Forall_app. split; [by apply Forall_replicate|]. apply Forall_singleton. unfold is_byte.
  destruct b as [|x b] using rev_ind; [done|]. rewrite foldl_snoc. by apply Z.mod_pos_bound.
Qed.

Lemma profile_text_injective_witness : same_profile (getProfile ProfileId.low_data) (getProfile ProfileId.low_data).
Proof.
  apply (profile_text_injective _ _ (default [] (profileHashInput (getProfile ProfileId.low_data))));
    by vm_compute.
Defined.

Lemma phrase_reads_digest_witness :
  phrase_of_digest (be 8 0x0102030405060708) <> phrase_of_digest (be 8 0x0102030405060709).
Proof.
  intros H. apply (phrase_reads_digest (be 8 0x0102030405060708) (be 8 0x0102030405060709)) in H;
    [|by vm_compute..]. by vm_compute in H.
Defined.

Definition demo_handshake (key : bytes) : HandshakeMessage :=
  default sample_handshake (local_handshake demo_sha key (getProfile ProfileId.balanced)).

Lemma phrase_agreement_witness :
  exists phrase,
    phrase_for demo_sha [1; 2] (getProfile ProfileId.balanced) (js "ROOM") (demo_handshake [3; 4]) = Some phrase /\
    phrase_for demo_sha [3; 4] (getProfile ProfileId.balanced) (js "ROOM") (demo_handshake [1; 2]) = Some phrase.
Proof.
  apply (phrase_agreement demo_sha demo_sha_bytes); try (by vm_compute);
    (repeat (apply Forall_cons; split; [by vm_compute|])); by apply Forall_nil.
Defined.

Definition demo_input (l p : bytes) : PhraseInput :=
  {| localPublicKey := l; peerPublicKey := p; in_profile := getProfile ProfileId.balanced;
     sessionCode := js "ROOM"; peerAppVersion := APP_VERSION; peerFeatureFlags := FEATURE_FLAGS |}.

Lemma phrase_text_binds_witness :
  ([1; 2] = [3; 4] /\ [3; 4] = [1; 2]) \/ ([1; 2] = [1; 2] /\ [3; 4] = [3; 4]).
Proof.
  apply (phrase_text_binds demo_sha demo_sha_bytes (demo_input [1; 2] [3; 4]) (demo_input [3; 4] [1; 2])
    (default [] (material_text demo_sha (demo_input [1; 2] [3; 4])))); try (by vm_compute);
    (repeat (apply Forall_cons; split; [by vm_compute|])); by apply Forall_nil.
Defined.
