(* ===== verification/Ratchet.v ===== *)
(** * Crypto worker: [client/src/crypto/cryptoWorker.ts]

    The key exchange, the two symmetric chains, the skipped-key cache, the
    padding and the request handler of the worker.  The worker serialises
    its requests, so one request is one transition of its state.  WebCrypto
    is a parameter with its documented laws; random bytes are arguments. *)
From S2P Require Import Prelude JsMap Bytes Utf8 Profiles Envelope.

(** ** WebCrypto *)

(** [None] is a rejected promise ([OperationError]). *)
Class WebCrypto := {
  subtle_hkdf : bytes -> bytes -> bytes -> Z -> bytes;        (* ikm, salt, info, bits *)
  subtle_x25519 : bytes -> bytes -> option bytes;             (* private key, public key *)
  subtle_public : bytes -> bytes;                             (* public key of a private key *)
  subtle_digest : bytes -> bytes;                             (* SHA-256 *)
  subtle_encrypt : bytes -> bytes -> bytes -> bytes -> bytes; (* key, iv, aad, plaintext *)
  subtle_decrypt : bytes -> bytes -> bytes -> bytes -> option bytes;
}.

(** What the worker relies on: HKDF returns the requested number of bits,
    public keys have 32 bytes, X25519 is symmetric, and AES-GCM decrypts
    what was encrypted with the same key, nonce and associated data. *)
Class WebCryptoLaws `{WebCrypto} := {
  hkdf_length : forall ikm salt info bits, 0 <= bits -> zlength (subtle_hkdf ikm salt info bits) = bits / 8;
  public_length : forall k, zlength (subtle_public k) = 32;
  x25519_symmetric : forall a b,
    subtle_x25519 a (subtle_public b) = subtle_x25519 b (subtle_public a);
  aead_correct : forall key iv aad pt,
    subtle_decrypt key iv aad (subtle_encrypt key iv aad pt) = Some pt;
}.

(** ** State *)

Definition X25519_PUBLIC_BYTES : Z := 32.
Definition AES_KEY_BYTES : Z := 32.
Definition ZERO_32 : bytes := replicate 32 0.
Definition ROOT_INFO : bytes := utf8Encode (js "onlytwo-v2-root").
Definition CHAIN_SEND_INFO : bytes := utf8Encode (js "onlytwo-v2-chain-send").
Definition CHAIN_RECV_INFO : bytes := utf8Encode (js "onlytwo-v2-chain-recv").
Definition CHAIN_STEP_INFO : bytes := utf8Encode (js "onlytwo-v2-chain-step").

Record CryptoConfig := {
  cfg_paddingBuckets : list Z;
  cfg_maxSkipped : Z;
  cfg_protocolVersion : Z;
}.

(** [identityKeyPair.privateKey] stands for the non-extractable key object. *)
Record Worker := {
  config : CryptoConfig;
  identityKeyPair : option bytes;
  identityPublicRaw : option bytes;
  sendChainKey : option bytes;
  receiveChainKey : option bytes;
  outboundCounter : Z;
  highestInboundCounter : Z;
  sessionEstablished : bool;
  skippedKeys : jsmap Z bytes;
}.

Definition initial_config : CryptoConfig :=
  {| cfg_paddingBuckets := [4096; 16384; 65536; 131072]; cfg_maxSkipped := 4096;
     cfg_protocolVersion := 2 |}.

Definition initial_worker : Worker := {|
  config := initial_config; identityKeyPair := None; identityPublicRaw := None;
  sendChainKey := None; receiveChainKey := None; outboundCounter := 0;
  highestInboundCounter := 0; sessionEstablished := false; skippedKeys := [];
|}.

(** ** Helpers *)

(** The sign is all the callers use; the first difference decides. *)
Fixpoint compareBytes (a b : bytes) : Z :=
  match a, b with
  | x :: a', y :: b' => if x =? y then compareBytes a' b' else x - y
  | _, _ => zlength a - zlength b
  end.

Section Worker.
Context `{WebCrypto}.

Definition hkdf (ikm salt info : bytes) (length : Z) : bytes :=
  subtle_hkdf ikm salt info (length * 8).

Definition importAes (raw : bytes) : result bytes :=
  throw_if negb (zlength raw =? AES_KEY_BYTES) with js "Invalid AES key"; Ok raw.

Definition importX25519Public (raw : bytes) : result bytes :=
  throw_if negb (zlength raw =? X25519_PUBLIC_BYTES) with js "Invalid X25519 public key"; Ok raw.

Definition resetSession (w : Worker) : Worker := {|
  config := config w; identityKeyPair := identityKeyPair w;
  identityPublicRaw := identityPublicRaw w;
  sendChainKey := None; receiveChainKey := None; outboundCounter := 0;
  highestInboundCounter := 0; sessionEstablished := false; skippedKeys := [];
|}.

Definition resetAll (w : Worker) : Worker := {|
  config := config w; identityKeyPair := None; identityPublicRaw := None;
  sendChainKey := None; receiveChainKey := None; outboundCounter := 0;
  highestInboundCounter := 0; sessionEstablished := false; skippedKeys := [];
|}.

(** [priv] is the key [crypto.subtle.generateKey] drew. *)
Definition generateIdentity (priv : bytes) (w : Worker) : Worker * bytes :=
  ({| config := config w; identityKeyPair := Some priv;
      identityPublicRaw := Some (subtle_public priv);
      sendChainKey := None; receiveChainKey := None; outboundCounter := 0;
      highestInboundCounter := 0; sessionEstablished := false; skippedKeys := [] |},
   subtle_public priv).

Definition operation_error : jstr := js "OperationError".

Definition establishSession (peerRaw : bytes) (profileHashValue : jstr) (w : Worker)
  : Worker * result bool :=
  match identityKeyPair w, identityPublicRaw w with
  | Some priv, Some pub =>
      if negb (zlength peerRaw =? X25519_PUBLIC_BYTES)
      then (w, Throw (js "Invalid peer public key"))
      else if compareBytes pub peerRaw =? 0
      then (w, Throw (js "Refusing identical peer key"))
      else
        let w := resetSession w in
        match importX25519Public peerRaw with
        | Throw e => (w, Throw e)
        | Ok peerKey =>
            match subtle_x25519 priv peerKey with
            | None => (w, Throw operation_error)
            | Some shared =>
                let salt := subtle_digest (utf8Encode (js "onlytwo-v2:" ++ profileHashValue)) in
                let rootKey := hkdf shared salt ROOT_INFO AES_KEY_BYTES in
                let localIsLower := compareBytes pub peerRaw <? 0 in
                let send := hkdf rootKey ZERO_32
                  (if localIsLower then CHAIN_SEND_INFO else CHAIN_RECV_INFO) AES_KEY_BYTES in
                let recv := hkdf rootKey ZERO_32
                  (if localIsLower then CHAIN_RECV_INFO else CHAIN_SEND_INFO) AES_KEY_BYTES in
                ({| config := config w; identityKeyPair := identityKeyPair w;
                    identityPublicRaw := identityPublicRaw w;
                    sendChainKey := Some send; receiveChainKey := Some recv;
                    outboundCounter := 0; highestInboundCounter := 0;
                    sessionEstablished := true; skippedKeys := [] |}, Ok true)
            end
        end
  | _, _ => (w, Throw (js "Identity not generated"))
  end.

(** [{ next, message }]. *)
Definition deriveStep (chainKey : bytes) : bytes * bytes :=
  let material := hkdf chainKey ZERO_32 CHAIN_STEP_INFO (AES_KEY_BYTES * 2) in
  (take (Z.to_nat AES_KEY_BYTES) material, drop (Z.to_nat AES_KEY_BYTES) material).

(** [[...buckets].sort((a, b) => a - b)], first one that fits. *)
Fixpoint insert_bucket (b : Z) (l : list Z) : list Z :=
  match l with
  | [] => [b]
  | c :: l' => if b <=? c then b :: l else c :: insert_bucket b l'
  end.

Definition sort_buckets (l : list Z) : list Z := foldr insert_bucket [] l.

Definition selectPaddingBucket (cfg : CryptoConfig) (actualBytes : Z) : result Z :=
  match find (fun b => actualBytes + 4 <=? b) (sort_buckets (cfg_paddingBuckets cfg)) with
  | Some b => Ok b
  | None => Throw (js "Payload too large for selected profile")
  end.

(** [random n] are the [n] bytes [crypto.getRandomValues] filled in. *)
Definition buildPlaintext (random : Z -> bytes) (cfg : CryptoConfig) (actual : bytes)
  : result bytes :=
  let! bucket := selectPaddingBucket cfg (zlength actual) in
  Ok (put 4 actual (put 0 (be 4 (zlength actual)) (random bucket))).

Definition parsePlaintext (cfg : CryptoConfig) (padded : bytes) : result bytes :=
  throw_if negb (bool_decide (zlength padded ∈ cfg_paddingBuckets cfg))
    with js "Invalid padded plaintext size";
  match get_be 4 0 padded with
  | None => Throw (js "Offset is outside the bounds of the DataView")
  | Some length =>
      throw_if zlength padded - 4 <? length with js "Invalid plaintext length";
      Ok (take (Z.to_nat length) (drop 4 padded))
  end.

(** The eviction loop of [cacheSkipped]: the first key of the map is the
    oldest. *)
Fixpoint evict (max : Z) (m : jsmap Z bytes) : jsmap Z bytes :=
  match m with
  | [] => []
  | _ :: m' => if max <? zlength m then evict max m' else m
  end.

Definition cacheSkipped (max counter : Z) (key : bytes) (m : jsmap Z bytes) : jsmap Z bytes :=
  evict max (map_set counter key m).

(** ** Encryption *)

Record EncryptResult := { enc_ciphertext : bytes; enc_nonce : bytes; enc_counter : Z }.

Definition set_sender (w : Worker) (chain : bytes) (counter : Z) : Worker := {|
  config := config w; identityKeyPair := identityKeyPair w;
  identityPublicRaw := identityPublicRaw w;
  sendChainKey := Some chain; receiveChainKey := receiveChainKey w;
  outboundCounter := counter; highestInboundCounter := highestInboundCounter w;
  sessionEstablished := sessionEstablished w; skippedKeys := skippedKeys w;
|}.

Definition set_receiver (w : Worker) (chain : option bytes) (highest : Z) (m : jsmap Z bytes)
  : Worker := {|
  config := config w; identityKeyPair := identityKeyPair w;
  identityPublicRaw := identityPublicRaw w;
  sendChainKey := sendChainKey w; receiveChainKey := chain;
  outboundCounter := outboundCounter w; highestInboundCounter := highest;
  sessionEstablished := sessionEstablished w; skippedKeys := m;
|}.

(** The chain and the counter have advanced before anything can throw. *)
Definition encryptBinary (random : Z -> bytes) (data : bytes) (aadContext : AadContext)
  (w : Worker) : Worker * result EncryptResult :=
  match sessionEstablished w, sendChainKey w with
  | true, Some chain =>
      let '(next, message) := deriveStep chain in
      let counter := outboundCounter w + 1 in
      let w := set_sender w next counter in
      let nonce := random NONCE_BYTES in
      (w, let! aad := encodeAad aadContext counter nonce in
          let! aes := importAes message in
          let! plaintext := buildPlaintext random (config w) data in
          Ok {| enc_ciphertext := subtle_encrypt aes nonce aad plaintext;
                enc_nonce := nonce; enc_counter := counter |})
  | _, _ => (w, Throw (js "Session not established"))
  end.

(** ** Decryption *)

Record DecryptRequest := {
  req_ciphertext : bytes;
  req_nonce : bytes;
  req_counter : Z;
  req_aadContext : AadContext;
}.

(** The [for] loop over the skipped counters [c, c+1, ...]: [n] turns. *)
Fixpoint skip_loop (max : Z) (n : nat) (c : Z) (cursor : bytes) (m : jsmap Z bytes)
  : bytes * jsmap Z bytes :=
  match n with
  | O => (cursor, m)
  | S n' =>
      let '(next, message) := deriveStep cursor in
      skip_loop max n' (c + 1) next (cacheSkipped max c message m)
  end.

(** Import the message key, open the ciphertext. *)
Definition open_with (key : bytes) (r : DecryptRequest) : result bytes :=
  let! aad := encodeAad (req_aadContext r) (req_counter r) (req_nonce r) in
  let! aes := importAes key in
  match subtle_decrypt aes (req_nonce r) aad (req_ciphertext r) with
  | Some padded => Ok padded
  | None => Throw operation_error
  end.

Definition decryptBinary (r : DecryptRequest) (w : Worker) : Worker * result bytes :=
  match sessionEstablished w, receiveChainKey w with
  | true, Some chain =>
      let counter := req_counter r in
      let max := cfg_maxSkipped (config w) in
      let highest := highestInboundCounter w in
      if negb (zlength (req_nonce r) =? NONCE_BYTES)
      then (w, Throw (js "Invalid nonce length"))
      else if highest + (max + 1) <? counter
      then (w, Throw (js "Counter too far ahead"))
      else
        match map_get counter (skippedKeys w) with
        | Some cached =>
            match open_with cached r with
            | Throw e => (w, Throw e)
            | Ok padded =>
                (set_receiver w (Some chain) highest (map_delete counter (skippedKeys w)),
                 parsePlaintext (config w) padded)
            end
        | None =>
            if counter <=? highest then (w, Throw (js "Replay detected"))
            else
              let '(cursor, skipped) :=
                skip_loop max (Z.to_nat (counter - highest - 1)) (highest + 1) chain
                  (skippedKeys w) in
              let '(nextChain, messageKey) := deriveStep cursor in
              match open_with messageKey r with
              | Throw e => (set_receiver w (Some chain) highest skipped, Throw e)
              | Ok padded =>
                  (set_receiver w (Some nextChain) counter skipped,
                   parsePlaintext (config w) padded)
              end
        end
  | _, _ => (w, Throw (js "Session not established"))
  end.
End Worker.

(** ** The request handler *)

Record ConfigurePayload := {
  cp_paddingBuckets : option (list Z);
  cp_maxSkippedMessageKeys : option Z;
  cp_protocolVersion : option Z;
}.

Inductive WorkerRequest :=
| CONFIGURE (payload : ConfigurePayload)
| GENERATE_IDENTITY (priv : bytes)
| ESTABLISH_SESSION (peerPublicKey : bytes) (profileHashValue : jstr)
| ENCRYPT (random : Z -> bytes) (data : bytes) (aadContext : AadContext)
| DECRYPT (r : DecryptRequest)
| RESET.

Inductive WorkerResponse :=
| RTrue
| RBytes (b : bytes)
| REncrypted (e : EncryptResult)
| RError (message : jstr).

(** [[...new Set(buckets)].sort((a, b) => a - b)]. *)
Definition configured_buckets (cfg : CryptoConfig) (payload : ConfigurePayload) : list Z :=
  let buckets := match cp_paddingBuckets payload with
                 | Some l => filter (fun n => 1024 <= n) l
                 | None => cfg_paddingBuckets cfg
                 end in
  sort_buckets (foldl (fun s b => set_add b s) [] buckets).

Definition configure (payload : ConfigurePayload) (cfg : CryptoConfig) : CryptoConfig := {|
  cfg_paddingBuckets := configured_buckets cfg payload;
  cfg_maxSkipped :=
    Z.min 1024 (Z.max 32 (default (cfg_maxSkipped cfg) (cp_maxSkippedMessageKeys payload)));
  cfg_protocolVersion := default (cfg_protocolVersion cfg) (cp_protocolVersion payload);
|}.

Definition set_config (cfg : CryptoConfig) (w : Worker) : Worker := {|
  config := cfg; identityKeyPair := identityKeyPair w; identityPublicRaw := identityPublicRaw w;
  sendChainKey := sendChainKey w; receiveChainKey := receiveChainKey w;
  outboundCounter := outboundCounter w; highestInboundCounter := highestInboundCounter w;
  sessionEstablished := sessionEstablished w; skippedKeys := skippedKeys w;
|}.

Definition respond {A} (f : A -> WorkerResponse) (res : result A) : WorkerResponse :=
  match res with Ok a => f a | Throw e => RError e end.

Definition handle `{WebCrypto} (req : WorkerRequest) (w : Worker) : Worker * WorkerResponse :=
  match req with
  | CONFIGURE payload => (resetSession (set_config (configure payload (config w)) w), RTrue)
  | GENERATE_IDENTITY priv =>
      let '(w', pub) := generateIdentity priv w in (w', RBytes pub)
  | ESTABLISH_SESSION peer hash =>
      let '(w', res) := establishSession peer hash w in (w', respond (fun _ => RTrue) res)
  | ENCRYPT random data ctx =>
      let '(w', res) := encryptBinary random data ctx w in (w', respond REncrypted res)
  | DECRYPT r =>
      let '(w', res) := decryptBinary r w in (w', respond RBytes res)
  | RESET => (resetAll w, RTrue)
  end.

(** ** The chain as a sequence of keys *)

Section Chain.
Context `{WebCrypto}.

Definition chain_at (ck : bytes) (n : nat) : bytes :=
  Nat.iter n (fun k => (deriveStep k).1) ck.

(** The key of the message with counter [c], counted from 1. *)
Definition key_of (ck : bytes) (c : Z) : bytes :=
  (deriveStep (chain_at ck (Z.to_nat (c - 1)))).2.

Lemma deriveStep_chain ck c :
  1 <= c ->
  deriveStep (chain_at ck (Z.to_nat (c - 1))) = (chain_at ck (Z.to_nat c), key_of ck c).
Proof.
  intros Hc. unfold key_of.
  replace (Z.to_nat c) with (S (Z.to_nat (c - 1))) by lia.
  apply surjective_pairing.
Qed.

(** Every cached entry is the key of its counter. *)
Definition keys_right (ck : bytes) (m : jsmap Z bytes) : Prop :=
  Forall (fun p => 1 <= p.1 /\ p.2 = key_of ck p.1) m.

(** The receiving half follows the chain that starts at [ck]. *)
Definition synced (ck : bytes) (w : Worker) : Prop :=
  sessionEstablished w = true /\ 0 <= highestInboundCounter w /\
  receiveChainKey w = Some (chain_at ck (Z.to_nat (highestInboundCounter w))) /\
  keys_right ck (skippedKeys w).

Lemma evict_suffix max m : exists pre, m = pre ++ evict max m.
Proof.
  induction m as [|p m [pre IH]]; [by exists []|]. cbn [evict].
  destruct (max <? _); [|by exists []]. exists (p :: pre). by rewrite <- app_comm_cons, <- IH.
Qed.

Lemma keys_right_set ck c m :
  1 <= c -> keys_right ck m -> keys_right ck (map_set c (key_of ck c) m).
Proof.
  intros Hc. unfold keys_right. induction 1 as [|[c' k] m Hp Hm IH]; simpl.
  - by repeat constructor.
  - case_decide; constructor; done.
Qed.

Lemma keys_right_cache ck max c m :
  1 <= c -> keys_right ck m -> keys_right ck (cacheSkipped max c (key_of ck c) m).
Proof.
  intros Hc Hm. apply (keys_right_set ck c) in Hm; [|done]. unfold cacheSkipped.
  destruct (evict_suffix max (map_set c (key_of ck c) m)) as [pre Hpre].
  unfold keys_right in Hm. rewrite Hpre in Hm. by apply Forall_app in Hm as [_ Hm].
Qed.

Lemma keys_right_delete ck c m : keys_right ck m -> keys_right ck (map_delete c m).
Proof.
  unfold keys_right, map_delete. rewrite !Forall_forall. intros Hm p Hp.
  apply Hm. by apply list_elem_of_filter in Hp as [_ ?].
Qed.

Lemma keys_right_get ck c k m : keys_right ck m -> map_get c m = Some k -> 1 <= c /\ k = key_of ck c.
Proof.
  unfold keys_right. rewrite Forall_forall. intros Hm Hg%map_get_In. by apply (Hm (c, k)).
Qed.

(** Rule induction over the skip loop: what one turn preserves, the loop
    preserves, and the cursor ends on the chain. *)
Lemma skip_loop_ind ck max (P : Z -> jsmap Z bytes -> Prop) n c m :
  1 <= c ->
  (forall c' m', c <= c' < c + Z.of_nat n -> P c' m' ->
     P (c' + 1) (cacheSkipped max c' (key_of ck c') m')) ->
  P c m ->
  exists m', skip_loop max n c (chain_at ck (Z.to_nat (c - 1))) m =
               (chain_at ck (Z.to_nat (c + Z.of_nat n - 1)), m') /\ P (c + Z.of_nat n) m'.
Proof.
  revert c m. induction n as [|n IH]; intros c m Hc Hstep HP; cbn [skip_loop].
  - exists m. rewrite Z.add_0_r. done.
  - rewrite deriveStep_chain by done.
    replace (Z.to_nat c) with (Z.to_nat (c + 1 - 1)) by lia.
    destruct (IH (c + 1) (cacheSkipped max c (key_of ck c) m)) as (m' & Hs & HP').
    { lia. } { intros c' m' Hc'. apply Hstep. lia. } { apply Hstep; [lia|done]. }
    exists m'. replace (c + Z.of_nat (S n)) with (c + 1 + Z.of_nat n) by lia. done.
Qed.

Lemma evict_le max m : 0 <= max -> zlength (evict max m) <= max.
Proof.
  intros Hmax. induction m as [|p m IH]; cbn [evict]; [done|].
  destruct (max <? zlength (p :: m)) eqn:E; [done|lia].
Qed.

Lemma evict_id max m : zlength m <= max -> evict max m = m.
Proof. destruct m as [|p m]; [done|]. intros Hm. cbn [evict]. by destruct (Z.ltb_spec max (zlength (p :: m))); [lia|]. Qed.

Lemma evict_ok max m : map_ok m -> map_ok (evict max m).
Proof.
  destruct (evict_suffix max m) as [pre Hpre]. unfold map_ok, map_keys. rewrite Hpre at 1.
  rewrite fmap_app. by intros (_ & _ & ?)%NoDup_app.
Qed.

Lemma evict_keys max m c : c ∈ map_keys (evict max m) -> c ∈ map_keys m.
Proof.
  destruct (evict_suffix max m) as [pre Hpre]. unfold map_keys. rewrite Hpre at 2.
  rewrite fmap_app, elem_of_app. auto.
Qed.

(** ** What one decryption does

    On a synced receiver the loop and the chain keys disappear: the key
    tried is the key of the counter, and the cache changes as
    [skipped_at] describes. *)
Definition skipped_at (ck : bytes) (w : Worker) (c : Z) : jsmap Z bytes :=
  (skip_loop (cfg_maxSkipped (config w)) (Z.to_nat (c - highestInboundCounter w - 1))
     (highestInboundCounter w + 1) (chain_at ck (Z.to_nat (highestInboundCounter w)))
     (skippedKeys w)).2.

Definition decrypt_spec (ck : bytes) (r : DecryptRequest) (w : Worker) : Worker * result bytes :=
  let c := req_counter r in
  let h := highestInboundCounter w in
  let opened := open_with (key_of ck c) r in
  if negb (zlength (req_nonce r) =? NONCE_BYTES) then (w, Throw (js "Invalid nonce length"))
  else if h + (cfg_maxSkipped (config w) + 1) <? c then (w, Throw (js "Counter too far ahead"))
  else if map_has c (skippedKeys w) then
    match opened with
    | Throw e => (w, Throw e)
    | Ok padded =>
        (set_receiver w (Some (chain_at ck (Z.to_nat h))) h (map_delete c (skippedKeys w)),
         parsePlaintext (config w) padded)
    end
  else if c <=? h then (w, Throw (js "Replay detected"))
  else
    match opened with
    | Throw e =>
        (set_receiver w (Some (chain_at ck (Z.to_nat h))) h (skipped_at ck w c), Throw e)
    | Ok padded =>
        (set_receiver w (Some (chain_at ck (Z.to_nat c))) c (skipped_at ck w c),
         parsePlaintext (config w) padded)
    end.

Lemma skip_loop_cursor ck w c :
  0 <= highestInboundCounter w < c ->
  skip_loop (cfg_maxSkipped (config w)) (Z.to_nat (c - highestInboundCounter w - 1))
    (highestInboundCounter w + 1) (chain_at ck (Z.to_nat (highestInboundCounter w)))
    (skippedKeys w) = (chain_at ck (Z.to_nat (c - 1)), skipped_at ck w c).
Proof.
  intros Hc. unfold skipped_at.
  set (h := highestInboundCounter w) in *.
  destruct (skip_loop_ind ck (cfg_maxSkipped (config w)) (fun _ _ => True)
              (Z.to_nat (c - h - 1)) (h + 1) (skippedKeys w)) as (m' & Hs & _); [lia|done|done|].
  replace (h + 1 - 1) with h in Hs by lia. rewrite Hs. cbn [snd].
  do 3 f_equal. lia.
Qed.

Lemma decryptBinary_spec ck r w :
  synced ck w -> decryptBinary r w = decrypt_spec ck r w.
Proof.
  intros (Hs & Hh & Hck & Hm). unfold decryptBinary, decrypt_spec. rewrite Hs, Hck.
  case_match; [done|]. case_match; [done|]. unfold map_has.
  destruct (map_get _ _) eqn:Hg.
  - by apply (keys_right_get ck) in Hg as [_ ->].
  - destruct (Z.leb_spec (req_counter r) (highestInboundCounter w)); [done|].
    rewrite (skip_loop_cursor ck) by lia. by rewrite deriveStep_chain by lia.
Qed.

(** The cache after a gap: only counters of the gap are added, the bound
    holds, and nothing is evicted while there is room. *)
Lemma skipped_at_spec ck w c (m := skippedKeys w) (h := highestInboundCounter w)
  (max := cfg_maxSkipped (config w)) :
  0 <= h < c -> map_ok m -> keys_right ck m ->
  map_ok (skipped_at ck w c) /\ keys_right ck (skipped_at ck w c) /\
  (0 <= max -> zlength m <= max -> zlength (skipped_at ck w c) <= max) /\
  (forall k, k ∈ map_keys (skipped_at ck w c) -> k ∈ map_keys m \/ h < k < c) /\
  (zlength m + (c - h - 1) <= max ->
   forall k, k ∈ map_keys m \/ h < k < c -> k ∈ map_keys (skipped_at ck w c)).
Proof.
  intros Hc Hok Hright.
  pose (P := fun (c' : Z) (m' : jsmap Z bytes) =>
    map_ok m' /\ keys_right ck m' /\ (0 <= max -> zlength m <= max -> zlength m' <= max) /\
    (forall k, k ∈ map_keys m' -> k ∈ map_keys m \/ h < k < c') /\
    (zlength m + (c - h - 1) <= max -> zlength m' <= zlength m + (c' - h - 1) /\
     forall k, k ∈ map_keys m \/ h < k < c' -> k ∈ map_keys m')).
  destruct (skip_loop_ind ck max P (Z.to_nat (c - h - 1)) (h + 1) m) as (m' & Hs & HP).
  - lia.
  - intros c' m' Hc' (H1 & H2 & H3 & H4 & H5). unfold cacheSkipped. split_and!.
    + by apply evict_ok, map_ok_set.
    + apply keys_right_cache; [lia|done].
    + intros. by apply evict_le.
    + intros k [->|Hk]%evict_keys%elem_of_map_keys_set; [lia|]. apply H4 in Hk as [?|?]; [auto|lia].
    + intros Hroom. destruct (H5 Hroom) as [Hlen Hkeys].
      assert (zlength (map_set c' (key_of ck c') m') <= zlength m + (c' + 1 - h - 1)) as Hset.
      { unfold zlength in *. rewrite map_size_set. case_match; lia. }
      rewrite evict_id by lia. split; [done|]. intros k Hk. apply elem_of_map_keys_set.
      destruct (decide (k = c')); [auto|]. right. apply Hkeys. destruct Hk; [auto|lia].
  - unfold P. split_and!; [done..|auto|]. intros. split; [lia|]. intros k [?|?]; [done|lia].
  - assert (m' = skipped_at ck w c) as ->.
    { pose proof (skip_loop_cursor ck w c Hc) as Hs'. fold h m max in Hs'.
      replace (h + 1 - 1) with h in Hs by lia. rewrite Hs' in Hs. by injection Hs. }
    destruct HP as (? & ? & ? & Hk & Hroom). split_and!; try done.
    + intros k Hk'. apply Hk in Hk' as [?|?]; [auto|lia].
    + intros Hr k Hk'. apply Hroom; [done|]. destruct Hk'; [auto|lia].
Qed.
End Chain.
