(* ===== verification/RatchetProps.v ===== *)
(** * Properties of the crypto worker

    Padding, the invariant of an established session, key agreement,
    delivery of authentic packets in any order, and replay. *)
From stdpp Require Import sorting.
From S2P Require Import Prelude JsMap Bytes Utf8 Profiles Envelope Ratchet.

(** ** Padding *)

Lemma elem_of_insert_bucket b x l : x ∈ insert_bucket b l <-> x = b \/ x ∈ l.
Proof.
  induction l as [|c l IH]; simpl; [set_solver|]. case_match; set_solver.
Qed.

Lemma elem_of_sort_buckets x l : x ∈ sort_buckets l <-> x ∈ l.
Proof.
  induction l as [|b l IH]; simpl; [done|].
  rewrite elem_of_insert_bucket, elem_of_cons, <- IH. done.
Qed.

Lemma insert_bucket_sorted b l : Sorted Z.le l -> Sorted Z.le (insert_bucket b l).
Proof.
  induction 1 as [|c l Hl IH Hhd]; simpl; [by repeat constructor|].
  destruct (Z.leb_spec b c); repeat constructor; try done.
  destruct Hhd as [|d l' Hd]; simpl; [constructor; lia|].
  case_match; constructor; lia.
Qed.

Lemma sort_buckets_sorted l : StronglySorted Z.le (sort_buckets l).
Proof.
  apply Sorted_StronglySorted; [intros ???; lia|].
  induction l; simpl; [constructor|]. by apply insert_bucket_sorted.
Qed.

Lemma find_sorted_least (n b : Z) l :
  StronglySorted Z.le l -> find (fun b => n <=? b) l = Some b ->
  b ∈ l /\ n <= b /\ forall x, x ∈ l -> n <= x -> b <= x.
Proof.
  induction 1 as [|c l Hl IH Hc]; simpl; [done|].
  destruct (Z.leb_spec n c) as [Hn|Hn].
  - intros [= <-]. split_and!; [set_solver|done|]. rewrite Forall_forall in Hc.
    intros x [->|Hx]%elem_of_cons _; [lia|by apply Hc].
  - intros (? & ? & Hx)%IH. split_and!; [set_solver|done|].
    intros x [->|?]%elem_of_cons ?; [lia|auto].
Qed.

Lemma selectPaddingBucket_spec cfg n b :
  selectPaddingBucket cfg n = Ok b ->
  b ∈ cfg_paddingBuckets cfg /\ n + 4 <= b /\
  forall x, x ∈ cfg_paddingBuckets cfg -> n + 4 <= x -> b <= x.
Proof.
  unfold selectPaddingBucket. case_match eqn:Hf; [|done]. intros <-%Ok_inj.
  apply find_sorted_least in Hf as (? & ? & Hmin); [|apply sort_buckets_sorted].
  rewrite elem_of_sort_buckets in *. split_and!; try done.
  intros x Hx. by apply Hmin, elem_of_sort_buckets.
Qed.

(** [crypto.getRandomValues] fills what it is given. *)
Definition random_ok (random : Z -> bytes) : Prop := forall n, 0 <= n -> zlength (random n) = n.

Lemma put_layout (pre bs post : bytes) off :
  length pre = off -> (length bs <= length post)%nat ->
  put off bs (pre ++ post) = pre ++ bs ++ drop (length bs) post.
Proof.
  intros <- Hb. unfold put. rewrite take_app_length.
  by rewrite <- drop_drop, drop_app_length.
Qed.

Lemma buildPlaintext_layout random cfg actual padded :
  random_ok random -> buildPlaintext random cfg actual = Ok padded ->
  exists bucket pad,
    selectPaddingBucket cfg (zlength actual) = Ok bucket /\
    padded = be 4 (zlength actual) ++ actual ++ pad /\ zlength padded = bucket.
Proof.
  intros Hr. unfold buildPlaintext. intros (b & Hb & <-%Ok_inj)%rbind_Ok.
  pose proof (selectPaddingBucket_spec _ _ _ Hb) as (_ & Hfit & _).
  pose proof (zlength_nonneg actual) as Hpos. pose proof (Hr b ltac:(lia)) as Hlen.
  unfold zlength in *.
  exists b, (drop (length actual) (drop 4 (random b))). split; [done|].
  assert (put 4 actual (put 0 (be 4 (Z.of_nat (length actual))) (random b))
          = be 4 (Z.of_nat (length actual)) ++ actual ++ drop (length actual) (drop 4 (random b))) as ->.
  { rewrite (put_layout [] (be 4 _) (random b) 0) by (rewrite ?length_be; done || lia).
    rewrite app_nil_l, length_be.
    apply put_layout; [apply length_be|rewrite length_drop; lia]. }
  split; [done|]. rewrite !length_app, length_be, !length_drop. lia.
Qed.

Lemma parse_build random cfg actual padded :
  random_ok random -> zlength actual < 2 ^ 32 ->
  buildPlaintext random cfg actual = Ok padded -> parsePlaintext cfg padded = Ok actual.
Proof.
  intros Hr Hlen Hb. apply buildPlaintext_layout in Hb as (b & pad & Hb & Hp & Hsz); [|done].
  apply selectPaddingBucket_spec in Hb as (Hin & Hfit & _).
  unfold parsePlaintext. rewrite Hsz. rewrite bool_decide_eq_true_2 by done. cbn [negb].
  pose proof (zlength_nonneg actual) as Hpos.
  unfold get_be. destruct (Nat.leb_spec (0 + 4) (length padded)) as [_|Hbad];
    [|unfold zlength in *; lia].
  rewrite drop_0, Hp, (take_app_length' (be 4 _)) by (by rewrite length_be).
  rewrite of_be_be, Z.mod_small by (cbn; lia).
  destruct (Z.ltb_spec (b - 4) (zlength actual)); [lia|].
  rewrite (drop_app_length' (be 4 _)) by (by rewrite length_be). unfold zlength. rewrite Nat2Z.id.
  by rewrite take_app_length.
Qed.

(** Unpadding inverts padding, and the padded size is the smallest
    configured bucket that holds the length prefix and the data. *)
Theorem padding_roundtrip random cfg actual padded :
  random_ok random -> zlength actual < 2 ^ 32 ->
  buildPlaintext random cfg actual = Ok padded ->
  parsePlaintext cfg padded = Ok actual /\
  zlength padded ∈ cfg_paddingBuckets cfg /\
  zlength actual + 4 <= zlength padded /\
  forall b, b ∈ cfg_paddingBuckets cfg -> zlength actual + 4 <= b -> zlength padded <= b.
Proof.
  intros Hr Hlen Hb. split; [by eapply parse_build|].
  apply buildPlaintext_layout in Hb as (b & pad & Hb & _ & ->); [|done].
  by apply selectPaddingBucket_spec.
Qed.

Definition zero_random (n : Z) : bytes := replicate (Z.to_nat n) 0.

Lemma zero_random_ok : random_ok zero_random.
Proof. intros n Hn. unfold zlength, zero_random. rewrite length_replicate. lia. Qed.

Definition small_config : CryptoConfig :=
  {| cfg_paddingBuckets := [64; 16]; cfg_maxSkipped := 32; cfg_protocolVersion := 2 |}.

Lemma padding_roundtrip_witness :
  parsePlaintext small_config (be 4 3 ++ [7; 8; 9] ++ replicate 9 0) = Ok [7; 8; 9].
Proof.
  apply (padding_roundtrip zero_random small_config [7; 8; 9] _ zero_random_ok);
    [done | reflexivity].
Defined.

(** ** The invariant of an established session *)

Section Session.
Context `{WebCrypto}.

(** Sending on the chain [sk], receiving on the chain [rk], with the cache
    of skipped keys within its bound. *)
Definition session_inv (sk rk : bytes) (w : Worker) : Prop :=
  synced rk w /\
  0 <= outboundCounter w /\
  sendChainKey w = Some (chain_at sk (Z.to_nat (outboundCounter w))) /\
  map_ok (skippedKeys w) /\
  0 <= cfg_maxSkipped (config w) /\
  zlength (skippedKeys w) <= cfg_maxSkipped (config w).

Definition is_traffic (req : WorkerRequest) : bool :=
  match req with ENCRYPT _ _ _ | DECRYPT _ => true | _ => false end.

Definition is_encrypt (req : WorkerRequest) : bool :=
  match req with ENCRYPT _ _ _ => true | _ => false end.

(** The worker chains its requests: a run handles them one by one. *)
Definition run (w : Worker) (reqs : list WorkerRequest) : Worker :=
  foldl (fun w req => (handle req w).1) w reqs.

Definition encrypts (reqs : list WorkerRequest) : Z :=
  sum_by (fun req => if is_encrypt req then 1 else 0) reqs.

Lemma zlength_map_delete {V} c (m : jsmap Z V) : zlength (map_delete c m) <= zlength m.
Proof. unfold zlength. pose proof (map_size_delete_le c m). lia. Qed.

Lemma decrypt_inv sk rk r w (w' := (decryptBinary r w).1) :
  session_inv sk rk w ->
  session_inv sk rk w' /\ config w' = config w /\ outboundCounter w' = outboundCounter w /\
  highestInboundCounter w <= highestInboundCounter w'.
Proof.
  intros Hinv. subst w'. destruct Hinv as (Hsync & Hout & Hsend & Hok & Hmax & Hlen).
  pose proof Hsync as (Hest & Hh & Hrk & Hright).
  rewrite (decryptBinary_spec rk r w Hsync). unfold decrypt_spec.
  case_match; [done|]. case_match; [done|]. case_match eqn:Hhas.
  - case_match; [|done]. cbn. split; [|done]. unfold session_inv, synced. cbn.
    pose proof (zlength_map_delete (req_counter r) (skippedKeys w)).
    split_and!; try done; try lia; [by apply keys_right_delete|by apply map_ok_delete].
  - case_match eqn:Hle; [done|]. bool_facts.
    destruct (skipped_at_spec rk w (req_counter r)) as (? & ? & Hb & _); [lia|done|done|].
    specialize (Hb Hmax Hlen).
    case_match; cbn; (split; [|split_and!; (done || lia)]); unfold session_inv, synced; cbn;
      split_and!; (done || lia).
Qed.

Lemma encrypt_inv sk rk random data ctx w (w' := (encryptBinary random data ctx w).1) :
  session_inv sk rk w ->
  session_inv sk rk w' /\ config w' = config w /\
  outboundCounter w' = outboundCounter w + 1 /\
  highestInboundCounter w <= highestInboundCounter w'.
Proof.
  intros Hinv. subst w'. pose proof Hinv as (Hsync & Hout & Hsend & Hrest).
  pose proof Hsync as (Hest & _). unfold encryptBinary. rewrite Hest, Hsend.
  replace (Z.to_nat (outboundCounter w)) with (Z.to_nat (outboundCounter w + 1 - 1)) by lia.
  rewrite deriveStep_chain by lia. cbn. split; [|split_and!; (done || lia)].
  unfold session_inv, synced in *. cbn. naive_solver lia.
Qed.

Lemma traffic_inv sk rk reqs w :
  forallb is_traffic reqs = true -> session_inv sk rk w ->
  session_inv sk rk (run w reqs) /\ config (run w reqs) = config w /\
  outboundCounter (run w reqs) = outboundCounter w + encrypts reqs /\
  highestInboundCounter w <= highestInboundCounter (run w reqs).
Proof.
  unfold run, encrypts. revert w. induction reqs as [|req reqs IH]; intros w Ht Hw;
    cbn [foldl forallb] in *; rewrite ?sum_by_cons.
  - cbn. split_and!; (done || lia).
  - apply andb_prop in Ht as [Ht Hts]. destruct req; try done; cbn [handle is_encrypt].
    + destruct (encryptBinary random data aadContext w) as [w' res] eqn:E. cbn [fst].
      pose proof (encrypt_inv sk rk random data aadContext w Hw) as Hinv.
      rewrite E in Hinv. cbn [fst] in Hinv. destruct Hinv as (Hi & <- & Ho & Hh).
      destruct (IH w' Hts Hi) as (? & ? & ? & ?). split_and!; (done || lia).
    + destruct (decryptBinary r w) as [w' res] eqn:E. cbn [fst].
      pose proof (decrypt_inv sk rk r w Hw) as Hinv.
      rewrite E in Hinv. cbn [fst] in Hinv. destruct Hinv as (Hi & <- & Ho & Hh).
      destruct (IH w' Hts Hi) as (? & ? & ? & ?). split_and!; (done || lia).
Qed.

Lemma encrypt_ok sk rk random data ctx w e :
  session_inv sk rk w ->
  (encryptBinary random data ctx w).2 = Ok e ->
  enc_counter e = outboundCounter w + 1 /\ enc_nonce e = random NONCE_BYTES /\
  exists aad padded,
    encodeAad ctx (enc_counter e) (enc_nonce e) = Ok aad /\
    buildPlaintext random (config w) data = Ok padded /\
    enc_ciphertext e = subtle_encrypt (key_of sk (enc_counter e)) (enc_nonce e) aad padded.
Proof.
  intros (Hsync & Hout & Hsend & _). pose proof Hsync as (Hest & _).
  unfold encryptBinary. rewrite Hest, Hsend.
  replace (Z.to_nat (outboundCounter w)) with (Z.to_nat (outboundCounter w + 1 - 1)) by lia.
  rewrite deriveStep_chain by lia. cbn [snd].
  intros (aad & Haad & (aes & Haes & (pt & Hpt & <-%Ok_inj)%rbind_Ok)%rbind_Ok)%rbind_Ok.
  cbn [enc_counter enc_nonce enc_ciphertext].
  unfold importAes in Haes. case_match; [done|]. apply Ok_inj in Haes as <-.
  split_and!; [done|done|]. by exists aad, pt.
Qed.

(** A packet the holder of the chain [ck] produced for [data]. *)
Definition authentic (ck : bytes) (cfg : CryptoConfig) (data : bytes) (r : DecryptRequest) : Prop :=
  exists random aad padded,
    random_ok random /\ zlength data < 2 ^ 32 /\
    req_nonce r = random NONCE_BYTES /\
    encodeAad (req_aadContext r) (req_counter r) (req_nonce r) = Ok aad /\
    buildPlaintext random cfg data = Ok padded /\
    req_ciphertext r = subtle_encrypt (key_of ck (req_counter r)) (req_nonce r) aad padded.

Context `{!WebCryptoLaws}.
#[local] Set Default Proof Using "Type*".

Lemma key_of_length ck c : zlength (key_of ck c) = 32.
Proof.
  unfold key_of, deriveStep. cbn [snd].
  pose proof (hkdf_length (chain_at ck (Z.to_nat (c - 1))) ZERO_32 CHAIN_STEP_INFO
                (AES_KEY_BYTES * 2 * 8) ltac:(done)) as Hl.
  unfold zlength, hkdf in *. rewrite length_drop. change (AES_KEY_BYTES * 2 * 8 / 8) with 64 in Hl.
  change (Z.to_nat AES_KEY_BYTES) with 32%nat. lia.
Qed.

Lemma authentic_opens ck cfg data r :
  authentic ck cfg data r ->
  zlength (req_nonce r) = NONCE_BYTES /\
  exists padded, open_with (key_of ck (req_counter r)) r = Ok padded /\
                 parsePlaintext cfg padded = Ok data.
Proof.
  intros (random & aad & padded & Hr & Hlen & Hn & Haad & Hpt & Hct). split.
  { rewrite Hn. by apply Hr. }
  exists padded. split; [|by eapply parse_build].
  unfold open_with, importAes. rewrite Haad. cbn [rbind]. rewrite key_of_length.
  change (32 =? AES_KEY_BYTES) with true. cbn [negb rbind]. rewrite Hct, aead_correct. done.
Qed.

(** An authentic packet whose key is cached or within the window. *)
Definition deliverable (w : Worker) (c : Z) : Prop :=
  c ∈ map_keys (skippedKeys w) \/ highestInboundCounter w < c.

Lemma decrypt_authentic sk ck data r w :
  session_inv sk ck w -> authentic ck (config w) data r ->
  deliverable w (req_counter r) ->
  req_counter r <= highestInboundCounter w + cfg_maxSkipped (config w) + 1 ->
  (decryptBinary r w).2 = Ok data.
Proof.
  intros (Hsync & _) Ha Hd Hwin. rewrite (decryptBinary_spec ck r w Hsync). unfold decrypt_spec.
  apply authentic_opens in Ha as (Hn & padded & Ho & Hp). rewrite Hn, Z.eqb_refl, Ho. cbn [negb].
  destruct (Z.ltb_spec (highestInboundCounter w + (cfg_maxSkipped (config w) + 1)) (req_counter r)); [lia|].
  destruct Hd as [Hc%map_has_spec|Hc].
  - rewrite Hc. done.
  - case_match; [done|]. by destruct (Z.leb_spec (req_counter r) (highestInboundCounter w)); [lia|].
Qed.

(** ** Key agreement *)

Lemma compareBytes_sym a b : compareBytes a b = - compareBytes b a.
Proof using Type.
  revert b. induction a as [|x a IH]; intros [|y b]; cbn [compareBytes]; try lia.
  rewrite Z.eqb_sym. destruct (y =? x); [apply IH|lia].
Qed.

(** The chains a worker with private key [priv] derives with a peer. *)
Definition chains (priv peer : bytes) (profileHashValue : jstr) : option (bytes * bytes) :=
  shared ← subtle_x25519 priv peer;
  let salt := subtle_digest (utf8Encode (js "onlytwo-v2:" ++ profileHashValue)) in
  let root := hkdf shared salt ROOT_INFO AES_KEY_BYTES in
  let lower := hkdf root ZERO_32 CHAIN_SEND_INFO AES_KEY_BYTES in
  let upper := hkdf root ZERO_32 CHAIN_RECV_INFO AES_KEY_BYTES in
  Some (if compareBytes (subtle_public priv) peer <? 0 then (lower, upper) else (upper, lower)).

Definition has_identity (priv : bytes) (w : Worker) : Prop :=
  identityKeyPair w = Some priv /\ identityPublicRaw w = Some (subtle_public priv).

Lemma establish_chains priv peer hash w :
  has_identity priv w -> zlength peer = 32 -> compareBytes (subtle_public priv) peer <> 0 ->
  0 <= cfg_maxSkipped (config w) ->
  match chains priv peer hash with
  | Some (sk, rk) =>
      exists w', establishSession peer hash w = (w', Ok true) /\ session_inv sk rk w' /\
        outboundCounter w' = 0 /\ highestInboundCounter w' = 0 /\ skippedKeys w' = [] /\
        config w' = config w
  | None => exists w', establishSession peer hash w = (w', Throw operation_error) /\
        sessionEstablished w' = false
  end.
Proof using Type.
  intros [Hk Hp] Hl Hne Hmax. unfold establishSession, chains. rewrite Hk, Hp.
  unfold importX25519Public. rewrite Hl. change (32 =? X25519_PUBLIC_BYTES) with true. cbn [negb].
  destruct (Z.eqb_spec (compareBytes (subtle_public priv) peer) 0); [done|].
  destruct (subtle_x25519 priv peer) as [shared|]; cbn [mbind option_bind]; [|by eexists].
  assert (forall sk rk, session_inv sk rk
    {| config := config w; identityKeyPair := Some priv;
       identityPublicRaw := Some (subtle_public priv); sendChainKey := Some sk;
       receiveChainKey := Some rk; outboundCounter := 0; highestInboundCounter := 0;
       sessionEstablished := true; skippedKeys := [] |}) as Hfresh.
  { intros sk rk. unfold session_inv, synced. cbn.
    split_and!; try done; [constructor|apply map_ok_nil]. }
  destruct (compareBytes _ _ <? 0); eexists; (split; [reflexivity|]);
    cbn [outboundCounter highestInboundCounter skippedKeys config resetSession identityKeyPair
         identityPublicRaw]; rewrite ?Hk, ?Hp; (split; [apply Hfresh|split_and!; reflexivity]).
Qed.

Lemma chains_mirror a b hash :
  compareBytes (subtle_public a) (subtle_public b) <> 0 ->
  chains b (subtle_public a) hash =
    prod_swap <$> chains a (subtle_public b) hash.
Proof.
  intros Hne. unfold chains. rewrite (x25519_symmetric b a).
  destruct (subtle_x25519 a (subtle_public b)); [|done]. cbn [mbind option_bind fmap option_map option_fmap].
  rewrite (compareBytes_sym (subtle_public b)). f_equal.
  destruct (Z.ltb_spec (compareBytes (subtle_public a) (subtle_public b)) 0),
    (Z.ltb_spec (- compareBytes (subtle_public a) (subtle_public b)) 0);
    [exfalso; lia | reflexivity | reflexivity | exfalso; lia].
Qed.

(** ** Traffic from one peer to the other *)

Record Outgoing := { out_random : Z -> bytes; out_data : bytes; out_ctx : AadContext }.

Definition packet (o : Outgoing) (e : EncryptResult) : DecryptRequest := {|
  req_ciphertext := enc_ciphertext e; req_nonce := enc_nonce e;
  req_counter := enc_counter e; req_aadContext := out_ctx o |}.

(** Encrypt in order; the packets that were produced, with their data. *)
Fixpoint send_all (w : Worker) (l : list Outgoing) : list (DecryptRequest * bytes) :=
  match l with
  | [] => []
  | o :: l' =>
      let '(w', res) := encryptBinary (out_random o) (out_data o) (out_ctx o) w in
      match res with
      | Ok e => (packet o e, out_data o) :: send_all w' l'
      | Throw _ => send_all w' l'
      end
  end.

(** Decrypt in the order of arrival; the results. *)
Fixpoint receive_all (w : Worker) (l : list DecryptRequest) : list (result bytes) :=
  match l with
  | [] => []
  | r :: l' => let '(w', res) := decryptBinary r w in res :: receive_all w' l'
  end.

Definition sendable (o : Outgoing) : Prop :=
  random_ok (out_random o) /\ zlength (out_data o) < 2 ^ 32.

Lemma encrypt_authentic sk rk o w e :
  session_inv sk rk w -> sendable o ->
  (encryptBinary (out_random o) (out_data o) (out_ctx o) w).2 = Ok e ->
  authentic sk (config w) (out_data o) (packet o e).
Proof using Type.
  intros Hw [Hr Hlen] He. eapply encrypt_ok in He as (_ & Hn & aad & pt & Haad & Hpt & Hct); [|done].
  by exists (out_random o), aad, pt.
Qed.

(** Every packet sent is authentic, and the counters are those of the
    sender, each used once. *)
Lemma send_all_spec sk rk w l :
  session_inv sk rk w -> Forall sendable l ->
  Forall (fun p => authentic sk (config w) p.2 p.1 /\
            outboundCounter w < req_counter p.1 <= outboundCounter w + zlength l) (send_all w l) /\
  NoDup (req_counter ∘ fst <$> send_all w l).
Proof using Type.
  revert w. induction l as [|o l IH]; intros w Hw Hl; cbn [send_all].
  { split; [constructor|apply NoDup_nil_2]. }
  apply Forall_cons in Hl as [Ho Hl].
  pose proof (encrypt_inv sk rk (out_random o) (out_data o) (out_ctx o) w Hw) as Hinv.
  pose proof (fun e => encrypt_ok sk rk (out_random o) (out_data o) (out_ctx o) w e Hw) as Hok.
  pose proof (fun e => encrypt_authentic sk rk o w e Hw Ho) as Hauth.
  destruct (encryptBinary _ _ _ w) as [w' res]. cbn [fst snd] in *.
  destruct Hinv as (Hi & Hcfg & Hcnt & _). destruct (IH w' Hi Hl) as [Hall Hnd].
  rewrite Hcfg, Hcnt in Hall.
  assert (Forall (fun p => authentic sk (config w) p.2 p.1 /\ outboundCounter w + 1 <
    req_counter p.1 <= outboundCounter w + zlength (o :: l)) (send_all w' l)) as Hall'.
  { eapply Forall_impl; [exact Hall|]. intros p [? ?]. rewrite zlength_cons. split; [done|lia]. }
  destruct res as [e|err].
  - specialize (Hok e eq_refl) as (Hc & _). specialize (Hauth e eq_refl).
    pose proof (zlength_nonneg l). split.
    + constructor; [cbn [fst snd]; split; [done|]; cbn [packet req_counter]; rewrite zlength_cons; lia|].
      eapply Forall_impl; [exact Hall'|]. intros p [? ?]. split; [done|lia].
    + rewrite fmap_cons. apply NoDup_cons. split; [|done]. cbn [compose fst packet req_counter].
      intros (p & Hp & Hin)%list_elem_of_fmap. rewrite Forall_forall in Hall'.
      apply Hall' in Hin as [_ Hin]. cbn in Hp. lia.
  - split; [|done]. eapply Forall_impl; [exact Hall'|]. intros p [? ?]. split; [done|lia].
Qed.

Lemma NoDup_range_length (l : list Z) h :
  0 <= h -> NoDup l -> (forall k, k ∈ l -> 1 <= k <= h) -> zlength l <= h.
Proof using Type.
  intros Hh Hnd Hr. assert (l ⊆+ seqZ 1 h) as Hsub.
  { apply NoDup_submseteq; [done|]. intros k Hk. apply elem_of_seqZ. apply Hr in Hk. lia. }
  apply submseteq_length in Hsub. rewrite length_seqZ in Hsub. unfold zlength. lia.
Qed.

(** The receiver can still open each of the counters [todo]. *)
Definition awaiting (w : Worker) (todo : list Z) : Prop :=
  (forall k, k ∈ map_keys (skippedKeys w) -> 1 <= k <= highestInboundCounter w) /\
  (forall c, c ∈ todo -> deliverable w c /\ 1 <= c <= cfg_maxSkipped (config w) + 1).

Lemma awaiting_step sk ck r data todo w (w' := (decryptBinary r w).1) :
  session_inv sk ck w -> authentic ck (config w) data r ->
  NoDup (req_counter r :: todo) -> awaiting w (req_counter r :: todo) ->
  awaiting w' todo.
Proof.
  intros (Hsync & _ & _ & Hok & Hmax & _) Ha [Hnew Hnd]%NoDup_cons [Hkeys Htodo]. subst w'.
  destruct (Htodo (req_counter r)) as [Hd Hwin]; [set_solver|].
  apply authentic_opens in Ha as (Hn & padded & Ho & Hp).
  pose proof Hsync as (_ & Hh & _ & Hright).
  rewrite (decryptBinary_spec ck r w Hsync). unfold decrypt_spec. rewrite Hn, Z.eqb_refl, Ho. cbn [negb].
  destruct (Z.ltb_spec (highestInboundCounter w + (cfg_maxSkipped (config w) + 1)) (req_counter r)); [lia|].
  unfold awaiting, deliverable in *. destruct (map_has (req_counter r) (skippedKeys w)) eqn:Hhas.
  - cbn [fst set_receiver skippedKeys highestInboundCounter config]. split.
    + intros k [_ ?]%elem_of_map_keys_delete. auto.
    + intros c Hc. destruct (Htodo c) as [Hdc Hcw]; [set_solver|]. split; [|done].
      rewrite elem_of_map_keys_delete. destruct Hdc; [left; split; [by intros ->|done]|auto].
  - assert (highestInboundCounter w < req_counter r) as Hlt.
    { destruct Hd as [Hd%map_has_spec|?]; [congruence|done]. }
    destruct (Z.leb_spec (req_counter r) (highestInboundCounter w)); [lia|].
    cbn [fst set_receiver skippedKeys highestInboundCounter config].
    destruct (skipped_at_spec ck w (req_counter r)) as (_ & _ & _ & Hsub & Hroom); [lia|done|done|].
    assert (zlength (skippedKeys w) <= highestInboundCounter w) as Hlen.
    { pose proof (NoDup_range_length (map_keys (skippedKeys w)) _ Hh Hok Hkeys) as Hl.
      unfold zlength, map_keys in *. by rewrite length_fmap in Hl. }
    specialize (Hroom ltac:(lia)). split.
    + intros k [Hk%Hkeys|?]%Hsub; lia.
    + intros c Hc. destruct (Htodo c) as [Hdc Hcw]; [set_solver|]. split; [|done].
      destruct Hdc as [Hdc|Hdc]; [left; apply Hroom; auto|].
      destruct (decide (c < req_counter r)); [left; apply Hroom; auto|].
      right. assert (c <> req_counter r) by (by intros ->). lia.
Qed.

Lemma receive_all_ok sk ck w ps :
  session_inv sk ck w -> 
  Forall (fun p => authentic ck (config w) p.2 p.1) ps ->
  NoDup (req_counter ∘ fst <$> ps) -> awaiting w (req_counter ∘ fst <$> ps) ->
  receive_all w ps.*1 = Ok <$> ps.*2.
Proof.
  revert w. induction ps as [|[r data] ps IH]; intros w Hw Ha Hnd Haw; [done|].
  apply Forall_cons in Ha as [Har Ha]. cbn [fst snd] in Har. rewrite !fmap_cons in *. cbn [receive_all fst snd compose] in *.
  pose proof (decrypt_inv sk ck r w Hw) as (Hw' & Hcfg & _).
  pose proof (awaiting_step sk ck r data _ w Hw Har Hnd Haw) as Haw'.
  assert ((decryptBinary r w).2 = Ok data) as Hres.
  { destruct Haw as [_ Htodo]. destruct (Htodo (req_counter r)) as [Hd Hc]; [set_solver|].
    pose proof Hw as ((_ & Hh & _) & _). by eapply decrypt_authentic; [..|lia]. }
  destruct (decryptBinary r w) as [w' res]. cbn [fst snd] in *. subst res.
  f_equal. apply IH; [done|by rewrite Hcfg|by apply NoDup_cons in Hnd as [_ ?]|done].
Qed.

(** ** Replay *)

(** No key of a counter above the highest accepted one is cached. *)
Definition tight (w : Worker) : Prop :=
  forall k, k ∈ map_keys (skippedKeys w) -> k <= highestInboundCounter w.

(** A frame inside the window, past the next counter, that is rejected. *)
Definition gap_rejected (w : Worker) (req : WorkerRequest) : bool :=
  match req with
  | DECRYPT r =>
      (highestInboundCounter w + 1 <? req_counter r) &&
      (req_counter r <=? highestInboundCounter w + cfg_maxSkipped (config w) + 1) &&
      negb (is_ok (decryptBinary r w).2)
  | _ => false
  end.

Fixpoint clean (w : Worker) (reqs : list WorkerRequest) : bool :=
  match reqs with
  | [] => true
  | req :: reqs' => is_traffic req && negb (gap_rejected w req) && clean (handle req w).1 reqs'
  end.

(** Counter [c] was accepted and its key is gone. *)
Definition spent (c : Z) (w : Worker) : Prop :=
  c <= highestInboundCounter w /\ c ∉ map_keys (skippedKeys w).

Lemma spent_rejected sk rk c w r :
  session_inv sk rk w -> spent c w -> req_counter r = c ->
  exists e, decryptBinary r w = (w, Throw e).
Proof using Type.
  intros (Hsync & _) [Hc Hk] <-. rewrite (decryptBinary_spec rk r w Hsync). unfold decrypt_spec.
  case_match; [eauto|]. case_match; [eauto|].
  case_match eqn:Hhas; [by apply map_has_spec in Hhas|].
  destruct (Z.leb_spec (req_counter r) (highestInboundCounter w)); [eauto|lia].
Qed.

Lemma skipped_at_next ck w : skipped_at ck w (highestInboundCounter w + 1) = skippedKeys w.
Proof using Type.
  unfold skipped_at. by replace (_ + 1 - _ - 1) with 0 by lia.
Qed.

Lemma decrypt_tight sk rk w r (w' := (decryptBinary r w).1) :
  session_inv sk rk w -> tight w -> gap_rejected w (DECRYPT r) = false ->
  tight w' /\ (forall c, spent c w -> spent c w') /\
  (is_ok (decryptBinary r w).2 = true -> spent (req_counter r) w').
Proof using Type.
  intros (Hsync & _ & _ & Hok & _) Ht Hgap. subst w'. pose proof Hsync as (_ & Hh & _ & Hright).
  cbn [gap_rejected] in Hgap. rewrite (decryptBinary_spec rk r w Hsync) in *.
  unfold decrypt_spec in *. case_match; [done|]. case_match; [done|].
  unfold tight, spent in *. case_match eqn:Hhas.
  { case_match; [|done]. cbn [fst snd set_receiver skippedKeys highestInboundCounter].
    setoid_rewrite elem_of_map_keys_delete. apply map_has_spec in Hhas. naive_solver. }
  case_match; [done|]. bool_facts.
  destruct (skipped_at_spec rk w (req_counter r)) as (_ & _ & _ & Hsub & _); [lia|done|done|].
  case_match; cbn [fst snd is_ok negb set_receiver skippedKeys highestInboundCounter] in *.
  - split_and!.
    + intros k [Hk%Ht|?]%Hsub; lia.
    + intros c [Hc Hk]. split; [lia|]. intros [?|?]%Hsub; [done|lia].
    + intros _. split; [lia|]. intros [Hk%Ht|?]%Hsub; lia.
  - assert (req_counter r = highestInboundCounter w + 1) as -> by lia.
    rewrite skipped_at_next. split_and!; done.
Qed.

Lemma clean_traffic w reqs : clean w reqs = true -> forallb is_traffic reqs = true.
Proof using Type.
  revert w. induction reqs as [|req reqs IH]; intros w; cbn; [done|].
  rewrite !andb_true_iff. intros [[? _] ?]. split; [done|by eapply IH].
Qed.

Lemma clean_tight sk rk reqs w :
  session_inv sk rk w -> tight w -> clean w reqs = true ->
  tight (run w reqs) /\ forall c, spent c w -> spent c (run w reqs).
Proof using Type.
  unfold run. revert w. induction reqs as [|req reqs IH]; intros w Hw Ht Hc; cbn [clean foldl] in *; [done|].
  apply andb_prop in Hc as [[Htr Hg]%andb_prop Hc]. apply negb_true_iff in Hg.
  assert (session_inv sk rk (handle req w).1 /\ tight (handle req w).1 /\
          forall c, spent c w -> spent c (handle req w).1) as (Hw' & Ht' & Hs').
  { destruct req; try done; cbn [handle].
    - pose proof (encrypt_inv sk rk random data aadContext w Hw) as (Hi & _).
      unfold encryptBinary in *. pose proof Hw as ((Hest & _) & _ & Hsend & _).
      rewrite Hest, Hsend in *. split_and!; done.
    - pose proof (decrypt_inv sk rk r w Hw) as (Hi & _).
      pose proof (decrypt_tight sk rk w r Hw Ht Hg) as (? & ? & _).
      destruct (decryptBinary r w) as [w' res]. done. }
  destruct (IH _ Hw' Ht' Hc) as [? ?]. auto.
Qed.

Lemma clean_app w l1 l2 : clean w (l1 ++ l2) = clean w l1 && clean (run w l1) l2.
Proof using Type.
  unfold run. revert w. induction l1 as [|req l1 IH]; intros w; cbn [clean app foldl]; [done|].
  by rewrite IH, andb_assoc.
Qed.
End Session.

(** ** Theorems *)

Section Theorems.
Context `{WebCrypto}.

(** C17: an established session keeps its invariant under every sequence of
    encryptions and decryptions, valid or forged: the receive key is the
    chain key of the highest accepted counter, every cached key is the key
    of its counter, and the cache never exceeds its bound. *)
Theorem session_invariant sk rk w reqs :
  session_inv sk rk w -> forallb is_traffic reqs = true ->
  session_inv sk rk (run w reqs) /\
  config (run w reqs) = config w /\
  outboundCounter (run w reqs) = outboundCounter w + encrypts reqs /\
  highestInboundCounter w <= highestInboundCounter (run w reqs).
Proof. intros ? ?. by apply traffic_inv. Qed.

(** C6: the n-th encryption of a session uses counter n and the n-th key of
    the chain, whatever was decrypted in between and whichever earlier
    encryptions threw: no counter and no chain position is used twice. *)
Theorem encrypt_fresh_key sk rk w reqs random data ctx e :
  session_inv sk rk w -> forallb is_traffic reqs = true ->
  (handle (ENCRYPT random data ctx) (run w reqs)).2 = REncrypted e ->
  enc_counter e = outboundCounter w + encrypts reqs + 1 /\
  exists aad padded,
    encodeAad ctx (enc_counter e) (enc_nonce e) = Ok aad /\
    buildPlaintext random (config w) data = Ok padded /\
    enc_ciphertext e = subtle_encrypt (key_of sk (enc_counter e)) (enc_nonce e) aad padded.
Proof using Type.
  intros Hw Ht He. destruct (traffic_inv sk rk reqs w Ht Hw) as (Hi & Hcfg & Hout & _).
  cbn [handle] in He.
  pose proof (encrypt_ok sk rk random data ctx (run w reqs) e Hi) as Hok.
  destruct (encryptBinary random data ctx (run w reqs)) as [w' res]. cbn [snd] in *.
  destruct res as [e'|]; [|done]. injection He as ->.
  specialize (Hok eq_refl) as (Hc & _ & Hrest). rewrite Hcfg in Hrest. rewrite Hc, Hout in *.
  split; [lia|done].
Qed.

(** C7: in a run in which no frame ahead of the next counter is rejected, a
    counter is accepted at most once: after it is accepted every further
    frame with that counter is rejected and leaves the worker unchanged. *)
Theorem replay_rejected sk rk w reqs1 r data reqs2 r' :
  session_inv sk rk w -> skippedKeys w = [] ->
  clean w (reqs1 ++ DECRYPT r :: reqs2) = true ->
  (handle (DECRYPT r) (run w reqs1)).2 = RBytes data ->
  req_counter r' = req_counter r ->
  exists e, handle (DECRYPT r') (run w (reqs1 ++ DECRYPT r :: reqs2)) =
              (run w (reqs1 ++ DECRYPT r :: reqs2), RError e).
Proof.
  intros Hw Hsk Hc Hok Hr'. rewrite clean_app in Hc. apply andb_prop in Hc as [Hc1 Hc].
  assert (tight w) as Ht by (unfold tight; rewrite Hsk; set_solver).
  destruct (traffic_inv sk rk reqs1 w (clean_traffic _ _ Hc1) Hw) as (Hw1 & _).
  destruct (clean_tight sk rk reqs1 w Hw Ht Hc1) as [Ht1 _].
  cbn [clean] in Hc. apply andb_prop in Hc as [[_ Hg]%andb_prop Hc2]. apply negb_true_iff in Hg.
  destruct (decrypt_tight sk rk (run w reqs1) r Hw1 Ht1 Hg) as (Ht2 & _ & Hspent).
  destruct (decrypt_inv sk rk r (run w reqs1) Hw1) as (Hw2 & _).
  unfold run in *. rewrite foldl_app. cbn [foldl]. set (w1 := foldl _ w reqs1) in *.
  cbn [handle] in *. destruct (decryptBinary r w1) as [w2 res]. cbn [fst snd] in *.
  destruct res as [d|]; [|done]. specialize (Hspent eq_refl).
  destruct (clean_tight sk rk reqs2 w2 Hw2 Ht2 Hc2) as [_ Hs3].
  destruct (traffic_inv sk rk reqs2 w2 (clean_traffic _ _ Hc2) Hw2) as (Hw3 & _).
  unfold run in *. destruct (spent_rejected sk rk _ _ r' Hw3 (Hs3 _ Hspent) Hr') as [e ->].
  by exists e.
Qed.

Context `{!WebCryptoLaws}.
#[local] Set Default Proof Using "Type*".

(** C4: two workers that establish a session with each other's public keys
    and the same profile hash get the same outcome, and when it succeeds
    each sends on the chain the other receives on. *)
Theorem key_agreement a b hash wa wb :
  has_identity a wa -> has_identity b wb ->
  compareBytes (subtle_public a) (subtle_public b) <> 0 ->
  0 <= cfg_maxSkipped (config wa) -> 0 <= cfg_maxSkipped (config wb) ->
  (establishSession (subtle_public b) hash wa).2 =
    (establishSession (subtle_public a) hash wb).2 /\
  (is_Some (subtle_x25519 a (subtle_public b)) ->
   (establishSession (subtle_public b) hash wa).2 = Ok true /\
   exists k1 k2,
     session_inv k1 k2 (establishSession (subtle_public b) hash wa).1 /\
     session_inv k2 k1 (establishSession (subtle_public a) hash wb).1).
Proof.
  intros Ha Hb Hne Hma Hmb.
  pose proof (establish_chains a (subtle_public b) hash wa Ha (public_length b) Hne Hma) as Ea.
  pose proof (establish_chains b (subtle_public a) hash wb Hb (public_length a)
                ltac:(rewrite compareBytes_sym; lia) Hmb) as Eb.
  rewrite (chains_mirror a b hash Hne) in Eb.
  destruct (chains a (subtle_public b) hash) as [[k1 k2]|] eqn:Hch;
    cbn [fmap option_fmap option_map prod_swap fst snd] in Eb.
  - destruct Ea as (wa' & -> & Hia & _), Eb as (wb' & -> & Hib & _). cbn [fst snd].
    split; [done|]. intros _. split; [done|]. by exists k1, k2.
  - destruct Ea as (wa' & -> & _), Eb as (wb' & -> & _). cbn [fst snd].
    split; [done|]. intros [x Hx]. unfold chains in Hch. rewrite Hx in Hch. discriminate Hch.
Qed.

(** C3: of the packets a peer encrypts in a fresh session, any selection, in
    any order of arrival and with any losses, decrypts to what was sent, as
    long as no more than the skipped-key bound plus one were sent. *)
Theorem out_of_order_delivery sk ck rk ws wr l ps :
  session_inv ck rk ws -> session_inv sk ck wr -> config ws = config wr ->
  outboundCounter ws = 0 -> highestInboundCounter wr = 0 -> skippedKeys wr = [] ->
  Forall sendable l -> zlength l <= cfg_maxSkipped (config wr) + 1 ->
  ps ⊆+ send_all ws l ->
  receive_all wr ps.*1 = Ok <$> ps.*2.
Proof.
  intros Hs Hr Hcfg Hout Hh Hsk Hl Hlen Hps.
  destruct (send_all_spec ck rk ws l Hs Hl) as [Hall Hnd]. rewrite Hout, Hcfg in Hall.
  apply submseteq_Permutation in Hps as [k Hps].
  rewrite Hps in Hall, Hnd. apply Forall_app in Hall as [Hall _].
  rewrite fmap_app in Hnd. apply NoDup_app in Hnd as (Hnd & _).
  apply (receive_all_ok sk ck); [done| |done|].
  - eapply Forall_impl; [exact Hall|]. by intros p [? _].
  - unfold awaiting, deliverable. rewrite Hsk, Hh. split; [set_solver|].
    intros c (p & -> & Hp)%list_elem_of_fmap. rewrite Forall_forall in Hall.
    apply Hall in Hp as [_ Hp]. cbn [compose]. split; [right|]; lia.
Qed.

(** An authentic packet is delivered whatever the receiver went through
    before (losses, forgeries, reordering), if its counter is cached or
    lies in the window past the highest accepted one. *)
Theorem authentic_packet_accepted sk ck wr reqs data r :
  session_inv sk ck wr -> forallb is_traffic reqs = true ->
  authentic ck (config wr) data r -> deliverable (run wr reqs) (req_counter r) ->
  req_counter r <= highestInboundCounter (run wr reqs) + cfg_maxSkipped (config wr) + 1 ->
  (handle (DECRYPT r) (run wr reqs)).2 = RBytes data.
Proof.
  intros Hw Ht Ha Hd Hwin. destruct (traffic_inv sk ck reqs wr Ht Hw) as (Hi & Hcfg & _).
  rewrite <- Hcfg in Ha, Hwin. cbn [handle].
  pose proof (decrypt_authentic sk ck data r _ Hi Ha Hd Hwin) as Hres.
  destruct (decryptBinary r (run wr reqs)) as [w' res]. cbn [snd] in *. by subst res.
Qed.

(** C34: one forged frame ahead of the next counter defeats replay detection:
    it is rejected but leaves the skipped keys behind without advancing the
    chain, so the next genuine packet is accepted from the cache and then,
    sent once more, accepted again. *)
Theorem forged_gap_replay sk ck w forged r data :
  session_inv sk ck w -> skippedKeys w = [] ->
  authentic ck (config w) data r -> req_counter r = highestInboundCounter w + 1 ->
  highestInboundCounter w + 1 < req_counter forged <=
    highestInboundCounter w + cfg_maxSkipped (config w) + 1 ->
  zlength (req_nonce forged) = NONCE_BYTES ->
  is_ok (open_with (key_of ck (req_counter forged)) forged) = false ->
  is_ok (decryptBinary forged w).2 = false /\
  receive_all (decryptBinary forged w).1 [r; r] = [Ok data; Ok data].
Proof.
  intros Hw Hsk Ha Hc Hf Hn Ho.
  destruct (decrypt_inv sk ck forged w Hw) as (Hw1 & Hcfg1 & _).
  pose proof Hw as (Hsync & _ & _ & Hok & Hmax & _). pose proof Hsync as (_ & Hh & _ & Hright).
  destruct (skipped_at_spec ck w (req_counter forged)) as (_ & _ & _ & _ & Hroom);
    [lia|done|done|].
  rewrite Hsk in Hroom. specialize (Hroom ltac:(rewrite zlength_nil; lia)).
  rewrite (decryptBinary_spec ck forged w Hsync) in *. unfold decrypt_spec in *.
  rewrite Hn, Z.eqb_refl, Hsk in *. cbn [negb map_has map_get] in *.
  destruct (Z.ltb_spec (highestInboundCounter w + (cfg_maxSkipped (config w) + 1))
              (req_counter forged)); [lia|].
  destruct (Z.leb_spec (req_counter forged) (highestInboundCounter w)); [lia|].
  destruct (open_with (key_of ck (req_counter forged)) forged) as [|e]; [done|].
  cbn [fst snd is_ok] in *. split; [done|]. set (w1 := set_receiver w _ _ _) in *.
  assert (req_counter r ∈ map_keys (skippedKeys w1)) as Hin by (apply Hroom; right; lia).
  assert ((decryptBinary r w1).2 = Ok data) as Hfirst.
  { eapply decrypt_authentic; [done|by rewrite Hcfg1|by left|cbn; lia]. }
  assert (highestInboundCounter (decryptBinary r w1).1 = highestInboundCounter w) as Hh2.
  { pose proof Hw1 as (Hsync1 & _). rewrite (decryptBinary_spec ck r w1 Hsync1) in *.
    unfold decrypt_spec in *. apply map_has_spec in Hin. rewrite Hin in *.
    repeat case_match; done. }
  destruct (decrypt_inv sk ck r w1 Hw1) as (Hw2 & Hcfg2 & _).
  cbn [receive_all]. destruct (decryptBinary r w1) as [w2 res]. cbn [fst snd] in *. subst res.
  assert ((decryptBinary r w2).2 = Ok data) as Hsecond.
  { eapply decrypt_authentic; [done|by rewrite Hcfg2, Hcfg1|right; lia|].
    rewrite Hcfg2, Hcfg1. lia. }
  destruct (decryptBinary r w2) as [w3 res]. cbn [snd] in Hsecond. by subst res.
Qed.
End Theorems.

(** ** Witnesses

    A transparent instance of WebCrypto: the laws can hold. *)
Definition pad32 (k : bytes) : bytes := take 32 (k ++ replicate 32 0).

#[local] Instance toy : WebCrypto := {
  subtle_hkdf ikm salt info bits :=
    (fun i => (sum_by id ikm + sum_by id salt + 3 * sum_by id info + i) mod 256) <$> seqZ 0 (bits / 8);
  subtle_x25519 a p := Some [(sum_by id (pad32 a) + sum_by id p) mod 256];
  subtle_public := pad32;
  subtle_digest b := replicate 32 (sum_by id b mod 256);
  subtle_encrypt key iv aad pt := (key ++ iv ++ aad) ++ pt;
  subtle_decrypt key iv aad ct :=
    if bool_decide (take (length (key ++ iv ++ aad)) ct = key ++ iv ++ aad)
    then Some (drop (length (key ++ iv ++ aad)) ct) else None;
}.

#[local] Instance toy_laws : WebCryptoLaws.
Proof.
  split.
  - intros ikm salt info bits Hb. cbn [subtle_hkdf toy]. unfold zlength.
    rewrite length_fmap, length_seqZ, Z2Nat.id; [done|]. apply Z.div_pos; lia.
  - intros k. cbn [subtle_public toy]. unfold zlength, pad32.
    rewrite length_take, length_app, length_replicate. lia.
  - intros a b. cbn [subtle_x25519 subtle_public toy]. by rewrite Z.add_comm.
  - intros key iv aad pt. cbn [subtle_encrypt subtle_decrypt toy].
    rewrite take_app_length, drop_app_length. by rewrite bool_decide_eq_true_2.
Qed.

Definition demo (sk rk : bytes) : Worker := {|
  config := small_config; identityKeyPair := Some [1]; identityPublicRaw := Some (pad32 [1]);
  sendChainKey := Some sk; receiveChainKey := Some rk; outboundCounter := 0;
  highestInboundCounter := 0; sessionEstablished := true; skippedKeys := [] |}.

Lemma demo_inv sk rk : session_inv sk rk (demo sk rk).
Proof.
  unfold session_inv, synced, demo. cbn. split_and!; try done; [constructor|apply map_ok_nil].
Qed.

Definition demo_ctx : AadContext := {|
  aad_protocolVersion := 2; aad_outerType := 2; aad_flags := 0; aad_streamId := 2; aad_sequence := 1 |}.

Definition demo_out (n : Z) : Outgoing := {| out_random := zero_random; out_data := [n]; out_ctx := demo_ctx |}.

Definition demo_sent : list (DecryptRequest * bytes) :=
  send_all (demo [1] [2]) (demo_out <$> [10; 20; 30]).

Definition demo_forged : DecryptRequest :=
  {| req_ciphertext := [0]; req_nonce := replicate 12 0; req_counter := 2; req_aadContext := demo_ctx |}.

Definition demo_packet (i : nat) : DecryptRequest := default demo_forged (demo_sent.*1 !! i).

Lemma demo_sendable l : Forall sendable (demo_out <$> l).
Proof. rewrite Forall_fmap. apply Forall_true. intros n. split; [apply zero_random_ok|done]. Qed.

Lemma demo_authentic : authentic [1] small_config [10] (demo_packet 0).
Proof.
  destruct (send_all_spec [1] [2] (demo [1] [2]) _ (demo_inv _ _) (demo_sendable [10; 20; 30]))
    as [Hall _].
  fold demo_sent in Hall. rewrite Forall_lookup in Hall.
  apply (Hall 0%nat (demo_packet 0, [10])). vm_compute. reflexivity.
Qed.

Definition demo_encrypted : EncryptResult :=
  match (encryptBinary zero_random [9] demo_ctx (demo [2] [1])).2 with
  | Ok e => e
  | Throw _ => {| enc_ciphertext := []; enc_nonce := []; enc_counter := 0 |}
  end.

Lemma session_invariant_witness :
  outboundCounter (run (demo [2] [1]) [DECRYPT demo_forged; ENCRYPT zero_random [9] demo_ctx]) = 0 + 1.
Proof.
  apply (session_invariant [2] [1] (demo [2] [1])
           [DECRYPT demo_forged; ENCRYPT zero_random [9] demo_ctx] (demo_inv _ _) eq_refl).
Defined.

Lemma encrypt_fresh_key_witness : enc_counter demo_encrypted = 0 + 0 + 1.
Proof.
  apply (encrypt_fresh_key [2] [1] (demo [2] [1]) [DECRYPT demo_forged] zero_random [9] demo_ctx
           demo_encrypted (demo_inv _ _) eq_refl).
  vm_compute. reflexivity.
Defined.

Lemma key_agreement_witness :
  (establishSession (pad32 [2]) [104] (generateIdentity [1] initial_worker).1).2 = Ok true.
Proof.
  refine (proj1 (proj2 (key_agreement [1] [2] [104] (generateIdentity [1] initial_worker).1
           (generateIdentity [2] initial_worker).1 _ _ _ _ _) _));
    [split; reflexivity | split; reflexivity | vm_compute; done | done | done | vm_compute; by eexists].
Defined.

Lemma out_of_order_delivery_witness :
  receive_all (demo [2] [1]) (reverse demo_sent).*1 = Ok <$> (reverse demo_sent).*2.
Proof.
  apply (out_of_order_delivery [2] [1] [2] (demo [1] [2]) (demo [2] [1]) (demo_out <$> [10; 20; 30]));
    [apply demo_inv | apply demo_inv | done | done | done | done | apply demo_sendable | done |].
  apply Permutation_submseteq, reverse_Permutation.
Defined.

Lemma authentic_packet_accepted_witness :
  (handle (DECRYPT (demo_packet 0)) (run (demo [2] [1]) [DECRYPT (demo_packet 2)])).2 = RBytes [10].
Proof.
  apply (authentic_packet_accepted [2] [1] (demo [2] [1]));
    [apply demo_inv | done | apply demo_authentic | left | vm_compute; done].
  apply map_has_spec. vm_compute. reflexivity.
Defined.

Lemma replay_rejected_witness :
  exists e, handle (DECRYPT (demo_packet 0)) (run (demo [2] [1]) ([] ++ DECRYPT (demo_packet 0) :: [])) =
    (run (demo [2] [1]) ([] ++ DECRYPT (demo_packet 0) :: []), RError e).
Proof.
  apply (replay_rejected [2] [1] (demo [2] [1]) [] (demo_packet 0) [10] []);
    [apply demo_inv | done | vm_compute; done | vm_compute; done | done].
Defined.

Lemma forged_gap_replay_witness :
  receive_all (decryptBinary demo_forged (demo [2] [1])).1 [demo_packet 0; demo_packet 0] =
    [Ok [10]; Ok [10]].
Proof.
  apply (forged_gap_replay [2] [1] (demo [2] [1]));
    [apply demo_inv | done | apply demo_authentic | done | done | done | vm_compute; done].
Defined.
