(* ===== verification/SecureChannel.v ===== *)
(** * Secure channel: [client/src/crypto/SecureChannel.ts]

    Sequence numbers, the stream of a lane, and the encryption and decryption
    of one application message through the worker of [Ratchet].  The client
    and the worker both chain their requests, so a call is one transition of
    the channel and of the worker it talks to. *)
From S2P Require Import Prelude JsMap Bytes Utf8 Profiles Envelope Messages Json Ratchet RatchetProps.

Record SecureChannel := { sequence : Z; sc_profile : TransportProfile }.

Definition newSecureChannel (profile : TransportProfile) : SecureChannel :=
  {| sequence := 0; sc_profile := profile |}.

Definition sc_setProfile (profile : TransportProfile) (c : SecureChannel) : SecureChannel :=
  {| sequence := sequence c; sc_profile := profile |}.

Definition streamForLane (lane : LaneName) : Z :=
  match lane with Lane.control => 1 | Lane.text => 2 | Lane.file => 3 | Lane.voice => 4 end.

Definition nextSequence (c : SecureChannel) : SecureChannel * Z :=
  let s := to_u32 (sequence c + 1) in
  let s := if s =? 0 then 1 else s in
  ({| sequence := s; sc_profile := sc_profile c |}, s).

(** [draft], without the fields encryption adds. *)
Definition draft (profile : TransportProfile) (lane : LaneName) (s : Z) : Envelope := {|
  env_protocolVersion := protocolVersion profile; env_outerType := OuterType.DATA; env_flags := 0;
  env_streamId := streamForLane lane; env_sequence := s; env_counter := 0; env_nonce := [];
  env_payload := []; env_lane := lane |}.

(** [{ ...draft, counter, nonce, payload }]. *)
Definition sealed (d : Envelope) (e : EncryptResult) : Envelope := {|
  env_protocolVersion := env_protocolVersion d; env_outerType := env_outerType d;
  env_flags := env_flags d; env_streamId := env_streamId d; env_sequence := env_sequence d;
  env_counter := enc_counter e; env_nonce := enc_nonce e; env_payload := enc_ciphertext e;
  env_lane := env_lane d |}.

(** No message of the sources lacks a text; the branch is there because
    [stringify] does not render fractions. *)
Definition no_text : jstr := js "No text".

Section Channel.
Context `{WebCrypto}.

Definition encryptAppMessage (random : Z -> bytes) (message : AppMessage) (lane : LaneName)
  (c : SecureChannel) (w : Worker) : SecureChannel * Worker * result Envelope :=
  let '(c', s) := nextSequence c in
  let d := draft (sc_profile c') lane s in
  match encodeAppMessage message with
  | None => (c', w, Throw no_text)
  | Some data =>
      let '(w', res) := encryptBinary random data (createAadContext d (sc_profile c')) w in
      (c', w', let! e := res in Ok (sealed d e))
  end.

Definition request_of (env : Envelope) (profile : TransportProfile) : DecryptRequest := {|
  req_ciphertext := env_payload env; req_nonce := env_nonce env; req_counter := env_counter env;
  req_aadContext := createAadContext env profile |}.

(** [now] is [Date.now()] when the plaintext is decoded. *)
Definition decryptAppMessage (now : Z) (env : Envelope) (c : SecureChannel) (w : Worker)
  : Worker * result AppMessage :=
  if negb (env_outerType env =? OuterType.DATA) then (w, Throw (js "Expected encrypted data frame"))
  else
    let '(w', res) := decryptBinary (request_of env (sc_profile c)) w in
    (w', let! plaintext := res in decodeAppMessage now plaintext).
End Channel.

(** ** Sequence numbers *)

Fixpoint sequences (n : nat) (c : SecureChannel) : list Z :=
  match n with O => [] | S n' => let '(c', s) := nextSequence c in s :: sequences n' c' end.

Lemma nextSequence_spec c k :
  0 <= k -> sequence c = k mod (2 ^ 32 - 1) \/ (sequence c = 2 ^ 32 - 1 /\ k mod (2 ^ 32 - 1) = 0) ->
  (nextSequence c).2 = k mod (2 ^ 32 - 1) + 1 /\ sequence (nextSequence c).1 = k mod (2 ^ 32 - 1) + 1.
Proof.
  intros Hk Hs. unfold nextSequence, to_u32. cbn [fst snd sequence].
  pose proof (Z.mod_pos_bound k (2 ^ 32 - 1) ltac:(done)) as Hm.
  assert ((if (sequence c + 1) mod 2 ^ 32 =? 0 then 1 else (sequence c + 1) mod 2 ^ 32) =
          k mod (2 ^ 32 - 1) + 1) as ->; [|done].
  destruct Hs as [->|[-> ->]]; [|done]. rewrite Z.mod_small by lia.
  destruct (Z.eqb_spec (k mod (2 ^ 32 - 1) + 1) 0); lia.
Qed.

(** The numbers continue where the channel stands. *)
Lemma sequences_from n c k :
  0 <= k -> sequence c = k mod (2 ^ 32 - 1) \/ (sequence c = 2 ^ 32 - 1 /\ k mod (2 ^ 32 - 1) = 0) ->
  sequences n c = (fun i => (k + i) mod (2 ^ 32 - 1) + 1) <$> (Z.of_nat <$> seq 0 n).
Proof.
  revert c k. induction n as [|n IH]; intros c k Hk Hs; [done|].
  destruct (nextSequence_spec c k Hk Hs) as [H1 H2]. cbn [sequences].
  destruct (nextSequence c) as [c' s]. cbn [fst snd] in *. subst s.
  rewrite (IH c' (k + 1)).
  - cbn [seq]. rewrite <- seq_shift, !fmap_cons, Z.add_0_r. f_equal.
    rewrite <- !list_fmap_compose. apply list_fmap_ext. intros _ x _. cbn [compose]. do 2 f_equal. lia.
  - lia.
  - rewrite H2. pose proof (Z.mod_pos_bound k (2 ^ 32 - 1) ltac:(done)).
    destruct (decide (k mod (2 ^ 32 - 1) + 1 = 2 ^ 32 - 1)) as [He|He].
    + right. split; [done|]. rewrite <- (Z.add_mod_idemp_l k 1), He by done. by apply Z.mod_same.
    + left. symmetry. rewrite <- (Z.add_mod_idemp_l k 1) by done. apply Z.mod_small. lia.
Qed.

(** A new channel numbers its messages 1, 2, ..., 2^32 - 1 and then starts
    again at 1: no message has number 0, every number fits its 32-bit field,
    and a number comes back only after 2^32 - 1 messages. *)
Theorem sequence_numbers profile n i s :
  sequences n (newSecureChannel profile) !! i = Some s ->
  s = Z.of_nat i mod (2 ^ 32 - 1) + 1 /\ 1 <= s < 2 ^ 32.
Proof.
  rewrite (sequences_from n _ 0) by (done || by left).
  intros (x & -> & (y & -> & Hy)%list_lookup_fmap_Some)%list_lookup_fmap_Some.
  apply lookup_seq in Hy as [-> _]. rewrite Z.add_0_l, Nat.add_0_l.
  pose proof (Z.mod_pos_bound (Z.of_nat i) (2 ^ 32 - 1) ltac:(done)). lia.
Qed.

(** ** One message from peer to peer *)

Section Delivery.
Context `{WebCrypto}.

Lemma encrypt_result random message lane c w data c' w' env :
  encodeAppMessage message = Some data ->
  encryptAppMessage random message lane c w = (c', w', Ok env) ->
  exists e s, (c', s) = nextSequence c /\
    encryptBinary random data (createAadContext (draft (sc_profile c') lane s) (sc_profile c')) w = (w', Ok e) /\
    env = sealed (draft (sc_profile c') lane s) e.
Proof.
  unfold encryptAppMessage. intros Hd. rewrite Hd. destruct (nextSequence c) as [c1 s].
  destruct (encryptBinary _ _ _ w) as [w1 [e|err]] eqn:E; [|by intros [= _ _]]. cbn [rbind].
  intros H1. exists e, s. injection H1 as <- <- <-. done.
Qed.

Lemma sequence_range c : 0 <= (nextSequence c).2 < 2 ^ 32.
Proof.
  unfold nextSequence, to_u32. cbn [snd]. pose proof (Z.mod_pos_bound (sequence c + 1) (2 ^ 32) ltac:(done)).
  destruct (_ =? 0); lia.
Qed.

Lemma nextSequence_profile c : sc_profile (nextSequence c).1 = sc_profile c.
Proof. done. Qed.

Definition buckets_small (cfg : CryptoConfig) : Prop := Forall (fun b => b < 2 ^ 32) (cfg_paddingBuckets cfg).

Lemma encrypt_data_small sk rk random data ctx w e :
  session_inv sk rk w -> random_ok random -> buckets_small (config w) ->
  (encryptBinary random data ctx w).2 = Ok e -> zlength data < 2 ^ 32.
Proof.
  intros Hw Hr Hb He. eapply encrypt_ok in He as (_ & _ & aad & padded & _ & Hpt & _); [|done].
  apply buildPlaintext_layout in Hpt as (b & pad & Hsel & _ & _); [|done].
  apply selectPaddingBucket_spec in Hsel as (Hin & Hfit & _).
  unfold buckets_small in Hb. rewrite Forall_forall in Hb. apply Hb in Hin. lia.
Qed.

Context `{!WebCryptoLaws}.
#[local] Set Default Proof Using "Type*".

(** C1: a well-formed message that one peer encrypts and packs for a lane is,
    when the frame arrives, unpacked, decrypted and decoded to the same
    message by the other peer, whose receiving chain is the sender's: the
    frame may overtake others and be preceded by any traffic as long as its
    counter is still deliverable.  It passes the check of its stream when the
    lane is the message's. *)
Theorem secure_delivery sk rk sk' random m lane c ws c' ws' env frame cr wr now :
  session_inv sk rk ws -> session_inv sk' sk wr -> config wr = config ws ->
  buckets_small (config ws) -> random_ok random ->
  message_valid m = true -> message_units m = true ->
  sc_profile cr = sc_profile c -> 0 <= protocolVersion (sc_profile c) < 256 ->
  maxFrameBytes (sc_profile c) <= 2 ^ 32 -> outboundCounter ws + 1 < 2 ^ 64 ->
  encryptAppMessage random m lane c ws = (c', ws', Ok env) ->
  packEnvelope env (sc_profile c) = Ok frame ->
  deliverable wr (env_counter env) ->
  env_counter env <= highestInboundCounter wr + cfg_maxSkipped (config wr) + 1 ->
  exists env', unpackEnvelope frame (sc_profile cr) = Ok env' /\
    (decryptAppMessage now env' cr wr).2 = Ok m /\
    (streamForLane lane = stream_of m -> validateInboundStream m (env_streamId env') = Ok tt).
Proof.
  intros Hs Hr Hcfg Hb Hrand Hv Hu Hpc Hpv Hmax Hctr Henc Hpack Hdel Hwin.
  destruct (encodeAppMessage_back now m Hv Hu) as (data & Hdata & _ & Hback).
  destruct (encrypt_result _ _ _ _ _ _ _ _ _ Hdata Henc) as (e & s & Hseq & He & ->).
  assert (sc_profile c' = sc_profile c) as Hpc' by (by rewrite <- (nextSequence_profile c), <- Hseq).
  pose proof (sequence_range c) as Hsr. rewrite <- Hseq in Hsr. cbn [snd] in Hsr. rewrite Hpc' in *.
  pose proof (f_equal snd He) as He2. cbn [snd] in He2.
  pose proof (encrypt_data_small _ _ _ _ _ _ _ Hs Hrand Hb He2) as Hsmall.
  destruct (encrypt_ok _ _ _ _ _ _ _ Hs He2) as (Hcnt & _).
  pose proof (proj1 (proj2 Hs)) as Hpos.
  set (env := sealed (draft (sc_profile c) lane s) e) in *.
  apply packEnvelope_Ok in Hpack as [Hp ->]. exists (received env).
  rewrite Hpc. split; [by apply unpack_frame|]. split.
  - unfold decryptAppMessage. change (env_outerType (received env)) with OuterType.DATA. cbn [Z.eqb negb].
    pose proof (encrypt_authentic sk rk {| out_random := random; out_data := data;
      out_ctx := createAadContext (draft (sc_profile c) lane s) (sc_profile c) |} ws e Hs
      (conj Hrand Hsmall) He2) as Hauth.
    assert (request_of (received env) (sc_profile cr) = packet {| out_random := random; out_data := data;
      out_ctx := createAadContext (draft (sc_profile c) lane s) (sc_profile c) |} e) as ->.
    { unfold request_of, packet, received, createAadContext, to_u32, to_u64. subst env. rewrite Hpc. cbn.
      rewrite !Z.mod_small by (lia || by destruct lane). done. }
    rewrite <- Hcfg in Hauth.
    pose proof (decrypt_authentic sk' sk data _ wr Hr Hauth Hdel Hwin) as Hdec.
    destruct (decryptBinary _ wr) as [w2 res]. cbn [snd] in *. subst res. cbn [rbind]. done.
  - intros Hl. apply validateInboundStream_spec.
    change (env_streamId (received env)) with (to_u32 (streamForLane lane)).
    rewrite <- Hl. by destruct lane.
Qed.
Lemma selectPaddingBucket_some cfg n b :
  b ∈ cfg_paddingBuckets cfg -> n + 4 <= b -> exists b', selectPaddingBucket cfg n = Ok b'.
Proof using Type.
  intros Hin Hfit. unfold selectPaddingBucket. destruct (find _ _) as [b'|] eqn:E; [by eexists|].
  apply find_none with (x := b) in E; [apply Z.leb_gt in E; lia|].
  by apply list_elem_of_In, elem_of_sort_buckets.
Qed.

Lemma selectPaddingBucket_none cfg n :
  Forall (fun b => b < n + 4) (cfg_paddingBuckets cfg) ->
  selectPaddingBucket cfg n = Throw (js "Payload too large for selected profile").
Proof using Type.
  intros Hall. unfold selectPaddingBucket. destruct (find _ _) as [b'|] eqn:E; [|done].
  apply find_some in E as [Hin Hfit%Z.leb_le]. apply list_elem_of_In in Hin. apply (proj1 (elem_of_sort_buckets _ _)) in Hin.
  rewrite Forall_forall in Hall. apply Hall in Hin. lia.
Qed.

(** The worker's answer to a request with a nonce and keys of the right
    length depends on the bucket only. *)
Lemma encryptBinary_padding sk rk random data ctx w :
  session_inv sk rk w -> random_ok random ->
  (encryptBinary random data ctx w).2 =
    let! padded := buildPlaintext random (config w) data in
    let! aad := encodeAad ctx (outboundCounter w + 1) (random NONCE_BYTES) in
    Ok {| enc_ciphertext := subtle_encrypt (key_of sk (outboundCounter w + 1)) (random NONCE_BYTES) aad padded;
          enc_nonce := random NONCE_BYTES; enc_counter := outboundCounter w + 1 |}.
Proof.
  intros (Hsync & Hout & Hsend & _) Hr. pose proof Hsync as (Hest & _).
  unfold encryptBinary. rewrite Hest, Hsend.
  replace (Z.to_nat (outboundCounter w)) with (Z.to_nat (outboundCounter w + 1 - 1)) by lia.
  rewrite deriveStep_chain by lia. cbn [snd config set_sender].
  assert (length (random NONCE_BYTES) = 12%nat) as Hn.
  { pose proof (Hr NONCE_BYTES ltac:(done)) as Hl. unfold zlength, NONCE_BYTES in *. lia. }
  rewrite encodeAad_layout by done. cbn [rbind]. unfold importAes. rewrite key_of_length.
  change (32 =? AES_KEY_BYTES) with true. cbn [negb rbind]. by destruct (buildPlaintext _ _ _).
Qed.

(** Encryption in an established session fails only for want of a bucket:
    a message whose encoding fits a padding bucket is sealed with the next
    counter, sequence number and the stream of its lane; one that fits none
    is refused.  Either way the counter and the sequence number have moved on
    and the session keeps its invariant. *)
Theorem encryptAppMessage_total sk rk random m lane c w :
  session_inv sk rk w -> random_ok random -> message_valid m = true -> message_units m = true ->
  exists data c' w' res,
    encodeAppMessage m = Some data /\ encryptAppMessage random m lane c w = (c', w', res) /\
    c' = (nextSequence c).1 /\ outboundCounter w' = outboundCounter w + 1 /\ session_inv sk rk w' /\
    ((exists b, b ∈ cfg_paddingBuckets (config w) /\ zlength data + 4 <= b) ->
      exists env, res = Ok env /\ env_counter env = outboundCounter w + 1 /\
        env_sequence env = (nextSequence c).2 /\ env_streamId env = streamForLane lane) /\
    (Forall (fun b => b < zlength data + 4) (cfg_paddingBuckets (config w)) ->
      res = Throw (js "Payload too large for selected profile")).
Proof.
  intros Hw Hr Hv Hu. destruct (encodeAppMessage_back 0 m Hv Hu) as (data & Hdata & _ & _).
  unfold encryptAppMessage. rewrite Hdata. destruct (nextSequence c) as [c1 s]. cbn [fst snd].
  set (ctx := createAadContext (draft (sc_profile c1) lane s) (sc_profile c1)).
  pose proof (encrypt_inv sk rk random data ctx w Hw) as (Hi & _ & Hc & _).
  pose proof (encryptBinary_padding sk rk random data ctx w Hw Hr) as Hres.
  destruct (encryptBinary random data ctx w) as [w1 res]. cbn [fst snd] in *.
  exists data, c1, w1, (let! e := res in Ok (sealed (draft (sc_profile c1) lane s) e)).
  split_and!; [done|done|done|done|done|..].
  - intros (b & Hin & Hfit). destruct (selectPaddingBucket_some _ _ _ Hin Hfit) as (b' & Hb).
    unfold buildPlaintext in Hres. rewrite Hb in Hres. cbn [rbind] in Hres.
    rewrite encodeAad_layout in Hres; [subst res; cbn [rbind]; by eexists|].
    pose proof (Hr NONCE_BYTES ltac:(done)) as Hl. unfold zlength, NONCE_BYTES in *. lia.
  - intros Hall. unfold buildPlaintext in Hres. rewrite selectPaddingBucket_none in Hres by done.
    by subst res.
Qed.
End Delivery.

(** ** Witnesses *)

Lemma sequence_numbers_witness : 3 = Z.of_nat 2 mod (2 ^ 32 - 1) + 1 /\ 1 <= 3 < 2 ^ 32.
Proof. apply (sequence_numbers profile_balanced 5 2). by vm_compute. Defined.

Definition demo_text : AppMessage := reliable_msg (js "r1") channel_text (text_message (js "m1") (js "hi") 5) 5 1.

#[local] Existing Instance toy.
#[local] Existing Instance toy_laws.

Definition demo_worker (sk rk : bytes) : Worker := set_config
  {| cfg_paddingBuckets := [256]; cfg_maxSkipped := 32; cfg_protocolVersion := 2 |} (demo sk rk).

Lemma demo_worker_inv sk rk : session_inv sk rk (demo_worker sk rk).
Proof.
  unfold session_inv, synced, demo_worker, demo. cbn. split_and!; try done; [constructor|apply map_ok_nil].
Qed.

Definition demo_channel : SecureChannel := newSecureChannel profile_balanced.

Definition demo_sealed : Envelope :=
  match (encryptAppMessage zero_random demo_text Lane.text demo_channel (demo_worker [1] [2])).2 with
  | Ok env => env
  | Throw _ => draft profile_balanced Lane.text 0
  end.

Lemma secure_delivery_witness :
  exists env', unpackEnvelope (frame profile_balanced demo_sealed) profile_balanced = Ok env' /\
    (decryptAppMessage 9 env' demo_channel (demo_worker [2] [1])).2 = Ok demo_text /\
    (streamForLane Lane.text = stream_of demo_text ->
     validateInboundStream demo_text (env_streamId env') = Ok tt).
Proof.
  eapply (secure_delivery [1] [2] [2] zero_random demo_text Lane.text demo_channel (demo_worker [1] [2])
    _ _ demo_sealed (frame profile_balanced demo_sealed) demo_channel (demo_worker [2] [1]) 9).
  - apply demo_worker_inv.
  - apply demo_worker_inv.
  - reflexivity.
  - apply Forall_singleton. reflexivity.
  - apply zero_random_ok.
  - vm_compute. reflexivity.
  - vm_compute. reflexivity.
  - reflexivity.
  - by split.
  - by vm_compute.
  - by vm_compute.
  - vm_compute. reflexivity.
  - vm_compute. reflexivity.
  - right. vm_compute. reflexivity.
  - vm_compute. discriminate.
Defined.

Lemma encryptAppMessage_total_witness :
  exists data c' w' res,
    encodeAppMessage demo_text = Some data /\
    encryptAppMessage zero_random demo_text Lane.text demo_channel (demo_worker [1] [2]) = (c', w', res) /\
    c' = (nextSequence demo_channel).1 /\ outboundCounter w' = 0 + 1 /\ session_inv [1] [2] w'.
Proof.
  destruct (encryptAppMessage_total [1] [2] zero_random demo_text Lane.text demo_channel (demo_worker [1] [2]))
    as (data & c' & w' & res & H1 & H2 & H3 & H4 & H5 & _);
    [apply demo_worker_inv|apply zero_random_ok|by vm_compute|by vm_compute|].
  by exists data, c', w', res.
Defined.
