(* ===== verification/Reliable.v ===== *)
(** * Reliable delivery: [client/src/protocol/reliable.ts]

    Acknowledged sending with retransmission on one side, acknowledgement
    and deduplication on the other.  The methods are cut at their awaits: a
    call runs to its [await this.callbacks.send(...)], and the rest of it is a
    later step of the same state, which other calls, timers and received
    messages may precede.

    The pending object is shared between the map, the timer and the waiting
    call, and outlives its map entry; so the state keeps the objects in a
    store, and the map is the list of the ids it holds, in order. *)
From S2P Require Import Prelude JsMap Profiles Messages.

(** ** Data *)

Record ReliablePolicy := {
  initialRetryMs : Z;
  maxRetryMs : Z;
  backoffFactor : Z;
  policy_maxAttempts : Z;
  jitterRatio : Z * Z;        (* numerator, denominator *)
  seenTtlMs : Z;
}.

Definition DEFAULT_POLICY : ReliablePolicy := {|
  initialRetryMs := 1500; maxRetryMs := 12000; backoffFactor := 2; policy_maxAttempts := 5;
  jitterRatio := (1, 5); seenTtlMs := 10 * 60 * 1000;
|}.

Definition isReliableEnvelope (message : AppMessage) : bool :=
  match message with Core _ => false | _ => true end.

Definition shouldSendReliably (message : AppMessage) (lane : LaneName) : bool :=
  match message with
  | Core m => isReliableBody m && bool_decide (lane = Lane.control \/ lane = Lane.text)
  | _ => false
  end.

(** What an armed timer does when it fires, and after how long. *)
Inductive TimerAction := retry | time_out.

Record PendingReliable := {
  p_id : jstr;
  trackingId : option jstr;
  p_channel : ReliableChannelName;
  p_body : CoreAppMessage;
  attempts : Z;
  p_createdAt : Z;
  lastSentAt : Z;
  timer : option (TimerAction * Z);
}.

(** What the channel does to its surroundings, in order. *)
Inductive Output :=
| OSend (message : AppMessage) (lane : LaneName)
| ODelivered (reliableId : jstr) (trackingId : option jstr)
| OFailed (reliableId : jstr) (trackingId : option jstr) (reason : jstr)
| ODuplicate (reliableId : jstr)
| OBody (reliableId : jstr) (body : CoreAppMessage).

Record Reliable := {
  store : jsmap jstr PendingReliable;
  pending : list jstr;
  seen : jsmap jstr Z;
  sending : list jstr;                        (* calls of sendPending inside their await *)
  acking : list (jstr * CoreAppMessage);      (* calls of receive inside their await *)
  log : list Output;
}.

Definition initial : Reliable :=
  {| store := []; pending := []; seen := []; sending := []; acking := []; log := [] |}.

Definition emit (o : Output) (s : Reliable) : Reliable :=
  {| store := store s; pending := pending s; seen := seen s; sending := sending s;
     acking := acking s; log := log s ++ [o] |}.

Definition put_object (p : PendingReliable) (s : Reliable) : Reliable :=
  {| store := map_set (p_id p) p (store s); pending := pending s; seen := seen s;
     sending := sending s; acking := acking s; log := log s |}.

Definition set_pending (l : list jstr) (s : Reliable) : Reliable :=
  {| store := store s; pending := l; seen := seen s; sending := sending s;
     acking := acking s; log := log s |}.

Definition set_seen (m : jsmap jstr Z) (s : Reliable) : Reliable :=
  {| store := store s; pending := pending s; seen := m; sending := sending s;
     acking := acking s; log := log s |}.

Definition set_sending (l : list jstr) (s : Reliable) : Reliable :=
  {| store := store s; pending := pending s; seen := seen s; sending := l;
     acking := acking s; log := log s |}.

Definition set_acking (l : list (jstr * CoreAppMessage)) (s : Reliable) : Reliable :=
  {| store := store s; pending := pending s; seen := seen s; sending := sending s;
     acking := l; log := log s |}.

Definition set_timer (t : option (TimerAction * Z)) (p : PendingReliable) : PendingReliable :=
  {| p_id := p_id p; trackingId := trackingId p; p_channel := p_channel p; p_body := p_body p;
     attempts := attempts p; p_createdAt := p_createdAt p; lastSentAt := lastSentAt p; timer := t |}.

Definition lane_of_channel (c : ReliableChannelName) : LaneName :=
  match c with channel_control => Lane.control | channel_text => Lane.text end.

(** ** Methods *)

(** [Math.round] of a quotient of integers: halves go up. *)
Definition round_div (num den : Z) : Z := (2 * num + den) / (2 * den).

(** [rnd] is the value [p / q] of [Math.random()], [0 <= p < q]. *)
Definition retryDelayMs (policy : ReliablePolicy) (rnd : Z * Z) (n : Z) : Z :=
  let base := Z.min (initialRetryMs policy * backoffFactor policy ^ Z.max 0 (n - 1))
                (maxRetryMs policy) in
  let '(jn, jd) := jitterRatio policy in
  let '(p, q) := rnd in
  (* base - jitter + random * jitter * 2, over the common denominator jd * q *)
  Z.max 1 (round_div (base * jd * q - base * jn * q + p * base * jn * 2) (jd * q)).

Definition clearPending (p : PendingReliable) (s : Reliable) : Reliable :=
  set_pending (filter (fun id => id <> p_id p) (pending s)) (put_object (set_timer None p) s).

Definition failPending (p : PendingReliable) (reason : jstr) (s : Reliable) : Reliable :=
  emit (OFailed (p_id p) (trackingId p) reason) (clearPending p s).

Definition armRetry (policy : ReliablePolicy) (rnd : Z * Z) (p : PendingReliable) (s : Reliable)
  : Reliable :=
  let action := if policy_maxAttempts policy <=? attempts p then time_out else retry in
  put_object (set_timer (Some (action, retryDelayMs policy rnd (attempts p))) p) s.

Definition wire (p : PendingReliable) : AppMessage :=
  reliable_msg (p_id p) (p_channel p) (p_body p) (p_createdAt p) (attempts p).

(** [pending.attempts += 1; pending.lastSentAt = Date.now()]. *)
Definition bump (now : Z) (p : PendingReliable) : PendingReliable :=
  {| p_id := p_id p; trackingId := trackingId p; p_channel := p_channel p; p_body := p_body p;
     attempts := attempts p + 1; p_createdAt := p_createdAt p; lastSentAt := now;
     timer := timer p |}.

(** [sendPending] up to its await. *)
Definition sendPending (now : Z) (p : PendingReliable) (s : Reliable) : Reliable :=
  if bool_decide (p_id p ∈ pending s) then
    let p := bump now p in
    let s := put_object p s in
    set_sending (sending s ++ [p_id p]) (emit (OSend (wire p) (lane_of_channel (p_channel p))) s)
  else s.

(** [sendPending] after its await, [ok] being the value of the promise. *)
Definition sendPending_resume (policy : ReliablePolicy) (rnd : Z * Z) (ok : bool)
  (p : PendingReliable) (s : Reliable) : Reliable :=
  if ok then armRetry policy rnd p s
  else failPending p (js "Message could not be queued for transport") s.

Definition new_pending (id : jstr) (body : CoreAppMessage) (channel : ReliableChannelName)
  (tracking : option jstr) (now : Z) : PendingReliable :=
  {| p_id := id; trackingId := tracking; p_channel := channel; p_body := body;
     attempts := 0; p_createdAt := now; lastSentAt := 0; timer := None |}.

Definition send (id : jstr) (body : CoreAppMessage) (channel : ReliableChannelName)
  (tracking : option jstr) (now : Z) (s : Reliable) : Reliable :=
  let p := new_pending id body channel tracking now in
  sendPending now p (set_pending (pending s ++ [id]) (put_object p s)).

Definition sweepSeen (now : Z) (s : Reliable) : Reliable :=
  set_seen (filter (fun p => negb (p.2 <=? now) = true) (seen s)) s.

Definition pending_get (id : jstr) (s : Reliable) : option PendingReliable :=
  if bool_decide (id ∈ pending s) then map_get id (store s) else None.

(** [receive] up to its await. *)
Definition receive (message : AppMessage) (now : Z) (s : Reliable) : Reliable :=
  let s := sweepSeen now s in
  match message with
  | reliable_ack id =>
      match pending_get id s with
      | None => s
      | Some p => emit (ODelivered id (trackingId p)) (clearPending p s)
      end
  | reliable_nack id reason =>
      match pending_get id s with
      | None => s
      | Some p => emit (OFailed id (trackingId p) reason) (clearPending p s)
      end
  | reliable_msg id _ body _ _ =>
      set_acking (acking s ++ [(id, body)]) (emit (OSend (reliable_ack id) Lane.control) s)
  | Core _ => s
  end.

(** [receive] of a [reliable.msg] after its await. *)
Definition receive_resume (policy : ReliablePolicy) (id : jstr) (body : CoreAppMessage) (now : Z)
  (s : Reliable) : Reliable :=
  if map_has id (seen s) then emit (ODuplicate id) s
  else emit (OBody id body) (set_seen (map_set id (now + seenTtlMs policy) (seen s)) s).

(** [for (const pending of [...this.pending.values()])]. *)
Definition failAll (reason : jstr) (s : Reliable) : Reliable :=
  foldl (fun s id =>
    match map_get id (store s) with
    | Some p => emit (OFailed (p_id p) (trackingId p) reason) (clearPending p s)
    | None => s
    end) s (pending s).

Definition reset (s : Reliable) : Reliable :=
  let s := foldl (fun s id =>
    match map_get id (store s) with
    | Some p => put_object (set_timer None p) s
    | None => s
    end) s (pending s) in
  set_seen [] (set_pending [] s).

(** The callback of an armed timer. *)
Definition timer_fired (now : Z) (p : PendingReliable) (action : TimerAction) (s : Reliable)
  : Reliable :=
  let s := put_object (set_timer None p) s in
  if bool_decide (p_id p ∈ pending s) then
    match action with
    | retry => sendPending now (set_timer None p) s
    | time_out => failPending (set_timer None p) (js "Message delivery timed out") s
    end
  else s.

Definition pendingCount (s : Reliable) : Z := zlength (pending s).

Record ReliablePendingSnapshot := {
  ps_id : jstr;
  ps_trackingId : option jstr;
  ps_attempts : Z;
  ps_channel : ReliableChannelName;
  ps_createdAt : Z;
  ps_lastSentAt : Z;
}.

(** [[...this.pending.values()].map(...)]. *)
Definition snapshot (s : Reliable) : list ReliablePendingSnapshot :=
  omap (fun id => (fun p => {| ps_id := p_id p; ps_trackingId := trackingId p; ps_attempts := attempts p;
                               ps_channel := p_channel p; ps_createdAt := p_createdAt p;
                               ps_lastSentAt := lastSentAt p |}) <$> map_get id (store s)) (pending s).

(** ** Steps *)

Inductive Event :=
| ESend (id : jstr) (body : CoreAppMessage) (channel : ReliableChannelName)
    (tracking : option jstr) (now : Z)
| ESendDone (id : jstr) (ok : bool) (rnd : Z * Z)
| ETimer (id : jstr) (now : Z)
| EReceive (message : AppMessage) (now : Z)
| EReceiveDone (id : jstr) (now : Z)
| EFailAll (reason : jstr)
| EReset.

Fixpoint remove_one (id : jstr) (l : list jstr) : list jstr :=
  match l with
  | [] => []
  | x :: l' => if decide (x = id) then l' else x :: remove_one id l'
  end.

Fixpoint take_ack (id : jstr) (l : list (jstr * CoreAppMessage))
  : option (CoreAppMessage * list (jstr * CoreAppMessage)) :=
  match l with
  | [] => None
  | (x, b) :: l' =>
      if decide (x = id) then Some (b, l')
      else match take_ack id l' with Some (b', r) => Some (b', (x, b) :: r) | None => None end
  end.

(** [None] when the event cannot happen: [crypto.randomUUID] gives a new id,
    only a waiting call resumes, only an armed timer fires. *)
Definition step (policy : ReliablePolicy) (e : Event) (s : Reliable) : option Reliable :=
  match e with
  | ESend id body channel tracking now =>
      if bool_decide (map_get id (store s) = None)
      then Some (send id body channel tracking now s) else None
  | ESendDone id ok rnd =>
      if bool_decide (id ∈ sending s) then
        match map_get id (store s) with
        | Some p => Some (sendPending_resume policy rnd ok p (set_sending (remove_one id (sending s)) s))
        | None => None
        end
      else None
  | ETimer id now =>
      match map_get id (store s) with
      | Some p =>
          match timer p with
          | Some (action, _) => Some (timer_fired now p action s)
          | None => None
          end
      | None => None
      end
  | EReceive message now => Some (receive message now s)
  | EReceiveDone id now =>
      match take_ack id (acking s) with
      | Some (body, rest) => Some (receive_resume policy id body now (set_acking rest s))
      | None => None
      end
  | EFailAll reason => Some (failAll reason s)
  | EReset => Some (reset s)
  end.

Fixpoint run (policy : ReliablePolicy) (es : list Event) (s : Reliable) : option Reliable :=
  match es with
  | [] => Some s
  | e :: es' => match step policy e s with Some s' => run policy es' s' | None => None end
  end.
