(* ===== verification/ReliableProps.v ===== *)
(** * Properties of reliable delivery

    The invariant of one message seen through its view, the bound on its
    retransmissions, its outcomes, and deduplication on the receiving side. *)
From S2P Require Import Prelude JsMap Profiles Messages Reliable.

(** ** The view of one message

    Everything the sending side does concerns one id at a time; the view of
    an id is what the state says about it. *)
Definition about (id : jstr) (o : Output) : bool :=
  match o with
  | OSend (reliable_msg id' _ _ _ _) _ => bool_decide (id = id')
  | ODelivered id' _ | OFailed id' _ _ => bool_decide (id = id')
  | _ => false
  end.

Definition count (id : jstr) (l : list jstr) : Z :=
  sum_by (fun x => if decide (id = x) then 1 else 0) l.

Definition lift (b : bool) : Z := if b then 1 else 0.

Record View := {
  v_object : option PendingReliable;
  v_pending : bool;
  v_sending : Z;
  v_log : list Output;
}.

Definition view (id : jstr) (s : Reliable) : View := {|
  v_object := map_get id (store s);
  v_pending := bool_decide (id ∈ pending s);
  v_sending := count id (sending s);
  v_log := List.filter (about id) (log s);
|}.

(** The attempt numbers and the outcomes in a log. *)
Definition attempt_of (o : Output) : list Z :=
  match o with OSend (reliable_msg _ _ _ _ n) _ => [n] | _ => [] end.
Definition attempts_in (l : list Output) : list Z := mjoin (attempt_of <$> l).
Definition is_delivered (o : Output) : bool := match o with ODelivered _ _ => true | _ => false end.
Definition is_failed (o : Output) : bool := match o with OFailed _ _ _ => true | _ => false end.
Definition delivered_in (l : list Output) : Z := sum_by (fun o => lift (is_delivered o)) l.
Definition failed_in (l : list Output) : Z := sum_by (fun o => lift (is_failed o)) l.
Definition outcomes_in (l : list Output) : Z := delivered_in l + failed_in l.

Definition armed (p : PendingReliable) : Z := match timer p with Some _ => 1 | None => 0 end.
Definition will_retry (p : PendingReliable) : bool :=
  match timer p with Some (retry, _) => true | _ => false end.

(** [lost]: the channel was reset; [late]: a transport failure was reported
    for a message that was not pending any more. *)
Definition good (policy : ReliablePolicy) (lost late : bool) (id : jstr) (v : View) : Prop :=
  match v_object v with
  | None => v_pending v = false /\ v_sending v = 0 /\ v_log v = []
  | Some p =>
      p_id p = id /\
      1 <= attempts p <= Z.max 1 (policy_maxAttempts policy) /\
      (will_retry p = true -> attempts p < policy_maxAttempts policy) /\
      0 <= v_sending v /\ v_sending v + armed p <= 1 /\
      attempts_in (v_log v) = seqZ 1 (attempts p) /\
      (if v_pending v
       then v_sending v + armed p = 1 /\ outcomes_in (v_log v) = 0
       else delivered_in (v_log v) <= 1 /\ outcomes_in (v_log v) + v_sending v <= 2 /\
            (late = false -> outcomes_in (v_log v) <= 1) /\
            (lost = false -> 1 <= outcomes_in (v_log v)))
  end.

Definition inv (policy : ReliablePolicy) (lost late : bool) (s : Reliable) : Prop :=
  NoDup (pending s) /\ forall id, good policy lost late id (view id s).

(** ** Views of the primitives *)

Lemma attempts_in_app l k : attempts_in (l ++ k) = attempts_in l ++ attempts_in k.
Proof. unfold attempts_in. by rewrite fmap_app, join_app. Qed.

Lemma delivered_in_app l k : delivered_in (l ++ k) = delivered_in l + delivered_in k.
Proof. apply sum_by_app. Qed.

Lemma failed_in_app l k : failed_in (l ++ k) = failed_in l + failed_in k.
Proof. apply sum_by_app. Qed.

Lemma delivered_in_send m lane : delivered_in [OSend m lane] = 0.
Proof. done. Qed.

Lemma failed_in_send m lane : failed_in [OSend m lane] = 0.
Proof. done. Qed.

Lemma failed_in_nonneg l : 0 <= failed_in l.
Proof. apply sum_by_nonneg. intros x. by destruct (is_failed x). Qed.

Lemma delivered_in_nonneg l : 0 <= delivered_in l.
Proof. apply sum_by_nonneg. intros x. by destruct (is_delivered x). Qed.

Lemma count_app id l k : count id (l ++ k) = count id l + count id k.
Proof. apply sum_by_app. Qed.

Lemma count_nonneg id l : 0 <= count id l.
Proof. apply sum_by_nonneg. intros x. by case_decide. Qed.

Lemma count_elem id l : id ∈ l -> 1 <= count id l.
Proof.
  induction l as [|y l IH]; [by intros ?%elem_of_nil|]. pose proof (count_nonneg id l).
  unfold count in *. rewrite sum_by_cons. intros [->|Hin]%elem_of_cons.
  - rewrite decide_True by done. lia.
  - specialize (IH Hin). case_decide; lia.
Qed.

Lemma count_remove_one id id' l :
  id' ∈ l -> count id (remove_one id' l) = count id l - (if decide (id = id') then 1 else 0).
Proof.
  induction l as [|x l IH]; [by intros ?%elem_of_nil|]. intros [->|Hin]%elem_of_cons; cbn [remove_one].
  - rewrite decide_True by done. unfold count. rewrite sum_by_cons. lia.
  - unfold count in *. destruct (decide (x = id')) as [->|]; rewrite !sum_by_cons; [lia|].
    rewrite IH by done. lia.
Qed.

Lemma seqZ_snoc n : 0 <= n -> seqZ 1 (n + 1) = seqZ 1 n ++ [n + 1].
Proof.
  intros Hn. rewrite (seqZ_app 1 n 1) by lia. by rewrite (Z.add_comm 1 n).
Qed.

Lemma good_weaken policy lost late lost' late' id v :
  good policy lost late id v -> (lost = true -> lost' = true) -> (late = true -> late' = true) ->
  good policy lost' late' id v.
Proof.
  unfold good. destruct (v_object v); [|done]. intros (H1 & H2 & H3 & H4 & H5 & H6 & H7) Hl Ha.
  split_and!; try (done || lia). revert H7. destruct (v_pending v); [done|]. intros H7. destruct H7 as (? & ? & Hlate & Hlost).
  split_and!; try done; intros Hf; [apply Hlate; destruct late | apply Hlost; destruct lost];
    naive_solver.
Qed.

Lemma armed_range p : 0 <= armed p <= 1.
Proof. unfold armed. case_match; lia. Qed.

(** An emitted output shows in the views it is about. *)
Lemma view_emit id o s :
  view id (emit o s) = {| v_object := v_object (view id s); v_pending := v_pending (view id s);
    v_sending := v_sending (view id s);
    v_log := v_log (view id s) ++ (if about id o then [o] else []) |}.
Proof.
  unfold view. cbn. f_equal. rewrite List.filter_app. cbn. by destruct (about id o).
Qed.

Lemma view_put_object id p s :
  view id (put_object p s) =
    {| v_object := if decide (id = p_id p) then Some p else v_object (view id s);
       v_pending := v_pending (view id s); v_sending := v_sending (view id s);
       v_log := v_log (view id s) |}.
Proof. unfold view. cbn. by rewrite map_get_set. Qed.

Lemma view_clearPending id p s :
  view id (clearPending p s) =
    if decide (id = p_id p)
    then {| v_object := Some (set_timer None p); v_pending := false;
            v_sending := v_sending (view id s); v_log := v_log (view id s) |}
    else view id s.
Proof.
  unfold clearPending, view. cbn. rewrite map_get_set. cbn.
  assert (bool_decide (id ∈ filter (fun i => i <> p_id p) (pending s)) =
          negb (bool_decide (id = p_id p)) && bool_decide (id ∈ pending s)) as ->.
  { apply eq_bool_prop_intro. rewrite andb_True, negb_True, !bool_decide_spec, list_elem_of_filter. done. }
  case_decide; [by rewrite bool_decide_eq_true_2|by rewrite bool_decide_eq_false_2].
Qed.

Lemma view_sendPending id now p s :
  p_id p ∈ pending s ->
  view id (sendPending now p s) =
    if decide (id = p_id p)
    then {| v_object := Some (bump now p); v_pending := true; v_sending := v_sending (view id s) + 1;
            v_log := v_log (view id s) ++ [OSend (wire (bump now p)) (lane_of_channel (p_channel p))] |}
    else view id s.
Proof.
  intros Hin. unfold sendPending. rewrite bool_decide_eq_true_2 by done.
  unfold view. cbn [put_object emit set_sending store pending sending log].
  rewrite map_get_set, count_app, List.filter_app. cbn [bump p_id].
  assert (count id [p_id p] = if decide (id = p_id p) then 1 else 0) as ->.
  { unfold count. cbn. case_decide; lia. }
  cbn [List.filter about wire bump p_id p_channel].
  destruct (decide (id = p_id p)) as [->|Hd].
  - by rewrite !bool_decide_eq_true_2 by done.
  - rewrite (bool_decide_eq_false_2 (id = _)) by done. by rewrite app_nil_r, Z.add_0_r.
Qed.

(** Reading the object of an id back. *)
Lemma view_object id s p : map_get id (store s) = Some p -> v_object (view id s) = Some p.
Proof. done. Qed.

Ltac split_good := split_and!; cbn [p_id attempts timer will_retry set_timer] in *; try done; try (intros; lia).

(** What an object must satisfy whatever its view. *)
Lemma good_sent policy lost late s id p :
  good policy lost late id (view id s) -> map_get id (store s) = Some p -> p_id p = id.
Proof. unfold good. intros Hg Hp. rewrite (view_object _ _ _ Hp) in Hg. naive_solver. Qed.

(** ** Each operation keeps the views good *)

Section Preservation.
Context (policy : ReliablePolicy) (lost late : bool).
Implicit Types (s : Reliable) (id : jstr).

Abbreviation good_at id s := (good policy lost late id (view id s)).

(** A pending message between its await or timer and what follows. *)
Definition open_at (s : Reliable) (id : jstr) (p : PendingReliable) : Prop :=
  v_object (view id s) = Some p /\ p_id p = id /\ id ∈ pending s /\
  1 <= attempts p <= Z.max 1 (policy_maxAttempts policy) /\
  0 <= v_sending (view id s) <= 1 /\
  attempts_in (v_log (view id s)) = seqZ 1 (attempts p) /\
  outcomes_in (v_log (view id s)) = 0.

Lemma good_open s id p :
  good_at id s -> map_get id (store s) = Some p -> id ∈ pending s -> open_at s id p.
Proof.
  intros Hg Hp Hin. unfold good in Hg. rewrite (view_object _ _ _ Hp) in Hg.
  assert (v_pending (view id s) = true) as Hv by (by apply bool_decide_eq_true_2).
  rewrite Hv in Hg. pose proof (armed_range p). unfold open_at.
  destruct Hg as (? & ? & _ & ? & ? & ? & ? & ?). split_and!; (done || lia).
Qed.

(** A pending message is closed by an outcome. *)
Lemma close_good s id0 p o :
  open_at s id0 p ->
  about id0 o = true -> (forall id, id <> id0 -> about id o = false) ->
  attempt_of o = [] -> lift (is_delivered o) + lift (is_failed o) = 1 ->
  (forall id, id <> id0 -> good_at id s) -> forall id, good_at id (emit o (clearPending p s)).
Proof.
  intros (_ & Hid & Hin & ? & ? & Hatts & Hzero) Hab Hother Hatt Hout Hg id.
  rewrite view_emit, view_clearPending, Hid. case_decide as Hd.
  - subst id. cbn [v_object v_pending v_sending v_log]. rewrite Hab. unfold good.
    cbn [v_object v_pending v_sending v_log].
    unfold outcomes_in in *. rewrite attempts_in_app, delivered_in_app, failed_in_app.
    unfold attempts_in at 2. cbn [fmap list_fmap mjoin list_join]. rewrite Hatt, !app_nil_r.
    pose proof (delivered_in_nonneg (v_log (view id0 s))). pose proof (failed_in_nonneg (v_log (view id0 s))).
    unfold delivered_in at 2 4 6 8, failed_in at 2 4 6. cbn [sum_by foldr].
    assert (0 <= lift (is_failed o)) by (by destruct (is_failed o)).
    change (armed (set_timer None p)) with 0. split_good.
  - rewrite Hother by done. rewrite app_nil_r. by apply Hg.
Qed.

Lemma fail_good s id0 p reason :
  open_at s id0 p -> (forall id, id <> id0 -> good_at id s) ->
  forall id, good_at id (failPending p reason s).
Proof.
  intros Ho Hg. pose proof Ho as (_ & Hid & _). unfold failPending. rewrite Hid.
  apply (close_good s id0); cbn [about attempt_of is_delivered is_failed lift]; try done.
  - by rewrite bool_decide_eq_true_2.
  - intros id Hne. by rewrite bool_decide_eq_false_2.
Qed.

(** A first transmission, or one more while attempts are left. *)
Lemma transmit_good s id0 now p n :
  p_id p = id0 -> id0 ∈ pending s -> timer p = None -> attempts p = n ->
  0 <= n < Z.max 1 (policy_maxAttempts policy) -> v_sending (view id0 s) = 0 ->
  attempts_in (v_log (view id0 s)) = seqZ 1 n -> outcomes_in (v_log (view id0 s)) = 0 ->
  (forall id, id <> id0 -> good_at id s) -> forall id, good_at id (sendPending now p s).
Proof.
  intros Hid Hin Ht Hn Hmax Hs Hlog Hout Hg id. rewrite view_sendPending by (by rewrite Hid).
  rewrite Hid. case_decide as Hd; [|by apply Hg]. subst id. unfold good.
  cbn [v_object v_pending v_sending v_log]. unfold outcomes_in in *.
  rewrite attempts_in_app, delivered_in_app, failed_in_app, Hlog, Hs.
  assert (armed (bump now p) = 0) as -> by (unfold armed; cbn [bump timer]; by rewrite Ht).
  assert (will_retry (bump now p) = false) as -> by (unfold will_retry; cbn [bump timer]; by rewrite Ht).
  rewrite delivered_in_send, failed_in_send, !Z.add_0_r, Hout.
  cbn [bump p_id attempts attempts_in attempt_of wire fmap list_fmap mjoin list_join app].
  rewrite Hn. split_and!; try (done || lia). by rewrite seqZ_snoc by lia.
Qed.

Lemma pending_close p o s : pending (emit o (clearPending p s)) = filter (fun id => id <> p_id p) (pending s).
Proof. done. Qed.

Lemma send_good s id0 body channel tracking now :
  map_get id0 (store s) = None -> (forall id, good_at id s) ->
  id0 ∉ pending s /\ forall id, good_at id (send id0 body channel tracking now s).
Proof.
  intros Hnew Hg. pose proof (Hg id0) as Hg0. unfold good in Hg0.
  change (v_object (view id0 s)) with (map_get id0 (store s)) in Hg0. rewrite Hnew in Hg0.
  destruct Hg0 as (Hp & Hs & Hl). split; [by apply bool_decide_eq_false in Hp|].
  unfold send. cbv zeta. set (p := new_pending id0 body channel tracking now). set (s1 := set_pending _ _).
  assert (forall id, view id s1 = if decide (id = id0)
    then {| v_object := Some p; v_pending := true; v_sending := 0; v_log := [] |} else view id s) as Hv.
  { intros id. unfold view, s1. cbn [set_pending put_object store pending sending log].
    rewrite map_get_set. change (p_id p) with id0. case_decide as Hd.
    - subst id. cbn [view v_sending v_log] in Hs, Hl. rewrite Hs, Hl. f_equal.
      apply bool_decide_eq_true_2. set_solver.
    - f_equal. apply bool_decide_ext. set_solver. }
  apply (transmit_good s1 id0 now p 0); try done; try (rewrite Hv, decide_True by done; done).
  - cbn [s1 set_pending pending]. set_solver.
  - lia.
  - intros id Hne. rewrite Hv, decide_False by done. apply Hg.
Qed.

Lemma view_sent id id0 s :
  id0 ∈ sending s ->
  view id (set_sending (remove_one id0 (sending s)) s) =
    {| v_object := v_object (view id s); v_pending := v_pending (view id s);
       v_sending := v_sending (view id s) - (if decide (id = id0) then 1 else 0);
       v_log := v_log (view id s) |}.
Proof. intros Hin. unfold view. cbn. by rewrite <- count_remove_one. Qed.

Lemma arm_good s id0 p rnd :
  map_get id0 (store s) = Some p -> id0 ∈ sending s -> (forall id, good_at id s) ->
  forall id, good_at id (armRetry policy rnd p (set_sending (remove_one id0 (sending s)) s)).
Proof.
  intros Hp Hin Hg id. pose proof (Hg id0) as Hg0. pose proof (good_sent _ _ _ _ _ _ Hg0 Hp) as Hid.
  pose proof (count_elem id0 (sending s) Hin) as Hcount. change (count _ _) with (v_sending (view id0 s)) in Hcount.
  unfold armRetry. rewrite view_put_object, view_sent by done. unfold good in *.
  cbn [v_object v_pending v_sending v_log]. set (q := set_timer _ p).
  assert (p_id q = id0 /\ attempts q = attempts p /\ armed q = 1 /\
    (will_retry q = true -> attempts q < policy_maxAttempts policy)) as (Hq & Ha & Har & Hw).
  { unfold q. destruct (Z.leb_spec (policy_maxAttempts policy) (attempts p)); cbn; split_and!; done. }
  rewrite Hq. case_decide as Hd.
  - subst id. rewrite (view_object _ _ _ Hp) in Hg0. rewrite Ha, Har.
    destruct Hg0 as (_ & ? & _ & Hs & Hle & Hat & Hrest). pose proof (armed_range p).
    split_and!; try (done || lia). revert Hrest. destruct (v_pending (view id0 s)).
    + intros [? ?]. split; [lia|done].
    + intros (? & ? & ? & ?). split_and!; (done || lia).
  - specialize (Hg id). by rewrite Z.sub_0_r.
Qed.

(** An object without timer, put back in place of the one it was. *)
Lemma view_disarmed s id0 p id :
  map_get id0 (store s) = Some p -> p_id p = id0 ->
  view id (put_object (set_timer None p) s) =
    if decide (id = id0)
    then {| v_object := Some (set_timer None p); v_pending := v_pending (view id0 s);
            v_sending := v_sending (view id0 s); v_log := v_log (view id0 s) |}
    else view id s.
Proof.
  intros Hp Hid. rewrite view_put_object. cbn [set_timer p_id]. rewrite Hid.
  case_decide as Hd; [by subst|done].
Qed.

Lemma timer_good s id0 p action delay now :
  map_get id0 (store s) = Some p -> timer p = Some (action, delay) -> (forall id, good_at id s) ->
  forall id, good_at id (timer_fired now p action s).
Proof.
  intros Hp Ht Hg. pose proof (Hg id0) as Hg0. pose proof (good_sent _ _ _ _ _ _ Hg0 Hp) as Hid.
  pose proof (fun id => view_disarmed s id0 p id Hp Hid) as Hv. unfold timer_fired.
  set (s1 := put_object (set_timer None p) s) in *. rewrite Hid.
  assert (pending s1 = pending s) as Hpend by done. rewrite Hpend.
  assert (armed p = 1) as Harm by (unfold armed; by rewrite Ht).
  assert (forall id, id <> id0 -> good_at id s1) as Hother.
  { intros id Hne. rewrite Hv, decide_False by done. apply Hg. }
  unfold good in Hg0. rewrite (view_object _ _ _ Hp), Harm in Hg0.
  destruct Hg0 as (_ & Hatt & Hretry & Hs0 & Hs1 & Hlog & Hrest).
  assert (v_sending (view id0 s) = 0) as Hs by lia. case_bool_decide as Hin.
  - cbn [v_pending view] in Hrest. rewrite bool_decide_eq_true_2 in Hrest by done.
    destruct Hrest as [_ Hout]. destruct action.
    + apply (transmit_good s1 id0 now _ (attempts p)); try done;
        try (rewrite Hv, decide_True by done; done).
      assert (attempts p < policy_maxAttempts policy); [|lia].
      apply Hretry. unfold will_retry. by rewrite Ht.
    + apply (fail_good s1 id0); [|done]. unfold open_at. rewrite !Hv, decide_True by done.
      cbn [v_object v_pending v_sending v_log set_timer p_id attempts]. split_and!; try (done || lia).
  - intros id. rewrite Hv. case_decide as Hd; [|apply Hg]. subst id. unfold good.
    cbn [v_object v_pending v_sending v_log]. change (armed (set_timer None p)) with 0.
    assert (v_pending (view id0 s) = false) as Hv0 by (by apply bool_decide_eq_false_2).
    rewrite Hv0 in *. split_good; naive_solver.
Qed.

Lemma sendDone_good s id0 p rnd :
  map_get id0 (store s) = Some p -> id0 ∈ sending s -> id0 ∈ pending s ->
  (forall id, good_at id s) ->
  forall id, good_at id (sendPending_resume policy rnd false p
                           (set_sending (remove_one id0 (sending s)) s)).
Proof.
  intros Hp Hin Hpend Hg. pose proof (good_open s id0 p (Hg id0) Hp Hpend) as Ho.
  cbn [sendPending_resume]. apply (fail_good _ id0).
  - destruct Ho as (? & ? & ? & ? & ? & ? & ?). pose proof (count_elem id0 (sending s) Hin) as Hc.
    change (count _ _) with (v_sending (view id0 s)) in Hc. unfold open_at.
    rewrite view_sent, decide_True by done. cbn [v_object v_sending v_log set_sending pending].
    split_and!; (done || lia).
  - intros id Hne. rewrite view_sent, decide_False by done. rewrite Z.sub_0_r. apply Hg.
Qed.

Lemma lateDone_good s id0 p rnd :
  map_get id0 (store s) = Some p -> id0 ∈ sending s -> id0 ∉ pending s ->
  (forall id, good_at id s) ->
  forall id, good policy lost true id (view id (sendPending_resume policy rnd false p
                           (set_sending (remove_one id0 (sending s)) s))).
Proof.
  intros Hp Hin Hpend Hg id. pose proof (Hg id0) as Hg0.
  pose proof (good_sent _ _ _ _ _ _ Hg0 Hp) as Hid.
  pose proof (count_elem id0 (sending s) Hin) as Hc.
  change (count _ _) with (v_sending (view id0 s)) in Hc.
  cbn [sendPending_resume]. unfold failPending. rewrite view_emit, view_clearPending, Hid.
  cbn [about]. case_decide as Hd.
  - subst id. rewrite view_sent, decide_True by done. rewrite bool_decide_eq_true_2 by done.
    unfold good in *. cbn [v_object v_pending v_sending v_log].
    change (armed (set_timer None p)) with 0. rewrite (view_object _ _ _ Hp) in Hg0.
    cbn [v_pending view] in Hg0. rewrite bool_decide_eq_false_2 in Hg0 by done.
    unfold outcomes_in in *. rewrite attempts_in_app, delivered_in_app, failed_in_app.
    unfold attempts_in at 2. cbn [fmap list_fmap mjoin list_join attempt_of]. rewrite app_nil_r.
    unfold delivered_in at 2 4 6 8, failed_in at 2 4 6. cbn [sum_by foldr is_delivered is_failed lift].
    pose proof (armed_range p). pose proof (delivered_in_nonneg (v_log (view id0 s))).
    pose proof (failed_in_nonneg (v_log (view id0 s))).
    destruct Hg0 as (? & ? & ? & ? & ? & ? & ? & ? & ? & ?). split_good.
  - rewrite bool_decide_eq_false_2 by done. rewrite app_nil_r, view_sent, decide_False by done.
    rewrite Z.sub_0_r. eapply good_weaken; [apply Hg|done|done].
Qed.
End Preservation.

(** ** Runs *)

Definition is_reset (e : Event) : bool := match e with EReset => true | _ => false end.

(** A transport failure reported for a message that is not pending. *)
Definition late_failure (e : Event) (s : Reliable) : bool :=
  match e with
  | ESendDone id false _ => negb (bool_decide (id ∈ pending s))
  | _ => false
  end.

Lemma good_pending_object policy lost late s id :
  good policy lost late id (view id s) -> id ∈ pending s -> is_Some (map_get id (store s)).
Proof.
  unfold good. change (v_object (view id s)) with (map_get id (store s)).
  destruct (map_get id (store s)); [by eexists|]. intros [Hf _] Hin. exfalso.
  cbn [view v_pending] in Hf. by apply bool_decide_eq_false in Hf.
Qed.

Lemma failAll_inv policy lost late reason l s :
  NoDup l -> (forall id, id ∈ l -> id ∈ pending s) -> inv policy lost late s ->
  inv policy lost late (foldl (fun s id =>
    match map_get id (store s) with
    | Some p => emit (OFailed (p_id p) (trackingId p) reason) (clearPending p s)
    | None => s
    end) s l).
Proof.
  revert s. induction l as [|id l IH]; intros s Hnd Hin Hinv; cbn [foldl]; [done|].
  apply NoDup_cons in Hnd as [Hnew Hnd]. destruct Hinv as [Hpend Hg].
  assert (id ∈ pending s) as Hid by (apply Hin; set_solver).
  destruct (good_pending_object _ _ _ _ _ (Hg id) Hid) as [p Hp]. rewrite Hp.
  pose proof (good_sent _ _ _ _ _ _ (Hg id) Hp) as Hpid.
  apply IH; [done| |].
  - intros id' Hid'. rewrite pending_close, list_elem_of_filter, Hpid.
    split; [by intros ->|apply Hin; set_solver].
  - split; [rewrite pending_close; by apply NoDup_filter|].
    apply (fail_good policy lost late s id p reason); [|done]. by eapply good_open.
Qed.

Lemma reset_view l s id :
  (forall id p, map_get id (store s) = Some p -> p_id p = id) ->
  view id (foldl (fun s id =>
    match map_get id (store s) with
    | Some p => put_object (set_timer None p) s
    | None => s
    end) s l) =
  {| v_object := if bool_decide (id ∈ l) then set_timer None <$> v_object (view id s)
                 else v_object (view id s);
     v_pending := v_pending (view id s); v_sending := v_sending (view id s);
     v_log := v_log (view id s) |}.
Proof.
  revert s. induction l as [|id0 l IH]; intros s Hids; cbn [foldl]; [done|].
  destruct (map_get id0 (store s)) as [p|] eqn:Hp.
  - pose proof (Hids _ _ Hp) as Hid. rewrite IH.
    + rewrite (view_disarmed s id0 p id Hp Hid). destruct (decide (id = id0)) as [->|Hd].
      * rewrite (bool_decide_eq_true_2 (id0 ∈ id0 :: l)) by set_solver.
        cbn [v_object v_pending v_sending v_log view]. rewrite Hp. by case_bool_decide.
      * f_equal. assert (bool_decide (id ∈ id0 :: l) = bool_decide (id ∈ l)) as ->; [|done].
        apply bool_decide_ext. set_solver.
    + intros id' q. cbn [put_object store]. rewrite map_get_set. cbn [set_timer p_id].
      destruct (decide (id' = p_id p)) as [->|]; [by intros [= <-]|apply Hids].
  - rewrite IH by done. destruct (decide (id = id0)) as [->|Hne].
    + rewrite (bool_decide_eq_true_2 (id0 ∈ id0 :: l)) by set_solver.
      cbn [v_object view]. rewrite Hp. by case_bool_decide.
    + f_equal. assert (bool_decide (id ∈ id0 :: l) = bool_decide (id ∈ l)) as ->; [|done].
      apply bool_decide_ext. set_solver.
Qed.

Lemma reliable_reset_inv policy lost late s : inv policy lost late s -> inv policy true late (reset s).
Proof.
  intros [Hnd Hg]. split; [apply NoDup_nil_2|]. intros id. unfold reset. set (s1 := foldl _ s _).
  assert (view id (set_seen [] (set_pending [] s1)) =
    {| v_object := v_object (view id s1); v_pending := false; v_sending := v_sending (view id s1);
       v_log := v_log (view id s1) |}) as -> by done.
  unfold s1. rewrite reset_view by (intros ? ?; apply (good_sent policy lost late s), Hg).
  cbn [v_object v_pending v_sending v_log]. specialize (Hg id). unfold good in *.
  cbn [v_object v_pending v_sending v_log].
  change (bool_decide (id ∈ pending s)) with (v_pending (view id s)).
  destruct (v_object (view id s)) as [p|]; [|destruct Hg as (_ & ? & ?); by destruct (v_pending (view id s))].
  pose proof (armed_range p).
  revert Hg. destruct (v_pending (view id s)); cbn [fmap option_fmap option_map]; intros Hg.
  - change (armed (set_timer None p)) with 0. unfold outcomes_in in *.
    pose proof (delivered_in_nonneg (v_log (view id s))). pose proof (failed_in_nonneg (v_log (view id s))).
    destruct Hg as (? & ? & ? & ? & ? & ? & ? & ?). split_good.
  - destruct Hg as (? & ? & ? & ? & ? & ? & ? & ? & ? & ?). split_and!; (done || lia).
Qed.

Lemma receive_inv policy lost late message now s :
  inv policy lost late s -> inv policy lost late (receive message now s).
Proof.
  intros [Hnd Hg]. unfold receive.
  assert (inv policy lost late (sweepSeen now s)) as [Hnd1 Hg1] by done.
  set (s1 := sweepSeen now s) in *. destruct message as [m|id ch body c a|id|id reason]; [done| | |].
  - split; [done|]. intros id'. specialize (Hg1 id').
    change (view id' (set_acking _ _)) with (view id' (emit (OSend (reliable_ack id) Lane.control) s1)).
    rewrite view_emit. cbn [about]. by rewrite app_nil_r.
  - unfold pending_get. case_bool_decide as Hin; [|done].
    destruct (map_get id (store s1)) as [p|] eqn:Hp; [|done]. split.
    + rewrite pending_close. by apply NoDup_filter.
    + apply (close_good policy lost late s1 id); cbn [about attempt_of is_delivered is_failed lift]; try done.
      * by eapply good_open.
      * by rewrite bool_decide_eq_true_2.
      * intros id' Hne. by rewrite bool_decide_eq_false_2.
  - unfold pending_get. case_bool_decide as Hin; [|done].
    destruct (map_get id (store s1)) as [p|] eqn:Hp; [|done]. split.
    + rewrite pending_close. by apply NoDup_filter.
    + apply (close_good policy lost late s1 id); cbn [about attempt_of is_delivered is_failed lift]; try done.
      * by eapply good_open.
      * by rewrite bool_decide_eq_true_2.
      * intros id' Hne. by rewrite bool_decide_eq_false_2.
Qed.

Lemma receive_resume_inv policy lost late id body now s :
  inv policy lost late s -> inv policy lost late (receive_resume policy id body now s).
Proof.
  intros [Hnd Hg]. unfold receive_resume. case_match.
  - split; [done|]. intros id'. rewrite view_emit. cbn [about]. rewrite app_nil_r. apply Hg.
  - split; [done|]. intros id'. rewrite view_emit. cbn [about]. rewrite app_nil_r. apply Hg.
Qed.

Lemma inv_weaken policy lost late lost' late' s :
  inv policy lost late s -> (lost = true -> lost' = true) -> (late = true -> late' = true) ->
  inv policy lost' late' s.
Proof. intros [Hnd Hg] ? ?. split; [done|]. intros id. by eapply good_weaken. Qed.

Lemma reliable_step_inv policy lost late e s s' :
  inv policy lost late s -> step policy e s = Some s' ->
  inv policy (lost || is_reset e) (late || late_failure e s) s'.
Proof.
  intros Hinv Hstep. pose proof Hinv as [Hnd Hg].
  assert (forall s', inv policy lost late s' ->
    inv policy (lost || is_reset e) (late || late_failure e s) s') as Hw.
  { intros s0 H0. apply (inv_weaken _ _ _ _ _ _ H0); intros ->; apply orb_true_l. }
  destruct e as [id body ch tr now|id ok rnd|id now|m now|id now|reason|]; cbn [step] in Hstep.
  - case_bool_decide as Hnew; [|done]. injection Hstep as <-. apply Hw.
    destruct (send_good policy lost late s id body ch tr now Hnew Hg) as [Hfresh Hg']. split; [|done].
    unfold send, sendPending. case_match; cbn; apply NoDup_app; split_and!;
      (done || apply NoDup_singleton || (intros x Hx ->%list_elem_of_singleton; done)).
  - case_bool_decide as Hin; [|done]. destruct (map_get id (store s)) as [p|] eqn:Hp; [|done].
    injection Hstep as <-. destruct ok.
    + apply Hw. split; [done|]. by apply arm_good.
    + destruct (decide (id ∈ pending s)) as [Hpend|Hpend].
      * apply Hw. split; [cbn; by apply NoDup_filter|]. by apply sendDone_good.
      * cbn [is_reset late_failure]. rewrite orb_false_r, bool_decide_eq_false_2 by done.
        rewrite orb_true_r. split; [cbn; by apply NoDup_filter|]. by apply (lateDone_good policy lost late).
  - destruct (map_get id (store s)) as [p|] eqn:Hp; [|done].
    destruct (timer p) as [[action delay]|] eqn:Ht; [|done]. injection Hstep as <-. apply Hw.
    split; [|by eapply timer_good]. unfold timer_fired, sendPending.
    repeat case_match; cbn; try done; by apply NoDup_filter.
  - injection Hstep as <-. apply Hw. by apply receive_inv.
  - destruct (take_ack id (acking s)) as [[body rest]|]; [|done]. injection Hstep as <-. apply Hw.
    by apply receive_resume_inv.
  - injection Hstep as <-. apply Hw. unfold failAll. by apply failAll_inv.
  - injection Hstep as <-. cbn [is_reset]. rewrite orb_true_r. cbn [late_failure]. rewrite orb_false_r.
    by apply (reliable_reset_inv policy lost).
Qed.

Lemma reliable_initial_inv policy : inv policy false false initial.
Proof. split; [apply NoDup_nil_2|]. done. Qed.

(** Whether a run contains a late transport failure. *)
Fixpoint run_late (policy : ReliablePolicy) (es : list Event) (s : Reliable) : bool :=
  match es with
  | [] => false
  | e :: es' =>
      late_failure e s ||
      match step policy e s with Some s' => run_late policy es' s' | None => false end
  end.

Lemma reliable_run_inv policy es lost late s s' :
  inv policy lost late s -> run policy es s = Some s' ->
  inv policy (lost || existsb is_reset es) (late || run_late policy es s) s'.
Proof.
  revert lost late s. induction es as [|e es IH]; intros lost late s Hinv Hrun; cbn [run existsb run_late] in *.
  - injection Hrun as <-. by rewrite !orb_false_r.
  - destruct (step policy e s) as [s1|] eqn:Hs; [|done].
    rewrite !orb_assoc. apply (IH _ _ s1); [|done]. by apply reliable_step_inv.
Qed.

Lemma run_good policy es s id :
  run policy es initial = Some s ->
  good policy (existsb is_reset es) (run_late policy es initial) id (view id s).
Proof. intros Hrun. by apply (reliable_run_inv policy es false false initial s (reliable_initial_inv policy)) in Hrun as [_ Hg]. Qed.

(** ** Termination

    How many more completions and timers a message can see. *)
Definition fuel_left (policy : ReliablePolicy) (v : View) : Z :=
  let most := Z.max 1 (policy_maxAttempts policy) in
  match v_object v with
  | None => 2 * most
  | Some p => 2 * (most - attempts p) + 2 * v_sending v + armed p
  end.

Definition is_activity (id : jstr) (e : Event) : bool :=
  match e with
  | ESendDone id' _ _ | ETimer id' _ => bool_decide (id = id')
  | _ => false
  end.

Definition activity (id : jstr) (es : list Event) : Z := sum_by (fun e => lift (is_activity id e)) es.

Lemma fuel_close policy id p o s :
  map_get (p_id p) (store s) = Some p ->
  fuel_left policy (view id (emit o (clearPending p s))) <= fuel_left policy (view id s).
Proof.
  intros Hp. rewrite view_emit, view_clearPending. destruct (decide (id = p_id p)) as [->|]; [|done].
  unfold fuel_left. cbn [v_object v_sending]. rewrite (view_object _ _ _ Hp).
  change (armed (set_timer None p)) with 0. cbn [set_timer attempts]. pose proof (armed_range p). lia.
Qed.

Lemma fuel_disarm policy id p s :
  map_get (p_id p) (store s) = Some p ->
  fuel_left policy (view id (put_object (set_timer None p) s)) =
    fuel_left policy (view id s) - (if decide (id = p_id p) then armed p else 0).
Proof.
  intros Hp. rewrite (view_disarmed s (p_id p) p id Hp eq_refl).
  destruct (decide (id = p_id p)) as [->|]; [|lia].
  unfold fuel_left. cbn [v_object v_sending]. rewrite (view_object _ _ _ Hp).
  change (armed (set_timer None p)) with 0. cbn [set_timer attempts]. lia.
Qed.

Lemma fuel_send policy now p id s :
  p_id p ∈ pending s ->
  fuel_left policy (view id (sendPending now p s)) =
    if decide (id = p_id p)
    then 2 * (Z.max 1 (policy_maxAttempts policy) - (attempts p + 1))
         + 2 * (v_sending (view id s) + 1) + armed p
    else fuel_left policy (view id s).
Proof. intros Hin. rewrite view_sendPending by done. by destruct (decide (id = p_id p)). Qed.

Lemma fuel_failAll policy id reason l s :
  (forall id p, map_get id (store s) = Some p -> p_id p = id) ->
  fuel_left policy (view id (foldl (fun s id =>
    match map_get id (store s) with
    | Some p => emit (OFailed (p_id p) (trackingId p) reason) (clearPending p s)
    | None => s
    end) s l)) <= fuel_left policy (view id s).
Proof.
  revert s. induction l as [|id0 l IH]; intros s Hids; cbn [foldl]; [done|].
  destruct (map_get id0 (store s)) as [p|] eqn:Hp; [|by apply IH].
  pose proof (Hids _ _ Hp) as Hid. etrans; [apply IH|apply fuel_close; by rewrite Hid].
  intros id' q. cbn [emit clearPending set_pending put_object store]. rewrite map_get_set.
  cbn [set_timer p_id]. destruct (decide (id' = p_id p)) as [->|]; [by intros [= <-]|apply Hids].
Qed.

Lemma fuel_reset policy id s :
  (forall id p, map_get id (store s) = Some p -> p_id p = id) ->
  fuel_left policy (view id (reset s)) <= fuel_left policy (view id s).
Proof.
  intros Hids. unfold reset. set (s1 := foldl _ s _).
  assert (fuel_left policy (view id (set_seen [] (set_pending [] s1))) = fuel_left policy (view id s1)) as -> by done.
  unfold s1. rewrite reset_view by done. unfold fuel_left. cbn [v_object v_sending].
  case_bool_decide; [|done]. destruct (v_object (view id s)) as [p|]; [|done].
  cbn [fmap option_fmap option_map set_timer attempts]. change (armed (set_timer None p)) with 0.
  pose proof (armed_range p). lia.
Qed.

Lemma fuel_done policy lost late id id0 ok rnd p s :
  map_get id0 (store s) = Some p -> id0 ∈ sending s -> (forall id, good policy lost late id (view id s)) ->
  fuel_left policy (view id (sendPending_resume policy rnd ok p
    (set_sending (remove_one id0 (sending s)) s))) + lift (bool_decide (id = id0))
  <= fuel_left policy (view id s).
Proof.
  intros Hp Hin Hg. pose proof (good_sent _ _ _ _ _ _ (Hg id0) Hp) as Hid.
  pose proof (armed_range p) as Har. unfold fuel_left.
  destruct ok; cbn [sendPending_resume]; unfold armRetry, failPending;
    [rewrite view_put_object | rewrite view_emit, view_clearPending]; rewrite view_sent by done;
    cbn [set_timer p_id v_object v_sending]; rewrite Hid;
    destruct (decide (id = id0)) as [->|Hne];
    rewrite ?bool_decide_eq_true_2, ?bool_decide_eq_false_2 by done; cbn [lift v_object v_sending];
    rewrite ?(view_object _ _ _ Hp), ?Z.sub_0_r, ?Z.add_0_r; try lia.
  - set (q := set_timer _ p). pose proof (armed_range q). change (attempts q) with (attempts p). lia.
  - change (armed (set_timer None p)) with 0. cbn [attempts set_timer]. lia.
Qed.

Lemma fuel_timer policy id id0 action delay now p s :
  map_get id0 (store s) = Some p -> p_id p = id0 -> timer p = Some (action, delay) ->
  fuel_left policy (view id (timer_fired now p action s)) + lift (bool_decide (id = id0))
  <= fuel_left policy (view id s).
Proof.
  intros Hp Hid Ht. assert (armed p = 1) as Har by (unfold armed; by rewrite Ht). subst id0.
  pose proof (fuel_disarm policy id p s Hp) as Hd. rewrite Har in Hd.
  assert (lift (bool_decide (id = p_id p)) = if decide (id = p_id p) then 1 else 0) as ->.
  { destruct (decide (id = p_id p)); [by rewrite bool_decide_eq_true_2|by rewrite bool_decide_eq_false_2]. }
  unfold timer_fired. set (s1 := put_object (set_timer None p) s) in *.
  case_bool_decide as Hin; [|lia]. destruct action.
  - rewrite fuel_send by done. cbn [set_timer p_id attempts].
    destruct (decide (id = p_id p)) as [->|]; [|lia].
    change (armed (set_timer None p)) with 0. revert Hd. unfold fuel_left at 1. unfold s1 at 1.
    rewrite view_put_object. cbn [v_object set_timer p_id]. rewrite decide_True by done.
    change (armed (set_timer None p)) with 0. cbn [attempts set_timer v_sending].
    change (v_sending (view (p_id p) s1)) with (v_sending (view (p_id p) s)). lia.
  - unfold failPending. etrans; [apply Z.add_le_mono_r, fuel_close|lia].
    cbn. by rewrite map_get_set_eq.
Qed.

Lemma step_fuel policy lost late e s s' id :
  inv policy lost late s -> step policy e s = Some s' ->
  fuel_left policy (view id s') + lift (is_activity id e) <= fuel_left policy (view id s).
Proof.
  intros [Hnd Hg] Hstep.
  assert (forall id p, map_get id (store s) = Some p -> p_id p = id) as Hids.
  { intros ? ?. by apply (good_sent policy lost late s). }
  destruct e as [id0 body ch tr now|id0 ok rnd|id0 now|m now|id0 now|reason|];
    cbn [step is_activity lift] in *; rewrite ?Z.add_0_r.
  - case_bool_decide as Hnew; [|done]. injection Hstep as <-. unfold send. cbv zeta.
    rewrite fuel_send by (cbn; set_solver). cbn [new_pending p_id attempts].
    destruct (decide (id = id0)) as [->|Hne].
    + pose proof (Hg id0) as Hg0. unfold good in Hg0. unfold fuel_left.
      change (v_object (view id0 s)) with (map_get id0 (store s)) in *. rewrite Hnew in *.
      destruct Hg0 as (_ & Hs & _). change (v_sending (view id0 (set_pending _ _))) with (v_sending (view id0 s)).
      rewrite Hs. change (armed (new_pending id0 body ch tr now)) with 0. lia.
    + unfold fuel_left, view.
      cbn [set_pending put_object v_object v_sending store sending new_pending p_id].
      rewrite map_get_set_ne by done. lia.
  - case_bool_decide as Hin; [|done]. destruct (map_get id0 (store s)) as [p|] eqn:Hp; [|done].
    injection Hstep as <-. by apply (fuel_done policy lost late).
  - destruct (map_get id0 (store s)) as [p|] eqn:Hp; [|done].
    destruct (timer p) as [[action delay]|] eqn:Ht; [|done]. injection Hstep as <-.
    eapply fuel_timer; eauto.
  - injection Hstep as <-. unfold receive, pending_get.
    destruct m as [m|i c b cr at_|i|i reason]; [done|done| |]; case_bool_decide; try done;
      (destruct (map_get i (store (sweepSeen now s))) as [p|] eqn:Hp; [|done]);
      (etrans; [apply fuel_close; by rewrite (Hids _ _ Hp)|done]).
  - destruct (take_ack id0 (acking s)) as [[body rest]|]; [|done]. injection Hstep as <-.
    unfold receive_resume. destruct (map_has id0 _); apply Z.le_refl.
  - injection Hstep as <-. by apply fuel_failAll.
  - injection Hstep as <-. by apply fuel_reset.
Qed.

Lemma run_fuel policy es lost late s s' id :
  inv policy lost late s -> run policy es s = Some s' ->
  fuel_left policy (view id s') + activity id es <= fuel_left policy (view id s).
Proof.
  revert lost late s. induction es as [|e es IH]; intros lost late s Hinv Hrun; cbn [run] in Hrun.
  - injection Hrun as <-. unfold activity. cbn. lia.
  - destruct (step policy e s) as [s1|] eqn:Hs; [|done].
    pose proof (step_fuel policy lost late e s s1 id Hinv Hs).
    pose proof (IH _ _ s1 (reliable_step_inv _ _ _ _ _ _ Hinv Hs) Hrun). unfold activity in *.
    rewrite sum_by_cons. lia.
Qed.

(** ** Deduplication *)

Definition is_body (id : jstr) (o : Output) : bool :=
  match o with OBody id' _ => bool_decide (id = id') | _ => false end.

Definition bodies (id : jstr) (l : list Output) : Z := sum_by (fun o => lift (is_body id o)) l.

#[local] Arguments bodies : simpl never.

(** The clock readings of an event lie in the window of length [ttl]. *)
Definition in_window (policy : ReliablePolicy) (t0 : Z) (e : Event) : bool :=
  match e with
  | EReceive _ now | EReceiveDone _ now => (t0 <=? now) && (now <? t0 + seenTtlMs policy)
  | _ => true
  end.

Definition remembered (policy : ReliablePolicy) (t0 : Z) (s : Reliable) : Prop :=
  forall id, bodies id (log s) <= 1 /\
    (bodies id (log s) = 1 -> exists e, map_get id (seen s) = Some e /\ t0 + seenTtlMs policy <= e).

Lemma map_get_filter (P : jstr * Z -> Prop) `{!forall p, Decision (P p)} k v m :
  map_get k m = Some v -> P (k, v) -> map_get k (filter P m) = Some v.
Proof.
  induction m as [|[k' v'] m IH]; [done|]. cbn [map_get]. intros Hg HP.
  destruct (decide (k = k')) as [->|Hne].
  - injection Hg as ->. rewrite filter_cons_True by done. cbn. by rewrite decide_True.
  - destruct (decide (P (k', v'))).
    + rewrite filter_cons_True by done. cbn. rewrite decide_False by done. by apply IH.
    + rewrite filter_cons_False by done. by apply IH.
Qed.

Lemma bodies_app id l k : bodies id (l ++ k) = bodies id l + bodies id k.
Proof. apply sum_by_app. Qed.

Lemma bodies_nonneg id l : 0 <= bodies id l.
Proof. apply sum_by_nonneg. intros x. by destruct (is_body id x). Qed.

(** Steps that neither deliver nor forget. *)
Lemma remembered_same policy t0 s s' :
  (forall id, bodies id (log s') = bodies id (log s)) -> seen s' = seen s ->
  remembered policy t0 s -> remembered policy t0 s'.
Proof. intros Hb Hs Hr id. rewrite Hb, Hs. apply Hr. Qed.

Lemma remembered_sweep policy t0 now s :
  now < t0 + seenTtlMs policy -> remembered policy t0 s -> remembered policy t0 (sweepSeen now s).
Proof.
  intros Hn Hr id. destruct (Hr id) as [Hle Hone]. split; [done|]. intros H1.
  destruct (Hone H1) as (e & He & Hexp). exists e. split; [|done].
  apply map_get_filter; [done|]. cbn [snd]. apply negb_true_iff, Z.leb_gt. lia.
Qed.

Lemma bodies_fold id (f : Reliable -> jstr -> Reliable) l s :
  (forall s i, bodies id (log (f s i)) = bodies id (log s) /\ seen (f s i) = seen s) ->
  bodies id (log (foldl f s l)) = bodies id (log s) /\ seen (foldl f s l) = seen s.
Proof.
  intros Hf. revert s. induction l as [|i l IH]; intros s; [done|]. cbn [foldl].
  destruct (IH (f s i)) as [-> ->]. apply Hf.
Qed.

Lemma step_remembered policy t0 e s s' :
  is_reset e = false -> in_window policy t0 e = true ->
  remembered policy t0 s -> step policy e s = Some s' -> remembered policy t0 s'.
Proof.
  intros Hre Hwin Hr Hstep.
  assert (forall o (s0 : Reliable) id, is_body id o = false -> bodies id (log s0 ++ [o]) = bodies id (log s0)) as Hemit.
  { intros o s0 id Ho. rewrite bodies_app. unfold bodies at 2. cbn. rewrite Ho. cbn. lia. }
  destruct e as [id body ch tr now|id ok rnd|id now|m now|id now|reason|]; cbn [step in_window] in *.
  - case_bool_decide; [|done]. injection Hstep as <-. eapply remembered_same; [| |done].
    + intros id'. unfold send, sendPending. case_match; cbn; [by rewrite Hemit|done].
    + unfold send, sendPending. by case_match.
  - case_bool_decide; [|done]. destruct (map_get id (store s)) as [p|]; [|done]. injection Hstep as <-.
    eapply remembered_same; [| |done]; [intros id'|]; destruct ok; cbn; [done|by rewrite Hemit|done|done].
  - destruct (map_get id (store s)) as [p|]; [|done]. destruct (timer p) as [[action delay]|]; [|done].
    injection Hstep as <-. eapply remembered_same; [| |done]; [intros id'|];
      unfold timer_fired, sendPending; repeat case_match; cbn; rewrite ?Hemit; done.
  - injection Hstep as <-. bool_facts. apply (remembered_sweep policy t0 now) in Hr; [|done].
    eapply remembered_same; [| |exact Hr]; [intros id'|]; unfold receive, pending_get;
      destruct m; repeat case_match; cbn; rewrite ?Hemit; done.
  - destruct (take_ack id (acking s)) as [[body rest]|]; [|done]. injection Hstep as <-. bool_facts.
    unfold receive_resume. destruct (map_has id (seen (set_acking rest s))) eqn:Hhas.
    + eapply remembered_same; [| |exact Hr]; [intros id'; cbn; by rewrite Hemit|done].
    + intros id'. cbn [emit set_seen set_acking log seen]. rewrite bodies_app. unfold bodies at 2 4.
      cbn [sum_by foldr is_body]. rewrite map_get_set.
      destruct (Hr id') as [Hle Hone]. pose proof (bodies_nonneg id' (log s)).
      destruct (decide (id' = id)) as [->|Hne].
      * rewrite bool_decide_eq_true_2 by done. cbn [lift].
        assert (bodies id (log s) <> 1) as Hnone.
        { intros Hb1. destruct (Hone Hb1) as (e & He & _). unfold map_has in Hhas. cbn in Hhas.
          by rewrite He in Hhas. }
        split; [lia|]. intros _. eexists. split; [done|]. lia.
      * rewrite bool_decide_eq_false_2 by done. cbn [lift]. rewrite !Z.add_0_r. done.
  - injection Hstep as <-. unfold failAll.
    eapply remembered_same; [intros id'| |done].
    + apply bodies_fold. intros s0 i. destruct (map_get i (store s0)); [|done]. cbn. by rewrite Hemit.
    + apply (bodies_fold []). intros s0 i. destruct (map_get i (store s0)); [|done]. cbn. by rewrite Hemit.
  - done.
Qed.

Lemma run_remembered policy t0 es s s' :
  existsb is_reset es = false -> forallb (in_window policy t0) es = true ->
  remembered policy t0 s -> run policy es s = Some s' -> remembered policy t0 s'.
Proof.
  revert s. induction es as [|e es IH]; intros s Hre Hwin Hr Hrun; cbn in *; [by simplify_eq|].
  apply orb_false_elim in Hre as [? ?]. apply andb_prop in Hwin as [? ?].
  destruct (step policy e s) as [s1|] eqn:Hs; [|done].
  apply (IH s1); try done. by eapply step_remembered.
Qed.

(** ** Theorems *)

(** In every run, the transmissions of a message carry the attempt numbers
    1, 2, ..., k in this order, and k never exceeds the configured maximum. *)
Theorem retry_attempts_bounded policy es s id :
  run policy es initial = Some s ->
  exists k, 0 <= k <= Z.max 1 (policy_maxAttempts policy) /\
    attempts_in (List.filter (about id) (log s)) = seqZ 1 k.
Proof.
  intros Hg%(run_good policy es s id). unfold good in Hg.
  destruct (v_object (view id s)) as [p|].
  - destruct Hg as (_ & ? & _ & _ & _ & Hl & _). exists (attempts p). split; [lia|done].
  - destruct Hg as (_ & _ & Hl). exists 0. split; [lia|]. cbn [view v_log] in Hl. by rewrite Hl.
Qed.

(** C30: a pending message is never stuck: it has exactly one of a
    transmission in flight or an armed timer, and over a whole run it sees at
    most twice the maximum number of attempts of completions and timers; when
    none of the two is left the message is closed, with an outcome unless the
    channel was reset. *)
Theorem reliable_terminates policy es s id :
  run policy es initial = Some s ->
  activity id es <= 2 * Z.max 1 (policy_maxAttempts policy) /\
  (id ∈ pending s -> exists p, map_get id (store s) = Some p /\
     (count id (sending s) = 1 /\ timer p = None \/
      count id (sending s) = 0 /\ timer p <> None)) /\
  (is_Some (map_get id (store s)) -> id ∉ pending s -> existsb is_reset es = false ->
     1 <= outcomes_in (List.filter (about id) (log s))).
Proof.
  intros Hrun. pose proof (run_good policy es s id Hrun) as Hg.
  pose proof (run_fuel policy es false false initial s id (reliable_initial_inv policy) Hrun) as Hf.
  unfold good in Hg. unfold fuel_left in Hf.
  cbn [view v_object v_pending v_sending v_log initial store map_get] in *.
  split_and!.
  - destruct (map_get id (store s)) as [p|].
    + destruct Hg as (_ & ? & _ & ? & _). pose proof (armed_range p). cbn [v_sending] in *. lia.
    + lia.
  - intros Hin. cbn [v_pending] in Hg. rewrite bool_decide_eq_true_2 in Hg by done.
    destruct (map_get id (store s)) as [p|]; [|naive_solver]. exists p. split; [done|].
    destruct Hg as (_ & _ & _ & ? & _ & _ & Hone & _). cbn [v_sending] in *. unfold armed in Hone.
    destruct (timer p); [right|left]; split; (done || lia).
  - intros [p Hp] Hin Hre. cbn [v_pending v_log] in Hg. rewrite bool_decide_eq_false_2 in Hg by done.
    rewrite Hp in Hg. destruct Hg as (_ & _ & _ & _ & _ & _ & _ & _ & _ & Hl). by apply Hl.
Qed.

(** A message is reported delivered at most once and has at most two
    outcomes in all; it has at most one when no transport failure is reported
    for a message that is no longer pending, and none while it is pending. *)
Theorem outcome_at_most_once policy es s id :
  run policy es initial = Some s ->
  let l := List.filter (about id) (log s) in
  delivered_in l <= 1 /\ outcomes_in l <= 2 /\
  (run_late policy es initial = false -> outcomes_in l <= 1) /\
  (id ∈ pending s -> outcomes_in l = 0).
Proof.
  intros Hg%(run_good policy es s id). cbv zeta. unfold good in Hg. cbn [view v_object v_pending v_log v_sending] in Hg.
  set (l := List.filter (about id) (log s)) in *. unfold outcomes_in in *.
  pose proof (delivered_in_nonneg l). pose proof (failed_in_nonneg l).
  destruct (map_get id (store s)) as [p|].
  - destruct Hg as (_ & _ & _ & ? & _ & _ & Hrest). case_bool_decide.
    + destruct Hrest as [_ ?]. split_and!; (done || lia).
    + destruct Hrest as (? & ? & ? & _). split_and!; (done || lia).
  - destruct Hg as (Hp & _ & ->). apply bool_decide_eq_false in Hp. cbn. split_and!; (done || lia).
Qed.


(** An acknowledgement that arrives while a retransmission is under way. *)
Definition late_refusal : list Event :=
  [ESend (js "m") (text_message (js "t") (js "hi") 0) channel_text (Some (js "t")) 0;
   ESendDone (js "m") true (1, 2); ETimer (js "m") 1500;
   EReceive (reliable_ack (js "m")) 1600; ESendDone (js "m") false (1, 2)].


(** ** Retransmission delays *)

Lemma round_div_bounds num den lo hi :
  0 < den -> lo * den <= num <= hi * den -> lo <= round_div num den <= hi.
Proof.
  intros Hd Hn. unfold round_div. split.
  - apply Z.div_le_lower_bound; nia.
  - apply Z.lt_succ_r, Z.div_lt_upper_bound; nia.
Qed.

(** With the default policy every retransmission delay lies within 20% of
    the capped exponential backoff. *)
Theorem retry_delay_bounds rnd n :
  0 <= rnd.1 < rnd.2 -> 1 <= n ->
  let base := Z.min (1500 * 2 ^ (n - 1)) 12000 in
  base * 4 / 5 <= retryDelayMs DEFAULT_POLICY rnd n <= base * 6 / 5.
Proof.
  destruct rnd as [p q]. cbn [fst snd]. intros Hr Hn. cbv zeta. unfold retryDelayMs.
  cbn [DEFAULT_POLICY initialRetryMs backoffFactor maxRetryMs jitterRatio].
  rewrite (Z.max_r 0 (n - 1)) by lia. set (base := Z.min (1500 * 2 ^ (n - 1)) 12000).
  assert (0 < 2 ^ (n - 1)) by (apply Z.pow_pos_nonneg; lia).
  assert (1500 <= base) as Hb by (unfold base; lia).
  assert (exists k, base = 5 * k) as [k Hk].
  { unfold base. destruct (Z.min_spec (1500 * 2 ^ (n - 1)) 12000) as [[_ ->]|[_ ->]];
      [exists (300 * 2 ^ (n - 1)); lia|by exists 2400]. }
  rewrite Hk. replace (5 * k * 4 / 5) with (4 * k) by (rewrite <- (Z.div_mul (4 * k) 5) by lia; f_equal; lia).
  replace (5 * k * 6 / 5) with (6 * k) by (rewrite <- (Z.div_mul (6 * k) 5) by lia; f_equal; lia).
  assert (4 * k <= round_div (5 * k * 5 * q - 5 * k * 1 * q + p * (5 * k) * 1 * 2) (5 * q) <= 6 * k); [|lia].
  apply round_div_bounds; nia.
Qed.

(** ** Witnesses *)

Definition once : list Event :=
  [ESend (js "m") (text_message (js "t") (js "hi") 0) channel_text (Some (js "t")) 0;
   ESendDone (js "m") true (1, 2); EReceive (reliable_ack (js "m")) 700].

Definition after_once : Reliable := default initial (run DEFAULT_POLICY once initial).

Definition received_twice : list Event :=
  let m := reliable_msg (js "r") channel_text (text_message (js "t") (js "hi") 0) 0 1 in
  [EReceive m 10; EReceive m 11; EReceiveDone (js "r") 12; EReceiveDone (js "r") 13].

Lemma retry_attempts_bounded_witness :
  exists k, 0 <= k <= Z.max 1 5 /\ attempts_in (List.filter (about (js "m")) (log after_once)) = seqZ 1 k.
Proof. apply (retry_attempts_bounded DEFAULT_POLICY once). vm_compute. reflexivity. Defined.

Lemma reliable_terminates_witness : activity (js "m") once <= 2 * Z.max 1 5.
Proof. apply (reliable_terminates DEFAULT_POLICY once after_once). vm_compute. reflexivity. Defined.

Lemma outcome_at_most_once_witness :
  outcomes_in (List.filter (about (js "m")) (log after_once)) <= 1.
Proof.
  apply (outcome_at_most_once DEFAULT_POLICY once after_once); vm_compute; reflexivity.
Defined.


Lemma retry_delay_bounds_witness : 9600 <= retryDelayMs DEFAULT_POLICY (1, 3) 4 <= 14400.
Proof. apply (retry_delay_bounds (1, 3) 4); cbn; lia. Defined.
