(* ===== verification/FileProtocol.v ===== *)
(** * File protocol helpers: [client/src/features/file/fileProtocol.ts]

    File names, the outbound check, the chunk codec, and the cutting of a
    file into chunks that sender and receiver share. *)
From S2P Require Import Prelude Bytes Profiles.

(** The character class of the replacement: backslash, slash, question mark,
    percent, star, colon, bar, double quote, less and greater than. *)
Definition forbidden_chars : list Z := [92; 47; 63; 37; 42; 58; 124; 34; 60; 62].

(** White space and line terminators, as [String.prototype.trim] strips. *)
Definition is_js_space (c : Z) : bool :=
  ((9 <=? c) && (c <=? 13)) || (c =? 32) || (c =? 0xa0) || (c =? 0x1680) ||
  ((0x2000 <=? c) && (c <=? 0x200a)) || (c =? 0x2028) || (c =? 0x2029) || (c =? 0x202f) ||
  (c =? 0x205f) || (c =? 0x3000) || (c =? 0xfeff).

Fixpoint trim_start (s : jstr) : jstr :=
  match s with
  | [] => []
  | c :: s' => if is_js_space c then trim_start s' else s
  end.

Definition trim (s : jstr) : jstr := reverse (trim_start (reverse (trim_start s))).

Definition clean_char (c : Z) : Z := if bool_decide (c ∈ forbidden_chars) then 95 else c.

Definition validateFilename (name : jstr) : jstr :=
  let clean := trim (take 180 (clean_char <$> name)) in
  if truthy clean then clean else js "download".

(** What the sources read of a [File]. *)
Record File := { file_name : jstr; file_type : jstr; file_content : bytes }.

Definition file_size (f : File) : Z := zlength (file_content f).

Definition validateOutboundFile (f : File) (profile : TransportProfile) : result unit :=
  throw_if file_size f <=? 0 with js "Empty files are not supported";
  throw_if maxFileBytes (files profile) <? file_size f
    with js "File is larger than this profile allows";
  throw_if 180 <? zlength (file_name f) with js "Filename is too long";
  Ok tt.

Definition encodeChunk (b : bytes) : jstr := bytesToBase64Url b.
Definition decodeChunk (value : jstr) : result bytes := base64UrlToBytes value.

(** [crypto.subtle.digest("SHA-256", ...)] is the parameter [sha256]. *)
Definition digestBytes (sha256 : bytes -> bytes) (b : bytes) : jstr := bytesToHex (sha256 b).

(** [file.slice(start, Math.min(start + chunkSize, size))] of chunk [index]. *)
Definition chunk_slice (content : bytes) (chunkSize index : Z) : bytes :=
  take (Z.to_nat chunkSize) (drop (Z.to_nat (index * chunkSize)) content).

(** ** File names *)

Lemma trim_start_suffix s : exists pre, s = pre ++ trim_start s.
Proof.
  induction s as [|c s [pre IH]]; [by exists []|]. cbn [trim_start].
  destruct (is_js_space c); [|by exists []]. exists (c :: pre). by rewrite <- app_comm_cons, <- IH.
Qed.

Lemma trim_infix s : exists pre post, s = pre ++ trim s ++ post.
Proof.
  unfold trim. destruct (trim_start_suffix s) as [pre Hpre].
  destruct (trim_start_suffix (reverse (trim_start s))) as [post Hpost].
  exists pre, (reverse post). rewrite Hpre at 1. f_equal.
  rewrite <- reverse_app, <- Hpost. by rewrite reverse_involutive.
Qed.

Lemma clean_char_allowed c : clean_char c ∉ forbidden_chars.
Proof.
  unfold clean_char. case_bool_decide; [|done]. by apply (bool_decide_eq_false_1 (95 ∈ forbidden_chars)).
Qed.

(** The name a file is saved under is never empty, has at most 180
    characters and contains none of the characters that are special in paths
    on common systems. *)
Theorem validateFilename_safe name :
  validateFilename name <> [] /\ zlength (validateFilename name) <= 180 /\
  Forall (fun c => c ∉ forbidden_chars) (validateFilename name).
Proof.
  unfold validateFilename. set (s := take 180 (clean_char <$> name)).
  assert (Forall (fun c => c ∉ forbidden_chars) s) as Hs.
  { apply Forall_take, Forall_fmap, Forall_true. intros c. apply clean_char_allowed. }
  assert (length s <= 180)%nat as Hl by (unfold s; rewrite length_take; lia).
  destruct (trim_infix s) as (pre & post & Heq).
  destruct (trim s) as [|c r] eqn:Ht; cbn [truthy].
  - split_and!; [done|done|]. by apply (bool_decide_eq_true_1 (Forall (fun c => c ∉ forbidden_chars) (js "download"))).
  - split_and!; [done| |].
    + rewrite Heq in Hl. rewrite !length_app in Hl. unfold zlength. lia.
    + rewrite Heq in Hs. by apply Forall_app in Hs as [_ [Hs _]%Forall_app].
Qed.

(** ** Chunks *)

Lemma length_chunk_slice content chunkSize index :
  0 < chunkSize -> 0 <= index ->
  zlength (chunk_slice content chunkSize index) =
    Z.max 0 (Z.min chunkSize (zlength content - index * chunkSize)).
Proof.
  intros Hc Hi. unfold chunk_slice, zlength. rewrite length_take, length_drop. nia.
Qed.

Lemma chunk_slices_prefix content chunkSize (n : nat) :
  0 < chunkSize ->
  mjoin ((fun i => chunk_slice content chunkSize i) <$> seqZ 0 (Z.of_nat n)) =
    take (Z.to_nat (Z.of_nat n * chunkSize)) content.
Proof.
  intros Hc. induction n as [|n IH]; [done|].
  rewrite Nat2Z.inj_succ, <- Z.add_1_r, (seqZ_app 0 (Z.of_nat n) 1) by lia.
  rewrite fmap_app, join_app, IH.
  replace (Z.to_nat ((Z.of_nat n + 1) * chunkSize))
    with (Z.to_nat (Z.of_nat n * chunkSize) + Z.to_nat chunkSize)%nat by lia.
  rewrite seqZ_cons by lia. cbn [fmap list_fmap mjoin list_join Z.pred Z.add Pos.pred Z.pos_sub].
  rewrite app_nil_r. unfold chunk_slice. by rewrite <- take_take_drop, Z.add_0_l.
Qed.

(** The chunks of a file, in order, are the file. *)
Lemma chunk_slices_join content chunkSize :
  0 < chunkSize ->
  mjoin ((fun i => chunk_slice content chunkSize i) <$> seqZ 0 (ceil_div (zlength content) chunkSize))
    = content.
Proof.
  intros Hc. pose proof (ceil_div_spec (zlength content) chunkSize Hc) as Hd.
  pose proof (zlength_nonneg content).
  set (n := ceil_div (zlength content) chunkSize) in *.
  replace n with (Z.of_nat (Z.to_nat n)) by nia.
  rewrite chunk_slices_prefix by done. apply take_ge. unfold zlength in *. nia.
Qed.

(** What [encodeChunk] sends [decodeChunk] gives back, and the chunks of a
    file in order are the file: each has the size the receiver expects. *)
Theorem chunking_roundtrip content chunkSize (total := ceil_div (zlength content) chunkSize) :
  wf_bytes content -> 0 < chunkSize ->
  (forall i, 0 <= i < total ->
     decodeChunk (encodeChunk (chunk_slice content chunkSize i)) = Ok (chunk_slice content chunkSize i) /\
     zlength (chunk_slice content chunkSize i) =
       if i =? total - 1 then zlength content - i * chunkSize else chunkSize) /\
  mjoin (chunk_slice content chunkSize <$> seqZ 0 total) = content.
Proof.
  intros Hwf Hc. split; [|by apply chunk_slices_join]. intros i Hi. split.
  - apply base64Url_roundtrip. unfold chunk_slice. apply Forall_take, Forall_drop, Hwf.
  - rewrite length_chunk_slice by lia. pose proof (ceil_div_spec (zlength content) chunkSize Hc) as Hd.
    fold total in Hd. destruct (Z.eqb_spec i (total - 1)); nia.
Qed.

Lemma chunking_roundtrip_witness :
  mjoin (chunk_slice [1; 2; 3; 4; 5] 2 <$> seqZ 0 3) = [1; 2; 3; 4; 5].
Proof.
  apply (chunking_roundtrip [1; 2; 3; 4; 5] 2); [|done].
  repeat constructor; unfold is_byte; lia.
Defined.
