(* ===== verification/FileReceiver.v ===== *)
(** * Receiving files: [client/src/features/file/FileReceiver.ts]

    Transfer objects are shared between the map of transfers and the calls
    that wait for a promise, and a released object outlives its map entry, so
    the objects live in a store and the map holds references.  The methods
    are cut at their awaits.  The session runs one inbound message at a time,
    so at most one call of [chunk] is waiting; calls from the user interface
    ([accept], [reject], [cancel], [remove]) may come in between. *)
From S2P Require Import Prelude JsMap Bytes Profiles Messages FileProtocol.

Module Receiver.

Inductive ReceiverStatus := offered | receiving | completed | cancelled | failed.

#[export] Instance ReceiverStatus_eq_dec : EqDecision ReceiverStatus.
Proof. solve_decision. Defined.

(** [[completed, cancelled, failed].includes(status)]. *)
Definition terminal (s : ReceiverStatus) : bool :=
  match s with completed | cancelled | failed => true | _ => false end.

(** [blobUrl] stands for the object URL: the content it gives access to. *)
Record ReceiveTransfer := {
  fileId : jstr;
  name : jstr;
  mime : jstr;
  size : Z;
  chunkSize : Z;
  totalChunks : Z;
  sha256 : option jstr;
  status : ReceiverStatus;
  chunks : list (option bytes);
  received : list Z;
  blobUrl : option bytes;
  reason : option jstr;
}.

(** Field updates of a shared object. *)
Definition with_status (st : ReceiverStatus) (why : option jstr) (t : ReceiveTransfer) : ReceiveTransfer :=
  {| fileId := fileId t; name := name t; mime := mime t; size := size t; chunkSize := chunkSize t;
     totalChunks := totalChunks t; sha256 := sha256 t; status := st; chunks := chunks t;
     received := received t; blobUrl := blobUrl t; reason := why |}.

Definition with_chunks (cs : list (option bytes)) (r : list Z) (t : ReceiveTransfer) : ReceiveTransfer :=
  {| fileId := fileId t; name := name t; mime := mime t; size := size t; chunkSize := chunkSize t;
     totalChunks := totalChunks t; sha256 := sha256 t; status := status t; chunks := cs;
     received := r; blobUrl := blobUrl t; reason := reason t |}.

Definition with_blob (b : option bytes) (t : ReceiveTransfer) : ReceiveTransfer :=
  {| fileId := fileId t; name := name t; mime := mime t; size := size t; chunkSize := chunkSize t;
     totalChunks := totalChunks t; sha256 := sha256 t; status := status t; chunks := chunks t;
     received := received t; blobUrl := b; reason := reason t |}.

Definition release (t : ReceiveTransfer) : ReceiveTransfer := with_blob None (with_chunks [] [] t).

Record CompletedFile := {
  cf_fileId : jstr; cf_name : jstr; cf_mime : jstr; cf_size : Z; cf_blob : bytes }.

(** The progress is the quotient of the last two numbers. *)
Record ReceiverSnapshot := {
  rs_fileId : jstr; rs_name : jstr; rs_size : Z; rs_receivedBytes : Z; rs_status : ReceiverStatus;
  rs_reason : option jstr; rs_blobUrl : option bytes; rs_received : Z; rs_total : Z }.

Inductive Output :=
| RSend (message : CoreAppMessage)
| RUpdate (snapshot : ReceiverSnapshot)
| RComplete (file : CompletedFile).

(** Where a call of [chunk] waits. *)
Inductive Waiting :=
| wait_ack (ref : nat)
| wait_digest (ref : nat) (blob : bytes).

Record FileReceiver := {
  objects : list ReceiveTransfer;
  transfers : jsmap jstr nat;
  accepting : list nat;
  chunking : option Waiting;
  log : list Output;
}.

Definition initial : FileReceiver :=
  {| objects := []; transfers := []; accepting := []; chunking := None; log := [] |}.

Definition put (ref : nat) (t : ReceiveTransfer) (s : FileReceiver) : FileReceiver :=
  {| objects := <[ref := t]> (objects s); transfers := transfers s; accepting := accepting s;
     chunking := chunking s; log := log s |}.

Definition alloc (t : ReceiveTransfer) (s : FileReceiver) : FileReceiver :=
  {| objects := objects s ++ [t]; transfers := transfers s; accepting := accepting s;
     chunking := chunking s; log := log s |}.

Definition set_transfers (m : jsmap jstr nat) (s : FileReceiver) : FileReceiver :=
  {| objects := objects s; transfers := m; accepting := accepting s;
     chunking := chunking s; log := log s |}.

Definition set_accepting (l : list nat) (s : FileReceiver) : FileReceiver :=
  {| objects := objects s; transfers := transfers s; accepting := l;
     chunking := chunking s; log := log s |}.

Definition set_chunking (c : option Waiting) (s : FileReceiver) : FileReceiver :=
  {| objects := objects s; transfers := transfers s; accepting := accepting s;
     chunking := c; log := log s |}.

Definition output (o : Output) (s : FileReceiver) : FileReceiver :=
  {| objects := objects s; transfers := transfers s; accepting := accepting s;
     chunking := chunking s; log := log s ++ [o] |}.

Definition emit (t : ReceiveTransfer) (s : FileReceiver) : FileReceiver :=
  output (RUpdate {|
    rs_fileId := fileId t; rs_name := name t; rs_size := size t;
    rs_receivedBytes := Z.min (size t) (zlength (received t) * chunkSize t);
    rs_status := status t; rs_reason := reason t; rs_blobUrl := blobUrl t;
    rs_received := zlength (received t); rs_total := totalChunks t |}) s.

(** Store an object and emit its snapshot. *)
Definition put_emit (ref : nat) (t : ReceiveTransfer) (s : FileReceiver) : FileReceiver :=
  emit t (put ref t s).

(** [this.transfers.get(id)]: the reference and the object. *)
Definition get (id : jstr) (s : FileReceiver) : option (nat * ReceiveTransfer) :=
  match map_get id (transfers s) with
  | Some ref => match objects s !! ref with Some t => Some (ref, t) | None => None end
  | None => None
  end.

Section Methods.
Context (profile : TransportProfile) (digest : bytes -> bytes).

(** [void this.rejectOffer(...)], [sendAck], [sendNack]: one message, and
    nothing after it. *)
Definition sendApp (m : CoreAppMessage) (s : FileReceiver) : FileReceiver := output (RSend m) s.
Definition rejectOffer (id why : jstr) (s : FileReceiver) : FileReceiver :=
  sendApp (file_reject id why) s.
Definition sendAck (id : jstr) (index : Z) (s : FileReceiver) : FileReceiver :=
  sendApp (file_ack id index) s.
Definition sendNack (id : jstr) (index : Z) (why : jstr) (s : FileReceiver) : FileReceiver :=
  sendApp (file_nack id index why) s.

Definition reset (s : FileReceiver) : FileReceiver :=
  let s := foldl (fun s ref =>
    match objects s !! ref with
    | Some t => put ref (release t) s
    | None => s
    end) s (map_values (transfers s)) in
  set_transfers [] s.

Definition remove (id : jstr) (s : FileReceiver) : FileReceiver :=
  match get id s with
  | Some (ref, t) =>
      if terminal (status t)
      then set_transfers (map_delete id (transfers s)) (put ref (release t) s)
      else s
  | None => s
  end.

(** Whether some transfer other than [id] is offered or receiving. *)
Definition other_active (id : jstr) (s : FileReceiver) : bool :=
  existsb (fun ref =>
    match objects s !! ref with
    | Some t => negb (bool_decide (fileId t = id)) &&
                bool_decide (status t = offered \/ status t = receiving)
    | None => false
    end) (map_values (transfers s)).

Definition size_refused (sz : Z) : bool :=
  (sz <=? 0) || (maxFileBytes (files profile) <? sz) ||
  (maxMemoryReceiveBytes (files profile) <? sz).

Definition metadata_refused (sz cs total : Z) : bool :=
  (cs <=? 0) || (chunkBytes (files profile) <? cs) || (total <=? 0) ||
  negb (total =? (if 0 <? cs then ceil_div sz cs else 0)) ||
  (ceil_div (maxFileBytes (files profile)) (Z.max 1 cs) <? total).

Definition new_transfer (id nm mm : jstr) (sz cs total : Z) (sha : option jstr) : ReceiveTransfer :=
  {| fileId := id; name := validateFilename nm;
     mime := if truthy mm then mm else js "application/octet-stream";
     size := sz; chunkSize := cs; totalChunks := total; sha256 := sha;
     status := offered; chunks := replicate (Z.to_nat total) None; received := [];
     blobUrl := None; reason := None |}.

(** [offer] once any previous transfer of the same id is out of the way. *)
Definition offer_new (t : ReceiveTransfer) (s : FileReceiver) : FileReceiver :=
  if other_active (fileId t) s
  then rejectOffer (fileId t) (js "Another incoming file transfer is already active") s
  else emit t (set_transfers (map_set (fileId t) (length (objects s)) (transfers s)) (alloc t s)).

Definition offer (id nm mm : jstr) (sz cs total : Z) (sha : option jstr) (s : FileReceiver)
  : FileReceiver :=
  if size_refused sz
  then rejectOffer id (js "File is too large for this browser (" ++ formatBytes sz ++ js ")") s
  else if metadata_refused sz cs total
  then rejectOffer id (js "Invalid file metadata") s
  else
    let t := new_transfer id nm mm sz cs total sha in
    match get id s with
    | Some (ref, previous) =>
        if negb (terminal (status previous))
        then rejectOffer id (js "Duplicate active file transfer") s
        else offer_new t (set_transfers (map_delete id (transfers s)) (put ref (release previous) s))
    | None => offer_new t s
    end.

(** [accept] up to its await. *)
Definition accept (id : jstr) (s : FileReceiver) : FileReceiver :=
  match get id s with
  | Some (ref, t) =>
      if bool_decide (status t = offered) then
        let s := sendApp (file_accept id) (put_emit ref (with_status receiving None t) s) in
        set_accepting (accepting s ++ [ref]) s
      else s
  | None => s
  end.

(** [accept] after its await; a rejected promise counts as [false]. *)
Definition accept_resume (ref : nat) (ok : bool) (s : FileReceiver) : FileReceiver :=
  match objects s !! ref with
  | Some t =>
      if ok then s
      else put_emit ref (release (with_status failed (Some (js "Could not accept file transfer")) t)) s
  | None => s
  end.

Definition close_as (why : jstr) (ref : nat) (t : ReceiveTransfer) (s : FileReceiver) : FileReceiver :=
  put_emit ref (release (with_status cancelled (Some why) t)) s.

Definition reject (id why : jstr) (s : FileReceiver) : FileReceiver :=
  match get id s with
  | Some (ref, t) => sendApp (file_reject id why) (close_as why ref t s)
  | None => s
  end.

Definition cancel (id why : jstr) (notify : bool) (s : FileReceiver) : FileReceiver :=
  match get id s with
  | Some (ref, t) =>
      let s := close_as why ref t s in
      if notify then sendApp (file_cancel id why) s else s
  | None => s
  end.

Definition peerCancel (id why : jstr) (s : FileReceiver) : FileReceiver := cancel id why false s.

Definition expected_bytes (t : ReceiveTransfer) (index : Z) : Z :=
  if index =? totalChunks t - 1 then size t - index * chunkSize t else chunkSize t.

(** [chunk] up to its await; the other awaits end the call. *)
Definition chunk (id : jstr) (index total : Z) (data : jstr) (s : FileReceiver) : FileReceiver :=
  match get id s with
  | None => s
  | Some (ref, t) =>
      if negb (bool_decide (status t = receiving)) then s
      else if negb (total =? totalChunks t) || (index <? 0) || (totalChunks t <=? index)
      then sendNack id (Z.max 0 index) (js "invalid chunk") s
      else if set_has index (received t) then sendAck id index s
      else
        match decodeChunk data with
        | Throw _ => sendNack id index (js "invalid chunk data") s
        | Ok b =>
            if negb (zlength b =? expected_bytes t index)
            then sendNack id index (js "wrong chunk size") s
            else
              let t := with_chunks (<[Z.to_nat index := Some b]> (chunks t))
                         (set_add index (received t)) t in
              set_chunking (Some (wait_ack ref)) (sendAck id index (put ref t s))
        end
  end.

Definition fail_complete (ref : nat) (t : ReceiveTransfer) (err : jstr) (s : FileReceiver)
  : FileReceiver :=
  sendApp (file_cancel (fileId t) (js "receiver validation failed"))
    (put_emit ref (with_chunks [] [] (with_status failed (Some err) t)) s).

Definition finish (ref : nat) (t : ReceiveTransfer) (blob : bytes) (s : FileReceiver) : FileReceiver :=
  let t := with_blob (Some blob) (with_chunks [] (received t) (with_status completed None t)) in
  output (RComplete {| cf_fileId := fileId t; cf_name := name t; cf_mime := mime t;
                       cf_size := size t; cf_blob := blob |}) (put_emit ref t s).

(** [complete] up to the await of the digest.  A hole of the array counts as
    a missing chunk; it is shown below that there is none. *)
Definition complete (ref : nat) (t : ReceiveTransfer) (s : FileReceiver) : FileReceiver :=
  match mapM id (chunks t) with
  | None => fail_complete ref t (js "Missing file chunk") s
  | Some parts =>
      let blob := concatBytes parts in
      if negb (zlength blob =? size t)
      then fail_complete ref t (js "File size mismatch") s
      else
        match sha256 t with
        | Some h => if truthy h then set_chunking (Some (wait_digest ref blob)) s
                    else finish ref t blob s
        | None => finish ref t blob s
        end
  end.

(** [complete] after the digest; the object may have changed meanwhile. *)
Definition complete_resume (ref : nat) (blob : bytes) (s : FileReceiver) : FileReceiver :=
  match objects s !! ref with
  | Some t =>
      if bool_decide (Some (digestBytes digest blob) = sha256 t)
      then finish ref t blob s
      else fail_complete ref t (js "Integrity check failed") s
  | None => s
  end.

(** [complete] when the digest promise is rejected. *)
Definition complete_error (ref : nat) (err : jstr) (s : FileReceiver) : FileReceiver :=
  match objects s !! ref with
  | Some t => fail_complete ref t err s
  | None => s
  end.

(** [chunk] after its acknowledgement was handed over. *)
Definition chunk_resume (ref : nat) (s : FileReceiver) : FileReceiver :=
  match objects s !! ref with
  | Some t =>
      let s := emit t s in
      if zlength (received t) =? totalChunks t then complete ref t s else s
  | None => s
  end.

Definition completeNotice (id : jstr) (s : FileReceiver) : FileReceiver :=
  match get id s with
  | Some (ref, t) =>
      if bool_decide (status t = completed) then s
      else if negb (zlength (received t) =? totalChunks t)
      then put_emit ref (with_status (status t) (Some (js "Waiting for missing chunks")) t) s
      else s
  | None => s
  end.

(** ** Steps *)

Inductive Event :=
| EOffer (id nm mm : jstr) (sz cs total : Z) (sha : option jstr)
| EAccept (id : jstr)
| EAcceptDone (ref : nat) (ok : bool)
| EReject (id why : jstr)
| ECancel (id why : jstr) (notify : bool)
| EChunk (id : jstr) (index total : Z) (data : jstr)
| EChunkDone
| EDigestError (err : jstr)
| ENotice (id : jstr)
| EPeerCancel (id why : jstr)
| ERemove (id : jstr)
| EReset.

(** Events that come from received messages wait for a running [chunk]. *)
Definition is_inbound (e : Event) : bool :=
  match e with
  | EOffer _ _ _ _ _ _ _ | EChunk _ _ _ _ | ENotice _ | EPeerCancel _ _ => true
  | _ => false
  end.

Definition step (e : Event) (s : FileReceiver) : option FileReceiver :=
  if is_inbound e && match chunking s with Some _ => true | None => false end then None
  else
    match e with
    | EOffer id nm mm sz cs total sha => Some (offer id nm mm sz cs total sha s)
    | EAccept id => Some (accept id s)
    | EAcceptDone ref ok =>
        if bool_decide (ref ∈ accepting s)
        then Some (accept_resume ref ok (set_accepting (filter (fun r => r <> ref) (accepting s)) s))
        else None
    | EReject id why => Some (reject id why s)
    | ECancel id why notify => Some (cancel id why notify s)
    | EChunk id index total data => Some (chunk id index total data s)
    | EChunkDone =>
        match chunking s with
        | Some (wait_ack ref) => Some (chunk_resume ref (set_chunking None s))
        | Some (wait_digest ref blob) => Some (complete_resume ref blob (set_chunking None s))
        | None => None
        end
    | EDigestError err =>
        match chunking s with
        | Some (wait_digest ref _) => Some (complete_error ref err (set_chunking None s))
        | _ => None
        end
    | ENotice id => Some (completeNotice id s)
    | EPeerCancel id why => Some (peerCancel id why s)
    | ERemove id => Some (remove id s)
    | EReset => Some (reset s)
    end.

Fixpoint run (es : list Event) (s : FileReceiver) : option FileReceiver :=
  match es with
  | [] => Some s
  | e :: es' => match step e s with Some s' => run es' s' | None => None end
  end.
End Methods.

(** The object with its profile, which [setProfile] may replace at any time.
    The controller only passes the profiles of the table. *)
Record Object := { o_profile : TransportProfile; o_state : FileReceiver }.

Definition setProfile (p : TransportProfile) (o : Object) : Object := {| o_profile := p; o_state := o_state o |}.

Definition new_object (p : TransportProfile) : Object := {| o_profile := p; o_state := initial |}.

Inductive ObjectEvent := ESetProfile (i : TransportProfileId) | EMethod (e : Event).

Definition methods (es : list ObjectEvent) : list Event :=
  omap (fun e => match e with EMethod e => Some e | ESetProfile _ => None end) es.

Definition object_step (digest : bytes -> bytes) (e : ObjectEvent) (o : Object) : option Object :=
  match e with
  | ESetProfile i => Some (setProfile (getProfile i) o)
  | EMethod e => s ← step (o_profile o) digest e (o_state o); Some {| o_profile := o_profile o; o_state := s |}
  end.

Fixpoint object_run (digest : bytes -> bytes) (es : list ObjectEvent) (o : Object) : option Object :=
  match es with
  | [] => Some o
  | e :: es' => o' ← object_step digest e o; object_run digest es' o'
  end.
End Receiver.
