(* ===== verification/FileReceiverProps.v ===== *)
(** * Properties of the file receiver

    The invariant of the receiver, what a completed file is, and what a
    cancellation does to a transfer that is being checked. *)
From S2P Require Import Prelude JsMap Bytes Profiles Messages FileProtocol FileReceiver.
Import Receiver.

Section Invariant.
Context (limit : Z) (digest : bytes -> bytes).
(** A file a peer may be sending: its id, its content, the chunk size and
    the digest of its offers.  [None] makes no assumption on the peer. *)
Context (sent : option (jstr * bytes * Z * option jstr)).

#[local] Set Default Proof Using "limit digest sent".

Definition expects (id : jstr) (P : bytes -> Z -> option jstr -> Prop) : Prop :=
  match sent with
  | Some (id', content, c, h) => id = id' -> P content c h
  | None => True
  end.

(** The peer's messages about that file describe it. *)
Definition honest (e : Event) : Prop :=
  match e with
  | EOffer id _ _ sz cs _ sha =>
      expects id (fun content c h => sz = zlength content /\ cs = c /\ sha = h)
  | EChunk id index total data =>
      expects id (fun content c _ => 0 <= index < total ->
        wf_bytes content /\ data = encodeChunk (chunk_slice content c index))
  | _ => True
  end.

Definition active (t : ReceiveTransfer) : Prop := status t = offered \/ status t = receiving.

Definition filled (t : ReceiveTransfer) : Prop :=
  zlength (chunks t) = totalChunks t /\ NoDup (received t) /\
  (forall i, i ∈ received t <-> 0 <= i /\ exists b, chunks t !! Z.to_nat i = Some (Some b)) /\
  (forall i b, 0 <= i -> chunks t !! Z.to_nat i = Some (Some b) ->
     zlength b = expected_bytes t i /\
     expects (fileId t) (fun content c _ => b = chunk_slice content c i)).

Definition dead (t : ReceiveTransfer) : Prop :=
  chunks t = [] /\ (received t = [] \/ status t = completed).

Definition meta_ok (t : ReceiveTransfer) : Prop :=
  0 < size t <= limit /\ 0 < chunkSize t /\
  totalChunks t = ceil_div (size t) (chunkSize t) /\
  expects (fileId t) (fun content c h =>
    size t = zlength content /\ chunkSize t = c /\ sha256 t = h).

Definition obj_ok (t : ReceiveTransfer) : Prop :=
  meta_ok t /\ (dead t \/ active t /\ filled t).

(** A file handed to the application. *)
Definition file_ok (f : CompletedFile) : Prop :=
  zlength (cf_blob f) = cf_size f /\ 0 < cf_size f <= limit /\
  expects (cf_fileId f) (fun content _ h => cf_blob f = content /\
    match h with Some hh => hh = [] \/ digestBytes digest (cf_blob f) = hh | None => True end).

Definition output_ok (o : Output) : Prop :=
  match o with RComplete f => file_ok f | _ => True end.

Definition blob_ok (t : ReceiveTransfer) (blob : bytes) : Prop :=
  zlength blob = size t /\ expects (fileId t) (fun content _ _ => blob = content).

Definition waiting_ok (objs : list ReceiveTransfer) (w : option Waiting) : Prop :=
  match w with
  | None => True
  | Some (wait_ack ref) => exists t, objs !! ref = Some t /\ status t <> completed
  | Some (wait_digest ref blob) => exists t, objs !! ref = Some t /\ blob_ok t blob
  end.

Definition inv (s : FileReceiver) : Prop :=
  map_ok (transfers s) /\
  (forall id ref, map_get id (transfers s) = Some ref ->
     exists t, objects s !! ref = Some t /\ fileId t = id /\ (active t -> filled t)) /\
  Forall obj_ok (objects s) /\
  (forall id1 r1 t1 id2 r2 t2,
     map_get id1 (transfers s) = Some r1 -> objects s !! r1 = Some t1 -> active t1 ->
     map_get id2 (transfers s) = Some r2 -> objects s !! r2 = Some t2 -> active t2 -> id1 = id2) /\
  waiting_ok (objects s) (chunking s) /\
  Forall output_ok (log s).

(** ** Updates of one object *)

Definition same_meta (t t' : ReceiveTransfer) : Prop :=
  fileId t' = fileId t /\ size t' = size t /\ chunkSize t' = chunkSize t /\
  totalChunks t' = totalChunks t /\ sha256 t' = sha256 t.

Lemma receiver_lookup_put s ref t t' r :
  objects s !! ref = Some t ->
  objects (put ref t' s) !! r = if decide (r = ref) then Some t' else objects s !! r.
Proof.
  intros Ht. cbn [put objects]. apply lookup_lt_Some in Ht as Hlt.
  destruct (decide (r = ref)) as [->|Hne]; [by apply list_lookup_insert_eq|by apply list_lookup_insert_ne].
Qed.

Lemma receiver_put_inv s ref t t' :
  inv s -> objects s !! ref = Some t -> same_meta t t' -> obj_ok t' ->
  (active t' -> active t) ->
  (forall id, map_get id (transfers s) = Some ref -> active t' -> filled t') ->
  (chunking s = Some (wait_ack ref) -> status t' <> completed) ->
  inv (put ref t' s).
Proof.
  intros (Hmap & Hget & Hobj & Hact & Hwait & Hlog) Ht (Hid & Hsize & _) Hok Ha Hf Hw.
  pose proof (fun r => receiver_lookup_put s ref t t' r Ht) as Hl. split_and!; [done| | | | |done].
  - intros id r Hr. destruct (Hget id r Hr) as (u & Hu & Hfu & Hau). rewrite Hl.
    destruct (decide (r = ref)) as [->|]; [|by exists u]. exists t'.
    split_and!; [done|congruence|by eapply Hf].
  - cbn [put objects]. by apply Forall_insert.
  - intros id1 r1 t1 id2 r2 t2 H1 Ht1 Ha1 H2 Ht2 Ha2. cbn [put transfers] in H1, H2.
    rewrite Hl in Ht1, Ht2.
    assert (exists u1, objects s !! r1 = Some u1 /\ active u1) as (u1 & Hu1 & Hau1).
    { destruct (decide (r1 = ref)) as [->|]; [exists t; naive_solver|by exists t1]. }
    assert (exists u2, objects s !! r2 = Some u2 /\ active u2) as (u2 & Hu2 & Hau2).
    { destruct (decide (r2 = ref)) as [->|]; [exists t; naive_solver|by exists t2]. }
    by eapply (Hact id1 r1 u1 id2 r2 u2).
  - cbn [put chunking]. destruct (chunking s) as [[r|r blob]|] eqn:Hc; [| |done]; cbn [waiting_ok] in *.
    + destruct Hwait as (u & Hu & Hs). rewrite Hl. destruct (decide (r = ref)) as [->|]; [|by exists u].
      exists t'. split; [done|]. by apply Hw.
    + destruct Hwait as (u & Hu & Hs). rewrite Hl. destruct (decide (r = ref)) as [->|]; [|by exists u].
      exists t'. split; [done|]. simplify_eq. unfold blob_ok in *. by rewrite Hid, Hsize.
Qed.

Lemma receiver_output_inv s o : inv s -> output_ok o -> inv (output o s).
Proof.
  intros (Hmap & Hget & Hobj & Hact & Hwait & Hlog) Ho. split_and!; try done.
  cbn [output log]. apply Forall_app. split; [done|]. by apply Forall_singleton.
Qed.

Lemma receiver_put_emit_inv s ref t t' :
  inv s -> objects s !! ref = Some t -> same_meta t t' -> obj_ok t' ->
  (active t' -> active t) ->
  (forall id, map_get id (transfers s) = Some ref -> active t' -> filled t') ->
  (chunking s = Some (wait_ack ref) -> status t' <> completed) ->
  inv (put_emit ref t' s).
Proof. intros. unfold put_emit, emit. apply receiver_output_inv; [|done]. by eapply receiver_put_inv. Qed.

Lemma receiver_inv_obj s ref t : inv s -> objects s !! ref = Some t -> obj_ok t.
Proof. intros (_ & _ & Hobj & _) Ht. rewrite Forall_lookup in Hobj. by eapply Hobj. Qed.

Lemma receiver_get_inv s id ref t :
  inv s -> get id s = Some (ref, t) ->
  map_get id (transfers s) = Some ref /\ objects s !! ref = Some t /\ fileId t = id /\ obj_ok t /\
  (active t -> filled t).
Proof.
  intros Hinv Hg. unfold get in Hg. destruct (map_get id (transfers s)) as [r|] eqn:Hr; [|done].
  destruct (objects s !! r) as [u|] eqn:Hu; [|done]. injection Hg as -> ->.
  pose proof (receiver_inv_obj _ _ _ Hinv Hu) as Hok. destruct Hinv as (_ & Hget & _).
  destruct (Hget _ _ Hr) as (v & Hv & Hfv & Hav). simplify_eq. done.
Qed.

(** A released object, whatever its status. *)
Lemma release_ok t st why :
  meta_ok t -> obj_ok (release (with_status st why t)).
Proof. intros Hm. split; [exact Hm|]. left. split; [done|by left]. Qed.

Lemma close_inv s ref t st why :
  inv s -> objects s !! ref = Some t -> terminal st = true -> st <> completed ->
  inv (put_emit ref (release (with_status st why t)) s).
Proof.
  intros Hinv Ht Hterm Hst. pose proof (receiver_inv_obj _ _ _ Hinv Ht) as [Hm _].
  eapply receiver_put_emit_inv; [done|done|done|by apply release_ok| | |done].
  - intros [Ha|Ha]; cbn in Ha; by subst st.
  - intros id _ [Ha|Ha]; cbn in Ha; by subst st.
Qed.

(** ** A full transfer *)

Lemma filled_range t i : filled t -> i ∈ received t -> 0 <= i < totalChunks t.
Proof.
  intros (Hlen & _ & Hrec & _) Hi. apply Hrec in Hi as (Hi & b & Hb).
  apply lookup_lt_Some in Hb. unfold zlength in Hlen. lia.
Qed.

(** When every index was received, the parts are all there. *)
Lemma filled_parts t :
  meta_ok t -> filled t -> zlength (received t) = totalChunks t ->
  exists parts, mapM id (chunks t) = Some parts /\ zlength parts = totalChunks t /\
    forall i, 0 <= i < totalChunks t -> exists b,
      parts !! Z.to_nat i = Some b /\ chunks t !! Z.to_nat i = Some (Some b).
Proof.
  intros (Hsz & Hcs & Htot & _) Hf Hfull. pose proof Hf as (Hlen & Hnd & Hrec & _).
  assert (0 < totalChunks t) as Hpos by (rewrite Htot; apply ceil_div_pos; lia).
  assert (forall i, 0 <= i < totalChunks t -> exists b, chunks t !! Z.to_nat i = Some (Some b)) as Hall.
  { intros i Hi. apply Hrec. apply (NoDup_full_range (received t) (totalChunks t)); try (done || lia).
    intros j Hj. by apply filled_range. }
  assert (exists parts, mapM id (chunks t) = Some parts) as [parts Hp].
  { apply mapM_is_Some, Forall_lookup. intros i o Ho. apply lookup_lt_Some in Ho as Hlt.
    destruct (Hall (Z.of_nat i)) as [b Hb]; [unfold zlength in Hlen; lia|].
    rewrite Nat2Z.id in Hb. simplify_eq. by eexists. }
  apply mapM_Some in Hp as HF. exists parts. split_and!; [done| |].
  - apply Forall2_length in HF. unfold zlength in *. lia.
  - intros i Hi. destruct (Hall i Hi) as [b Hb].
    destruct (Forall2_lookup_l _ _ _ _ _ HF Hb) as (b' & Hb' & He). cbn in He. injection He as <-.
    by exists b.
Qed.

Lemma parts_eq (parts : list bytes) (f : Z -> bytes) n :
  0 <= n -> zlength parts = n ->
  (forall i, 0 <= i < n -> parts !! Z.to_nat i = Some (f i)) -> parts = f <$> seqZ 0 n.
Proof.
  intros Hn Hlen Hp. apply list_eq. intros i. rewrite list_lookup_fmap.
  destruct (decide (Z.of_nat i < n)) as [Hi|Hi].
  - rewrite lookup_seqZ_lt by lia. cbn [fmap option_fmap option_map].
    specialize (Hp (Z.of_nat i) ltac:(lia)). rewrite Nat2Z.id in Hp. by rewrite Hp, Z.add_0_l.
  - rewrite lookup_seqZ_ge by lia. apply lookup_ge_None_2. unfold zlength in Hlen. lia.
Qed.

Lemma join_lengths (l k : list bytes) :
  Forall2 (fun a b => zlength a = zlength b) l k -> zlength (mjoin l) = zlength (mjoin k).
Proof.
  induction 1 as [|a b l k Hab _ IH]; [done|]. cbn [mjoin list_join]. rewrite !zlength_app, Hab. f_equal. exact IH.
Qed.

(** The size check of [complete] cannot fail, and the blob is the file. *)
Lemma filled_blob t :
  meta_ok t -> filled t -> zlength (received t) = totalChunks t ->
  exists parts, mapM id (chunks t) = Some parts /\ blob_ok t (concatBytes parts).
Proof.
  intros Hm Hf Hfull. destruct (filled_parts t Hm Hf Hfull) as (parts & Hp & Hlen & Hall).
  exists parts. split; [done|]. destruct Hm as (Hsz & Hcs & Htot & Hexp).
  destruct Hf as (_ & _ & _ & Hchunk).
  assert (0 < totalChunks t) as Hpos by (rewrite Htot; apply ceil_div_pos; lia).
  pose proof (ceil_div_spec (size t) (chunkSize t) Hcs) as Hceil. rewrite <- Htot in Hceil.
  split.
  - set (content := replicate (Z.to_nat (size t)) 0).
    assert (zlength content = size t) as Hc.
    { unfold content, zlength. rewrite length_replicate. lia. }
    pose proof (chunk_slices_join content (chunkSize t) Hcs) as Hjoin. rewrite Hc, <- Htot in Hjoin.
    unfold concatBytes. rewrite <- Hc, <- Hjoin. apply join_lengths, Forall2_lookup. intros i.
    destruct (decide (Z.of_nat i < totalChunks t)) as [Hi|Hi].
    + destruct (Hall (Z.of_nat i)) as (b & Hb & Hb'); [lia|]. rewrite Nat2Z.id in Hb. rewrite Hb.
      rewrite list_lookup_fmap, lookup_seqZ_lt by lia. cbn [fmap option_fmap option_map].
      constructor. destruct (Hchunk (Z.of_nat i) b) as [-> _]; [lia|done|].
      rewrite length_chunk_slice, Hc by lia. unfold expected_bytes. rewrite Z.add_0_l.
      destruct (Z.eqb_spec (Z.of_nat i) (totalChunks t - 1)); nia.
    + rewrite (lookup_ge_None_2 parts) by (unfold zlength in Hlen; lia).
      rewrite list_lookup_fmap, lookup_seqZ_ge by lia. constructor.
  - unfold expects in *. destruct sent as [[[[id' content] c] h]|]; [|done]. intros Hid.
    destruct (Hexp Hid) as (Hsize & Hc & _). subst c.
    rewrite <- (chunk_slices_join content (chunkSize t) Hcs), <- Hsize, <- Htot.
    unfold concatBytes. f_equal. apply parts_eq; [lia|done|]. intros i Hi.
    destruct (Hall i Hi) as (b & Hb & Hb'). destruct (Hchunk i b) as [_ Hbi]; [lia|done|].
    by rewrite Hb, (Hbi Hid).
Qed.

(** ** Each operation keeps the invariant *)

Lemma send_inv s m : inv s -> inv (sendApp m s).
Proof. intros. by apply receiver_output_inv. Qed.

Lemma delete_inv s id : inv s -> inv (set_transfers (map_delete id (transfers s)) s).
Proof.
  intros (Hmap & Hget & Hobj & Hact & Hwait & Hlog). split_and!; try done.
  - by apply map_ok_delete.
  - intros id' r. cbn [set_transfers transfers objects]. rewrite map_get_delete.
    destruct (decide (id' = id)); [done|apply Hget].
  - intros id1 r1 t1 id2 r2 t2. cbn [set_transfers transfers objects]. rewrite !map_get_delete.
    destruct (decide (id1 = id)), (decide (id2 = id)); try done. apply Hact.
Qed.

Lemma release_same t : meta_ok t -> obj_ok (release t).
Proof. intros Hm. split; [exact Hm|]. left. split; [done|by left]. Qed.

Lemma not_completed s ref t :
  inv s -> objects s !! ref = Some t -> chunking s = Some (wait_ack ref) -> status t <> completed.
Proof.
  intros (_ & _ & _ & _ & Hwait & _) Ht Hc. rewrite Hc in Hwait. cbn in Hwait. naive_solver.
Qed.

(** Releasing an object that no map entry reaches, or a finished one. *)
Lemma release_inv s ref t :
  inv s -> objects s !! ref = Some t -> transfers s = [] \/ terminal (status t) = true ->
  inv (put ref (release t) s).
Proof.
  intros Hinv Ht Hor. pose proof (receiver_inv_obj _ _ _ Hinv Ht) as [Hm _].
  eapply receiver_put_inv; [done|done|done|by apply release_same|done| |].
  - intros id Hid [Ha|Ha]; cbn in Ha; destruct Hor as [Hnil|Hterm];
      (rewrite Hnil in Hid; discriminate Hid) || (rewrite Ha in Hterm; discriminate Hterm).
  - intros Hc. exact (not_completed s ref t Hinv Ht Hc).
Qed.

Lemma clear_inv s : inv s -> inv (set_transfers [] s).
Proof.
  intros (Hmap & Hget & Hobj & Hact & Hwait & Hlog). split_and!; try done. apply map_ok_nil.
Qed.

Lemma receiver_reset_inv s : inv s -> inv (reset s).
Proof.
  intros Hinv%clear_inv. unfold reset. generalize (map_values (transfers s)). intros l.
  assert (forall l s, set_transfers [] (foldl (fun s ref =>
    match objects s !! ref with Some t => put ref (release t) s | None => s end) s l) =
    foldl (fun s ref => match objects s !! ref with Some t => put ref (release t) s | None => s end)
      (set_transfers [] s) l) as Hcomm.
  { clear. induction l as [|r l IH]; intros s; [done|]. cbn [foldl]. rewrite IH. f_equal.
    cbn [set_transfers objects]. by destruct (objects s !! r). }
  rewrite Hcomm. clear Hcomm. revert Hinv. assert (transfers (set_transfers [] s) = []) as Hnil by done.
  revert Hnil. generalize (set_transfers [] s). clear s. induction l as [|r l IH]; intros s Hnil Hinv; [done|].
  cbn [foldl]. destruct (objects s !! r) as [t|] eqn:Ht; [|by apply IH].
  apply IH; [done|]. apply release_inv; auto.
Qed.

Lemma receiver_remove_inv s id : inv s -> inv (remove id s).
Proof.
  intros Hinv. unfold remove. destruct (get id s) as [[ref t]|] eqn:Hg; [|done].
  destruct (terminal (status t)) eqn:Hterm; [|done].
  pose proof (receiver_get_inv _ _ _ _ Hinv Hg) as (_ & Ht & _).
  apply (delete_inv (put ref (release t) s)). apply release_inv; auto.
Qed.

Lemma receiver_new_transfer_ok profile id nm mm sz cs total sha :
  maxMemoryReceiveBytes (files profile) <= limit ->
  honest (EOffer id nm mm sz cs total sha) ->
  size_refused profile sz = false -> metadata_refused profile sz cs total = false ->
  meta_ok (new_transfer id nm mm sz cs total sha) /\ filled (new_transfer id nm mm sz cs total sha).
Proof.
  intros Hlim Hh Hs Hm. unfold size_refused, metadata_refused in *. bool_facts.
  destruct (Z.ltb_spec 0 cs); [|lia].
  split; [split_and!; cbn; (done || lia)|]. unfold filled. cbn [new_transfer chunks received totalChunks].
  split_and!.
  - unfold zlength. rewrite length_replicate. lia.
  - apply NoDup_nil_2.
  - intros i. split; [by intros ?%elem_of_nil|]. intros (_ & b & Hb).
    apply lookup_replicate in Hb as [? _]. done.
  - intros i b _ Hb. apply lookup_replicate in Hb as [? _]. done.
Qed.

Lemma other_active_false s id :
  inv s -> other_active id s = false ->
  forall id' ref t, map_get id' (transfers s) = Some ref -> objects s !! ref = Some t ->
    id' <> id -> ~ active t.
Proof.
  intros Hinv Ho id' ref t Hr Ht Hne Ha.
  assert (other_active id s = true) as Hc; [|congruence].
  apply existsb_exists. exists ref. split.
  - apply list_elem_of_In. unfold map_values. apply list_elem_of_fmap. exists (id', ref). split; [done|].
    by apply map_get_In.
  - rewrite Ht. destruct Hinv as (_ & Hget & _). destruct (Hget _ _ Hr) as (u & Hu & Hfu & _). simplify_eq.
    rewrite bool_decide_eq_false_2 by done. by rewrite bool_decide_eq_true_2.
Qed.

Lemma offer_new_inv s t :
  inv s -> map_get (fileId t) (transfers s) = None -> meta_ok t -> filled t -> active t ->
  inv (offer_new t s).
Proof.
  intros Hinv Hnone Hm Hf Ha. unfold offer_new. destruct (other_active (fileId t) s) eqn:Ho.
  { by apply receiver_output_inv. }
  pose proof (other_active_false s (fileId t) Hinv Ho) as Hother.
  destruct Hinv as (Hmap & Hget & Hobj & Hact & Hwait & Hlog).
  assert (forall r u, objects s !! r = Some u -> (objects s ++ [t]) !! r = Some u) as Hold.
  { intros r u Hu. by apply lookup_app_l_Some. }
  assert ((objects s ++ [t]) !! length (objects s) = Some t) as Hnew.
  { by rewrite lookup_app_r, Nat.sub_diag. }
  unfold emit. apply receiver_output_inv; [|done]. split_and!; cbn [set_transfers alloc transfers objects chunking log].
  - by apply map_ok_set.
  - intros id r. rewrite map_get_set. destruct (decide (id = fileId t)) as [->|].
    + intros [= <-]. by exists t.
    + intros Hr. destruct (Hget _ _ Hr) as (u & Hu & Hrest). exists u. by split; [apply Hold|].
  - apply Forall_app. split; [done|]. apply Forall_singleton. split; [done|]. by right.
  - assert (forall id r u, map_get id (map_set (fileId t) (length (objects s)) (transfers s)) = Some r ->
      (objects s ++ [t]) !! r = Some u -> active u -> id = fileId t) as Honly.
    { intros id r u. rewrite map_get_set. destruct (decide (id = fileId t)) as [->|Hne]; [done|].
      intros Hr Hu Hau. exfalso. destruct (Hget _ _ Hr) as (u' & Hu' & _).
      pose proof (Hold _ _ Hu'). simplify_eq. by eapply Hother. }
    intros id1 r1 t1 id2 r2 t2 H1 Ht1 Ha1 H2 Ht2 Ha2.
    rewrite (Honly _ _ _ H1 Ht1 Ha1). by rewrite (Honly _ _ _ H2 Ht2 Ha2).
  - destruct (chunking s) as [[r|r blob]|]; [| |done]; cbn in *;
      destruct Hwait as (u & Hu & Hrest); exists u; auto.
  - done.
Qed.

Lemma receiver_offer_inv profile s id nm mm sz cs total sha :
  maxMemoryReceiveBytes (files profile) <= limit -> inv s -> honest (EOffer id nm mm sz cs total sha) ->
  inv (offer profile id nm mm sz cs total sha s).
Proof.
  intros Hlim Hinv Hh. unfold offer.
  destruct (size_refused profile sz) eqn:Hs; [by apply receiver_output_inv|].
  destruct (metadata_refused profile sz cs total) eqn:Hm; [by apply receiver_output_inv|].
  destruct (receiver_new_transfer_ok profile id nm mm sz cs total sha Hlim Hh Hs Hm) as [Hmeta Hfill].
  assert (active (new_transfer id nm mm sz cs total sha)) as Ha by (by left).
  destruct (get id s) as [[ref t]|] eqn:Hg.
  - destruct (terminal (status t)) eqn:Hterm; cbn [negb]; [|by apply receiver_output_inv].
    pose proof (receiver_get_inv _ _ _ _ Hinv Hg) as (_ & Ht & _).
    apply offer_new_inv; try done.
    + apply (delete_inv (put ref (release t) s)). apply release_inv; auto.
    + cbn. rewrite map_get_delete. by rewrite decide_True.
  - apply offer_new_inv; try done. cbn. unfold get in Hg.
    destruct (map_get id (transfers s)) as [r|] eqn:Hr; [|done].
    destruct Hinv as (_ & Hget & _). destruct (Hget _ _ Hr) as (u & Hu & _). by rewrite Hu in Hg.
Qed.

Lemma receiver_accept_inv s id : inv s -> inv (accept id s).
Proof.
  intros Hinv. unfold accept. destruct (get id s) as [[ref t]|] eqn:Hg; [|done].
  case_bool_decide as Hst; [|done]. pose proof (receiver_get_inv _ _ _ _ Hinv Hg) as (_ & Ht & _ & Hok & Hf).
  assert (inv (sendApp (file_accept id) (put_emit ref (with_status receiving None t) s))) as H'; [|done].
  apply receiver_output_inv; [|done]. eapply receiver_put_emit_inv; [done|done|done| | | |done].
  - destruct Hok as [Hm [[Hc [Hr|Hr]]|[_ Hfill]]]; [|congruence|].
    + split; [done|]. left. split; [done|by left].
    + split; [done|]. right. split; [by right|done].
  - intros _. by left.
  - intros id' _ _. apply Hf. by left.
Qed.

Lemma accept_resume_inv s ref ok : inv s -> inv (accept_resume ref ok s).
Proof.
  intros Hinv. unfold accept_resume. destruct (objects s !! ref) as [t|] eqn:Ht; [|done].
  destruct ok; [done|]. by apply close_inv.
Qed.

Lemma close_as_inv s why ref t : inv s -> objects s !! ref = Some t -> inv (close_as why ref t s).
Proof. intros. by apply close_inv. Qed.

Lemma reject_inv s id why : inv s -> inv (reject id why s).
Proof.
  intros Hinv. unfold reject. destruct (get id s) as [[ref t]|] eqn:Hg; [|done].
  pose proof (receiver_get_inv _ _ _ _ Hinv Hg) as (_ & Ht & _). by apply receiver_output_inv; [apply close_as_inv|].
Qed.

Lemma receiver_cancel_inv s id why notify : inv s -> inv (cancel id why notify s).
Proof.
  intros Hinv. unfold cancel. destruct (get id s) as [[ref t]|] eqn:Hg; [|done].
  pose proof (receiver_get_inv _ _ _ _ Hinv Hg) as (_ & Ht & _).
  destruct notify; [apply receiver_output_inv; [|done]|]; by apply close_as_inv.
Qed.

Lemma set_chunking_inv s w : inv s -> waiting_ok (objects s) w -> inv (set_chunking w s).
Proof. intros (Hmap & Hget & Hobj & Hact & Hwait & Hlog) Hw. by split_and!. Qed.

(** Storing one more chunk. *)
Definition stored (index : Z) (b : bytes) (t : ReceiveTransfer) : ReceiveTransfer :=
  with_chunks (<[Z.to_nat index := Some b]> (chunks t)) (set_add index (received t)) t.

Lemma stored_filled t index b :
  filled t -> 0 <= index < totalChunks t -> zlength b = expected_bytes t index ->
  expects (fileId t) (fun content c _ => b = chunk_slice content c index) ->
  filled (stored index b t).
Proof.
  intros (Hlen & Hnd & Hrec & Hch) Hi Hb He. unfold filled.
  cbn [stored with_chunks chunks received totalChunks fileId].
  assert (Z.to_nat index < length (chunks t))%nat as Hlt by (unfold zlength in Hlen; lia).
  split_and!.
  - unfold zlength in *. by rewrite length_insert.
  - by apply NoDup_set_add.
  - intros i. rewrite elem_of_set_add, Hrec. destruct (decide (0 <= i)) as [Hi0|]; [|naive_solver lia].
    destruct (decide (i = index)) as [->|Hne].
    + rewrite list_lookup_insert_eq by done. naive_solver.
    + rewrite list_lookup_insert_ne by lia. naive_solver.
  - intros i b' Hi0. destruct (decide (i = index)) as [->|Hne].
    + rewrite list_lookup_insert_eq by done. intros [= <-]. done.
    + rewrite list_lookup_insert_ne by lia. intros Hb'. exact (Hch i b' Hi0 Hb').
Qed.

Lemma chunk_inv s id index total data :
  inv s -> honest (EChunk id index total data) -> inv (chunk id index total data s).
Proof.
  intros Hinv Hh. unfold chunk. destruct (get id s) as [[ref t]|] eqn:Hg; [|done].
  pose proof (receiver_get_inv _ _ _ _ Hinv Hg) as (Hr & Ht & Hid & [Hm _] & Hf).
  case_bool_decide as Hst; cbn [negb]; [|done].
  destruct (negb (total =? totalChunks t) || (index <? 0) || (totalChunks t <=? index)) eqn:Hrange;
    [by apply receiver_output_inv|]. bool_facts.
  destruct (set_has index (received t)) eqn:Hhas; [by apply receiver_output_inv|].
  destruct (decodeChunk data) as [b|e] eqn:Hdec; [|by apply receiver_output_inv].
  destruct (zlength b =? expected_bytes t index) eqn:Hlen; cbn [negb]; [|by apply receiver_output_inv].
  bool_facts. assert (filled t) as Hft by (apply Hf; by right).
  assert (filled (stored index b t)) as Hft'.
  { apply stored_filled; [done|lia|done|]. cbn [honest] in Hh. unfold expects in *.
    destruct sent as [[[[id' content] c] h]|]; [|done]. rewrite Hid. intros ->.
    destruct (Hh eq_refl ltac:(lia)) as [Hwf ->]. unfold decodeChunk, encodeChunk in Hdec.
    rewrite base64Url_roundtrip in Hdec by (by apply Forall_take, Forall_drop).
    by apply Ok_inj in Hdec. }
  change (with_chunks (<[Z.to_nat index := Some b]> (chunks t)) (set_add index (received t)) t)
    with (stored index b t).
  apply set_chunking_inv.
  - apply receiver_output_inv; [|done]. eapply receiver_put_inv; [done|done|done| |done|done|].
    + split; [exact Hm|]. right. split; [by right|done].
    + intros _. cbn. by rewrite Hst.
  - cbn [waiting_ok]. exists (stored index b t). split; [|cbn; by rewrite Hst].
    cbn [sendAck sendApp output objects]. rewrite (receiver_lookup_put s ref t) by done. by rewrite decide_True.
Qed.

Lemma fail_complete_inv s ref t err :
  inv s -> objects s !! ref = Some t -> inv (fail_complete ref t err s).
Proof.
  intros Hinv Ht. pose proof (receiver_inv_obj _ _ _ Hinv Ht) as [Hm _]. unfold fail_complete.
  apply receiver_output_inv; [|done]. eapply receiver_put_emit_inv; [done|done|done| | | |done].
  - split; [exact Hm|]. left. split; [done|by left].
  - by intros [Ha|Ha].
  - by intros id _ [Ha|Ha].
Qed.

Lemma finish_inv s ref t blob :
  inv s -> objects s !! ref = Some t -> chunking s = None -> blob_ok t blob ->
  expects (fileId t) (fun _ _ h =>
    match h with Some hh => hh = [] \/ digestBytes digest blob = hh | None => True end) ->
  inv (finish ref t blob s).
Proof.
  intros Hinv Ht Hc [Hlen Hblob] Hd. pose proof (receiver_inv_obj _ _ _ Hinv Ht) as [Hm _].
  unfold finish. apply receiver_output_inv.
  - eapply receiver_put_emit_inv; [done|done|done| | | |by rewrite Hc].
    + split; [exact Hm|]. left. split; [done|by right].
    + by intros [Ha|Ha].
    + by intros id _ [Ha|Ha].
  - cbn [output_ok]. unfold file_ok. cbn [cf_blob cf_size cf_fileId with_blob with_chunks with_status size fileId].
    destruct Hm as (Hsz & _). split_and!; try (done || lia).
    unfold expects in *. destruct sent as [[[[id' content] c] h]|]; [|done].
    intros Hid. split; [by apply Hblob|by apply Hd].
Qed.

Lemma complete_inv s ref t :
  inv s -> objects s !! ref = Some t -> chunking s = None -> filled t ->
  zlength (received t) = totalChunks t -> inv (complete ref t s).
Proof.
  intros Hinv Ht Hc Hf Hfull. pose proof (receiver_inv_obj _ _ _ Hinv Ht) as [Hm _].
  destruct (filled_blob t Hm Hf Hfull) as (parts & Hp & Hblob). unfold complete. rewrite Hp.
  destruct Hblob as [Hlen Hblob]. rewrite Hlen, Z.eqb_refl. cbn [negb].
  assert (forall h, sha256 t = Some h -> truthy h = false -> expects (fileId t) (fun _ _ h =>
    match h with Some hh => hh = [] \/ digestBytes digest (concatBytes parts) = hh | None => True end)) as Hempty.
  { intros h Hh He. destruct Hm as (_ & _ & _ & Hexp). unfold expects in *.
    destruct sent as [[[[id' content] c] h']|]; [|done]. intros Hid. destruct (Hexp Hid) as (_ & _ & <-).
    rewrite Hh. left. by destruct h. }
  destruct (sha256 t) as [h|] eqn:Hsha.
  - destruct (truthy h) eqn:Htr.
    + apply set_chunking_inv; [done|]. by exists t.
    + apply finish_inv; [done|done|done|done|by apply (Hempty h)].
  - apply finish_inv; [done|done|done|done|]. destruct Hm as (_ & _ & _ & Hexp). unfold expects in *.
    destruct sent as [[[[id' content] c] h']|]; [|done]. intros Hid. destruct (Hexp Hid) as (_ & _ & <-).
    by rewrite Hsha.
Qed.

Lemma chunk_resume_inv s ref :
  inv s -> chunking s = Some (wait_ack ref) -> inv (chunk_resume ref (set_chunking None s)).
Proof.
  intros Hinv Hc. pose proof (set_chunking_inv s None Hinv I) as Hinv'. unfold chunk_resume.
  cbn [set_chunking objects]. destruct (objects s !! ref) as [t|] eqn:Ht; [|done].
  pose proof (not_completed s ref t Hinv Ht Hc) as Hnc.
  assert (inv (emit t (set_chunking None s))) as He by (by apply receiver_output_inv).
  destruct (Z.eqb_spec (zlength (received t)) (totalChunks t)) as [Hfull|]; [|done].
  destruct (receiver_inv_obj _ _ _ Hinv Ht) as [Hm [[_ [Hnil|Hcomp]]|[_ Hf]]].
  - exfalso. destruct Hm as (Hsz & Hcs & Htot & _). rewrite Hnil, Htot in Hfull.
    pose proof (ceil_div_pos (size t) (chunkSize t)). rewrite zlength_nil in Hfull. lia.
  - done.
  - by apply complete_inv.
Qed.

Lemma complete_resume_inv s ref blob :
  inv s -> chunking s = Some (wait_digest ref blob) ->
  inv (complete_resume digest ref blob (set_chunking None s)).
Proof.
  intros Hinv Hc. pose proof (set_chunking_inv s None Hinv I) as Hinv'.
  pose proof Hinv as (_ & _ & _ & _ & Hwait & _). rewrite Hc in Hwait. destruct Hwait as (t & Ht & Hb).
  unfold complete_resume. cbn [set_chunking objects]. rewrite Ht.
  case_bool_decide as Hsha; [|by apply fail_complete_inv].
  apply finish_inv; [done|done|done|done|].
  pose proof (receiver_inv_obj _ _ _ Hinv Ht) as [(_ & _ & _ & Hexp) _]. unfold expects in *.
  destruct sent as [[[[id' content] c] h]|]; [|done]. intros Hid. destruct (Hexp Hid) as (_ & _ & <-).
  rewrite <- Hsha. by right.
Qed.

Lemma notice_inv s id : inv s -> inv (completeNotice id s).
Proof.
  intros Hinv. unfold completeNotice. destruct (get id s) as [[ref t]|] eqn:Hg; [|done].
  pose proof (receiver_get_inv _ _ _ _ Hinv Hg) as (Hr & Ht & _ & Hok & Hf).
  case_bool_decide; [done|]. destruct (negb _); [|done].
  eapply receiver_put_emit_inv; [done|done|done|exact Hok|done|intros; by apply Hf|].
  intros Hc. exact (not_completed s ref t Hinv Ht Hc).
Qed.

Lemma receiver_step_inv profile s s' e :
  maxMemoryReceiveBytes (files profile) <= limit -> inv s -> honest e -> step profile digest e s = Some s' -> inv s'.
Proof.
  intros Hlim Hinv Hh Hs. unfold step in Hs. case_match eqn:Hguard; [done|].
  destruct e; try (injection Hs as <-).
  - by apply receiver_offer_inv.
  - by apply receiver_accept_inv.
  - case_bool_decide; [|done]. injection Hs as <-. by apply accept_resume_inv.
  - by apply reject_inv.
  - by apply receiver_cancel_inv.
  - by apply chunk_inv.
  - destruct (chunking s) as [[ref|ref blob]|] eqn:Hc; [| |done]; injection Hs as <-;
      [by apply chunk_resume_inv|by apply complete_resume_inv].
  - destruct (chunking s) as [[ref|ref blob]|] eqn:Hc; [done| |done]. injection Hs as <-.
    pose proof (set_chunking_inv s None Hinv I) as Hinv'. unfold complete_error.
    destruct (objects (set_chunking None s) !! ref) eqn:Ht; [|done]. by apply fail_complete_inv.
  - by apply notice_inv.
  - by apply receiver_cancel_inv.
  - by apply receiver_remove_inv.
  - by apply receiver_reset_inv.
Qed.

Lemma receiver_initial_inv : inv initial.
Proof.
  unfold inv. cbn. split_and!; try done; apply map_ok_nil.
Qed.

Lemma receiver_run_inv profile es s s' :
  maxMemoryReceiveBytes (files profile) <= limit -> inv s -> Forall honest es -> run profile digest es s = Some s' -> inv s'.
Proof.
  intros Hlim. revert s. induction es as [|e es IH]; intros s Hinv Hh Hrun; cbn [run] in Hrun; [by simplify_eq|].
  apply Forall_cons in Hh as [He Hh]. destruct (step profile digest e s) as [s1|] eqn:Hs; [|done].
  apply (IH s1); try done. by eapply receiver_step_inv.
Qed.
End Invariant.

(** ** Theorems *)

(** Bytes held by the chunks of a transfer. *)
Definition held (t : ReceiveTransfer) : Z :=
  sum_by (fun o : option bytes => match o with Some b => zlength b | None => 0 end) (chunks t).

Lemma sum_by_le {A B} (f : A -> Z) (g : B -> Z) l k :
  Forall2 (fun a b => f a <= g b) l k -> sum_by f l <= sum_by g k.
Proof. induction 1; rewrite ?sum_by_cons; [done|lia]. Qed.

Lemma zlength_join (l : list bytes) : zlength (mjoin l) = sum_by zlength l.
Proof.
  induction l as [|b l IH]; [done|]. rewrite sum_by_cons, <- IH. cbn [mjoin list_join]. apply zlength_app.
Qed.

Lemma filled_held limit sent t : meta_ok limit sent t -> filled sent t -> held t <= size t.
Proof.
  intros (Hsz & Hcs & Htot & _) (Hlen & _ & _ & Hch).
  set (content := replicate (Z.to_nat (size t)) 0).
  assert (zlength content = size t) as Hc by (unfold content, zlength; rewrite length_replicate; lia).
  assert (0 < totalChunks t) as Hpos by (rewrite Htot; apply ceil_div_pos; lia).
  pose proof (ceil_div_spec (size t) (chunkSize t) Hcs) as Hceil. rewrite <- Htot in Hceil.
  pose proof (chunk_slices_join content (chunkSize t) Hcs) as Hjoin. rewrite Hc, <- Htot in Hjoin.
  rewrite <- Hc, <- Hjoin, zlength_join. apply sum_by_le, Forall2_lookup. intros i.
  rewrite list_lookup_fmap. destruct (decide (Z.of_nat i < totalChunks t)) as [Hi|Hi].
  - rewrite lookup_seqZ_lt by lia. cbn [fmap option_fmap option_map].
    destruct (lookup_lt_is_Some_2 (chunks t) i) as [o Ho]; [unfold zlength in Hlen; lia|].
    rewrite Ho. constructor. destruct o as [b|]; [|apply zlength_nonneg].
    destruct (Hch (Z.of_nat i) b) as [-> _]; [lia|by rewrite Nat2Z.id|].
    rewrite length_chunk_slice, Hc by lia. unfold expected_bytes. rewrite Z.add_0_l.
    destruct (Z.eqb_spec (Z.of_nat i) (totalChunks t - 1)); nia.
  - rewrite lookup_seqZ_ge by lia. cbn. rewrite (lookup_ge_None_2 (chunks t)); [constructor|].
    unfold zlength in Hlen. lia.
Qed.

Lemma no_assumption es : Forall (honest None) es.
Proof. apply Forall_true. by intros []. Qed.

(** The invariant through changes of the profile, with the largest limit. *)
Definition max_memory : Z := foldr Z.max 0 ((fun i => maxMemoryReceiveBytes (files (getProfile i))) <$> PROFILE_IDS).

Lemma memory_bounded i : maxMemoryReceiveBytes (files (getProfile i)) <= max_memory.
Proof. destruct i; vm_compute; discriminate. Qed.

Lemma receiver_object_inv digest sent es o o' :
  (exists i, o_profile o = getProfile i) -> inv max_memory digest sent (o_state o) ->
  Forall (honest sent) (methods es) -> object_run digest es o = Some o' -> inv max_memory digest sent (o_state o').
Proof.
  revert o. induction es as [|e es IH]; intros o [i Hi] Hinv Hh H; cbn [object_run] in H; [by apply (inj Some) in H as <-|].
  destruct e as [j|e]; cbn [object_step mbind option_bind] in H.
  - eapply IH; [| |exact Hh|exact H]; [by exists j|done].
  - apply Forall_cons in Hh as [He Hh]. destruct (step _ digest e (o_state o)) as [s|] eqn:Hs; [|done].
    eapply IH; [| |exact Hh|exact H]; [by exists i|]. eapply receiver_step_inv; [|exact Hinv|exact He|exact Hs].
    rewrite Hi. apply memory_bounded.
Qed.

Lemma receiver_object_reachable i digest sent es o :
  object_run digest es (new_object (getProfile i)) = Some o -> Forall (honest sent) (methods es) ->
  inv max_memory digest sent (o_state o).
Proof.
  intros H Hh. eapply receiver_object_inv; [| |exact Hh|exact H]; [by exists i|]. apply receiver_initial_inv.
Qed.

(** A file that is handed to the application is, byte for byte, the file
    the peer cut into chunks, in every run in which the messages about that
    file describe it: whatever the order, the repetitions, the interleaved
    transfers, user actions and resets. *)
Theorem received_file_is_sent profile digest id content c h es s f :
  run profile digest es initial = Some s ->
  Forall (honest (Some (id, content, c, h))) es ->
  RComplete f ∈ log s -> cf_fileId f = id -> cf_blob f = content.
Proof.
  intros Hrun Hh Hf Hid.
  pose proof (receiver_run_inv _ digest _ profile es _ s (Z.le_refl _) (receiver_initial_inv _ digest _) Hh Hrun)
    as (_ & _ & _ & _ & _ & Hlog).
  rewrite Forall_forall in Hlog. apply Hlog in Hf as (_ & _ & Hexp). by apply Hexp.
Qed.

(** Whatever the peer sends, at most one transfer is offered or receiving
    at a time, it holds at most the announced size, which is within the
    memory limit of the profile, and every completed file has exactly its
    announced size. *)
Theorem receiver_bounded profile digest es s :
  run profile digest es initial = Some s ->
  (forall id1 r1 t1 id2 r2 t2, get id1 s = Some (r1, t1) -> active t1 ->
     get id2 s = Some (r2, t2) -> active t2 -> id1 = id2) /\
  (forall id r t, get id s = Some (r, t) -> active t ->
     held t <= size t <= maxMemoryReceiveBytes (files profile)) /\
  (forall f, RComplete f ∈ log s -> zlength (cf_blob f) = cf_size f).
Proof.
  intros Hrun.
  pose proof (receiver_run_inv _ digest _ profile es _ s (Z.le_refl _) (receiver_initial_inv _ digest None)
    (no_assumption es) Hrun) as Hinv.
  split_and!.
  - intros id1 r1 t1 id2 r2 t2 H1 Ha1 H2 Ha2.
    destruct (receiver_get_inv _ _ _ _ _ _ _ Hinv H1) as (Hr1 & Ht1 & _).
    destruct (receiver_get_inv _ _ _ _ _ _ _ Hinv H2) as (Hr2 & Ht2 & _).
    destruct Hinv as (_ & _ & _ & Hact & _). by eapply Hact.
  - intros id r t Hg Ha. destruct (receiver_get_inv _ _ _ _ _ _ _ Hinv Hg) as (_ & _ & _ & [Hm _] & Hf).
    pose proof (filled_held _ _ _ Hm (Hf Ha)). destruct Hm as (? & _). lia.
  - intros f Hf. destruct Hinv as (_ & _ & _ & _ & _ & Hlog). rewrite Forall_forall in Hlog.
    by apply Hlog in Hf as (? & _).
Qed.

(** When the last missing chunk of a transfer without digest arrives, the
    two steps it takes complete the transfer. *)
Theorem last_chunk_completes profile digest es s id ref t index data b :
  run profile digest es initial = Some s -> chunking s = None ->
  get id s = Some (ref, t) -> status t = receiving -> sha256 t = None ->
  0 <= index < totalChunks t -> index ∉ received t ->
  zlength (received t) + 1 = totalChunks t ->
  decodeChunk data = Ok b -> zlength b = expected_bytes t index ->
  exists s' t' f, run profile digest [EChunk id index (totalChunks t) data; EChunkDone] s = Some s' /\
    get id s' = Some (ref, t') /\ status t' = completed /\
    RComplete f ∈ log s' /\ cf_fileId f = id /\ cf_size f = size t /\
    blobUrl t' = Some (cf_blob f).
Proof.
  intros Hrun Hc Hg Hst Hsha Hi Hnew Hcount Hdec Hlen.
  pose proof (receiver_run_inv _ digest _ profile es _ s (Z.le_refl _) (receiver_initial_inv _ digest None)
    (no_assumption es) Hrun) as Hinv.
  destruct (receiver_get_inv _ _ _ _ _ _ _ Hinv Hg) as (Hr & Ht & Hid & [Hm _] & Hf).
  assert (filled None t) as Hft by (apply Hf; by right).
  assert (filled None (stored index b t)) as Hft' by (by apply stored_filled).
  assert (zlength (received (stored index b t)) = totalChunks (stored index b t)) as Hfull.
  { cbn [stored with_chunks received totalChunks]. unfold set_add, set_has.
    rewrite bool_decide_eq_false_2 by done. rewrite zlength_app, <- Hcount. done. }
  destruct (filled_blob _ digest None (stored index b t) Hm Hft' Hfull) as (parts & Hp & Hb & _).
  assert (step profile digest (EChunk id index (totalChunks t) data) s =
    Some (set_chunking (Some (wait_ack ref)) (sendAck id index (put ref (stored index b t) s)))) as Hs1.
  { unfold step. rewrite Hc. cbn [is_inbound andb]. unfold chunk. rewrite Hg, Hst, Hdec, Hlen.
    rewrite !Z.eqb_refl. unfold set_has. rewrite (bool_decide_eq_false_2 (index ∈ _)) by done.
    destruct (Z.ltb_spec index 0), (Z.leb_spec (totalChunks t) index); try lia. done. }
  set (s1 := set_chunking _ _) in Hs1.
  assert (objects s1 !! ref = Some (stored index b t)) as Hobj.
  { change (objects s1) with (objects (put ref (stored index b t) s)).
    rewrite (receiver_lookup_put 0 digest None s ref t) by done. by rewrite decide_True. }
  cbn [run]. rewrite Hs1. unfold step. cbn [is_inbound andb].
  change (chunking s1) with (Some (wait_ack ref)). unfold chunk_resume.
  cbn [set_chunking objects]. rewrite Hobj, Hfull, Z.eqb_refl. unfold complete.
  rewrite Hp, Hb, Z.eqb_refl. cbn [negb]. change (sha256 (stored index b t)) with (sha256 t). rewrite Hsha.
  eexists _, _, _. split; [reflexivity|]. unfold finish, put_emit, emit.
  set (t' := with_blob _ _). split.
  { unfold get. cbn [output put objects transfers set_chunking]. change (transfers s1) with (transfers s).
    rewrite Hr, list_lookup_insert_eq; [done|]. by apply lookup_lt_Some in Hobj. }
  split; [done|]. split; [cbn [output log]; apply elem_of_app; right; by apply list_elem_of_singleton|].
  done.
Qed.

(** ** A cancelled transfer that completes *)

Definition demo_digest (b : bytes) : bytes := [zlength b].

Definition cancel_while_checking : list Event :=
  [EOffer (js "f") (js "a.bin") [] 2 4 1 (Some (js "02")); EAccept (js "f"); EAcceptDone 0 true;
   EChunk (js "f") 0 1 (encodeChunk [7; 8]); EChunkDone; ECancel (js "f") (js "cancelled") true;
   EChunkDone].


(** ** Witnesses *)

Definition receive_two : list Event :=
  [EOffer (js "f") (js "a.bin") [] 3 2 2 None; EAccept (js "f"); EAcceptDone 0 true;
   EChunk (js "f") 1 2 (encodeChunk (chunk_slice [7; 8; 9] 2 1)); EChunkDone].

Definition receive_all : list Event :=
  receive_two ++ [EChunk (js "f") 0 2 (encodeChunk (chunk_slice [7; 8; 9] 2 0)); EChunkDone].

Definition state_after (es : list Event) : FileReceiver :=
  default initial (run profile_balanced demo_digest es initial).

Definition demo_file : CompletedFile := {|
  cf_fileId := js "f"; cf_name := js "a.bin"; cf_mime := js "application/octet-stream";
  cf_size := 3; cf_blob := [7; 8; 9] |}.

Lemma receive_all_honest : Forall (honest (Some (js "f", [7; 8; 9], 2, None))) receive_all.
Proof.
  assert (wf_bytes [7; 8; 9]) by (repeat constructor; unfold is_byte; lia).
  unfold receive_all, receive_two. cbn [app]. repeat (apply Forall_cons; split); try done.
Qed.

Lemma received_file_is_sent_witness : cf_blob demo_file = [7; 8; 9].
Proof.
  apply (received_file_is_sent profile_balanced demo_digest (js "f") [7; 8; 9] 2 None receive_all
           (state_after receive_all)).
  - vm_compute. reflexivity.
  - apply receive_all_honest.
  - apply (list_elem_of_lookup_2 _ 8). vm_compute. reflexivity.
  - reflexivity.
Defined.

Lemma receiver_bounded_witness : zlength (cf_blob demo_file) = cf_size demo_file.
Proof.
  apply (receiver_bounded profile_balanced demo_digest receive_all (state_after receive_all));
    [vm_compute; reflexivity|].
  apply (list_elem_of_lookup_2 _ 8). vm_compute. reflexivity.
Defined.

Definition half_received : ReceiveTransfer :=
  match get (js "f") (state_after receive_two) with
  | Some (_, t) => t
  | None => new_transfer [] [] [] 0 0 0 None
  end.

Lemma last_chunk_completes_witness :
  exists s' t' f, run profile_balanced demo_digest
      [EChunk (js "f") 0 (totalChunks half_received) (encodeChunk [7; 8]); EChunkDone]
      (state_after receive_two) = Some s' /\
    get (js "f") s' = Some (0%nat, t') /\ status t' = completed /\
    RComplete f ∈ log s' /\ cf_fileId f = js "f" /\ cf_size f = size half_received /\
    blobUrl t' = Some (cf_blob f).
Proof.
  apply (last_chunk_completes profile_balanced demo_digest receive_two (state_after receive_two)
           (js "f") 0 half_received 0 (encodeChunk [7; 8]) [7; 8]);
    try (vm_compute; reflexivity).
  - vm_compute. split; [discriminate|reflexivity].
  - apply (bool_decide_eq_false_1 (0 ∈ received half_received)). vm_compute. reflexivity.
Defined.
