(* ===== verification/FileSender.v ===== *)
(** * Sending files: [client/src/features/file/FileSender.ts]

    The window of chunks in flight, retransmission, pausing and the states of
    a transfer.  As for the receiver, transfer objects are shared and live in
    a store; timers are a table of their own, because an entry of [inflight]
    may be replaced while the timer it named stays armed.  Methods are cut at
    the awaits after which they still touch the state: the digest of the
    offer, the answer to the offer, the read of a chunk, its hand-over to the
    transport, and the final notice. *)
From S2P Require Import Prelude JsMap Bytes Profiles Messages FileProtocol.

Module Sender.

Inductive SenderStatus := queued | offered | sending | paused_ | completed | cancelled_ | failed.

#[export] Instance SenderStatus_eq_dec : EqDecision SenderStatus.
Proof. solve_decision. Defined.

Definition terminal (s : SenderStatus) : bool :=
  match s with completed | cancelled_ | failed => true | _ => false end.

Inductive ChunkState := chunk_sending | waiting_ack | retry_wait.

#[export] Instance ChunkState_eq_dec : EqDecision ChunkState.
Proof. solve_decision. Defined.

Record InflightChunk := { attempts : Z; state : ChunkState; timer : option nat }.

Record Transfer := {
  file : File;
  fileId : jstr;
  name : jstr;
  mime : jstr;
  size : Z;
  chunkSize : Z;
  totalChunks : Z;
  sha256 : option jstr;
  status : SenderStatus;
  accepted : bool;
  paused : bool;
  cancelled : bool;
  pumping : bool;
  nextIndex : Z;
  acked : list Z;
  inflight : jsmap Z InflightChunk;
  reason : option jstr;
}.

(** What a timer does: both kinds re-enter with a number of attempts. *)
Inductive TimerAction :=
| ack_timeout (ref : nat) (index nextAttempts : Z)      (* scheduleRetry, missing ACK *)
| retry_timeout (ref : nat) (index nextAttempts : Z).   (* sendChunk *)

(** Calls inside an await. *)
Inductive Waiting :=
| wait_digest (t : Transfer) (was_queued : bool)
| wait_offer (ref : nat)
| wait_read (ref : nat) (index n : Z)
| wait_send (ref : nat) (index n : Z)
| wait_complete (ref : nat).

Record SenderSnapshot := {
  ss_fileId : jstr; ss_name : jstr; ss_size : Z; ss_sentBytes : Z; ss_status : SenderStatus;
  ss_reason : option jstr; ss_acked : Z; ss_total : Z }.

Inductive Output :=
| SSend (message : CoreAppMessage) (lane : LaneName)
| SUpdate (snapshot : SenderSnapshot).

Record FileSender := {
  objects : list Transfer;
  transfers : jsmap jstr nat;
  globalPaused : bool;
  timers : jsmap nat TimerAction;
  nextTimer : nat;
  waiting : list Waiting;
  log : list Output;
}.

Definition initial : FileSender :=
  {| objects := []; transfers := []; globalPaused := false; timers := []; nextTimer := 0;
     waiting := []; log := [] |}.

(** ** Field updates *)

Definition upd_status (st : SenderStatus) (why : option jstr) (t : Transfer) : Transfer :=
  {| file := file t; fileId := fileId t; name := name t; mime := mime t; size := size t;
     chunkSize := chunkSize t; totalChunks := totalChunks t; sha256 := sha256 t; status := st;
     accepted := accepted t; paused := paused t; cancelled := cancelled t; pumping := pumping t;
     nextIndex := nextIndex t; acked := acked t; inflight := inflight t; reason := why |}.

Definition upd_flags (a p c : bool) (t : Transfer) : Transfer :=
  {| file := file t; fileId := fileId t; name := name t; mime := mime t; size := size t;
     chunkSize := chunkSize t; totalChunks := totalChunks t; sha256 := sha256 t; status := status t;
     accepted := a; paused := p; cancelled := c; pumping := pumping t;
     nextIndex := nextIndex t; acked := acked t; inflight := inflight t; reason := reason t |}.

Definition upd_pumping (b : bool) (t : Transfer) : Transfer :=
  {| file := file t; fileId := fileId t; name := name t; mime := mime t; size := size t;
     chunkSize := chunkSize t; totalChunks := totalChunks t; sha256 := sha256 t; status := status t;
     accepted := accepted t; paused := paused t; cancelled := cancelled t; pumping := b;
     nextIndex := nextIndex t; acked := acked t; inflight := inflight t; reason := reason t |}.

Definition upd_window (next : Z) (a : list Z) (m : jsmap Z InflightChunk) (t : Transfer) : Transfer :=
  {| file := file t; fileId := fileId t; name := name t; mime := mime t; size := size t;
     chunkSize := chunkSize t; totalChunks := totalChunks t; sha256 := sha256 t; status := status t;
     accepted := accepted t; paused := paused t; cancelled := cancelled t; pumping := pumping t;
     nextIndex := next; acked := a; inflight := m; reason := reason t |}.

Definition upd_inflight (m : jsmap Z InflightChunk) (t : Transfer) : Transfer :=
  upd_window (nextIndex t) (acked t) m t.

Definition upd_sha (h : option jstr) (t : Transfer) : Transfer :=
  {| file := file t; fileId := fileId t; name := name t; mime := mime t; size := size t;
     chunkSize := chunkSize t; totalChunks := totalChunks t; sha256 := h; status := status t;
     accepted := accepted t; paused := paused t; cancelled := cancelled t; pumping := pumping t;
     nextIndex := nextIndex t; acked := acked t; inflight := inflight t; reason := reason t |}.

Definition upd_reason (why : option jstr) (t : Transfer) : Transfer := upd_status (status t) why t.

Definition put (ref : nat) (t : Transfer) (s : FileSender) : FileSender :=
  {| objects := <[ref := t]> (objects s); transfers := transfers s; globalPaused := globalPaused s;
     timers := timers s; nextTimer := nextTimer s; waiting := waiting s; log := log s |}.

Definition add (t : Transfer) (s : FileSender) : FileSender :=
  {| objects := objects s ++ [t]; transfers := map_set (fileId t) (length (objects s)) (transfers s);
     globalPaused := globalPaused s; timers := timers s; nextTimer := nextTimer s;
     waiting := waiting s; log := log s |}.

Definition set_transfers (m : jsmap jstr nat) (s : FileSender) : FileSender :=
  {| objects := objects s; transfers := m; globalPaused := globalPaused s;
     timers := timers s; nextTimer := nextTimer s; waiting := waiting s; log := log s |}.

Definition set_global (b : bool) (s : FileSender) : FileSender :=
  {| objects := objects s; transfers := transfers s; globalPaused := b;
     timers := timers s; nextTimer := nextTimer s; waiting := waiting s; log := log s |}.

Definition output (o : Output) (s : FileSender) : FileSender :=
  {| objects := objects s; transfers := transfers s; globalPaused := globalPaused s;
     timers := timers s; nextTimer := nextTimer s; waiting := waiting s; log := log s ++ [o] |}.

Definition wait (w : Waiting) (s : FileSender) : FileSender :=
  {| objects := objects s; transfers := transfers s; globalPaused := globalPaused s;
     timers := timers s; nextTimer := nextTimer s; waiting := waiting s ++ [w]; log := log s |}.

Definition set_waiting (l : list Waiting) (s : FileSender) : FileSender :=
  {| objects := objects s; transfers := transfers s; globalPaused := globalPaused s;
     timers := timers s; nextTimer := nextTimer s; waiting := l; log := log s |}.

(** [setTimeout] and [clearTimeout]. *)
Definition setTimeout (a : TimerAction) (s : FileSender) : FileSender * nat :=
  ({| objects := objects s; transfers := transfers s; globalPaused := globalPaused s;
      timers := timers s ++ [(nextTimer s, a)]; nextTimer := S (nextTimer s);
      waiting := waiting s; log := log s |}, nextTimer s).

Definition clearTimeout (id : option nat) (s : FileSender) : FileSender :=
  match id with
  | None => s
  | Some i =>
      {| objects := objects s; transfers := transfers s; globalPaused := globalPaused s;
         timers := map_delete i (timers s); nextTimer := nextTimer s; waiting := waiting s;
         log := log s |}
  end.

Definition emit (t : Transfer) (s : FileSender) : FileSender :=
  output (SUpdate {|
    ss_fileId := fileId t; ss_name := name t; ss_size := size t;
    ss_sentBytes := Z.min (size t) (zlength (acked t) * chunkSize t);
    ss_status := status t; ss_reason := reason t; ss_acked := zlength (acked t);
    ss_total := totalChunks t |}) s.

Definition put_emit (ref : nat) (t : Transfer) (s : FileSender) : FileSender := emit t (put ref t s).

Definition get (id : jstr) (s : FileSender) : option (nat * Transfer) :=
  match map_get id (transfers s) with
  | Some ref => match objects s !! ref with Some t => Some (ref, t) | None => None end
  | None => None
  end.

(** Act on the object of a reference. *)
Definition on (ref : nat) (s : FileSender) (f : Transfer -> FileSender) : FileSender :=
  match objects s !! ref with Some t => f t | None => s end.

Section Methods.
Context (profile : TransportProfile) (digest : bytes -> bytes).

Definition sendApp (m : CoreAppMessage) (lane : LaneName) (s : FileSender) : FileSender :=
  output (SSend m lane) s.

(** [clearInflightTimer(transfer.inflight.get(index))]. *)
Definition clearInflightTimer (item : option InflightChunk) (s : FileSender) : FileSender :=
  clearTimeout (match item with Some i => timer i | None => None end) s.

Definition clear_all (m : jsmap Z InflightChunk) (s : FileSender) : FileSender :=
  foldl (fun s item => clearInflightTimer (Some item) s) s (map_values m).

Definition clearTimers (ref : nat) (t : Transfer) (s : FileSender) : FileSender * Transfer :=
  (clear_all (inflight t) s, upd_inflight [] t).

Definition fail (ref : nat) (why : jstr) (s : FileSender) : FileSender :=
  on ref s (fun t =>
    let t := upd_flags (accepted t) (paused t) true (upd_status failed (Some why) t) in
    let '(s, t) := clearTimers ref t s in
    put_emit ref t s).

Definition failAndNotify (ref : nat) (why : jstr) (s : FileSender) : FileSender :=
  let s := fail ref why s in
  on ref s (fun t => sendApp (file_cancel (fileId t) (js "transfer failed")) Lane.control s).

Definition retry_limit (index : Z) : jstr :=
  js "Chunk " ++ js_int (index + 1) ++ js " failed after retry limit".

(** [sendChunk] up to the read of the chunk. *)
Definition sendChunk (ref : nat) (index n : Z) (s : FileSender) : FileSender :=
  on ref s (fun t =>
    if cancelled t || set_has index (acked t) then s
    else if paused t || globalPaused s then
      put ref (upd_inflight (map_set index {| attempts := n; state := retry_wait; timer := None |}
                               (inflight t)) t) s
    else if maxRetries (files profile) + 1 <? n then failAndNotify ref (retry_limit index) s
    else
      let s := clearInflightTimer (map_get index (inflight t)) s in
      let t := upd_inflight (map_set index {| attempts := n; state := chunk_sending; timer := None |}
                               (inflight t)) t in
      let t := upd_reason (if 1 <? n then Some (js "Retrying chunk " ++ js_int (index + 1)) else None) t in
      wait (wait_read ref index n) (put_emit ref t s)).

Definition retry_delay (nextAttempts : Z) : Z :=
  Z.min 5000 (400 * 2 ^ Z.min 4 (Z.max 0 (nextAttempts - 2))).

Definition scheduleRetry (ref : nat) (index nextAttempts : Z) (why : jstr) (s : FileSender)
  : FileSender :=
  on ref s (fun t =>
    if cancelled t || set_has index (acked t) then s
    else
      let s := clearInflightTimer (map_get index (inflight t)) s in
      if maxRetries (files profile) + 1 <? nextAttempts
      then failAndNotify ref (retry_limit index) s
      else
        let '(s, tm) := if paused t || globalPaused s then (s, None)
                        else let '(s, i) := setTimeout (retry_timeout ref index nextAttempts) s in
                             (s, Some i) in
        put_emit ref (upd_reason (Some why)
          (upd_inflight (map_set index {| attempts := nextAttempts - 1; state := retry_wait;
                                          timer := tm |} (inflight t)) t)) s).

(** [sendChunk] once the slice was read: the message goes out whatever
    happened to the transfer meanwhile. *)
Definition read_done (ref : nat) (index n : Z) (s : FileSender) : FileSender :=
  on ref s (fun t =>
    wait (wait_send ref index n)
      (sendApp (file_chunk (fileId t) index (totalChunks t)
                  (encodeChunk (chunk_slice (file_content (file t)) (chunkSize t) index)))
         Lane.file s)).

Definition read_error (ref : nat) (index n : Z) (err : jstr) (s : FileSender) : FileSender :=
  scheduleRetry ref index (n + 1) err s.

(** [sendChunk] once the transport answered. *)
Definition send_done (ref : nat) (index n : Z) (ok : bool) (s : FileSender) : FileSender :=
  if negb ok then scheduleRetry ref index (n + 1) (js "Retrying after browser backpressure") s
  else
    on ref s (fun t =>
      if cancelled t || set_has index (acked t) then s
      else
        let '(s, i) := setTimeout (ack_timeout ref index (n + 1)) s in
        put_emit ref (upd_reason None
          (upd_inflight (map_set index {| attempts := n; state := waiting_ack; timer := Some i |}
                           (inflight t)) t)) s).

(** [completeIfDone] with the [finally] of [pump].  When there is nothing to
    send the await of [pump] ends within the same task, before any other
    event; otherwise [pumping] stays set until the notice was handed over. *)
Definition completeIfDone (ref : nat) (s : FileSender) : FileSender :=
  on ref s (fun t =>
    if cancelled t then put ref (upd_pumping false t) s
    else if (nextIndex t <? totalChunks t) || (0 <? zlength (inflight t)) ||
            (zlength (acked t) <? totalChunks t)
    then put ref (upd_pumping false t) s
    else
      let t := upd_status completed None t in
      wait (wait_complete ref)
        (sendApp (file_complete (fileId t) (sha256 t)) Lane.control (put_emit ref t s))).

(** The [while] loop of [pump]; each turn starts one chunk. *)
Fixpoint pump_loop (fuel : nat) (ref : nat) (s : FileSender) : FileSender :=
  match fuel with
  | O => s
  | S fuel' =>
      on ref s (fun t =>
        if negb (cancelled t) && negb (paused t) && negb (globalPaused s) &&
           (zlength (inflight t) <? windowChunks (files profile)) && (nextIndex t <? totalChunks t)
        then
          let index := nextIndex t in
          let s := put ref (upd_window (index + 1) (acked t) (inflight t) t) s in
          pump_loop fuel' ref (sendChunk ref index 1 s)
        else s)
  end.

Definition pump (ref : nat) (s : FileSender) : FileSender :=
  on ref s (fun t =>
    if pumping t then s
    else if cancelled t || negb (accepted t) || paused t || globalPaused s ||
            negb (bool_decide (status t = sending))
    then s
    else
      let s := put ref (upd_pumping true t) s in
      completeIfDone ref (pump_loop (Z.to_nat (totalChunks t - nextIndex t)) ref s)).

(** [holdOutstanding]: the loop only replaces the entries it visits. *)
Definition hold_item (item : InflightChunk) : InflightChunk :=
  {| attempts := attempts item; state := retry_wait; timer := None |}.

Definition holdOutstanding (t : Transfer) (s : FileSender) : FileSender * Transfer :=
  (clear_all (inflight t) s, upd_inflight (prod_map id hold_item <$> inflight t) t).

Definition resume_item (ref : nat) (s : FileSender) (entry : Z * InflightChunk) : FileSender :=
  let '(index, item) := entry in
  if bool_decide (state item = retry_wait) && bool_decide (timer item = None)
  then sendChunk ref index (attempts item + 1) s else s.

Definition resumeOutstanding (ref : nat) (s : FileSender) : FileSender :=
  on ref s (fun t =>
    if cancelled t || paused t || globalPaused s then s
    else pump ref (foldl (resume_item ref) s (inflight t))).

(** ** Public methods *)

Definition sendOffer (ref : nat) (s : FileSender) : FileSender :=
  on ref s (fun t =>
    wait (wait_offer ref)
      (sendApp (file_offer (fileId t) (name t) (mime t) (size t) (chunkSize t) (totalChunks t) (sha256 t))
         Lane.control s)).

Definition offer_done (ref : nat) (ok : bool) (s : FileSender) : FileSender :=
  if ok then s else fail ref (js "Could not send file offer") s.

Definition new_transfer (id : jstr) (f : File) (q : bool) : Transfer :=
  let cs := chunkBytes (files profile) in
  {| file := f; fileId := id; name := validateFilename (file_name f);
     mime := if truthy (file_type f) then file_type f else js "application/octet-stream";
     size := file_size f; chunkSize := cs; totalChunks := ceil_div (file_size f) cs; sha256 := None;
     status := if q then queued else offered; accepted := false; paused := q; cancelled := false;
     pumping := false; nextIndex := 0; acked := []; inflight := [];
     reason := Some (if q then js "Waiting for earlier work" else js "Waiting for peer acceptance") |}.

(** [offer] after the digest, if there is one. *)
Definition offer_insert (t : Transfer) (q : bool) (s : FileSender) : FileSender :=
  let ref := length (objects s) in
  let s := emit t (add t s) in
  if q then s else sendOffer ref s.

(** [offer] up to the digest; [id] is what [makeId] returns. *)
Definition offer (id : jstr) (f : File) (q : bool) (s : FileSender) : result FileSender :=
  let! _ := validateOutboundFile f profile in
  let t := new_transfer id f q in
  Ok (if file_size f <=? smallBytes (files profile) then wait (wait_digest t q) s
      else offer_insert t q s).

(** A failed digest leaves the field undefined. *)
Definition digest_done (t : Transfer) (q readable : bool) (s : FileSender) : FileSender :=
  offer_insert
    (upd_sha (if readable then Some (digestBytes digest (file_content (file t))) else None) t) q s.

Definition startQueued (id : jstr) (s : FileSender) : FileSender :=
  match get id s with
  | Some (ref, t) =>
      if cancelled t || negb (bool_decide (status t = queued)) then s
      else
        let t := upd_flags (accepted t) false (cancelled t)
                   (upd_status offered (Some (js "Waiting for peer acceptance")) t) in
        sendOffer ref (put_emit ref t s)
  | None => s
  end.

Definition accept (id : jstr) (s : FileSender) : FileSender :=
  match get id s with
  | Some (ref, t) =>
      if cancelled t then s
      else
        let g := globalPaused s in
        let t := upd_flags true g (cancelled t)
                   (upd_status (if g then paused_ else sending)
                      (if g then Some (js "Paused during voice") else None) t) in
        pump ref (put_emit ref t s)
  | None => s
  end.

Definition ack (id : jstr) (index : Z) (s : FileSender) : FileSender :=
  match get id s with
  | Some (ref, t) =>
      if cancelled t || (index <? 0) || (totalChunks t <=? index) then s
      else
        match map_get index (inflight t) with
        | None => s
        | Some item =>
            let s := clearInflightTimer (Some item) s in
            let t := upd_reason None
              (upd_window (nextIndex t) (set_add index (acked t)) (map_delete index (inflight t)) t) in
            pump ref (put_emit ref t s)
        end
  | None => s
  end.

Definition nack (id : jstr) (index : Z) (why : jstr) (s : FileSender) : FileSender :=
  match get id s with
  | Some (ref, t) =>
      if cancelled t || (index <? 0) || (totalChunks t <=? index) then s
      else
        match map_get index (inflight t) with
        | None => s
        | Some item => scheduleRetry ref index (attempts item + 1) why s
        end
  | None => s
  end.

Definition pause (id why : jstr) (s : FileSender) : FileSender :=
  match get id s with
  | Some (ref, t) =>
      if terminal (status t) then s
      else
        let t := upd_flags (accepted t) true (cancelled t) (upd_status paused_ (Some why) t) in
        let '(s, t) := holdOutstanding t s in
        put_emit ref t s
  | None => s
  end.

Definition resume (id : jstr) (s : FileSender) : FileSender :=
  match get id s with
  | Some (ref, t) =>
      if negb (bool_decide (status t = paused_)) then s
      else
        let t := upd_flags (accepted t) false (cancelled t)
          (upd_status (if accepted t then sending else offered)
             (if accepted t then None else Some (js "Waiting for peer acceptance")) t) in
        resumeOutstanding ref (put_emit ref t s)
  | None => s
  end.

Definition cancel (id why : jstr) (notify : bool) (s : FileSender) : FileSender :=
  match get id s with
  | Some (ref, t) =>
      let t := upd_flags (accepted t) (paused t) true (upd_status cancelled_ (Some why) t) in
      let '(s, t) := clearTimers ref t s in
      let s := put_emit ref t s in
      if notify then sendApp (file_cancel id why) Lane.control s else s
  | None => s
  end.

Definition global_item (b : bool) (why : jstr) (s : FileSender) (ref : nat) : FileSender :=
  on ref s (fun t =>
    if bool_decide (status t = sending) || bool_decide (status t = paused_) then
      let t := upd_flags (accepted t) b (cancelled t)
                 (upd_status (if b then paused_ else sending) (if b then Some why else None) t) in
      let '(s, t) := if b then holdOutstanding t s else (s, t) in
      let s := put_emit ref t s in
      if b then s else resumeOutstanding ref s
    else s).

Definition setGlobalPaused (b : bool) (why : jstr) (s : FileSender) : FileSender :=
  foldl (global_item b why) (set_global b s) (map_values (transfers s)).

Definition reset_item (s : FileSender) (ref : nat) : FileSender :=
  on ref s (fun t => let '(s, t) := clearTimers ref t s in put ref t s).

Definition reset (s : FileSender) : FileSender :=
  set_global false (set_transfers [] (foldl reset_item s (map_values (transfers s)))).

Definition remove (id : jstr) (s : FileSender) : FileSender :=
  match get id s with
  | Some (ref, t) =>
      if terminal (status t) then
        let '(s, t) := clearTimers ref t s in
        set_transfers (map_delete id (transfers s)) (put ref t s)
      else s
  | None => s
  end.

Definition activeCount (s : FileSender) : Z :=
  sum_by (fun ref => match objects s !! ref with
                     | Some t => if terminal (status t) then 0 else 1
                     | None => 0
                     end) (map_values (transfers s)).

(** ** Steps *)

Inductive Event :=
| EOffer (id : jstr) (f : File) (q : bool)
| EStartQueued (id : jstr)
| EAccept (id : jstr)
| EAck (id : jstr) (index : Z)
| ENack (id : jstr) (index : Z) (why : jstr)
| EPause (id why : jstr)
| EResume (id : jstr)
| ECancel (id why : jstr) (notify : bool)
| EGlobalPaused (b : bool) (why : jstr)
| ERemove (id : jstr)
| EReset
| EDone (i : nat) (ok : bool) (err : jstr)    (* the i-th waiting call goes on *)
| ETimer (id : nat).

(** A waiting call goes on: [ok] is the answer, or that the read worked. *)
Definition goes_on (w : Waiting) (ok : bool) (err : jstr) (s : FileSender) : FileSender :=
  match w with
  | wait_digest t q => digest_done t q ok s
  | wait_offer ref => offer_done ref ok s
  | wait_read ref index n => if ok then read_done ref index n s else read_error ref index n err s
  | wait_send ref index n => send_done ref index n ok s
  | wait_complete ref => on ref s (fun t => put ref (upd_pumping false t) s)
  end.

Definition fires (a : TimerAction) (s : FileSender) : FileSender :=
  match a with
  | ack_timeout ref index n => scheduleRetry ref index n (js "Retrying after missing ACK") s
  | retry_timeout ref index n => sendChunk ref index n s
  end.

(** [makeId] returns an id that no transfer has. *)
Definition fresh_id (id : jstr) (s : FileSender) : bool :=
  forallb (fun t => negb (bool_decide (fileId t = id))) (objects s) &&
  forallb (fun w => match w with wait_digest t _ => negb (bool_decide (fileId t = id)) | _ => true end)
    (waiting s).

Definition step (e : Event) (s : FileSender) : option FileSender :=
  match e with
  | EOffer id f q =>
      if fresh_id id s then
        match offer id f q s with Ok s' => Some s' | Throw _ => Some s end
      else None
  | EStartQueued id => Some (startQueued id s)
  | EAccept id => Some (accept id s)
  | EAck id index => Some (ack id index s)
  | ENack id index why => Some (nack id index why s)
  | EPause id why => Some (pause id why s)
  | EResume id => Some (resume id s)
  | ECancel id why notify => Some (cancel id why notify s)
  | EGlobalPaused b why => Some (setGlobalPaused b why s)
  | ERemove id => Some (remove id s)
  | EReset => Some (reset s)
  | EDone i ok err =>
      match waiting s !! i with
      | Some w => Some (goes_on w ok err (set_waiting (delete i (waiting s)) s))
      | None => None
      end
  | ETimer id =>
      match map_get id (timers s) with
      | Some a => Some (fires a (clearTimeout (Some id) s))
      | None => None
      end
  end.

Fixpoint run (es : list Event) (s : FileSender) : option FileSender :=
  match es with
  | [] => Some s
  | e :: es' => match step e s with Some s' => run es' s' | None => None end
  end.
End Methods.

(** The object with its profile, which [setProfile] may replace at any time.
    The controller only passes the profiles of the table. *)
Record Object := { o_profile : TransportProfile; o_state : FileSender }.

Definition setProfile (p : TransportProfile) (o : Object) : Object := {| o_profile := p; o_state := o_state o |}.

Definition new_object (p : TransportProfile) : Object := {| o_profile := p; o_state := initial |}.

Inductive ObjectEvent := ESetProfile (i : TransportProfileId) | EMethod (e : Event).

Definition object_step (digest : bytes -> bytes) (e : ObjectEvent) (o : Object) : option Object :=
  match e with
  | ESetProfile i => Some (setProfile (getProfile i) o)
  | EMethod e => s ← step (o_profile o) digest e (o_state o); Some {| o_profile := o_profile o; o_state := s |}
  end.

Fixpoint object_run (digest : bytes -> bytes) (es : list ObjectEvent) (o : Object) : option Object :=
  match es with
  | [] => Some o
  | e :: es' => o' ← object_step digest e o; object_run digest es' o'
  end.
End Sender.
