(* ===== verification/FileSenderProps.v ===== *)
(** * Properties of the file sender

    The window invariant, what the sender puts on the wire, when a transfer
    is complete, and what a reset leaves running. *)
From S2P Require Import Prelude JsMap Bytes Profiles Messages FileProtocol FileSender.
Import Sender.

Section Invariant.
Context (profile : TransportProfile) (digest : bytes -> bytes) (window : Z).
Context (chunk_pos : 0 < chunkBytes (files profile)) (window_pos : 0 <= windowChunks (files profile))
  (retries_pos : 0 <= maxRetries (files profile)) (window_le : windowChunks (files profile) <= window).
#[local] Set Default Proof Using "All".

(** ** Objects *)

Definition meta_ok (t : Transfer) : Prop :=
  size t = zlength (file_content (file t)) /\ 0 < size t /\
  0 < chunkSize t /\ totalChunks t = ceil_div (size t) (chunkSize t).

(** Indices below [nextIndex] were started; a started chunk is in at most
    one of [acked] and [inflight]. *)
Definition win_ok (t : Transfer) : Prop :=
  0 <= nextIndex t <= totalChunks t /\ NoDup (acked t) /\ map_ok (inflight t) /\
  (forall i, i ∈ acked t -> 0 <= i < nextIndex t) /\
  (forall i, i ∈ map_keys (inflight t) -> 0 <= i < nextIndex t /\ i ∉ acked t).

Definition obj_ok (t : Transfer) : Prop :=
  meta_ok t /\ win_ok t /\ (status t = completed -> zlength (acked t) = totalChunks t).

(** A transfer the sender still looks after: every started chunk is
    acknowledged or in flight, and the window is respected. *)
Definition covered (t : Transfer) : Prop :=
  (forall i, 0 <= i < nextIndex t -> i ∈ acked t \/ i ∈ map_keys (inflight t)) /\
  zlength (inflight t) <= window.

(** What the operations may do to an object. *)
Definition evolve (t t' : Transfer) : Prop :=
  file t' = file t /\ fileId t' = fileId t /\ name t' = name t /\ mime t' = mime t /\
  size t' = size t /\ chunkSize t' = chunkSize t /\ totalChunks t' = totalChunks t /\
  sha256 t' = sha256 t /\ nextIndex t <= nextIndex t' /\ acked t ⊆ acked t'.

#[global] Instance evolve_preorder : PreOrder evolve.
Proof.
  split.
  - intros t. by repeat split.
  - intros t1 t2 t3 (? & ? & ? & ? & ? & ? & ? & ? & ? & ?) (? & ? & ? & ? & ? & ? & ? & ? & ? & ?).
    unfold evolve. split_and!; try congruence; [lia|set_solver].
Qed.

Definition known (objs : list Transfer) (ref : nat) (P : Transfer -> Prop) : Prop :=
  exists t, objs !! ref = Some t /\ P t.

Definition started (index : Z) (t : Transfer) : Prop := 0 <= index < nextIndex t.

Definition wait_ok (objs : list Transfer) (w : Waiting) : Prop :=
  match w with
  | wait_digest t _ => obj_ok t /\ covered t /\ cancelled t = false
  | wait_offer ref | wait_complete ref => known objs ref (fun _ => True)
  | wait_read ref index _ | wait_send ref index _ => known objs ref (started index)
  end.

Definition timer_ok (objs : list Transfer) (p : nat * TimerAction) : Prop :=
  match p.2 with
  | ack_timeout ref index _ | retry_timeout ref index _ => known objs ref (started index)
  end.

(** What a message on the wire says of its transfer. *)
Definition says (m : CoreAppMessage) (lane : LaneName) (t : Transfer) : Prop :=
  match m with
  | file_offer id nm mm sz cs total sha =>
      lane = Lane.control /\ id = fileId t /\ nm = name t /\ mm = mime t /\ sz = size t /\
      cs = chunkSize t /\ total = totalChunks t /\ sha = sha256 t
  | file_chunk id index total data =>
      lane = Lane.file /\ id = fileId t /\ total = totalChunks t /\ started index t /\
      data = encodeChunk (chunk_slice (file_content (file t)) (chunkSize t) index)
  | file_complete id sha =>
      lane = Lane.control /\ id = fileId t /\ sha = sha256 t /\
      (forall i, 0 <= i < totalChunks t -> i ∈ acked t)
  | file_cancel id _ => lane = Lane.control /\ id = fileId t
  | _ => False
  end.

Definition output_ok (objs : list Transfer) (o : Output) : Prop :=
  match o with
  | SSend m lane => exists ref, known objs ref (says m lane)
  | SUpdate _ => True
  end.

Definition digest_id (w : Waiting) : option jstr :=
  match w with wait_digest t _ => Some (fileId t) | _ => None end.

Definition ids (s : FileSender) : list jstr :=
  (fileId <$> objects s) ++ omap digest_id (waiting s).

Definition inv (s : FileSender) : Prop :=
  NoDup (ids s) /\
  map_ok (transfers s) /\
  (forall id ref, map_get id (transfers s) = Some ref ->
     known (objects s) ref (fun t => fileId t = id /\ (cancelled t = false -> covered t))) /\
  Forall obj_ok (objects s) /\
  Forall (wait_ok (objects s)) (waiting s) /\
  Forall (timer_ok (objects s)) (timers s) /\
  Forall (output_ok (objects s)) (log s).

(** ** Growth of the store *)

Definition ext (objs objs' : list Transfer) : Prop :=
  forall ref t, objs !! ref = Some t -> exists t', objs' !! ref = Some t' /\ evolve t t'.

#[global] Instance ext_preorder : PreOrder ext.
Proof.
  split.
  - intros objs ref t Ht. by exists t.
  - intros o1 o2 o3 H12 H23 ref t Ht. destruct (H12 _ _ Ht) as (t2 & H2 & E12).
    destruct (H23 _ _ H2) as (t3 & H3 & E23). exists t3. split; [done|]. by transitivity t2.
Qed.

Lemma known_ext objs objs' ref (P : Transfer -> Prop) :
  (forall t t', evolve t t' -> P t -> P t') -> ext objs objs' -> known objs ref P -> known objs' ref P.
Proof. intros HP He (t & Ht & Hp). destruct (He _ _ Ht) as (t' & Ht' & Hev). exists t'. eauto. Qed.

Lemma started_evolve index t t' : evolve t t' -> started index t -> started index t'.
Proof. intros (_ & _ & _ & _ & _ & _ & _ & _ & ? & _). unfold started. lia. Qed.

Lemma says_evolve m lane t t' : evolve t t' -> says m lane t -> says m lane t'.
Proof.
  intros Hev Hs. pose proof (fun i => started_evolve i t t' Hev) as Hst.
  destruct Hev as (Hf & Hid & Hn & Hm & Hsz & Hc & Ht & Hh & _ & Ha).
  destruct m; cbn [says] in *; rewrite ?Hf, ?Hid, ?Hn, ?Hm, ?Hsz, ?Hc, ?Ht, ?Hh; naive_solver.
Qed.

Lemma wait_ok_ext objs objs' w : ext objs objs' -> wait_ok objs w -> wait_ok objs' w.
Proof.
  intros He. destruct w; cbn [wait_ok]; try done; apply known_ext; try done; apply started_evolve.
Qed.

Lemma timer_ok_ext objs objs' p : ext objs objs' -> timer_ok objs p -> timer_ok objs' p.
Proof. intros He. unfold timer_ok. case_match; apply known_ext; try done; apply started_evolve. Qed.

Lemma output_ok_ext objs objs' o : ext objs objs' -> output_ok objs o -> output_ok objs' o.
Proof.
  intros He. destruct o; [|done]. intros [ref Hk]. exists ref. revert Hk. apply known_ext; [|done].
  apply says_evolve.
Qed.

Lemma sender_lookup_put s ref t t' r :
  objects s !! ref = Some t ->
  objects (put ref t' s) !! r = if decide (r = ref) then Some t' else objects s !! r.
Proof.
  intros Ht. cbn [put objects]. apply lookup_lt_Some in Ht as Hlt.
  destruct (decide (r = ref)) as [->|Hne]; [by apply list_lookup_insert_eq|by apply list_lookup_insert_ne].
Qed.

Lemma put_ext s ref t t' :
  objects s !! ref = Some t -> evolve t t' -> ext (objects s) (objects (put ref t' s)).
Proof.
  intros Ht Hev r u Hu. rewrite (sender_lookup_put s ref t) by done.
  destruct (decide (r = ref)) as [->|]; [simplify_eq; by exists t'|by exists u].
Qed.

(** ** Updating one object *)
Lemma sender_put_inv s ref t t' :
  inv s -> objects s !! ref = Some t -> evolve t t' -> obj_ok t' ->
  (forall id, map_get id (transfers s) = Some ref -> cancelled t' = false ->
     (cancelled t = false -> covered t) -> covered t') ->
  inv (put ref t' s).
Proof.
  intros (Hids & Hmap & Hget & Hobj & Hwait & Htim & Hlog) Ht Hev Hok Hcov.
  pose proof (put_ext s ref t t' Ht Hev) as Hext. pose proof (fun r => sender_lookup_put s ref t t' r Ht) as Hl.
  split_and!; [|done| | | | |].
  - unfold ids in *. cbn [put objects waiting]. rewrite list_fmap_insert.
    rewrite list_insert_id; [done|]. rewrite list_lookup_fmap, Ht. cbn. by destruct Hev as (_ & -> & _).
  - intros id r Hr. destruct (Hget id r Hr) as (u & Hu & Hfu & Hcu). unfold known. rewrite Hl.
    destruct (decide (r = ref)) as [->|]; [|by exists u]. simplify_eq. exists t'. split; [done|].
    destruct Hev as (_ & -> & _). split; [done|]. intros Hc. by eapply Hcov.
  - by apply Forall_insert.
  - eapply Forall_impl; [done|]. intros w. by apply wait_ok_ext.
  - eapply Forall_impl; [done|]. intros w. by apply timer_ok_ext.
  - eapply Forall_impl; [done|]. intros w. by apply output_ok_ext.
Qed.

Lemma sender_output_inv s o : inv s -> output_ok (objects s) o -> inv (output o s).
Proof.
  intros (Hids & Hmap & Hget & Hobj & Hwait & Htim & Hlog) Ho. split_and!; try done.
  cbn [output log]. apply Forall_app. split; [done|]. by apply Forall_singleton.
Qed.

Lemma sender_put_emit_inv s ref t t' :
  inv s -> objects s !! ref = Some t -> evolve t t' -> obj_ok t' ->
  (cancelled t' = false -> (cancelled t = false -> covered t) -> covered t') ->
  inv (put_emit ref t' s).
Proof. intros. unfold put_emit, emit. apply sender_output_inv; [|done]. eapply sender_put_inv; eauto. Qed.

Lemma clearTimeout_inv s i : inv s -> inv (clearTimeout i s).
Proof.
  intros Hinv. destruct i as [i|]; [|done].
  destruct Hinv as (Hids & Hmap & Hget & Hobj & Hwait & Htim & Hlog). split_and!; try done.
  cbn [clearTimeout timers]. unfold map_delete. rewrite Forall_forall in *.
  intros p [_ Hp]%list_elem_of_filter. by apply Htim.
Qed.

Lemma clearTimeout_objects s i : objects (clearTimeout i s) = objects s /\
  transfers (clearTimeout i s) = transfers s /\ globalPaused (clearTimeout i s) = globalPaused s.
Proof. by destruct i. Qed.

Lemma setTimeout_inv s a :
  inv s -> timer_ok (objects s) (0%nat, a) -> inv (setTimeout a s).1.
Proof.
  intros (Hids & Hmap & Hget & Hobj & Hwait & Htim & Hlog) Ha. split_and!; try done.
  cbn [setTimeout fst timers]. apply Forall_app. split; [done|]. by apply Forall_singleton.
Qed.

Lemma wait_inv s w :
  inv s -> wait_ok (objects s) w -> digest_id w = None -> inv (wait w s).
Proof.
  intros (Hids & Hmap & Hget & Hobj & Hwait & Htim & Hlog) Hw Hd. split_and!; try done.
  - unfold ids in *. cbn [wait objects waiting]. rewrite omap_app. cbn [omap list_omap].
    rewrite Hd. by rewrite app_nil_r.
  - cbn [wait waiting]. apply Forall_app. split; [done|]. by apply Forall_singleton.
Qed.

Lemma sender_inv_obj s ref t : inv s -> objects s !! ref = Some t -> obj_ok t.
Proof. intros (_ & _ & _ & Hobj & _) Ht. rewrite Forall_lookup in Hobj. by eapply Hobj. Qed.

Lemma clear_all_inv m s : inv s -> inv (clear_all m s) /\ objects (clear_all m s) = objects s /\
  transfers (clear_all m s) = transfers s /\ globalPaused (clear_all m s) = globalPaused s.
Proof.
  unfold clear_all. generalize (map_values m). intros l. revert s.
  induction l as [|i l IH]; intros s Hinv; [done|]. cbn [foldl].
  destruct (clearTimeout_objects s (timer i)) as (Ho & Ht & Hg).
  destruct (IH (clearInflightTimer (Some i) s)) as (H1 & H2 & H3 & H4); [by apply clearTimeout_inv|].
  split_and!; [done|..]; unfold clearInflightTimer in *; congruence.
Qed.

(** ** What keeps an object well formed *)

Lemma restatus_ok t st why a p c :
  obj_ok t -> (st = completed -> status t = completed) ->
  obj_ok (upd_flags a p c (upd_status st why t)).
Proof. intros (Hm & Hw & Hc) Hst. split; [exact Hm|]. split; [exact Hw|]. cbn. auto. Qed.

Lemma evolve_same t st why a p c m :
  evolve t (upd_inflight m (upd_flags a p c (upd_status st why t))).
Proof. by repeat split. Qed.

Lemma inflight_set_ok t index item :
  obj_ok t -> started index t -> index ∉ acked t ->
  obj_ok (upd_inflight (map_set index item (inflight t)) t).
Proof.
  intros (Hm & (Hn & Hnd & Hmap & Ha & Hi) & Hc) Hst Hna. split; [exact Hm|]. split; [|exact Hc].
  unfold win_ok. cbn [upd_inflight upd_window nextIndex totalChunks acked inflight]. split_and!; try (done || lia).
  - by apply map_ok_set.
  - intros i [->|Hk]%elem_of_map_keys_set; [done|by apply Hi].
Qed.

Lemma inflight_set_covered t index item :
  covered t -> started index t -> index ∉ acked t ->
  covered (upd_inflight (map_set index item (inflight t)) t).
Proof.
  intros [Hcov Hwin] Hst Hna. unfold covered.
  cbn [upd_inflight upd_window nextIndex acked inflight]. split.
  - intros i Hi. rewrite elem_of_map_keys_set. destruct (Hcov i Hi); auto.
  - unfold zlength in *. rewrite map_size_set.
    assert (map_has index (inflight t) = true) as ->; [|done].
    apply map_has_spec. by destruct (Hcov index Hst).
Qed.

(** Result of an operation on a state that satisfies the invariant. *)
Definition steps_to (s s' : FileSender) : Prop :=
  inv s' /\ ext (objects s) (objects s') /\ transfers s' = transfers s /\ globalPaused s' = globalPaused s.

Lemma steps_same s s' :
  inv s' -> objects s' = objects s -> transfers s' = transfers s -> globalPaused s' = globalPaused s ->
  steps_to s s'.
Proof. intros Hinv Ho Ht Hg. split_and!; [done|rewrite Ho; reflexivity|done|done]. Qed.

Lemma steps_refl s : inv s -> steps_to s s.
Proof. intros. by apply steps_same. Qed.

Lemma steps_trans s1 s2 s3 : steps_to s1 s2 -> steps_to s2 s3 -> steps_to s1 s3.
Proof.
  intros (_ & E1 & T1 & G1) (I2 & E2 & T2 & G2). split_and!; [done|by transitivity (objects s2)|congruence..].
Qed.

Lemma put_emit_steps s ref t t' :
  inv s -> objects s !! ref = Some t -> evolve t t' -> obj_ok t' ->
  (cancelled t' = false -> (cancelled t = false -> covered t) -> covered t') ->
  steps_to s (put_emit ref t' s).
Proof.
  intros Hinv Ht Hev Hok Hcov. split_and!; [by eapply sender_put_emit_inv|by eapply put_ext|done|done].
Qed.

Lemma output_steps s o : inv s -> output_ok (objects s) o -> steps_to s (output o s).
Proof. intros Hinv Ho. apply steps_same; try done. by apply sender_output_inv. Qed.

Lemma clear_steps s i : inv s -> steps_to s (clearTimeout i s) /\ objects (clearTimeout i s) = objects s.
Proof.
  intros Hinv. destruct (clearTimeout_objects s i) as (Ho & Ht & Hg).
  split; [|done]. apply steps_same; try done. by apply clearTimeout_inv.
Qed.

Lemma clear_all_steps s m : inv s -> steps_to s (clear_all m s) /\ objects (clear_all m s) = objects s.
Proof.
  intros Hinv. destruct (clear_all_inv m s Hinv) as (Hi & Ho & Ht & Hg).
  split; [|done]. by apply steps_same.
Qed.

Lemma empty_ok t : obj_ok t -> obj_ok (upd_inflight [] t).
Proof.
  intros (Hm & (Hn & Hnd & Hmap & Ha & Hi) & Hc). split; [exact Hm|]. split; [|exact Hc].
  unfold win_ok. cbn. split_and!; try (done || lia); [apply map_ok_nil|set_solver].
Qed.

Lemma fail_steps s ref why : inv s -> steps_to s (fail ref why s).
Proof.
  intros Hinv. unfold fail, on. destruct (objects s !! ref) as [t|] eqn:Ht; [|by apply steps_refl].
  cbn [clearTimers upd_status upd_flags inflight]. destruct (clear_all_steps s (inflight t) Hinv) as [Hs Ho].
  eapply steps_trans; [exact Hs|]. eapply put_emit_steps; [apply Hs|by rewrite Ho|apply evolve_same| |done].
  apply empty_ok, restatus_ok; [by eapply sender_inv_obj|done].
Qed.

Lemma failAndNotify_steps s ref why : inv s -> steps_to s (failAndNotify ref why s).
Proof.
  intros Hinv. unfold failAndNotify. pose proof (fail_steps s ref why Hinv) as Hs. unfold on.
  destruct (objects (fail ref why s) !! ref) as [t|] eqn:Ht; [|done].
  eapply steps_trans; [exact Hs|]. apply output_steps; [apply Hs|]. by exists ref, t.
Qed.

Lemma wait_steps s w : inv s -> wait_ok (objects s) w -> digest_id w = None -> steps_to s (wait w s).
Proof. intros. apply steps_same; try done. by apply wait_inv. Qed.

Lemma sendChunk_steps s ref index n :
  inv s -> known (objects s) ref (started index) -> steps_to s (sendChunk profile ref index n s).
Proof.
  intros Hinv (t & Ht & Hst). unfold sendChunk, on. rewrite Ht.
  pose proof (sender_inv_obj _ _ _ Hinv Ht) as Hok.
  destruct (cancelled t || set_has index (acked t)) eqn:Hskip; [by apply steps_refl|].
  apply orb_false_elim in Hskip as [Hc Hna%bool_decide_eq_false].
  destruct (paused t || globalPaused s).
  { split_and!; try done.
    - eapply sender_put_inv; [done|done|apply (evolve_same t (status t) (reason t))|by apply inflight_set_ok|].
      intros id _ _ Hcov. apply inflight_set_covered; auto.
    - eapply put_ext; [done|]. apply (evolve_same t (status t) (reason t)). }
  destruct (maxRetries (files profile) + 1 <? n); [by apply failAndNotify_steps|].
  destruct (clear_steps s (match map_get index (inflight t) with Some i => timer i | None => None end) Hinv)
    as [Hs Ho].
  unfold clearInflightTimer. set (s1 := clearTimeout _ s) in *.
  eapply steps_trans; [exact Hs|].
  set (t' := upd_reason _ _).
  assert (steps_to s1 (put_emit ref t' s1)) as Hp.
  { eapply put_emit_steps; [apply Hs|by rewrite Ho| | |].
    - apply (evolve_same t (status t)).
    - destruct (inflight_set_ok t index {| attempts := n; state := chunk_sending; timer := None |}) as (? & ? & ?);
        [done..|]. by split_and!.
    - intros _ Hcov. specialize (Hcov Hc).
      exact (inflight_set_covered t index {| attempts := n; state := chunk_sending; timer := None |} Hcov Hst Hna). }
  eapply steps_trans; [exact Hp|]. apply wait_steps; [apply Hp| |done].
  cbn [wait_ok]. exists t'. split; [|exact Hst].
  change (objects (put_emit ref t' s1)) with (objects (put ref t' s1)).
  rewrite (sender_lookup_put s1 ref t) by (by rewrite Ho). by rewrite decide_True.
Qed.

Lemma setTimeout_steps s a : inv s -> timer_ok (objects s) (0%nat, a) -> steps_to s (setTimeout a s).1.
Proof. intros. apply steps_same; try done. by apply setTimeout_inv. Qed.

(** Replacing the entry of a chunk, with a reason. *)
Lemma replace_steps s ref t index item why :
  inv s -> objects s !! ref = Some t -> cancelled t = false -> started index t -> index ∉ acked t ->
  steps_to s (put_emit ref (upd_reason why (upd_inflight (map_set index item (inflight t)) t)) s).
Proof.
  intros Hinv Ht Hc Hst Hna. pose proof (sender_inv_obj _ _ _ Hinv Ht) as Hok.
  eapply put_emit_steps; [done|done|apply (evolve_same t (status t))| |].
  - destruct (inflight_set_ok t index item Hok Hst Hna) as (? & ? & ?). by split_and!.
  - intros _ Hcov. exact (inflight_set_covered t index item (Hcov Hc) Hst Hna).
Qed.

Lemma scheduleRetry_steps s ref index n why :
  inv s -> known (objects s) ref (started index) -> steps_to s (scheduleRetry profile ref index n why s).
Proof.
  intros Hinv (t & Ht & Hst). unfold scheduleRetry, on. rewrite Ht.
  destruct (cancelled t || set_has index (acked t)) eqn:Hskip; [by apply steps_refl|].
  apply orb_false_elim in Hskip as [Hc Hna%bool_decide_eq_false].
  destruct (clear_steps s (match map_get index (inflight t) with Some i => timer i | None => None end) Hinv)
    as [Hs Ho].
  unfold clearInflightTimer. set (s1 := clearTimeout _ s) in *. rewrite <- Ho in Ht.
  destruct Hs as (Hi1 & He1 & Ht1 & Hg1).
  assert (steps_to s s1) as Hs by (by split_and!).
  destruct (_ + 1 <? n).
  { eapply steps_trans; [exact Hs|]. by apply failAndNotify_steps. }
  destruct (paused t || globalPaused s1).
  - eapply steps_trans; [exact Hs|]. by apply replace_steps.
  - assert (steps_to s1 (setTimeout (retry_timeout ref index n) s1).1) as Hs2.
    { apply setTimeout_steps; [done|]. by exists t. }
    destruct (setTimeout (retry_timeout ref index n) s1) as [s2 i] eqn:E. cbn [fst] in Hs2.
    injection E as <- <-. eapply steps_trans; [exact Hs|]. eapply steps_trans; [exact Hs2|].
    apply replace_steps; try done. apply Hs2.
Qed.

(** ** The pump *)

Lemma put_put ref t1 t2 s : put ref t2 (put ref t1 s) = put ref t2 s.
Proof. unfold put. cbn. by rewrite list_insert_insert_eq. Qed.

(** One turn of the loop: the next index enters the window. *)
Lemma start_steps s ref t (index := nextIndex t) :
  inv s -> objects s !! ref = Some t -> cancelled t = false -> paused t = false ->
  globalPaused s = false -> zlength (inflight t) < windowChunks (files profile) ->
  index < totalChunks t ->
  steps_to s (sendChunk profile ref index 1
                (put ref (upd_window (index + 1) (acked t) (inflight t) t) s)).
Proof.
  intros Hinv Ht Hc Hp Hg Hwin Hlt. pose proof (sender_inv_obj _ _ _ Hinv Ht) as (Hm & (Hn & Hnd & Hmap & Ha & Hi) & Hcomp).
  set (t1 := upd_window _ _ _ t). unfold sendChunk, on.
  rewrite (sender_lookup_put s ref t) by done. rewrite decide_True by done.
  change (cancelled t1) with (cancelled t). change (acked t1) with (acked t).
  change (paused t1) with (paused t). change (inflight t1) with (inflight t). cbn [put globalPaused].
  assert (index ∉ acked t) as Hna by (intros Hin; apply Ha in Hin; lia).
  assert (map_get index (inflight t) = None) as Hnone.
  { apply map_get_None. intros Hin. apply Hi in Hin as [? _]. lia. }
  unfold set_has. rewrite (bool_decide_eq_false_2 (index ∈ _)) by done.
  rewrite Hc, Hp, Hg, Hnone. cbn [orb clearInflightTimer clearTimeout].
  destruct (Z.ltb_spec (maxRetries (files profile) + 1) 1); [lia|].
  set (t2 := upd_reason _ _). unfold put_emit. rewrite put_put.
  assert (steps_to s (put_emit ref t2 s)) as Hs.
  { eapply put_emit_steps; [done|done| | |].
    - repeat split; cbn; (done || lia).
    - split; [exact Hm|]. split; [|intros Hst; exact (Hcomp Hst)]. unfold win_ok, t2, t1.
      cbn [upd_reason upd_status upd_inflight upd_window nextIndex totalChunks acked inflight]. split_and!; try (done || lia).
      + by apply map_ok_set.
      + intros i Hin. apply Ha in Hin. unfold index. lia.
      + intros i [->|Hk]%elem_of_map_keys_set; [split; [lia|done]|]. apply Hi in Hk as [? ?]. split; [lia|done].
    - intros _ Hcov. destruct (Hcov Hc) as [Hall _]. unfold covered, t2, t1.
      cbn [upd_reason upd_status upd_inflight upd_window nextIndex totalChunks acked inflight]. split.
      + intros i Hin. rewrite elem_of_map_keys_set. destruct (decide (i = index)) as [->|]; [auto|].
        destruct (Hall i) as [?|?]; [unfold index in *; lia|auto|auto].
      + unfold zlength in *. rewrite map_size_set. unfold map_has. rewrite Hnone. lia. }
  eapply steps_trans; [exact Hs|]. apply wait_steps; [apply Hs| |done].
  cbn [wait_ok]. exists t2. split; [|unfold started; cbn; lia].
  change (objects (emit t2 (put ref t2 s))) with (objects (put ref t2 s)).
  rewrite (sender_lookup_put s ref t) by done. by rewrite decide_True.
Qed.

Lemma pump_loop_steps fuel s ref : inv s -> steps_to s (pump_loop profile fuel ref s).
Proof.
  revert s. induction fuel as [|fuel IH]; intros s Hinv; cbn [pump_loop]; [by apply steps_refl|].
  unfold on. destruct (objects s !! ref) as [t|] eqn:Ht; [|by apply steps_refl].
  destruct (_ && _) eqn:Hguard; [|by apply steps_refl]. bool_facts.
  pose proof (start_steps s ref t Hinv Ht) as Hs. eapply steps_trans; [by apply Hs|]. apply IH, Hs; done.
Qed.

Lemma flag_steps s ref t b :
  inv s -> objects s !! ref = Some t -> steps_to s (put ref (upd_pumping b t) s).
Proof.
  intros Hinv Ht. pose proof (sender_inv_obj _ _ _ Hinv Ht) as Hok. split_and!; try done.
  - eapply sender_put_inv; [done|done|by repeat split|exact Hok|]. intros id _ Hc Hcov. exact (Hcov Hc).
  - eapply put_ext; [done|by repeat split].
Qed.

Lemma acked_full t :
  obj_ok t -> totalChunks t <= zlength (acked t) ->
  zlength (acked t) = totalChunks t /\ forall i, 0 <= i < totalChunks t -> i ∈ acked t.
Proof.
  intros (_ & (Hn & Hnd & _ & Ha & _) & _) Hfull.
  assert (forall i, i ∈ acked t -> 0 <= i < totalChunks t) as Hr by (intros i Hin; apply Ha in Hin; lia).
  split; [|apply NoDup_full_range; (done || lia)].
  pose proof (NoDup_range_le (acked t) (totalChunks t) ltac:(lia) Hnd Hr). lia.
Qed.

Lemma completeIfDone_steps s ref : inv s -> steps_to s (completeIfDone ref s).
Proof.
  intros Hinv. unfold completeIfDone, on. destruct (objects s !! ref) as [t|] eqn:Ht; [|by apply steps_refl].
  pose proof (sender_inv_obj _ _ _ Hinv Ht) as Hok.
  destruct (cancelled t) eqn:Hc; [by apply flag_steps|].
  destruct ((nextIndex t <? totalChunks t) || _ || _) eqn:Hg; [by apply flag_steps|]. bool_facts.
  destruct (acked_full t Hok) as [Hcount Hall]; [lia|]. set (t' := upd_status completed None t).
  assert (steps_to s (put_emit ref t' s)) as Hs.
  { eapply put_emit_steps; [done|done|by repeat split| |].
    - destruct Hok as (Hm & Hw & _). split; [exact Hm|]. split; [exact Hw|]. by intros _.
    - intros _ Hcov. exact (Hcov Hc). }
  assert (objects (put_emit ref t' s) !! ref = Some t') as Ht'.
  { change (objects (put_emit ref t' s)) with (objects (put ref t' s)).
    rewrite (sender_lookup_put s ref t) by done. by rewrite decide_True. }
  eapply steps_trans; [exact Hs|]. assert (steps_to (put_emit ref t' s)
    (sendApp (file_complete (fileId t') (sha256 t')) Lane.control (put_emit ref t' s))) as Hs2.
  { apply output_steps; [apply Hs|]. by exists ref, t'. }
  eapply steps_trans; [exact Hs2|]. apply wait_steps; [apply Hs2| |done]. by exists t'.
Qed.

Lemma pump_steps s ref : inv s -> steps_to s (pump profile ref s).
Proof.
  intros Hinv. unfold pump, on. destruct (objects s !! ref) as [t|] eqn:Ht; [|by apply steps_refl].
  destruct (pumping t); [by apply steps_refl|]. destruct (_ || _); [by apply steps_refl|].
  pose proof (flag_steps s ref t true Hinv Ht) as H1. eapply steps_trans; [exact H1|].
  pose proof (pump_loop_steps (Z.to_nat (totalChunks t - nextIndex t)) (put ref (upd_pumping true t) s) ref
    ltac:(apply H1)) as H2.
  eapply steps_trans; [exact H2|]. apply completeIfDone_steps, H2.
Qed.

(** ** Pausing *)

Lemma hold_keys t : map_keys (prod_map id hold_item <$> inflight t) = map_keys (inflight t).
Proof. unfold map_keys. rewrite <- list_fmap_compose. by apply list_fmap_ext. Qed.

Lemma hold_ok t : obj_ok t -> obj_ok (upd_inflight (prod_map id hold_item <$> inflight t) t).
Proof.
  intros (Hm & (Hn & Hnd & Hmap & Ha & Hi) & Hc). split; [exact Hm|]. split; [|exact Hc].
  unfold win_ok. cbn [upd_inflight upd_window nextIndex totalChunks acked inflight].
  unfold map_ok. rewrite hold_keys. split_and!; (done || lia).
Qed.

Lemma hold_covered t : covered t -> covered (upd_inflight (prod_map id hold_item <$> inflight t) t).
Proof.
  intros [Hcov Hwin]. unfold covered. cbn [upd_inflight upd_window nextIndex acked inflight].
  rewrite hold_keys. split; [done|]. unfold zlength in *. by rewrite length_fmap.
Qed.

(** A pause: new flags and status, everything in flight held. *)
Lemma hold_steps s ref t st why a p c :
  inv s -> objects s !! ref = Some t -> (st = completed -> status t = completed) ->
  (c = false -> cancelled t = false) ->
  let '(s1, t1) := holdOutstanding (upd_flags a p c (upd_status st why t)) s in
  steps_to s (put_emit ref t1 s1).
Proof.
  intros Hinv Ht Hst Hc. unfold holdOutstanding. cbn [upd_flags upd_status inflight].
  destruct (clear_all_steps s (inflight t) Hinv) as [Hs Ho]. eapply steps_trans; [exact Hs|].
  eapply put_emit_steps; [apply Hs|by rewrite Ho|apply evolve_same| |].
  - apply (hold_ok (upd_flags a p c (upd_status st why t))), restatus_ok; [by eapply sender_inv_obj|done].
  - intros Hc' Hcov. apply (hold_covered (upd_flags a p c (upd_status st why t))).
    exact (Hcov (Hc Hc')).
Qed.

Lemma resume_item_steps s ref entry :
  inv s -> known (objects s) ref (started entry.1) -> steps_to s (resume_item profile ref s entry).
Proof.
  intros Hinv Hk. destruct entry as [index item]. cbn [resume_item fst] in *.
  destruct (_ && _); [by apply sendChunk_steps|by apply steps_refl].
Qed.

Lemma resume_fold_steps s ref l :
  inv s -> Forall (fun e => known (objects s) ref (started e.1)) l ->
  steps_to s (foldl (resume_item profile ref) s l).
Proof.
  revert s. induction l as [|e l IH]; intros s Hinv Hl; cbn [foldl]; [by apply steps_refl|].
  apply Forall_cons in Hl as [He Hl]. pose proof (resume_item_steps s ref e Hinv He) as Hs.
  eapply steps_trans; [exact Hs|]. apply IH; [apply Hs|].
  eapply Forall_impl; [exact Hl|]. intros e' Hk. eapply known_ext; [|apply Hs|exact Hk]. apply started_evolve.
Qed.

Lemma resumeOutstanding_steps s ref : inv s -> steps_to s (resumeOutstanding profile ref s).
Proof.
  intros Hinv. unfold resumeOutstanding, on. destruct (objects s !! ref) as [t|] eqn:Ht; [|by apply steps_refl].
  destruct (_ || _); [by apply steps_refl|].
  assert (steps_to s (foldl (resume_item profile ref) s (inflight t))) as Hs.
  { apply resume_fold_steps; [done|]. apply Forall_forall. intros [i item] Hin. exists t. split; [done|].
    destruct (sender_inv_obj _ _ _ Hinv Ht) as (_ & (_ & _ & _ & _ & Hi) & _). apply Hi.
    unfold map_keys. apply list_elem_of_fmap. by exists (i, item). }
  eapply steps_trans; [exact Hs|]. apply pump_steps, Hs.
Qed.

(** ** Public methods *)

Lemma sender_get_inv s id ref t :
  inv s -> get id s = Some (ref, t) ->
  map_get id (transfers s) = Some ref /\ objects s !! ref = Some t /\ fileId t = id /\ obj_ok t /\
  (cancelled t = false -> covered t).
Proof.
  intros Hinv Hg. unfold get in Hg. destruct (map_get id (transfers s)) as [r|] eqn:Hr; [|done].
  destruct (objects s !! r) as [u|] eqn:Hu; [|done]. injection Hg as -> ->.
  pose proof (sender_inv_obj _ _ _ Hinv Hu) as Hok. destruct Hinv as (_ & _ & Hget & _).
  destruct (Hget _ _ Hr) as (v & Hv & Hfv & Hcv). simplify_eq. done.
Qed.

(** New flags and status, the window untouched. *)
Lemma restatus_steps s ref t st why a p c :
  inv s -> objects s !! ref = Some t -> (st = completed -> status t = completed) ->
  (c = false -> cancelled t = false) ->
  steps_to s (put_emit ref (upd_flags a p c (upd_status st why t)) s).
Proof.
  intros Hinv Ht Hst Hc. eapply put_emit_steps; [done|done|by repeat split| |].
  - apply restatus_ok; [by eapply sender_inv_obj|done].
  - intros Hc' Hcov. exact (Hcov (Hc Hc')).
Qed.

Lemma sendOffer_inv s ref : inv s -> inv (sendOffer ref s).
Proof.
  intros Hinv. unfold sendOffer, on. destruct (objects s !! ref) as [t|] eqn:Ht; [|done].
  apply wait_inv; [apply sender_output_inv; [done|]|by exists t|done]. by exists ref, t.
Qed.

Lemma startQueued_inv s id : inv s -> inv (startQueued id s).
Proof.
  intros Hinv. unfold startQueued. destruct (get id s) as [[ref t]|] eqn:Hg; [|done].
  destruct (_ || _); [done|]. destruct (sender_get_inv _ _ _ _ Hinv Hg) as (_ & Ht & _).
  apply sendOffer_inv. by apply restatus_steps.
Qed.

Lemma sender_accept_inv s id : inv s -> inv (accept profile id s).
Proof.
  intros Hinv. unfold accept. destruct (get id s) as [[ref t]|] eqn:Hg; [|done].
  destruct (cancelled t) eqn:Hc; [done|]. destruct (sender_get_inv _ _ _ _ Hinv Hg) as (_ & Ht & _).
  apply pump_steps. apply restatus_steps; try done. by destruct (globalPaused s).
Qed.

Lemma ack_ok t index item :
  obj_ok t -> map_get index (inflight t) = Some item ->
  let t' := upd_reason None
    (upd_window (nextIndex t) (set_add index (acked t)) (map_delete index (inflight t)) t) in
  obj_ok t' /\ evolve t t' /\ (covered t -> covered t').
Proof.
  intros Hok Hg t'.
  assert (index ∈ map_keys (inflight t)) as Hin by (apply map_get_is_Some; by eexists).
  pose proof Hok as (Hm & (Hn & Hnd & Hmap & Ha & Hi) & Hc). destruct (Hi _ Hin) as [Hst Hna].
  assert (status t <> completed) as Hnc.
  { intros Hcomp. apply Hna. apply (acked_full t Hok); [by rewrite Hc|lia]. }
  unfold t'. split; [|split].
  - split; [exact Hm|]. split; [|done]. unfold win_ok.
    cbn [upd_reason upd_status upd_window nextIndex totalChunks acked inflight]. split_and!; try (done || lia).
    + by apply NoDup_set_add.
    + by apply map_ok_delete.
    + intros i [->|?]%elem_of_set_add; auto.
    + intros i [Hne Hk]%elem_of_map_keys_delete. rewrite elem_of_set_add.
      destruct (Hi _ Hk) as [? ?]. split; [done|]. naive_solver.
  - repeat split; try done. intros i Hia. cbn. apply elem_of_set_add. by right.
  - intros [Hcov Hwin]. unfold covered.
    cbn [upd_reason upd_status upd_window nextIndex totalChunks acked inflight]. split.
    + intros i Hlt. rewrite elem_of_set_add, elem_of_map_keys_delete.
      destruct (decide (i = index)); [auto|]. destruct (Hcov i Hlt); auto.
    + unfold zlength in *. pose proof (map_size_delete_le index (inflight t)). lia.
Qed.

Lemma ack_inv s id index : inv s -> inv (ack profile id index s).
Proof.
  intros Hinv. unfold ack. destruct (get id s) as [[ref t]|] eqn:Hg; [|done].
  destruct (cancelled t) eqn:Hc; [done|]. destruct (_ || _); [done|].
  destruct (map_get index (inflight t)) as [item|] eqn:Hitem; [|done].
  destruct (sender_get_inv _ _ _ _ Hinv Hg) as (_ & Ht & _ & Hok & Hcov).
  destruct (clear_steps s (timer item) Hinv) as [Hs Ho].
  destruct (ack_ok t index item Hok Hitem) as (Hok' & Hev & Hcov').
  apply pump_steps. eapply sender_put_emit_inv; [apply Hs|unfold clearInflightTimer; by rewrite Ho|done|done|].
  intros _ Hcv. by apply Hcov', Hcv.
Qed.

Lemma inflight_started s ref t index item :
  inv s -> objects s !! ref = Some t -> map_get index (inflight t) = Some item ->
  known (objects s) ref (started index).
Proof.
  intros Hinv Ht Hg. exists t. split; [done|].
  destruct (sender_inv_obj _ _ _ Hinv Ht) as (_ & (_ & _ & _ & _ & Hi) & _). apply Hi.
  apply map_get_is_Some. by eexists.
Qed.

Lemma nack_inv s id index why : inv s -> inv (nack profile id index why s).
Proof.
  intros Hinv. unfold nack. destruct (get id s) as [[ref t]|] eqn:Hg; [|done].
  destruct (_ || _); [done|]. destruct (map_get index (inflight t)) as [item|] eqn:Hitem; [|done].
  destruct (sender_get_inv _ _ _ _ Hinv Hg) as (_ & Ht & _).
  apply scheduleRetry_steps; [done|]. by eapply inflight_started.
Qed.

Lemma pause_inv s id why : inv s -> inv (pause id why s).
Proof.
  intros Hinv. unfold pause. destruct (get id s) as [[ref t]|] eqn:Hg; [|done].
  destruct (terminal (status t)); [done|]. destruct (sender_get_inv _ _ _ _ Hinv Hg) as (_ & Ht & _).
  pose proof (hold_steps s ref t paused_ (Some why) (accepted t) true (cancelled t) Hinv Ht) as Hs.
  destruct (holdOutstanding _ s) as [s1 t1]. by apply Hs.
Qed.

Lemma resume_inv s id : inv s -> inv (resume profile id s).
Proof.
  intros Hinv. unfold resume. destruct (get id s) as [[ref t]|] eqn:Hg; [|done].
  destruct (negb _); [done|]. destruct (sender_get_inv _ _ _ _ Hinv Hg) as (_ & Ht & _).
  apply resumeOutstanding_steps. apply restatus_steps; try done. by destruct (accepted t).
Qed.

Lemma sender_cancel_inv s id why notify : inv s -> inv (cancel id why notify s).
Proof.
  intros Hinv. unfold cancel. destruct (get id s) as [[ref t]|] eqn:Hg; [|done].
  destruct (sender_get_inv _ _ _ _ Hinv Hg) as (_ & Ht & Hid & Hok & _).
  cbn [clearTimers upd_flags upd_status inflight].
  destruct (clear_all_steps s (inflight t) Hinv) as [Hs Ho]. set (t' := upd_inflight _ _).
  assert (steps_to (clear_all (inflight t) s) (put_emit ref t' (clear_all (inflight t) s))) as Hs2.
  { eapply put_emit_steps; [apply Hs|by rewrite Ho|apply evolve_same| |done].
    by apply empty_ok, restatus_ok. }
  destruct notify; [|apply Hs2]. apply sender_output_inv; [apply Hs2|]. exists ref, t'. split; [|done].
  change (objects (put_emit ref t' (clear_all (inflight t) s)))
    with (objects (put ref t' (clear_all (inflight t) s))).
  rewrite (sender_lookup_put _ ref t) by (by rewrite Ho). by rewrite decide_True.
Qed.

Lemma global_item_inv b why s ref : inv s -> inv (global_item profile b why s ref).
Proof.
  intros Hinv. unfold global_item, on. destruct (objects s !! ref) as [t|] eqn:Ht; [|done].
  destruct (_ || _); [|done]. destruct b.
  - pose proof (hold_steps s ref t paused_ (Some why) (accepted t) true (cancelled t) Hinv Ht) as Hs.
    destruct (holdOutstanding _ s) as [s1 t1]. by apply Hs.
  - apply resumeOutstanding_steps. by apply restatus_steps.
Qed.

Lemma setGlobalPaused_inv b why s : inv s -> inv (setGlobalPaused profile b why s).
Proof.
  intros Hinv. unfold setGlobalPaused. assert (inv (set_global b s)) as Hg by exact Hinv.
  revert Hg. generalize (set_global b s). generalize (map_values (transfers s)). clear Hinv s.
  intros l. induction l as [|r l IH]; intros s Hinv; [done|]. cbn [foldl]. by apply IH, global_item_inv.
Qed.

(** Clearing what is in flight is harmless once no map entry leads there. *)
Lemma unlinked_inv s ref t :
  inv s -> objects s !! ref = Some t -> (forall id, map_get id (transfers s) <> Some ref) ->
  inv (put ref (upd_inflight [] t) (clear_all (inflight t) s)).
Proof.
  intros Hinv Ht Hno. destruct (clear_all_steps s (inflight t) Hinv) as [Hs Ho].
  eapply sender_put_inv; [apply Hs|by rewrite Ho|by repeat split|apply empty_ok; by eapply sender_inv_obj|].
  intros id Hid. destruct Hs as (_ & _ & Htr & _). rewrite Htr in Hid. by apply Hno in Hid.
Qed.

Lemma clear_map_inv s m :
  inv s -> map_ok m -> (forall id ref, map_get id m = Some ref -> map_get id (transfers s) = Some ref) ->
  inv (set_transfers m s).
Proof.
  intros (Hids & Hmap & Hget & Hobj & Hwait & Htim & Hlog) Hm Hsub. split_and!; try done.
  intros id ref Hr. by apply Hget, Hsub.
Qed.

Lemma clear_all_map m mm s : set_transfers mm (clear_all m s) = clear_all m (set_transfers mm s).
Proof.
  unfold clear_all. generalize (map_values m). intros l. revert s.
  induction l as [|i l IH]; intros s; [done|]. cbn [foldl]. rewrite IH. f_equal.
  unfold clearInflightTimer. by destruct (timer i).
Qed.

Lemma sender_reset_inv s : inv s -> inv (reset s).
Proof.
  intros Hinv. unfold reset. change (inv (set_transfers [] (foldl reset_item s (map_values (transfers s))))).
  generalize (map_values (transfers s)). intros l.
  assert (forall l s, set_transfers [] (foldl reset_item s l) = foldl reset_item (set_transfers [] s) l) as Hcomm.
  { intros k. induction k as [|r k IH]; intros s0; [done|]. cbn [foldl]. rewrite IH. f_equal.
    unfold reset_item, on. cbn [set_transfers objects]. destruct (objects s0 !! r) as [t|]; [|done].
    cbn [clearTimers]. rewrite <- clear_all_map. done. }
  rewrite Hcomm. assert (inv (set_transfers [] s)) as H0 by (apply clear_map_inv; [done|apply map_ok_nil|done]).
  assert (transfers (set_transfers [] s) = []) as Hnil by done. revert H0 Hnil.
  generalize (set_transfers [] s). clear Hcomm Hinv s. induction l as [|r l IH]; intros s H0 Hnil; [done|].
  cbn [foldl]. unfold reset_item at 2, on. destruct (objects s !! r) as [t|] eqn:Ht; [|by apply IH].
  cbn [clearTimers]. apply IH.
  - apply unlinked_inv; [done|done|]. intros id. by rewrite Hnil.
  - destruct (clear_all_steps s (inflight t) H0) as [(_ & _ & Htr & _) _]. cbn. congruence.
Qed.

Lemma sender_remove_inv s id : inv s -> inv (remove id s).
Proof.
  intros Hinv. unfold remove. destruct (get id s) as [[ref t]|] eqn:Hg; [|done].
  destruct (terminal (status t)); [|done]. destruct (sender_get_inv _ _ _ _ Hinv Hg) as (Hr & Ht & Hid & _).
  cbn [clearTimers]. destruct (clear_all_steps s (inflight t) Hinv) as [(_ & _ & Htr & _) Ho]. rewrite Htr.
  change (inv (put ref (upd_inflight [] t) (set_transfers (map_delete id (transfers s)) (clear_all (inflight t) s)))).
  rewrite clear_all_map. apply unlinked_inv; [|done|].
  - apply clear_map_inv; [done|by apply map_ok_delete; apply Hinv|]. intros id' r.
    rewrite map_get_delete. by destruct (decide (id' = id)).
  - intros id' Hid'. cbn [set_transfers transfers] in Hid'. rewrite map_get_delete in Hid'.
    destruct (decide (id' = id)) as [|Hne]; [done|]. destruct Hinv as (_ & _ & Hget & _).
    destruct (Hget _ _ Hid') as (u & Hu & Hfu & _). simplify_eq.
Qed.

(** ** New transfers *)

Lemma add_inv s t :
  inv s -> fileId t ∉ ids s -> obj_ok t -> (cancelled t = false -> covered t) -> inv (add t s).
Proof.
  intros (Hids & Hmap & Hget & Hobj & Hwait & Htim & Hlog) Hnew Hok Hcov.
  assert (ext (objects s) (objects s ++ [t])) as Hext.
  { intros r u Hu. exists u. split; [by apply lookup_app_l_Some|reflexivity]. }
  split_and!; cbn [add objects transfers waiting timers log].
  - unfold ids in *. cbn [add objects waiting]. rewrite fmap_app. cbn [fmap list_fmap].
    rewrite <- app_assoc. cbn [app]. rewrite <- Permutation_middle. by apply NoDup_cons.
  - by apply map_ok_set.
  - intros id r. rewrite map_get_set. destruct (decide (id = fileId t)) as [->|].
    + intros [= <-]. exists t. split; [|done]. by rewrite lookup_app_r, Nat.sub_diag.
    + intros Hr. destruct (Hget _ _ Hr) as (u & Hu & Hrest). exists u. split; [by apply lookup_app_l_Some|done].
  - apply Forall_app. split; [done|]. by apply Forall_singleton.
  - eapply Forall_impl; [exact Hwait|]. intros w. by apply wait_ok_ext.
  - eapply Forall_impl; [exact Htim|]. intros w. by apply timer_ok_ext.
  - eapply Forall_impl; [exact Hlog|]. intros w. by apply output_ok_ext.
Qed.

Lemma offer_insert_inv s t q :
  inv s -> fileId t ∉ ids s -> obj_ok t -> (cancelled t = false -> covered t) -> inv (offer_insert t q s).
Proof.
  intros Hinv Hnew Hok Hcov. unfold offer_insert.
  assert (inv (emit t (add t s))) by (apply sender_output_inv; [by apply add_inv|done]).
  destruct q; [done|]. by apply sendOffer_inv.
Qed.

Lemma sender_new_transfer_ok id f q :
  0 < file_size f -> obj_ok (new_transfer profile id f q) /\ covered (new_transfer profile id f q).
Proof.
  intros Hf. pose proof (ceil_div_pos (file_size f) (chunkBytes (files profile)) Hf chunk_pos).
  split.
  - split; [by split_and!|]. split; [|by destruct q]. unfold win_ok. cbn.
    split_and!; try (done || lia); try apply map_ok_nil; try apply NoDup_nil_2; set_solver.
  - unfold covered. cbn. split; [lia|]. unfold zlength. cbn. lia.
Qed.

Lemma fresh_ids id s : fresh_id id s = true -> id ∉ ids s.
Proof.
  intros [Ho Hw]%andb_prop. rewrite forallb_forall in Ho, Hw. unfold ids. rewrite elem_of_app.
  intros [(t & -> & Ht)%list_elem_of_fmap|(w & Hin & Hd)%list_elem_of_omap].
  - apply list_elem_of_In, Ho, negb_true_iff in Ht. by apply bool_decide_eq_false in Ht.
  - apply list_elem_of_In, Hw in Hin. destruct w; try done. injection Hd as <-.
    apply negb_true_iff in Hin. by apply bool_decide_eq_false in Hin.
Qed.

Lemma sender_offer_inv s s' id f q :
  inv s -> fresh_id id s = true -> offer profile id f q s = Ok s' -> inv s'.
Proof.
  intros Hinv Hfresh%fresh_ids. unfold offer. intros (u & Hv & <-%Ok_inj)%rbind_Ok.
  assert (0 < file_size f) as Hf.
  { unfold validateOutboundFile in Hv. destruct (Z.leb_spec (file_size f) 0); [done|lia]. }
  destruct (sender_new_transfer_ok id f q Hf) as [Hok Hcov].
  destruct (_ <=? _); [|by apply offer_insert_inv].
  destruct Hinv as (Hids & Hmap & Hget & Hobj & Hwait & Htim & Hlog). split_and!; try done.
  - unfold ids in *. cbn [wait objects waiting]. rewrite omap_app. cbn [omap list_omap digest_id new_transfer fileId].
    rewrite app_assoc. apply NoDup_app. split_and!; [done| |apply NoDup_singleton].
    intros x Hx ->%list_elem_of_singleton. done.
  - cbn [wait waiting]. apply Forall_app. split; [done|]. by apply Forall_singleton.
Qed.

(** A waiting call leaves the list. *)
Lemma resume_inv_waiting s i w :
  inv s -> waiting s !! i = Some w ->
  inv (set_waiting (delete i (waiting s)) s) /\ wait_ok (objects s) w /\
  (forall id, digest_id w = Some id -> id ∉ ids (set_waiting (delete i (waiting s)) s)).
Proof.
  intros (Hids & Hmap & Hget & Hobj & Hwait & Htim & Hlog) Hi.
  pose proof (delete_Permutation (waiting s) i w Hi) as Hperm.
  assert (NoDup (ids (set_waiting (delete i (waiting s)) s) ++ match digest_id w with Some id => [id] | None => [] end)) as Hnd.
  { unfold ids in *. cbn [set_waiting objects waiting]. rewrite Hperm in Hids.
    cbn [omap list_omap] in Hids. destruct (digest_id w) as [id|].
    - rewrite <- app_assoc. by rewrite <- (Permutation_cons_append (omap digest_id _)).
    - by rewrite app_nil_r. }
  apply NoDup_app in Hnd as (Hnd & Hdisj & _). split; [|split].
  - split_and!; try done. cbn [set_waiting waiting objects]. rewrite Hperm in Hwait.
    by apply Forall_cons in Hwait as [_ ?].
  - rewrite Forall_lookup in Hwait. by eapply Hwait.
  - intros id Hd Hin. apply (Hdisj id Hin). rewrite Hd. set_solver.
Qed.

Lemma goes_on_inv s i w ok err :
  inv s -> waiting s !! i = Some w ->
  inv (goes_on profile digest w ok err (set_waiting (delete i (waiting s)) s)).
Proof.
  intros Hinv Hi. destruct (resume_inv_waiting s i w Hinv Hi) as (H1 & Hw & Hnew).
  set (s1 := set_waiting _ s) in *. assert (objects s1 = objects s) as Ho by done. rewrite <- Ho in Hw.
  destruct w as [t q|ref|ref index n|ref index n|ref]; cbn [goes_on wait_ok] in *.
  - destruct Hw as (Hok & Hcov & _). unfold digest_done. apply offer_insert_inv; [done|by apply Hnew|exact Hok|].
    by intros _.
  - unfold offer_done. destruct ok; [done|]. by apply fail_steps.
  - destruct ok; [|by apply scheduleRetry_steps]. unfold read_done, on.
    destruct Hw as (t & Ht & Hst). rewrite Ht. apply wait_inv; [|by exists t|done].
    apply sender_output_inv; [done|]. exists ref, t. split; [done|]. cbn [says]. by split_and!.
  - unfold send_done. destruct ok; cbn [negb]; [|by apply scheduleRetry_steps]. unfold on.
    destruct Hw as (t & Ht & Hst). rewrite Ht.
    destruct (cancelled t || set_has index (acked t)) eqn:Hskip; [done|].
    apply orb_false_elim in Hskip as [Hc Hna%bool_decide_eq_false].
    destruct (setTimeout _ s1) as [s2 j] eqn:E.
    assert (inv s2 /\ objects s2 = objects s1) as [H2 Ho2].
    { injection E as <- <-. split; [|done]. apply (setTimeout_inv s1 (ack_timeout ref index (n + 1))); [done|].
      by exists t. }
    apply replace_steps; try done. by rewrite Ho2.
  - unfold on. destruct Hw as (t & Ht & _). rewrite Ht. by apply flag_steps.
Qed.

Lemma sender_step_inv s s' e : inv s -> step profile digest e s = Some s' -> inv s'.
Proof.
  intros Hinv Hs. destruct e; cbn [step] in Hs; try (injection Hs as <-).
  - destruct (fresh_id id s) eqn:Hf; [|done]. destruct (offer profile id f q s) eqn:Ho; injection Hs as <-; [|done].
    by eapply sender_offer_inv.
  - by apply startQueued_inv.
  - by apply sender_accept_inv.
  - by apply ack_inv.
  - by apply nack_inv.
  - by apply pause_inv.
  - by apply resume_inv.
  - by apply sender_cancel_inv.
  - by apply setGlobalPaused_inv.
  - by apply sender_remove_inv.
  - by apply sender_reset_inv.
  - destruct (waiting s !! i) as [w|] eqn:Hw; [|done]. injection Hs as <-. by apply goes_on_inv.
  - destruct (map_get id (timers s)) as [a|] eqn:Ha; [|done]. injection Hs as <-.
    destruct (clear_steps s (Some id) Hinv) as [H1 Ho].
    assert (timer_ok (objects s) (id, a)) as Hok.
    { destruct Hinv as (_ & _ & _ & _ & _ & Htim & _). rewrite Forall_forall in Htim.
      by apply Htim, map_get_In. }
    rewrite <- Ho in Hok.
    destruct a; cbn [fires timer_ok snd] in *; [apply scheduleRetry_steps|apply sendChunk_steps]; try done; apply H1.
Qed.

Lemma sender_run_inv es s s' : inv s -> run profile digest es s = Some s' -> inv s'.
Proof.
  revert s. induction es as [|e es IH]; intros s Hinv Hrun; cbn [run] in Hrun; [by simplify_eq|].
  destruct (step profile digest e s) as [s1|] eqn:Hs; [|done]. apply (IH s1); [by eapply sender_step_inv|done].
Qed.

Lemma sender_initial_inv : inv initial.
Proof.
  unfold inv, ids. cbn. split_and!; try done; (apply NoDup_nil_2 || apply map_ok_nil).
Qed.
End Invariant.

(** ** Theorems *)

Lemma file_policy_sane p (profile := getProfile p) :
  0 < chunkBytes (files profile) /\ 0 <= windowChunks (files profile) /\ 0 <= maxRetries (files profile).
Proof. by destruct p. Qed.

Lemma reachable_inv p digest es s :
  run (getProfile p) digest es initial = Some s -> inv (windowChunks (files (getProfile p))) s.
Proof.
  destruct (file_policy_sane p) as (H1 & H2 & H3). intros Hrun.
  eapply sender_run_inv; try done. by apply (sender_initial_inv (getProfile p) digest).
Qed.

(** The invariant through changes of the profile, with the largest window. *)
Definition max_window : Z := foldr Z.max 0 ((fun i => windowChunks (files (getProfile i))) <$> PROFILE_IDS).

Lemma window_bounded i : windowChunks (files (getProfile i)) <= max_window.
Proof. destruct i; vm_compute; discriminate. Qed.

Definition canonical (p : TransportProfile) : Prop := exists i, p = getProfile i.

Lemma sender_object_inv digest es o o' :
  canonical (o_profile o) -> inv max_window (o_state o) -> object_run digest es o = Some o' ->
  canonical (o_profile o') /\ inv max_window (o_state o').
Proof.
  revert o. induction es as [|e es IH]; intros o Hc Hinv H; cbn [object_run] in H; [by apply (inj Some) in H as <-|].
  destruct (object_step digest e o) as [x|] eqn:Hx; [|done]. apply (IH x); [..|done]; destruct e as [i|e]; cbn [object_step] in Hx.
  - apply (inj Some) in Hx as <-. by exists i.
  - destruct (step _ _ _ _); [|done]. by apply (inj Some) in Hx as <-.
  - by apply (inj Some) in Hx as <-.
  - destruct (step _ digest e (o_state o)) as [s|] eqn:Hs; [|done]. apply (inj Some) in Hx as <-. cbn [o_state].
    destruct Hc as [i Hc]. rewrite Hc in Hs. destruct (file_policy_sane i) as (H1 & H2 & H3).
    eapply (sender_step_inv (getProfile i) digest); try done. apply window_bounded.
Qed.

Lemma sender_object_reachable i digest es o :
  object_run digest es (new_object (getProfile i)) = Some o -> inv max_window (o_state o).
Proof.
  intros H. eapply sender_object_inv in H as [_ H]; [done|by exists i|].
  destruct (file_policy_sane i) as (H1 & H2 & H3).
  by apply (sender_initial_inv (getProfile i) digest max_window H1 H2 H3 (window_bounded i)).
Qed.

(** At every moment of every run, a transfer that was not cancelled has at
    most the window of the profile in flight, and each chunk it has started
    is in exactly one of the acknowledged and the in-flight sets: no chunk is
    lost, whatever the order of acknowledgements, timeouts, pauses and
    transport answers. *)
Theorem window_invariant p digest es s id ref t :
  run (getProfile p) digest es initial = Some s ->
  get id s = Some (ref, t) -> cancelled t = false ->
  zlength (inflight t) <= windowChunks (files (getProfile p)) /\
  nextIndex t <= totalChunks t /\
  forall i, 0 <= i < nextIndex t ->
    (i ∈ acked t /\ i ∉ map_keys (inflight t)) \/ (i ∉ acked t /\ i ∈ map_keys (inflight t)).
Proof.
  intros Hrun%reachable_inv Hg Hc. destruct (file_policy_sane p) as (H1 & H2 & H3).
  destruct (sender_get_inv (getProfile p) digest _ H1 H2 H3 (Z.le_refl _) _ _ _ _ Hrun Hg)
    as (_ & _ & _ & (_ & (Hn & _ & _ & _ & Hi) & _) & Hcov).
  destruct (Hcov Hc) as [Hall Hwin]. split_and!; [done|lia|]. intros i Hr.
  destruct (Hall i Hr) as [Ha|Hk].
  - left. split; [done|]. intros Hk. by apply Hi in Hk as [_ ?].
  - right. split; [by apply Hi in Hk as [_ ?]|done].
Qed.

(** A transfer is reported completed, and [file.complete] is sent, only
    when the peer has acknowledged every chunk of the file. *)
Theorem completed_means_acked p digest es s :
  run (getProfile p) digest es initial = Some s ->
  (forall ref t, objects s !! ref = Some t -> status t = completed ->
     forall i, 0 <= i < totalChunks t -> i ∈ acked t) /\
  (forall id sha lane, SSend (file_complete id sha) lane ∈ log s ->
     exists ref t, objects s !! ref = Some t /\ fileId t = id /\
       forall i, 0 <= i < totalChunks t -> i ∈ acked t).
Proof.
  intros Hrun%reachable_inv. destruct (file_policy_sane p) as (H1 & H2 & H3). split.
  - intros ref t Ht Hst. pose proof (sender_inv_obj (getProfile p) digest _ H1 H2 H3 (Z.le_refl _) _ _ _ Hrun Ht) as Hok.
    apply (acked_full (getProfile p) digest _ H1 H2 H3 (Z.le_refl _) t Hok). destruct Hok as (_ & _ & Hc). by rewrite Hc.
  - intros id sha lane Hin. destruct Hrun as (_ & _ & _ & _ & _ & _ & Hlog).
    rewrite Forall_forall in Hlog. apply Hlog in Hin as (ref & t & Ht & _ & -> & _ & Hall).
    by exists ref, t.
Qed.

(** ** A reset does not stop what is being read *)

Definition demo_file : File := {| file_name := js "a.bin"; file_type := []; file_content := [7; 8; 9] |}.
Definition demo_digest (b : bytes) : bytes := [zlength b].

Definition reset_while_reading : list Event :=
  [EOffer (js "f") demo_file false; EDone 0 true []; EDone 0 true []; EAccept (js "f");
   EReset; EDone 0 true []; EDone 0 false []; ETimer 0].


(** ** Witnesses *)

Definition send_small : list Event :=
  [EOffer (js "f") demo_file false; EDone 0 true []; EDone 0 true []; EAccept (js "f");
   EDone 0 true []; EDone 0 true []].
Definition send_acked : list Event := send_small ++ [EAck (js "f") 0].

Definition sender_after (es : list Event) : FileSender :=
  default initial (run profile_balanced demo_digest es initial).

Definition demo_transfer : Transfer :=
  match get (js "f") (sender_after send_small) with
  | Some (_, t) => t
  | None => new_transfer profile_balanced [] demo_file true
  end.

Lemma window_invariant_witness :
  zlength (inflight demo_transfer) <= windowChunks (files profile_balanced).
Proof.
  apply (window_invariant ProfileId.balanced demo_digest send_small (sender_after send_small) (js "f") 0);
    vm_compute; reflexivity.
Defined.

Lemma completed_means_acked_witness :
  exists ref t, objects (sender_after send_acked) !! ref = Some t /\ fileId t = js "f" /\
    forall i, 0 <= i < totalChunks t -> i ∈ acked t.
Proof.
  apply (proj2 (completed_means_acked ProfileId.balanced demo_digest send_acked (sender_after send_acked)
           ltac:(vm_compute; reflexivity)) (js "f") (Some (js "03")) Lane.control).
  apply (list_elem_of_lookup_2 _ 8). vm_compute. reflexivity.
Defined.
