(* ===== verification/FileTransfer.v ===== *)
(** * File transfer end to end

    The sender's messages are what the receiver's theorem asks of a peer, so
    the file that comes out is the file that went in. *)
From S2P Require Import Prelude JsMap Bytes Profiles Messages FileProtocol.
From S2P Require Import FileReceiver FileReceiverProps FileSender FileSenderProps.

(** How the session hands a message to the receiver. *)
Definition inbound (m : CoreAppMessage) : option Receiver.Event :=
  match m with
  | file_offer id nm mm sz cs total sha => Some (Receiver.EOffer id nm mm sz cs total sha)
  | file_chunk id index total data => Some (Receiver.EChunk id index total data)
  | file_complete id _ => Some (Receiver.ENotice id)
  | file_cancel id why => Some (Receiver.EPeerCancel id why)
  | _ => None
  end.

(** The receiver's inbound events come from messages of the sender. *)
Definition relayed (sent : list Sender.Output) (es : list Receiver.Event) : Prop :=
  Forall (fun e => Receiver.is_inbound e = true ->
            exists m lane, Sender.SSend m lane ∈ sent /\ inbound m = Some e) es.

Section EndToEnd.
Context (s : Sender.FileSender).
Hypothesis Hinv : FileSenderProps.inv max_window s.
Hypothesis Hbytes : forall ref t, Sender.objects s !! ref = Some t ->
  wf_bytes (file_content (Sender.file t)).
#[local] Set Default Proof Using "All".

Lemma same_object r1 t1 r2 t2 :
  Sender.objects s !! r1 = Some t1 -> Sender.objects s !! r2 = Some t2 ->
  Sender.fileId t1 = Sender.fileId t2 -> t1 = t2.
Proof.
  intros H1 H2 Heq. destruct Hinv as (Hids & _). unfold ids in Hids.
  apply NoDup_app in Hids as (Hnd & _).
  assert (r1 = r2) as ->; [|congruence].
  apply (NoDup_lookup (Sender.fileId <$> Sender.objects s) r1 r2 (Sender.fileId t1)); [done|..];
    rewrite list_lookup_fmap; [by rewrite H1|by rewrite H2, Heq].
Qed.

Lemma message_says m lane :
  Sender.SSend m lane ∈ Sender.log s ->
  exists ref t, Sender.objects s !! ref = Some t /\ FileSenderProps.says m lane t /\
    FileSenderProps.obj_ok t.
Proof.
  intros Hin. destruct Hinv as (_ & _ & _ & Hobj & _ & _ & Hlog). rewrite Forall_forall in Hlog.
  apply Hlog in Hin as (ref & t & Ht & Hs). exists ref, t. split_and!; [done|done|].
  rewrite Forall_lookup in Hobj. by eapply Hobj.
Qed.

(** What the sender says of an id is honest for the file it holds. *)
Lemma relayed_honest es ref t :
  relayed (Sender.log s) es -> Sender.objects s !! ref = Some t ->
  Forall (honest (Some (Sender.fileId t, file_content (Sender.file t), Sender.chunkSize t, Sender.sha256 t))) es.
Proof.
  intros Hrel Ht. eapply Forall_impl; [exact Hrel|]. intros e He.
  destruct e; try done; destruct (He eq_refl) as (m & lane & Hin & Hm);
    destruct (message_says m lane Hin) as (r & u & Hu & Hsays & Hok);
    destruct m; try done; injection Hm; intros; subst; cbn [honest expects says] in *.
  - intros Hid. destruct Hsays as (_ & Hidu & _ & _ & -> & -> & _ & ->).
    assert (u = t) as -> by (eapply same_object; eauto; congruence).
    destruct Hok as ((Hsz & _) & _). done.
  - intros Hid Hr. destruct Hsays as (_ & Hidu & _ & _ & ->).
    assert (u = t) as -> by (eapply same_object; eauto; congruence). split; [by eapply Hbytes|done].
Qed.

(** An id the sender never used is not the subject of any message. *)
Lemma unused_honest es id content c h :
  relayed (Sender.log s) es ->
  (forall ref t, Sender.objects s !! ref = Some t -> Sender.fileId t <> id) ->
  Forall (honest (Some (id, content, c, h))) es.
Proof.
  intros Hrel Hno. eapply Forall_impl; [exact Hrel|]. intros e He.
  destruct e; try done; destruct (He eq_refl) as (m & lane & Hin & Hm);
    destruct (message_says m lane Hin) as (r & u & Hu & Hsays & _);
    destruct m; try done; injection Hm; intros; subst; cbn [honest expects says] in *.
  - intros ->. destruct Hsays as (_ & Hidu & _). exfalso. by eapply Hno.
  - intros ->. destruct Hsays as (_ & Hidu & _). exfalso. by eapply Hno.
Qed.
End EndToEnd.

(** C2: end to end, every file the receiver hands to its application is the
    content of a file the sending side holds under that id, for every run of
    the two sides in which the inbound messages come from the peer: with any
    losses, duplicates and reordering, pauses, cancellations, resets and
    changes of the profile on either side. *)
Theorem file_end_to_end i j digest digest' es o es' o' f :
  Sender.object_run digest es (Sender.new_object (getProfile i)) = Some o ->
  (forall ref t, Sender.objects (Sender.o_state o) !! ref = Some t -> wf_bytes (file_content (Sender.file t))) ->
  Receiver.object_run digest' es' (Receiver.new_object (getProfile j)) = Some o' ->
  relayed (Sender.log (Sender.o_state o)) (Receiver.methods es') ->
  Receiver.RComplete f ∈ Receiver.log (Receiver.o_state o') ->
  exists ref t, Sender.objects (Sender.o_state o) !! ref = Some t /\ Sender.fileId t = Receiver.cf_fileId f /\
    Receiver.cf_blob f = file_content (Sender.file t).
Proof.
  intros Hs%FileSenderProps.sender_object_reachable Hb Hr Hrel Hf. set (s := Sender.o_state o) in *.
  assert (forall content c h, Forall (honest (Some (Receiver.cf_fileId f, content, c, h))) (Receiver.methods es') ->
    Receiver.cf_blob f = content) as Hblob.
  { intros content c h Hh.
    destruct (FileReceiverProps.receiver_object_reachable j digest' _ es' o' Hr Hh) as (_ & _ & _ & _ & _ & Hlog).
    rewrite Forall_forall in Hlog. destruct (Hlog _ Hf) as (_ & _ & Hexp). by apply Hexp. }
  destruct (decide (Receiver.cf_fileId f ∈ Sender.fileId <$> Sender.objects s)) as [Hin|Hno].
  - apply list_elem_of_fmap in Hin as (t & Hid & [ref Ht]%list_elem_of_lookup_1). exists ref, t.
    split_and!; [done|done|]. eapply Hblob. rewrite Hid. by eapply relayed_honest.
  - assert (forall ref t, Sender.objects s !! ref = Some t -> Sender.fileId t <> Receiver.cf_fileId f) as Hnone.
    { intros ref t Ht Hid. apply Hno. rewrite <- Hid. apply list_elem_of_fmap. exists t.
      split; [done|]. by eapply list_elem_of_lookup_2. }
    assert ([0] = [1] :> bytes) as Hbad; [|done].
    rewrite <- (Hblob [0] 0 None) by (by eapply unused_honest). apply (Hblob [1] 0 None).
    by eapply unused_honest.
Qed.

(** ** Witness: one small file goes through *)

Definition relayed_run : list Receiver.Event :=
  [Receiver.EOffer (js "f") (js "a.bin") (js "application/octet-stream") 3 (chunkBytes (files profile_balanced))
     1 (Some (js "03"));
   Receiver.EAccept (js "f"); Receiver.EAcceptDone 0 true;
   Receiver.EChunk (js "f") 0 1 (encodeChunk [7; 8; 9]); Receiver.EChunkDone; Receiver.EChunkDone].

(** The profile is changed on both sides before the transfer. *)
Definition sent_run : list Sender.ObjectEvent :=
  [Sender.ESetProfile ProfileId.low_data; Sender.ESetProfile ProfileId.balanced] ++
  (Sender.EMethod <$> FileSenderProps.send_acked).
Definition sent_state : Sender.Object :=
  default (Sender.new_object profile_balanced)
    (Sender.object_run FileSenderProps.demo_digest sent_run (Sender.new_object profile_balanced)).

Definition received_run : list Receiver.ObjectEvent :=
  Receiver.ESetProfile ProfileId.voice_first :: Receiver.ESetProfile ProfileId.balanced ::
  (Receiver.EMethod <$> relayed_run).
Definition received_state : Receiver.Object :=
  default (Receiver.new_object profile_balanced)
    (Receiver.object_run FileReceiverProps.demo_digest received_run (Receiver.new_object profile_balanced)).

Definition received_demo : Receiver.CompletedFile := {|
  Receiver.cf_fileId := js "f"; Receiver.cf_name := js "a.bin";
  Receiver.cf_mime := js "application/octet-stream"; Receiver.cf_size := 3;
  Receiver.cf_blob := [7; 8; 9] |}.

Lemma file_end_to_end_witness :
  exists ref t, Sender.objects (Sender.o_state sent_state) !! ref = Some t /\
    Sender.fileId t = js "f" /\ Receiver.cf_blob received_demo = file_content (Sender.file t).
Proof.
  apply (file_end_to_end ProfileId.balanced ProfileId.balanced FileSenderProps.demo_digest
           FileReceiverProps.demo_digest sent_run sent_state received_run received_state received_demo).
  - vm_compute. reflexivity.
  - intros [|ref] t; vm_compute; [|done]. intros [= <-]. repeat constructor; done.
  - vm_compute. reflexivity.
  - change (Receiver.methods received_run) with relayed_run. unfold relayed, relayed_run. repeat (apply Forall_cons; split); try done; intros _.
    + exists (file_offer (js "f") (js "a.bin") (js "application/octet-stream") 3
                (chunkBytes (files profile_balanced)) 1 (Some (js "03"))), Lane.control.
      split; [|reflexivity]. apply (list_elem_of_lookup_2 _ 1). vm_compute. reflexivity.
    + exists (file_chunk (js "f") 0 1 (encodeChunk [7; 8; 9])), Lane.file.
      split; [|reflexivity]. apply (list_elem_of_lookup_2 _ 4). vm_compute. reflexivity.
  - apply (list_elem_of_lookup_2 _ 6). vm_compute. reflexivity.
Defined.
