(* ===== verification/Audio.v ===== *)
(** * Voice buffers: [client/src/features/audio/]

    The playback jitter buffer, the bounded freshness queue, the voice
    activity gate and the PCM conversion. *)
From stdpp Require Import sorting.
From S2P Require Import Prelude JsMap.

(** ** [JitterBuffer.ts] *)
Module Jitter.
Section Jitter.
Context {T : Type} (seq : T -> Z).
#[local] Set Default Proof Using "All".

Record JitterBuffer := {
  maxFrames : Z;
  frames : jsmap Z T;
  expected : option Z;
}.

Definition set (m : jsmap Z T) (e : option Z) (b : JitterBuffer) : JitterBuffer :=
  {| maxFrames := maxFrames b; frames := m; expected := e |}.

(** [Math.min(...keys)] of a non-empty map. *)
Definition min_key (m : jsmap Z T) : Z :=
  match map_keys m with [] => 0 | k :: l => foldl Z.min k l end.

(** The eviction loop: one frame less per turn. *)
Fixpoint evict (fuel : nat) (max : Z) (m : jsmap Z T) (e : option Z) : jsmap Z T * option Z :=
  match fuel with
  | O => (m, e)
  | S fuel' =>
      if max <? zlength m then
        match m with
        | [] => (m, e)
        | _ =>
            let oldest := min_key m in
            evict fuel' max (map_delete oldest m)
              (match e with
               | Some x => if oldest =? x then Some (x + 1) else e
               | None => None
               end)
        end
      else (m, e)
  end.

Definition push (frame : T) (b : JitterBuffer) : JitterBuffer :=
  if match expected b with Some x => seq frame <? x | None => false end then b
  else
    let m := map_set (seq frame) frame (frames b) in
    let '(m, e) := evict (length m) (maxFrames b) m (expected b) in
    set m e b.

Definition pop (b : JitterBuffer) : JitterBuffer * option T :=
  match frames b with
  | [] => (b, None)
  | _ =>
      let x := match expected b with Some x => x | None => min_key (frames b) end in
      match map_get x (frames b) with
      | Some exact => (set (map_delete x (frames b)) (Some (x + 1)) b, Some exact)
      | None =>
          let oldest := min_key (frames b) in
          let x := if x <? oldest then oldest else x in
          match map_get oldest (frames b) with
          | Some frame => (set (map_delete oldest (frames b)) (Some (oldest + 1)) b, Some frame)
          | None => (set (frames b) (Some x) b, None)
          end
      end
  end.

Definition clear (b : JitterBuffer) : JitterBuffer := set [] None b.

Inductive Op := Push (frame : T) | Pop.

(** A run without [clear], with the frames it plays. *)
Fixpoint play (ops : list Op) (b : JitterBuffer) : list T :=
  match ops with
  | [] => []
  | Push f :: ops' => play ops' (push f b)
  | Pop :: ops' =>
      let '(b', o) := pop b in
      match o with Some f => f :: play ops' b' | None => play ops' b' end
  end.

Fixpoint final (ops : list Op) (b : JitterBuffer) : JitterBuffer :=
  match ops with
  | [] => b
  | Push f :: ops' => final ops' (push f b)
  | Pop :: ops' => final ops' (pop b).1
  end.

(** ** Invariant *)

Definition keyed (m : jsmap Z T) : Prop := Forall (fun p => seq p.2 = p.1) m.

Definition not_before (e : option Z) (k : Z) : Prop :=
  match e with Some x => x <= k | None => True end.

Definition inv (b : JitterBuffer) : Prop :=
  map_ok (frames b) /\ keyed (frames b) /\
  (forall k, k ∈ map_keys (frames b) -> not_before (expected b) k) /\
  zlength (frames b) <= Z.max 0 (maxFrames b).

Lemma foldl_min_le l k : foldl Z.min k l <= k /\ forall x, x ∈ l -> foldl Z.min k l <= x.
Proof.
  revert k. induction l as [|y l IH]; intros k; cbn [foldl]; [split; [lia|set_solver]|].
  destruct (IH (Z.min k y)) as [H1 H2]. split; [lia|].
  intros x [->|Hx]%elem_of_cons; [lia|by apply H2].
Qed.

Lemma foldl_min_in l k : foldl Z.min k l = k \/ foldl Z.min k l ∈ l.
Proof.
  revert k. induction l as [|y l IH]; intros k; cbn [foldl]; [by left|].
  destruct (IH (Z.min k y)) as [->|Hin]; [|right; set_solver].
  destruct (Z.min_spec k y) as [[_ ->]|[_ ->]]; set_solver.
Qed.

Lemma min_key_spec m :
  m <> [] -> min_key m ∈ map_keys m /\ forall k, k ∈ map_keys m -> min_key m <= k.
Proof.
  unfold min_key. destruct m as [|[k v] m]; [done|]. intros _.
  change (map_keys ((k, v) :: m)) with (k :: map_keys m).
  destruct (foldl_min_le (map_keys m) k) as [H1 H2]. split.
  - destruct (foldl_min_in (map_keys m) k) as [->|?]; set_solver.
  - intros x [->|Hx]%elem_of_cons; auto.
Qed.

Lemma keyed_delete k m : keyed m -> keyed (map_delete k m).
Proof.
  unfold keyed, map_delete. rewrite !Forall_forall. intros Hm p [_ Hp]%list_elem_of_filter. by apply Hm.
Qed.

Lemma keyed_set f m : keyed m -> keyed (map_set (seq f) f m).
Proof.
  unfold keyed. induction 1 as [|[k v] m Hp Hm IH]; cbn [map_set]; [by repeat constructor|].
  case_decide; constructor; done.
Qed.

Lemma keyed_get m k f : keyed m -> map_get k m = Some f -> seq f = k.
Proof. unfold keyed. rewrite Forall_forall. intros Hm Hg%map_get_In. exact (Hm _ Hg). Qed.

Lemma evict_spec fuel max m e m' e' :
  (length m <= fuel)%nat -> map_ok m -> keyed m -> (forall k, k ∈ map_keys m -> not_before e k) ->
  evict fuel max m e = (m', e') ->
  map_ok m' /\ keyed m' /\ (forall k, k ∈ map_keys m' -> not_before e' k) /\
  zlength m' <= Z.max 0 max /\
  (forall k, not_before e' k -> not_before e k) /\ (e = None -> e' = None).
Proof.
  revert m e. induction fuel as [|fuel IH]; intros m e Hlen Hok Hkey Hnb; cbn [evict].
  { intros [= <- <-]. split_and!; try done. unfold zlength. lia. }
  destruct (Z.ltb_spec max (zlength m)) as [Hover|Hfit].
  2: { intros [= <- <-]. split_and!; try done. lia. }
  destruct m as [|p m0] eqn:Hm; rewrite <- ?Hm in *.
  { intros [= <- <-]. split_and!; try done. rewrite Hm, zlength_nil. lia. }
  destruct (min_key_spec m) as [Hin Hmin]; [by subst|].
  set (e1 := match e with Some x => if min_key m =? x then Some (x + 1) else e | None => None end).
  intros He. apply IH in He as (H1 & H2 & H3 & H4 & H5 & H6).
  - split_and!; try done.
    + intros k Hk. apply H5 in Hk. unfold e1, not_before in *. destruct e as [x|]; [|done].
      destruct (min_key m =? x); lia.
    + intros ->. by apply H6.
  - assert (S (length (map_delete (min_key m) m)) = length m) as Hd; [|lia].
    apply map_size_delete; [done|]. by apply map_get_is_Some.
  - by apply map_ok_delete.
  - by apply keyed_delete.
  - intros k [Hne Hk]%elem_of_map_keys_delete. pose proof (Hmin k Hk). pose proof (Hnb k Hk) as Hb.
    unfold e1, not_before in *. destruct e as [x|]; [|done]. destruct (Z.eqb_spec (min_key m) x); lia.
Qed.

Lemma push_inv f b :
  inv b -> inv (push f b) /\ forall k, not_before (expected (push f b)) k -> not_before (expected b) k.
Proof.
  intros (Hok & Hkey & Hnb & Hlen). unfold push.
  destruct (match expected b with Some x => seq f <? x | None => false end) eqn:Hold; [done|].
  destruct (evict _ _ _ _) as [m e] eqn:He.
  apply evict_spec in He as (H1 & H2 & H3 & H4 & H5 & _); [done| |by apply map_ok_set|by apply keyed_set|].
  - done.
  - intros k [->|Hk]%elem_of_map_keys_set; [|by apply Hnb].
    unfold not_before. destruct (expected b); [|done]. bool_facts. lia.
Qed.

Lemma pop_inv b :
  inv b -> inv (pop b).1 /\
  match (pop b).2 with
  | Some f => not_before (expected b) (seq f) /\ expected (pop b).1 = Some (seq f + 1)
  | None => forall k, not_before (expected (pop b).1) k -> not_before (expected b) k
  end.
Proof.
  intros Hinv. pose proof Hinv as (Hok & Hkey & Hnb & Hlen). unfold pop.
  destruct (frames b) as [|p m0] eqn:Hm; [split; [exact Hinv|cbn; auto]|]. rewrite <- Hm in *.
  destruct (min_key_spec (frames b)) as [Hin Hmin]; [by rewrite Hm|].
  assert (forall k f, map_get k (frames b) = Some f -> (forall j, j ∈ map_keys (frames b) -> k <= j) ->
    inv (set (map_delete k (frames b)) (Some (k + 1)) b) /\
    not_before (expected b) (seq f) /\ Some (k + 1) = Some (seq f + 1)) as Htake.
  { intros k f Hf Hle. pose proof (keyed_get _ _ _ Hkey Hf) as Hs.
    assert (k ∈ map_keys (frames b)) as Hk by (apply map_get_is_Some; by eexists).
    split; [|split; [rewrite Hs; by apply Hnb|by rewrite Hs]].
    split_and!; cbn [set frames expected maxFrames].
    - by apply map_ok_delete.
    - by apply keyed_delete.
    - intros j [Hne Hj]%elem_of_map_keys_delete. pose proof (Hle j Hj). cbn. lia.
    - unfold zlength in *. pose proof (map_size_delete_le k (frames b)). lia. }
  set (x := match expected b with Some x => x | None => min_key (frames b) end).
  destruct (map_get x (frames b)) as [exact_|] eqn:Hx; cbn [fst snd].
  - apply Htake; [done|]. intros j Hj. unfold x. pose proof (Hnb j Hj) as Hb. unfold not_before in Hb.
    destruct (expected b); [done|by apply Hmin].
  - destruct (map_get (min_key (frames b)) (frames b)) as [f|] eqn:Hf; cbn [fst snd].
    + by apply Htake.
    + exfalso. apply map_get_None in Hf. done.
Qed.

Lemma play_sorted ops b :
  inv b -> inv (final ops b) /\
  StronglySorted Z.lt (seq <$> play ops b) /\ Forall (not_before (expected b)) (seq <$> play ops b).
Proof.
  revert b. induction ops as [|op ops IH]; intros b Hinv; cbn [play final fmap list_fmap].
  { split; [done|]. split; constructor. }
  destruct op as [f|].
  - destruct (push_inv f b Hinv) as [Hinv' Hnb]. destruct (IH _ Hinv') as (? & ? & Hf).
    split_and!; [done|done|]. eapply Forall_impl; [exact Hf|]. exact Hnb.
  - destruct (pop_inv b Hinv) as [Hinv' Hres]. destruct (IH _ Hinv') as (? & Hs & Hf).
    destruct (pop b) as [b' [f|]]; cbn [fst snd] in *.
    + destruct Hres as [Hf0 He]. rewrite He in Hf. cbn [fmap list_fmap]. split_and!; [done| |].
      * constructor; [done|]. eapply Forall_impl; [exact Hf|]. cbn. lia.
      * constructor; [done|]. eapply Forall_impl; [exact Hf|]. cbn. intros k Hk.
        unfold not_before in *. destruct (expected b); lia.
    + split_and!; [done|done|]. eapply Forall_impl; [exact Hf|]. exact Hres.
Qed.
End Jitter.
End Jitter.

(** Between two clears the jitter buffer plays frames in strictly
    increasing sequence order, whatever the order of arrival, the duplicates
    and the late frames, and never holds more than its maximum. *)
Theorem jitter_order {T} (seq : T -> Z) max ops (b := {| Jitter.maxFrames := max; Jitter.frames := [];
                                                       Jitter.expected := None |}) :
  StronglySorted Z.lt (seq <$> Jitter.play seq ops b) /\
  zlength (Jitter.frames (Jitter.final seq ops b)) <= Z.max 0 max.
Proof.
  assert (Jitter.inv seq b) as Hb.
  { split_and!; cbn; [apply map_ok_nil|constructor|set_solver|unfold zlength; cbn; lia]. }
  assert (forall ops b, Jitter.maxFrames (Jitter.final seq ops b) = Jitter.maxFrames b) as Hmax.
  { clear. induction ops as [|[f|] ops IH]; intros b; [done| |]; cbn [Jitter.final]; rewrite IH.
    - unfold Jitter.push. repeat case_match; done.
    - unfold Jitter.pop. repeat case_match; done. }
  destruct (Jitter.play_sorted seq ops b Hb) as ((_ & _ & _ & Hlen) & Hs & _).
  rewrite Hmax in Hlen. by split.
Qed.

(** ** [VoiceQueue.ts] *)
Module Fresh.
Section Fresh.
Context {T : Type}.

(** Times are milliseconds of the monotonic clock. *)
Record VoiceFreshnessQueue := {
  items : list (T * Z);
  maxFrames : Z;
  maxAgeMs : Z;
}.

Fixpoint trimOverflow (max : Z) (l : list (T * Z)) : list (T * Z) * Z :=
  match l with
  | [] => (l, 0)
  | _ :: l' =>
      if max <? zlength l then let '(r, d) := trimOverflow max l' in (r, d + 1) else (l, 0)
  end.

Definition with_items (l : list (T * Z)) (q : VoiceFreshnessQueue) : VoiceFreshnessQueue :=
  {| items := l; maxFrames := maxFrames q; maxAgeMs := maxAgeMs q |}.

Definition setLimits (frames age : Z) (q : VoiceFreshnessQueue) : VoiceFreshnessQueue * Z :=
  let max := Z.max 1 frames in
  let '(l, d) := trimOverflow max (items q) in
  ({| items := l; maxFrames := max; maxAgeMs := Z.max 1 age |}, d).

Definition create (frames age : Z) : VoiceFreshnessQueue :=
  (setLimits frames age {| items := []; maxFrames := frames; maxAgeMs := age |}).1.

Definition push (value : T) (now : Z) (q : VoiceFreshnessQueue) : VoiceFreshnessQueue * Z :=
  let '(l, d) := trimOverflow (maxFrames q) (items q ++ [(value, now)]) in (with_items l q, d).

Fixpoint drop_stale (now age : Z) (l : list (T * Z)) : list (T * Z) * Z :=
  match l with
  | [] => ([], 0)
  | (v, t) :: l' =>
      if age <? now - t then let '(r, d) := drop_stale now age l' in (r, d + 1) else (l, 0)
  end.

Definition shiftFresh (now : Z) (q : VoiceFreshnessQueue) : VoiceFreshnessQueue * option T * Z :=
  let '(l, d) := drop_stale now (maxAgeMs q) (items q) in
  match l with
  | [] => (with_items [] q, None, d)
  | (v, _) :: l' => (with_items l' q, Some v, d)
  end.

Definition clear (q : VoiceFreshnessQueue) : VoiceFreshnessQueue * Z :=
  (with_items [] q, zlength (items q)).

(** Both loops drop a prefix and count it. *)
Lemma trimOverflow_spec max l r d :
  trimOverflow max l = (r, d) ->
  exists pre, l = pre ++ r /\ d = zlength pre /\ zlength r <= Z.max 0 max /\
    (0 < d -> zlength r = Z.max 0 max).
Proof.
  revert r d. induction l as [|x l IH]; intros r d; cbn [trimOverflow].
  { intros [= <- <-]. exists []. split_and!; try done. rewrite zlength_nil. lia. }
  destruct (Z.ltb_spec max (zlength (x :: l))) as [Hover|Hfit].
  - destruct (trimOverflow max l) as [r' d'] eqn:E. intros [= <- <-].
    destruct (IH _ _ eq_refl) as (pre & -> & -> & Hr & Hfull). exists (x :: pre).
    rewrite !zlength_cons, ?zlength_app in *. pose proof (zlength_nonneg pre). split_and!; try (done || lia).
    intros _. destruct (decide (0 < zlength pre)); [by apply Hfull|]. pose proof (zlength_nonneg r'). lia.
  - intros [= <- <-]. exists []. split_and!; try done. lia.
Qed.

Lemma drop_stale_spec now age l r d :
  drop_stale now age l = (r, d) ->
  exists pre, l = pre ++ r /\ d = zlength pre /\ Forall (fun p => age < now - p.2) pre /\
    match r with [] => True | (_, t) :: _ => now - t <= age end.
Proof.
  revert r d. induction l as [|[v t] l IH]; intros r d; cbn [drop_stale].
  { intros [= <- <-]. by exists []. }
  destruct (Z.ltb_spec age (now - t)).
  - destruct (drop_stale now age l) as [r' d'] eqn:E. intros [= <- <-].
    destruct (IH _ _ eq_refl) as (pre & -> & -> & Hp & Hr). exists ((v, t) :: pre).
    rewrite zlength_cons. split_and!; try (done || lia). by constructor.
  - intros [= <- <-]. by exists [].
Qed.
End Fresh.
Arguments VoiceFreshnessQueue T : clear implicits.
End Fresh.

(** A push keeps the newest frames up to the maximum and reports how many
    of the oldest it dropped; a shift drops exactly the frames in front that
    are older than the limit and hands over the first fresh one, so nothing
    is lost uncounted, reordered, or delivered late. *)
Theorem freshness_queue {T} (q : Fresh.VoiceFreshnessQueue T) (v : T) (now : Z) :
  (exists pre, Fresh.items q ++ [(v, now)] = pre ++ Fresh.items (Fresh.push v now q).1 /\
     (Fresh.push v now q).2 = zlength pre /\
     zlength (Fresh.items (Fresh.push v now q).1) <= Z.max 0 (Fresh.maxFrames q)) /\
  exists pre, (Fresh.shiftFresh now q).2 = zlength pre /\
    Forall (fun p => Fresh.maxAgeMs q < now - p.2) pre /\
    match (Fresh.shiftFresh now q).1.2 with
    | Some x => exists t, now - t <= Fresh.maxAgeMs q /\
        Fresh.items q = pre ++ (x, t) :: Fresh.items (Fresh.shiftFresh now q).1.1
    | None => Fresh.items q = pre /\ Fresh.items (Fresh.shiftFresh now q).1.1 = []
    end.
Proof.
  split.
  - unfold Fresh.push. destruct (Fresh.trimOverflow _ _) as [r d] eqn:E.
    apply Fresh.trimOverflow_spec in E as (pre & Hl & -> & Hr & _). by exists pre.
  - unfold Fresh.shiftFresh. destruct (Fresh.drop_stale _ _ _) as [r d] eqn:E.
    apply Fresh.drop_stale_spec in E as (pre & Hl & -> & Hp & Hr). exists pre.
    destruct r as [|[x t] r]; cbn [fst snd Fresh.with_items Fresh.items]; split_and!; try done.
    + by rewrite app_nil_r in Hl.
    + by exists t.
Qed.

(** ** [VadGate.ts]

    The level of a frame is a floating-point computation over [Math.sqrt]
    and [Math.log10], which the language leaves approximate: the gate is
    modelled over what it compares, [levelDb >= startDb] and
    [levelDb >= stopDb]. *)
Module Vad.
Section Vad.
Context {F : Type} (above : Z -> F -> bool).   (* rmsDb(frame) >= threshold *)

Record VadConfig := {
  enabled : bool; startDb : Z; stopDb : Z;
  preRollFrames : Z; hangoverFrames : Z; minSpeechFrames : Z }.

Record VadGate := {
  speaking : bool;
  aboveStartFrames : Z;
  hangoverRemaining : Z;
  preRoll : list F;
}.

Record VadDecision := { d_send : bool; d_started : bool; d_stopped : bool; d_frames : list F }.

Definition reset : VadGate :=
  {| speaking := false; aboveStartFrames := 0; hangoverRemaining := 0; preRoll := [] |}.

(** [while (length > n) shift()]. *)
Fixpoint keep_last (n : Z) (l : list F) : list F :=
  match l with
  | [] => []
  | _ :: l' => if n <? zlength l then keep_last n l' else l
  end.

(** [[frame].slice(-n)]: a zero count keeps the frame. *)
Definition slice_last (n : Z) (frame : F) : list F := if n <? 0 then [] else [frame].

Definition decide_ (send started stopped : bool) (fs : list F) : VadDecision :=
  {| d_send := send; d_started := started; d_stopped := stopped; d_frames := fs |}.

Definition process (cfg : VadConfig) (frame : F) (g : VadGate) : VadGate * VadDecision :=
  if negb (enabled cfg) then (g, decide_ true false false [frame])
  else if negb (speaking g) then
    let roll := keep_last (preRollFrames cfg) (preRoll g ++ [frame]) in
    let n := if above (startDb cfg) frame then aboveStartFrames g + 1 else 0 in
    if minSpeechFrames cfg <=? n then
      ({| speaking := true; aboveStartFrames := 0; hangoverRemaining := hangoverFrames cfg;
          preRoll := [] |}, decide_ true true false roll)
    else
      ({| speaking := false; aboveStartFrames := n; hangoverRemaining := hangoverRemaining g;
          preRoll := roll |}, decide_ false false false [])
  else if above (stopDb cfg) frame then
    ({| speaking := true; aboveStartFrames := aboveStartFrames g;
        hangoverRemaining := hangoverFrames cfg; preRoll := preRoll g |},
     decide_ true false false [frame])
  else if 0 <? hangoverRemaining g then
    ({| speaking := true; aboveStartFrames := aboveStartFrames g;
        hangoverRemaining := hangoverRemaining g - 1; preRoll := preRoll g |},
     decide_ true false false [frame])
  else
    ({| speaking := false; aboveStartFrames := aboveStartFrames g;
        hangoverRemaining := hangoverRemaining g; preRoll := slice_last (preRollFrames cfg) frame |},
     decide_ false false true []).

(** The gate with its configuration. *)
Definition setConfig (cfg : VadConfig) (o : VadConfig * VadGate) : VadConfig * VadGate := (cfg, reset).

Definition framesFromMs (durationMs frameMs : Z) : Z :=
  if (durationMs <=? 0) || (frameMs <=? 0) then 0 else Z.max 1 (ceil_div durationMs frameMs).

(** The frames let through, and the gate afterwards. *)
Fixpoint run (cfg : VadConfig) (fs : list F) (g : VadGate) : VadGate * list F :=
  match fs with
  | [] => (g, [])
  | f :: fs' =>
      let '(g1, d) := process cfg f g in
      let '(g2, out) := run cfg fs' g1 in
      (g2, d_frames d ++ out)
  end.

Lemma keep_last_suffix n l : exists pre, l = pre ++ keep_last n l.
Proof using Type.
  induction l as [|x l [pre IH]]; [by exists []|]. cbn [keep_last].
  destruct (n <? _); [|by exists []]. exists (x :: pre). by rewrite <- app_comm_cons, <- IH.
Qed.

Definition silent_roll (g : VadGate) : Prop := speaking g = true -> preRoll g = [].

(** One frame: what goes out and what stays in the pre-roll comes from the
    old pre-roll and the frame, in order. *)
Lemma process_sublist cfg f g g' d :
  enabled cfg = true -> silent_roll g -> process cfg f g = (g', d) ->
  sublist (d_frames d ++ preRoll g') (preRoll g ++ [f]) /\ silent_roll g'.
Proof using Type.
  unfold process, silent_roll. intros -> Hroll Hp. cbn [negb] in Hp.
  destruct (keep_last_suffix (preRollFrames cfg) (preRoll g ++ [f])) as [pre Hk].
  destruct (speaking g) eqn:Hs; cbn [negb] in Hp.
  - rewrite (Hroll eq_refl) in *. cbn [app]. destruct (above (stopDb cfg) f).
    { injection Hp as <- <-. by split. }
    destruct (0 <? hangoverRemaining g).
    { injection Hp as <- <-. by split. }
    injection Hp as <- <-. cbn. unfold slice_last. split; [|done].
    destruct (_ <? 0); [apply sublist_nil_l|done].
  - destruct (_ <=? _); injection Hp as <- <-; cbn [d_frames decide_ preRoll speaking app];
      rewrite ?app_nil_r; (split; [|done]); rewrite Hk at 2; by apply sublist_inserts_l.
Qed.

Lemma run_sublist cfg fs g g' out :
  enabled cfg = true -> silent_roll g -> run cfg fs g = (g', out) ->
  sublist (out ++ preRoll g') (preRoll g ++ fs).
Proof using Type.
  intros He. revert g g' out. induction fs as [|f fs IH]; intros g g' out Hg Hr; cbn [run] in Hr.
  { injection Hr as <- <-. by rewrite app_nil_r. }
  destruct (process cfg f g) as [g1 d] eqn:Hp. destruct (run cfg fs g1) as [g2 o] eqn:Hrun.
  injection Hr as <- <-. destruct (process_sublist _ _ _ _ _ He Hg Hp) as [Hs Hg1].
  specialize (IH _ _ _ Hg1 Hrun). rewrite <- app_assoc.
  transitivity (d_frames d ++ preRoll g1 ++ fs); [by apply sublist_app|].
  rewrite app_assoc. change (f :: fs) with ([f] ++ fs). rewrite app_assoc. by apply sublist_app.
Qed.

Lemma process_quiet cfg f g :
  enabled cfg = true -> speaking g = true -> above (stopDb cfg) f = false ->
  process cfg f g =
    if 0 <? hangoverRemaining g
    then ({| speaking := true; aboveStartFrames := aboveStartFrames g;
             hangoverRemaining := hangoverRemaining g - 1; preRoll := preRoll g |},
          decide_ true false false [f])
    else ({| speaking := false; aboveStartFrames := aboveStartFrames g;
             hangoverRemaining := hangoverRemaining g; preRoll := slice_last (preRollFrames cfg) f |},
          decide_ false false true []).
Proof using Type. intros He Hs Ha. unfold process. by rewrite He, Hs, Ha. Qed.

Lemma run_hangover cfg fs f g :
  enabled cfg = true -> speaking g = true -> preRoll g = [] ->
  hangoverRemaining g = zlength fs -> Forall (fun x => above (stopDb cfg) x = false) (fs ++ [f]) ->
  (run cfg (fs ++ [f]) g).2 = fs /\ speaking (run cfg (fs ++ [f]) g).1 = false.
Proof using Type.
  intros He. revert g. induction fs as [|x fs IH]; intros g Hs Hr Hh Hall; cbn [app run] in *.
  - apply Forall_cons in Hall as [Hall _]. rewrite (process_quiet cfg f g He Hs Hall), Hh. done.
  - apply Forall_cons in Hall as [Hx Hall]. rewrite zlength_cons in Hh. pose proof (zlength_nonneg fs).
    rewrite (process_quiet cfg x g He Hs Hx). destruct (Z.ltb_spec 0 (hangoverRemaining g)); [|lia].
    edestruct (IH {| speaking := true; aboveStartFrames := aboveStartFrames g;
      hangoverRemaining := hangoverRemaining g - 1; preRoll := preRoll g |}) as [H1 H2];
      [done|done|cbn; lia|done|].
    destruct (run cfg (fs ++ [f]) _) as [g2 out]. cbn [fst snd d_frames decide_ app] in *. by rewrite H1.
Qed.
End Vad.
End Vad.

(** The frames the voice gate lets through are a subsequence of the
    captured ones, in order and each at most once, pre-roll included; and
    after the last frame above the stop level it lets exactly the hangover
    through and then closes. *)
Theorem vad_gate {F} (above : Z -> F -> bool) cfg :
  Vad.enabled cfg = true ->
  (forall fs, sublist (Vad.run above cfg fs Vad.reset).2 fs) /\
  (forall g fs f, Vad.speaking g = true -> Vad.preRoll g = [] ->
     Vad.hangoverRemaining g = zlength fs ->
     Forall (fun x => above (Vad.stopDb cfg) x = false) (fs ++ [f]) ->
     (Vad.run above cfg (fs ++ [f]) g).2 = fs /\
     Vad.speaking (Vad.run above cfg (fs ++ [f]) g).1 = false).
Proof.
  intros He. split.
  - intros fs. destruct (Vad.run above cfg fs Vad.reset) as [g out] eqn:Hr.
    apply Vad.run_sublist in Hr; [|done|done]. cbn [Vad.reset Vad.preRoll app snd] in *.
    transitivity (out ++ Vad.preRoll g); [by apply sublist_inserts_r|done].
  - intros g fs f. by apply Vad.run_hangover.
Qed.

Definition demo_vad : Vad.VadConfig := {| Vad.enabled := true; Vad.startDb := 5; Vad.stopDb := 3;
  Vad.preRollFrames := 2; Vad.hangoverFrames := 1; Vad.minSpeechFrames := 2 |}.

Lemma vad_gate_witness :
  sublist (Vad.run (fun t x : Z => t <=? x) demo_vad [1; 6; 7; 4; 0; 0; 1] Vad.reset).2
    [1; 6; 7; 4; 0; 0; 1].
Proof. apply (vad_gate (fun t x : Z => t <=? x) demo_vad). reflexivity. Defined.

Example vad_trace :
  (Vad.run (fun t x : Z => t <=? x) demo_vad [1; 6; 7; 4; 0; 0; 1] Vad.reset).2 = [6; 7; 4; 0].
Proof. reflexivity. Qed.

(** ** [pcm.ts]

    A sample is a 32-bit float: a rational [n / d], or not a number.  The
    products with [0x8000] and [0x7fff] and the quotient by [0x8000] are exact
    in double precision, so the rationals lose nothing. *)
Module Pcm.
Definition clamp (n d : Z) : Z := Z.max (- d) (Z.min d n).

(** [setInt16] truncates towards zero and takes the value modulo 2^16. *)
Definition to_int16 (z : Z) : Z := (z + 0x8000) mod 0x10000 - 0x8000.

Definition encode_sample (sample : option (Z * Z)) : Z :=
  match sample with
  | None => 0
  | Some (n, d) =>
      let c := clamp n d in
      to_int16 (if c <? 0 then Z.quot (c * 0x8000) d else Z.quot (c * 0x7fff) d)
  end.

Definition le16 (z : Z) : list Z := [z mod 256; (z / 256) mod 256].

Definition floatToPcm16 (input : list (option (Z * Z))) : list Z :=
  mjoin ((fun s => le16 (encode_sample s)) <$> input).

(** Samples of the result are [v / 0x8000]. *)
Fixpoint pcm16ToFloat (l : list Z) : list Z :=
  match l with
  | lo :: hi :: l' => to_int16 (lo + 256 * hi) :: pcm16ToFloat l'
  | _ => []
  end.

Lemma le16_inverse z : - 0x8000 <= z < 0x8000 -> to_int16 (z mod 256 + 256 * ((z / 256) mod 256)) = z.
Proof. intros Hz. unfold to_int16. Z.div_mod_to_equations. lia. Qed.

Lemma to_int16_id z : - 0x8000 <= z < 0x8000 -> to_int16 z = z.
Proof. intros Hz. unfold to_int16. Z.div_mod_to_equations. lia. Qed.

Lemma quot_bounds a d : 0 < d -> - d < a - Z.quot a d * d < d.
Proof.
  intros Hd. pose proof (Z.quot_rem' a d). pose proof (Z.rem_bound_abs a d ltac:(lia)). lia.
Qed.

Lemma encode_range s : match s with Some (n, d) => 0 < d | None => True end ->
  - 0x8000 <= encode_sample s < 0x8000.
Proof.
  destruct s as [[n d]|]; [|done]. intros Hd. unfold encode_sample, to_int16.
  pose proof (Z.mod_pos_bound ((if clamp n d <? 0 then Z.quot (clamp n d * 32768) d
    else Z.quot (clamp n d * 32767) d) + 32768) 65536 ltac:(lia)). lia.
Qed.

(** The step of the encoder is within two units of the exact sample. *)
Lemma encode_error n d :
  0 < d -> Z.abs (encode_sample (Some (n, d)) * d - clamp n d * 0x8000) <= 2 * d.
Proof.
  intros Hd. unfold encode_sample. assert (- d <= clamp n d <= d) as Hc by (unfold clamp; lia).
  set (c := clamp n d) in *. destruct (Z.ltb_spec c 0).
  - pose proof (quot_bounds (c * 0x8000) d Hd). rewrite to_int16_id by nia. nia.
  - pose proof (quot_bounds (c * 0x7fff) d Hd). rewrite to_int16_id by nia. nia.
Qed.
End Pcm.

(** Decoding an encoded block gives one sample per input sample, each
    within 2/32768 of the input clamped to [-1, 1]; what is not a number
    becomes silence. *)
Theorem pcm_roundtrip input :
  Forall (fun s : option (Z * Z) => match s with Some (_, d) => 0 < d | None => True end) input ->
  Forall2 (fun s v => match s with
                      | Some (n, d) => Z.abs (v * d - Pcm.clamp n d * 0x8000) <= 2 * d
                      | None => v = 0
                      end) input (Pcm.pcm16ToFloat (Pcm.floatToPcm16 input)).
Proof.
  induction 1 as [|s l Hs _ IH]; [constructor|].
  change (Pcm.floatToPcm16 (s :: l)) with (Pcm.le16 (Pcm.encode_sample s) ++ Pcm.floatToPcm16 l).
  cbn [Pcm.le16 app Pcm.pcm16ToFloat]. rewrite Pcm.le16_inverse by (by apply Pcm.encode_range).
  constructor; [|done]. destruct s as [[n d]|]; [by apply Pcm.encode_error|done].
Qed.

Lemma pcm_roundtrip_witness :
  Forall2 (fun s v => match s with
                      | Some (n, d) => Z.abs (v * d - Pcm.clamp n d * 0x8000) <= 2 * d
                      | None => v = 0
                      end) [Some (1, 2); None; Some (-3, 2)]
    (Pcm.pcm16ToFloat (Pcm.floatToPcm16 [Some (1, 2); None; Some (-3, 2)])).
Proof. apply pcm_roundtrip. by repeat constructor. Defined.
