(* ===== verification/Rooms.v ===== *)
(** * Room codes and identifiers: [client/src/utils/ids.ts],
    [client/src/protocol/rooms.ts], [client/src/features/text/TextService.ts]

    The server, [fetch] and [crypto.randomUUID] are outside: a response is an
    argument. *)
From S2P Require Import Prelude Profiles Messages FileProtocol.

(** ** Room codes *)

Definition is_code_char (c : Z) : bool := ((65 <=? c) && (c <=? 90)) || ((48 <=? c) && (c <=? 57)).

(** What [c.toUpperCase()] contributes to [[A-Z0-9]]: ASCII letters and
    digits, and the few other characters whose upper case has ASCII letters
    (dotless i, long s, sharp s, the Latin ligatures, and letters that expand
    to a base letter and a mark). *)
Definition upper_code (c : Z) : jstr :=
  if is_code_char c then [c]
  else if (97 <=? c) && (c <=? 122) then [c - 32]
  else if c =? 0xdf then js "SS"
  else if c =? 0x131 then js "I"
  else if c =? 0x149 then js "N"
  else if c =? 0x17f then js "S"
  else if c =? 0x1f0 then js "J"
  else if c =? 0x1e96 then js "H"
  else if c =? 0x1e97 then js "T"
  else if c =? 0x1e98 then js "W"
  else if c =? 0x1e99 then js "Y"
  else if c =? 0x1e9a then js "A"
  else if c =? 0xfb00 then js "FF"
  else if c =? 0xfb01 then js "FI"
  else if c =? 0xfb02 then js "FL"
  else if c =? 0xfb03 then js "FFI"
  else if c =? 0xfb04 then js "FFL"
  else if (c =? 0xfb05) || (c =? 0xfb06) then js "ST"
  else [].

Definition clean_code (value : jstr) : jstr := mjoin (upper_code <$> value).

Definition normalizeRoomCode (value : jstr) : jstr :=
  let clean := clean_code value in
  if zlength clean <=? 4 then clean
  else take 4 clean ++ js "-" ++ take 4 (drop 4 clean).

(** [roomCodeFromUrl] with the value of the [room] parameter, if any. *)
Definition roomCodeFromUrl (room : option jstr) : jstr := normalizeRoomCode (default [] room).

(** [makeId(prefix)] with the hyphen-free digits of the UUID. *)
Definition makeId (prefix uuid : jstr) : jstr :=
  prefix ++ js "_" ++ take 18 (filter (fun c => c <> 45) uuid).

Lemma upper_code_chars c : Forall (fun x => is_code_char x = true) (upper_code c).
Proof.
  unfold upper_code. destruct (is_code_char c) eqn:Hc; [by constructor|].
  destruct ((97 <=? c) && (c <=? 122)) eqn:Hl.
  { bool_facts. assert (is_code_char (c - 32) = true); [|by constructor]. unfold is_code_char.
    destruct (Z.leb_spec 65 (c - 32)), (Z.leb_spec (c - 32) 90); (done || lia). }
  repeat (case_match; [by repeat constructor|]). constructor.
Qed.

Lemma clean_code_chars v : Forall (fun x => is_code_char x = true) (clean_code v).
Proof.
  unfold clean_code. induction v as [|c v IH]; [constructor|].
  cbn [fmap list_fmap mjoin list_join]. apply Forall_app. split; [apply upper_code_chars|exact IH].
Qed.

Lemma clean_code_id v : Forall (fun x => is_code_char x = true) v -> clean_code v = v.
Proof.
  unfold clean_code. induction 1 as [|c v Hc _ IH]; [done|].
  cbn [fmap list_fmap mjoin list_join]. unfold upper_code at 1. rewrite Hc. cbn [app]. f_equal. exact IH.
Qed.

Lemma clean_code_app u v : clean_code (u ++ v) = clean_code u ++ clean_code v.
Proof. unfold clean_code. by rewrite fmap_app, join_app. Qed.

(** Normalising a room code is idempotent; the result has at most nine
    characters and is either at most four letters and digits, or two groups
    of them joined by a hyphen. *)
Theorem normalizeRoomCode_canonical v :
  normalizeRoomCode (normalizeRoomCode v) = normalizeRoomCode v /\
  zlength (normalizeRoomCode v) <= 9 /\
  exists a b, Forall (fun x => is_code_char x = true) (a ++ b) /\ zlength a <= 4 /\ zlength b <= 4 /\
    normalizeRoomCode v = a ++ (if truthy b then js "-" ++ b else []).
Proof.
  unfold normalizeRoomCode at 2 3 4 5. set (c := clean_code v).
  assert (Forall (fun x => is_code_char x = true) c) as Hc by apply clean_code_chars.
  destruct (Z.leb_spec (zlength c) 4) as [Hs|Hl].
  - split_and!; [|lia|].
    + unfold normalizeRoomCode. rewrite clean_code_id by done. destruct (Z.leb_spec (zlength c) 4); [done|lia].
    + exists c, []. rewrite !app_nil_r. split_and!; (done || lia).
  - set (a := take 4 c). set (b := take 4 (drop 4 c)).
    assert (zlength a = 4) as Ha by (unfold a, zlength in *; rewrite length_take; lia).
    assert (1 <= zlength b <= 4) as Hb by (unfold b, zlength in *; rewrite length_take, length_drop; lia).
    assert (Forall (fun x => is_code_char x = true) a) as Hca by (by apply Forall_take).
    assert (Forall (fun x => is_code_char x = true) b) as Hcb by (by apply Forall_take, Forall_drop).
    split_and!.
    + unfold normalizeRoomCode. rewrite !clean_code_app, (clean_code_id a), (clean_code_id b) by done.
      change (clean_code (js "-")) with (@nil Z). rewrite app_nil_l.
      rewrite zlength_app. destruct (Z.leb_spec (zlength a + zlength b) 4); [lia|].
      rewrite take_app_length', drop_app_length' by (unfold zlength in Ha; lia).
      by rewrite (take_ge b) by (unfold zlength in Hb; lia).
    + rewrite !zlength_app. change (zlength (js "-")) with 1. lia.
    + exists a, b. split_and!; [by apply Forall_app|lia|lia|].
      destruct b as [|x b']; [rewrite zlength_nil in Hb; lia|done].
Qed.

(** ** Room requests *)

Record RoomInfo := { room_code : jstr; room_profileId : TransportProfileId }.

(** What the page reads of a response; [None] is a failed [fetch]. *)
Record Response := {
  res_ok : bool; res_status : Z; res_text : jstr;
  res_code : option jstr; res_profileId : option jstr }.

Definition requestRoom (response : option Response) : result RoomInfo :=
  match response with
  | None => Throw (js "Could not reach the OnlyTwo relay")
  | Some r =>
      if negb (res_ok r) then
        if res_status r =? 404 then Throw (js "Room not found")
        else if res_status r =? 429 then Throw (js "Too many active rooms. Try again later.")
        else
          let message := trim (res_text r) in
          Throw (if truthy message then message else js "Room request failed")
      else
        match res_code r, res_profileId r with
        | Some code, Some pid =>
            match parseProfileId pid with
            | Some p =>
                if bool_decide (normalizeRoomCode code = code)
                then Ok {| room_code := code; room_profileId := p |}
                else Throw (js "Relay returned invalid room details")
            | None => Throw (js "Relay returned invalid room details")
            end
        | _, _ => Throw (js "Relay returned invalid room details")
        end
  end.

(** [post_room] answers the request for a new room with a profile. *)
Definition createRoom (post_room : TransportProfileId -> option Response) (profileId : TransportProfileId)
  : result RoomInfo := requestRoom (post_room profileId).

(** [fetch_room] answers the request for a code. *)
Definition lookupRoom (fetch_room : jstr -> option Response) (rawCode : jstr)
  : result RoomInfo :=
  let code := normalizeRoomCode rawCode in
  throw_if negb (zlength code =? 9) with js "Enter the full room code";
  requestRoom (fetch_room code).

(** Whatever the relay answers, a room that is created or found has a
    canonical code, so the code that is shown and shared is the one that
    joining asks for. *)
Theorem room_code_canonical response room :
  requestRoom response = Ok room -> normalizeRoomCode (room_code room) = room_code room.
Proof.
  unfold requestRoom. destruct response as [r|]; [|done]. destruct (negb (res_ok r)).
  { repeat case_match; done. }
  destruct (res_code r) as [code|]; [|done]. destruct (res_profileId r) as [pid|]; [|done].
  destruct (parseProfileId pid); [|done]. case_bool_decide as H; [|done]. intros [= <-]. exact H.
Qed.

(** ** Text messages *)

Definition createTextMessage (id : jstr) (now : Z) (body : jstr) : result CoreAppMessage :=
  throw_if negb (truthy body) || (MAX_TEXT_MESSAGE_CHARS <? zlength body)
    with js "Messages must be between 1 and " ++ js_int MAX_TEXT_MESSAGE_CHARS ++ js " characters";
  Ok (text_message id body now).

(** With a well-formed id and clock, a text message can be created exactly
    when the peer's decoder accepts it. *)
Theorem createTextMessage_valid id now body :
  str_in ID_MAX id = true -> timestamp_ok now = true ->
  createTextMessage id now body = Ok (text_message id body now) <->
  core_valid (text_message id body now) = true.
Proof.
  intros Hid Hn. unfold createTextMessage, core_valid. rewrite Hid, Hn, andb_true_r. cbn [andb].
  unfold str_in. destruct body as [|c body]; [done|]. cbn [truthy negb orb].
  destruct (Z.eqb_spec (zlength (c :: body)) 0) as [H0|_]; [by apply zlength_zero in H0|]. cbn [negb andb].
  destruct (Z.ltb_spec MAX_TEXT_MESSAGE_CHARS (zlength (c :: body))),
    (Z.leb_spec (zlength (c :: body)) MAX_TEXT_MESSAGE_CHARS); try lia; done.
Qed.

Lemma createTextMessage_valid_witness :
  createTextMessage (js "m") 5 (js "hi") = Ok (text_message (js "m") (js "hi") 5) <->
  core_valid (text_message (js "m") (js "hi") 5) = true.
Proof. apply createTextMessage_valid; reflexivity. Defined.

Example lookup_short fetch_room :
  lookupRoom fetch_room (js "abc1-2") = Throw (js "Enter the full room code").
Proof. reflexivity. Qed.

Example normalize_pasted : normalizeRoomCode (js " abcd 1234 ") = js "ABCD-1234".
Proof. reflexivity. Qed.
