(* ===== verification/Connection.v ===== *)
(** * Connection: [client/src/transport/WebSocketConnection.ts] and [metrics.ts]

    One connection object over a sequence of browser sockets: opening,
    reconnecting with backoff, the outgoing queue and its drain loop with
    backpressure, and the dispatch of incoming frames.

    The sockets the object has made are kept in a store, because a handler
    of an old socket can still run; [ws] refers to the current one.  What the
    browser does to a socket is an event: it opens, fails, starts to close,
    closes, receives, or changes its [bufferedAmount].  A socket follows the
    WebSocket standard: it opens only from [CONNECTING], a message is
    delivered only while it is [OPEN], the close event comes last, [send]
    throws only while it is [CONNECTING] and otherwise adds to
    [bufferedAmount].

    [drain] is cut at its await: [draining] is true between tasks exactly
    while a drain waits for its yield, and the event [DrainYield] resumes it.
    The rejection of a reconnecting [open] reaches its [catch] in a later
    microtask; [catches] counts those under way.  Callbacks are recorded in
    [log]; the calls they make are further events. *)
From S2P Require Import Prelude JsMap Bytes Utf8 Profiles Envelope RelayControl Scheduler.

(** ** Metrics *)

Inductive VoiceDropMetric :=
  before_encrypt | before_decrypt | browser_backpressure | playback_stale | playback_lead_reset.

Record TransportMetrics := {
  queuedPackets : Z;
  queuedBytes : Z;
  sentPackets : Z;
  sentBytes : Z;
  droppedVoiceFrames : Z;
  voiceDroppedBeforeEncrypt : Z;
  voiceDroppedBeforeDecrypt : Z;
  voiceDroppedBrowserBackpressure : Z;
  voiceDroppedPlaybackStale : Z;
  voicePlaybackLeadResets : Z;
  voiceQueuePeakFrames : Z;
  reconnects : Z;
  backpressurePauses : Z;
  lastError : option jstr;
  lanePackets : LaneName -> Z;
  laneBytes : LaneName -> Z;
}.

#[export] Instance TransportMetrics_eta : Eta TransportMetrics := fun m =>
  Build_TransportMetrics (queuedPackets m) (queuedBytes m) (sentPackets m) (sentBytes m)
    (droppedVoiceFrames m) (voiceDroppedBeforeEncrypt m) (voiceDroppedBeforeDecrypt m)
    (voiceDroppedBrowserBackpressure m) (voiceDroppedPlaybackStale m) (voicePlaybackLeadResets m)
    (voiceQueuePeakFrames m) (reconnects m) (backpressurePauses m) (lastError m)
    (lanePackets m) (laneBytes m).

Definition createTransportMetrics : TransportMetrics := {|
  queuedPackets := 0; queuedBytes := 0; sentPackets := 0; sentBytes := 0; droppedVoiceFrames := 0;
  voiceDroppedBeforeEncrypt := 0; voiceDroppedBeforeDecrypt := 0;
  voiceDroppedBrowserBackpressure := 0; voiceDroppedPlaybackStale := 0;
  voicePlaybackLeadResets := 0; voiceQueuePeakFrames := 0; reconnects := 0;
  backpressurePauses := 0; lastError := None;
  lanePackets := fun _ => 0; laneBytes := fun _ => 0;
|}.

(** ** Sockets, storage and outputs *)

Module Status.
Inductive ConnectionStatus := disconnected | connecting | connected | reconnecting | failed.
End Status.
Abbreviation ConnectionStatus := Status.ConnectionStatus.

Inductive ReadyState := CONNECTING | OPEN | CLOSING | CLOSED.

#[export] Instance ConnectionStatus_eq_dec : EqDecision ConnectionStatus.
Proof. solve_decision. Defined.
#[export] Instance ReadyState_eq_dec : EqDecision ReadyState.
Proof. solve_decision. Defined.

Definition VOICE_BROWSER_BUFFER_LIMIT_BYTES : Z := 64 * 1024.
Definition SLOT_STORAGE_PREFIX : jstr := js "onlytwo.slot.".
Definition SLOT_PROTOCOL_PREFIX : jstr := js "onlytwo-slot.".

(** A socket and the variables its handlers close over: [currentEpoch],
    [opened], [settled], and whether [open] was called to reconnect. *)
Record Socket := {
  so_epoch : Z;
  so_reconnecting : bool;
  readyState : ReadyState;
  bufferedAmount : Z;
  opened : bool;
  settled : bool;
}.

#[export] Instance Socket_eta : Eta Socket := fun s =>
  Build_Socket (so_epoch s) (so_reconnecting s) (readyState s) (bufferedAmount s) (opened s)
    (settled s).

(** [sessionStorage]; reading or writing may be forbidden and then throws. *)
Record SessionStorage := { items : jsmap jstr jstr; readable : bool; writable : bool }.

(** [window.location]. *)
Record Location := { loc_protocol : jstr; loc_host : jstr }.

(** What the object does, in order.  [OAccepted] and [OCleared] record what
    the queue was given and that it was emptied. *)
Inductive Output :=
| OStatus (status : ConnectionStatus)
| ORelay (event : RelayEvent)
| OEnvelope (env : Envelope)
| OMetrics (metrics : TransportMetrics)
| OConnect (url protocol : jstr)
| OWire (sid : nat) (packet : QueuedPacket) (buffered : Z)
| OCommand (sid : nat) (data : bytes)
| OResolved (epoch : Z)
| ORejected (epoch : Z) (error : jstr)
| OAccepted (packet : QueuedPacket)
| OCleared.

Record Connection := {
  ws : option nat;
  sockets : list Socket;
  scheduler : PacketScheduler;
  statusValue : ConnectionStatus;
  metricsValue : TransportMetrics;
  code : jstr;
  slotToken : jstr;
  epoch : Z;
  reconnectAttempts : Z;
  reconnectTimer : option nat;
  drainTimer : bool;
  intentionalClose : bool;
  draining : bool;
  profile : TransportProfile;
  storage : SessionStorage;
  armed : list (nat * Z);       (* reconnect timers under way: id and delay *)
  nextTimer : nat;
  catches : nat;
  log : list Output;
}.

#[export] Instance Connection_eta : Eta Connection := fun c =>
  Build_Connection (ws c) (sockets c) (scheduler c) (statusValue c) (metricsValue c) (code c)
    (slotToken c) (epoch c) (reconnectAttempts c) (reconnectTimer c) (drainTimer c)
    (intentionalClose c) (draining c) (profile c) (storage c) (armed c) (nextTimer c)
    (catches c) (log c).

Definition newConnection (p : TransportProfile) (st : SessionStorage) : Connection := {|
  ws := None; sockets := []; scheduler := newScheduler p; statusValue := Status.disconnected;
  metricsValue := createTransportMetrics; code := []; slotToken := []; epoch := 0;
  reconnectAttempts := 0; reconnectTimer := None; drainTimer := false; intentionalClose := false;
  draining := false; profile := p; storage := st; armed := []; nextTimer := 0; catches := 0;
  log := [];
|}.

Definition emit (o : Output) (c : Connection) : Connection := c <| log := log c ++ [o] |>.

(** ** Status, metrics and timers *)

Definition setStatus (status : ConnectionStatus) (c : Connection) : Connection :=
  if bool_decide (statusValue c = status) then c
  else emit (OStatus status) (c <| statusValue := status |>).

Definition emitRelay (event : RelayEvent) (c : Connection) : Connection := emit (ORelay event) c.

Definition emitMetrics (c : Connection) : Connection := emit (OMetrics (metricsValue c)) c.

Definition setLastError (e : jstr) (c : Connection) : Connection :=
  c <| metricsValue := (metricsValue c) <| lastError := Some e |> |>.

Definition setError (err : jstr) (c : Connection) : Connection := emitMetrics (setLastError err c).

Definition updateQueueMetrics (c : Connection) : Connection :=
  let s := snapshot (scheduler c) in
  emitMetrics (c <| metricsValue :=
    (metricsValue c) <| queuedPackets := snap_packets s |> <| queuedBytes := snap_bytes s |>
      <| lanePackets := snap_lanePackets s |> <| laneBytes := snap_laneBytes s |> |>).

Definition recordVoiceDrop (reason : VoiceDropMetric) (count : Z) (c : Connection) : Connection :=
  if count <=? 0 then c
  else
    let m := (metricsValue c) <| droppedVoiceFrames := droppedVoiceFrames (metricsValue c) + count |> in
    let m :=
      match reason with
      | before_encrypt => m <| voiceDroppedBeforeEncrypt := voiceDroppedBeforeEncrypt m + count |>
      | before_decrypt => m <| voiceDroppedBeforeDecrypt := voiceDroppedBeforeDecrypt m + count |>
      | browser_backpressure =>
          m <| voiceDroppedBrowserBackpressure := voiceDroppedBrowserBackpressure m + count |>
      | playback_stale => m <| voiceDroppedPlaybackStale := voiceDroppedPlaybackStale m + count |>
      | playback_lead_reset => m <| voicePlaybackLeadResets := voicePlaybackLeadResets m + count |>
      end in
    emitMetrics (c <| metricsValue := m |>).

Definition recordVoiceQueueSize (size : Z) (c : Connection) : Connection :=
  if size <=? voiceQueuePeakFrames (metricsValue c) then c
  else emitMetrics (c <| metricsValue := (metricsValue c) <| voiceQueuePeakFrames := size |> |>).

Definition clearReconnectTimer (c : Connection) : Connection :=
  match reconnectTimer c with
  | Some id => c <| armed := filter (fun t => t.1 <> id) (armed c) |> <| reconnectTimer := None |>
  | None => c
  end.

Definition clearDrainTimer (c : Connection) : Connection := c <| drainTimer := false |>.

Definition scheduleDrain (c : Connection) : Connection :=
  if drainTimer c then c else c <| drainTimer := true |>.

(** ** The socket *)

Definition set_socket (sid : nat) (so : Socket) (c : Connection) : Connection :=
  c <| sockets := <[sid := so]> (sockets c) |>.

(** [this.ws] when it is there and its [readyState] is [OPEN]. *)
Definition open_socket (c : Connection) : option (nat * Socket) :=
  match ws c with
  | Some sid =>
      match sockets c !! sid with
      | Some so => if bool_decide (readyState so = OPEN) then Some (sid, so) else None
      | None => None
      end
  | None => None
  end.

Definition ws_send (sid : nat) (data : bytes) (c : Connection) : result Connection :=
  match sockets c !! sid with
  | Some so =>
      throw_if bool_decide (readyState so = CONNECTING)
        with js "Failed to execute 'send' on 'WebSocket': Still in CONNECTING state.";
      Ok (set_socket sid (so <| bufferedAmount := bufferedAmount so + zlength data |>) c)
  | None => Ok c
  end.

(** [old.close()]: without effect on a socket that is closing or closed. *)
Definition ws_close (sid : nat) (c : Connection) : Connection :=
  match sockets c !! sid with
  | Some so =>
      match readyState so with
      | CONNECTING | OPEN => set_socket sid (so <| readyState := CLOSING |>) c
      | CLOSING | CLOSED => c
      end
  | None => c
  end.

Definition closeSocket (c : Connection) : Connection :=
  match ws c with
  | Some old => ws_close old (c <| ws := None |>)
  | None => c
  end.

Definition clearQueuedPackets (c : Connection) : Connection :=
  let c := clearDrainTimer c in
  let c := emit OCleared (c <| scheduler := clear (scheduler c) |>) in
  updateQueueMetrics c.

Definition forgetSlotToken (c : Connection) : Connection :=
  if truthy (code c) then
    let st := storage c in
    let c :=
      if writable st
      then c <| storage := {| items := map_delete (SLOT_STORAGE_PREFIX ++ code c) (items st);
                              readable := readable st; writable := writable st |} |>
      else c in
    c <| slotToken := [] |>
  else c.

Definition disconnect (forgetSlot : bool) (c : Connection) : Connection :=
  let c := c <| intentionalClose := true |> in
  let c := clearReconnectTimer c in
  let c := clearQueuedPackets c in
  let c := closeSocket c in
  let c := if forgetSlot then forgetSlotToken c else c in
  let c := setStatus Status.disconnected c in
  updateQueueMetrics c.

Definition endSession (c : Connection) : Connection * bool :=
  let current := open_socket c in
  let c := forgetSlotToken c in
  match current with
  | None => (c, false)
  | Some (sid, _) =>
      match ws_send sid encodeSessionEndCommand c with
      | Ok c => (emit (OCommand sid encodeSessionEndCommand) c, true)
      | Throw err => (setError err c, false)
      end
  end.

Definition canSendVoiceNow (c : Connection) : bool :=
  match open_socket c with
  | Some (_, so) => bufferedAmount so <=? VOICE_BROWSER_BUFFER_LIMIT_BYTES
  | None => false
  end.

(** ** The drain loop *)

(** The turns of the loop up to its await: [true] when it waits there,
    [false] when the loop was left.  A dropped voice frame continues without
    awaiting; every turn takes a packet, so fuel above the number of queued
    packets is enough. *)
Fixpoint drain_loop (fuel : nat) (c : Connection) : Connection * bool :=
  match fuel with
  | O => (c, false)
  | S fuel =>
      match open_socket c with
      | None => (c, false)
      | Some (sid, so) =>
          if maxBufferedAmountBytes (outbox (profile c)) <? bufferedAmount so then
            let m := metricsValue c in
            let m := m <| backpressurePauses := backpressurePauses m + 1 |> in
            (scheduleDrain (setLastError (js "browser_backpressure") (c <| metricsValue := m |>)),
             false)
          else
            let '(sched, taken) := next (scheduler c) in
            let c := c <| scheduler := sched |> in
            match taken with
            | None => (c, false)
            | Some packet =>
                if bool_decide (pkt_lane packet = Lane.voice) &&
                   (VOICE_BROWSER_BUFFER_LIMIT_BYTES <? bufferedAmount so)
                then drain_loop fuel (updateQueueMetrics (recordVoiceDrop browser_backpressure 1 c))
                else
                  match ws_send sid (pkt_bytes packet) c with
                  | Throw _ => (c, false)
                  | Ok c =>
                      let c := emit (OWire sid packet (bufferedAmount so)) c in
                      let m := metricsValue c in
                      let m := m <| sentPackets := sentPackets m + 1 |>
                                 <| sentBytes := sentBytes m + pkt_size packet |> in
                      let c := updateQueueMetrics (c <| metricsValue := m |>) in
                      if resumeBufferedAmountBytes (outbox (profile c))
                         <? bufferedAmount so + pkt_size packet
                      then (scheduleDrain c, false)
                      else (c, true)
                  end
            end
      end
  end.

Definition queued_count (s : PacketScheduler) : nat := length (queue_order s).

Definition drain_turn (c : Connection) : Connection :=
  match drain_loop (S (queued_count (scheduler c))) c with
  | (c, true) => c
  | (c, false) => emitMetrics (c <| draining := false |>)
  end.

Definition drain (c : Connection) : Connection :=
  if draining c || negb (bool_decide (is_Some (open_socket c))) then c
  else drain_turn ((clearDrainTimer c) <| draining := true |>).

(** ** Sending *)

Definition enqueue_packet (packet : QueuedPacket) (c : Connection) : Connection * bool :=
  let '(sched, r) := enqueue packet (scheduler c) in
  let c := c <| scheduler := sched |> in
  let c :=
    if (0 <? dropped r) && bool_decide (pkt_lane packet = Lane.voice)
    then c <| metricsValue :=
           (metricsValue c) <| droppedVoiceFrames := droppedVoiceFrames (metricsValue c) + dropped r |> |>
    else c in
  if ok r then (drain (updateQueueMetrics (emit (OAccepted packet) c)), true)
  else (emitMetrics (setLastError (default (js "enqueue_failed") (reason r)) c), false).

Definition send (env : Envelope) (c : Connection) : Connection * bool :=
  let refuse e := (recordVoiceDrop browser_backpressure 1 (setLastError e c), false) in
  let go :=
    match packEnvelope env (profile c) with
    | Throw err => (setError err c, false)
    | Ok data => enqueue_packet {| pkt_lane := env_lane env; pkt_bytes := data |} c
    end in
  if bool_decide (env_lane env = Lane.voice) then
    match open_socket c with
    | None => refuse (js "voice_transport_unavailable")
    | Some (_, so) =>
        if VOICE_BROWSER_BUFFER_LIMIT_BYTES <? bufferedAmount so
        then refuse (js "voice_browser_backpressure")
        else go
    end
  else go.

Definition setProfile (p : TransportProfile) (c : Connection) : Connection :=
  let c := c <| profile := p |> <| scheduler := Scheduler.setProfile p (scheduler c) |> in
  drain (updateQueueMetrics c).

(** ** Slot token and address *)

Definition is_hex_lower (u : Z) : bool :=
  ((97 <=? u) && (u <=? 102)) || ((48 <=? u) && (u <=? 57)).

(** [/^[a-f0-9]{32}$/]. *)
Definition is_slot_token (s : jstr) : bool := (zlength s =? 32) && forallb is_hex_lower s.

(** [crypto.randomUUID().replace(/-/g, "")]. *)
Definition strip_dashes (uuid : jstr) : jstr := filter (fun u => u <> 45) uuid.

(** [uuid1] is the id drawn inside the [try], [uuid2] the one of the
    [catch]. *)
Definition getOrCreateSlotToken (room uuid1 uuid2 : jstr) (st : SessionStorage)
  : SessionStorage * jstr :=
  let key := SLOT_STORAGE_PREFIX ++ room in
  if negb (readable st) then (st, strip_dashes uuid2)
  else
    let create :=
      let token := strip_dashes uuid1 in
      if writable st
      then ({| items := map_set key token (items st); readable := readable st;
               writable := writable st |}, token)
      else (st, strip_dashes uuid2) in
    match map_get key (items st) with
    | Some existing => if truthy existing && is_slot_token existing then (st, existing) else create
    | None => create
    end.

Definition is_uri_unreserved (b : Z) : bool :=
  ((65 <=? b) && (b <=? 90)) || ((97 <=? b) && (b <=? 122)) || ((48 <=? b) && (b <=? 57)) ||
  bool_decide (b ∈ js "-_.!~*'()").

Definition upper_hex (n : Z) : Z := if n <? 10 then 48 + n else 55 + n.

Definition percent_byte (b : Z) : jstr :=
  if is_uri_unreserved b then [b] else [37; upper_hex (b / 16); upper_hex (b mod 16)].

Definition encodeURIComponent (s : jstr) : result jstr :=
  throw_if negb (well_formed s) with js "URI malformed";
  Ok (mjoin (percent_byte <$> utf8Encode s)).

(** ** Opening and reconnecting *)

(** The promise of [open] rejects: [connect] passes that on to its caller,
    the reconnect timer to its [catch]. *)
Definition reject_open (reconnecting : bool) (e : Z) (err : jstr) (c : Connection) : Connection :=
  if reconnecting then c <| catches := S (catches c) |> else emit (ORejected e err) c.

Definition resolve_open (reconnecting : bool) (e : Z) (c : Connection) : Connection :=
  if reconnecting then c else emit (OResolved e) c.

(** [ctor] is what [new WebSocket] throws, if it does. *)
Definition open (loc : Location) (reconnecting : bool) (ctor : option jstr) (c : Connection)
  : Connection :=
  let currentEpoch := epoch c + 1 in
  let c := closeSocket (c <| epoch := currentEpoch |>) in
  let c := setStatus (if reconnecting then Status.reconnecting else Status.connecting) c in
  let proto := if bool_decide (loc_protocol loc = js "https:") then js "wss:" else js "ws:" in
  match encodeURIComponent (code c) with
  | Throw err => reject_open reconnecting currentEpoch err c
  | Ok escaped =>
      let url := proto ++ js "//" ++ loc_host loc ++ js "/ws?code=" ++ escaped in
      let c := emit (OConnect url (SLOT_PROTOCOL_PREFIX ++ slotToken c)) c in
      match ctor with
      | Some err => reject_open reconnecting currentEpoch err c
      | None =>
          let so := {| so_epoch := currentEpoch; so_reconnecting := reconnecting;
                       readyState := CONNECTING; bufferedAmount := 0; opened := false;
                       settled := false |} in
          c <| ws := Some (length (sockets c)) |> <| sockets := sockets c ++ [so] |>
      end
  end.

Definition connect (loc : Location) (room uuid1 uuid2 : jstr) (ctor : option jstr) (c : Connection)
  : Connection :=
  let '(st, token) := getOrCreateSlotToken room uuid1 uuid2 (storage c) in
  let c := c <| code := room |> <| storage := st |> <| slotToken := token |>
             <| intentionalClose := false |> <| reconnectAttempts := 0 |> in
  open loc false ctor c.

(** [base + Math.random() * jitterMs], as the whole milliseconds the timer
    waits; [rnd] is [p / q], the value of [Math.random()]. *)
Definition reconnectDelay (r : Reconnect) (rnd : Z * Z) (attempt : Z) : Z :=
  Z.min (baseDelayMs r * 2 ^ attempt) (maxDelayMs r) + rnd.1 * jitterMs r / rnd.2.

Definition scheduleReconnect (rnd : Z * Z) (c : Connection) : Connection :=
  if intentionalClose c then c
  else if maxAttempts (reconnect (profile c)) <=? reconnectAttempts c then
    let c := setStatus Status.failed c in
    emitMetrics (setLastError (js "reconnect_exhausted") c)
  else
    let delay := reconnectDelay (reconnect (profile c)) rnd (reconnectAttempts c) in
    let c := c <| reconnectAttempts := reconnectAttempts c + 1 |> in
    let c := c <| metricsValue := (metricsValue c) <| reconnects := reconnects (metricsValue c) + 1 |> |> in
    let c := emitMetrics (setStatus Status.reconnecting c) in
    c <| armed := armed c ++ [(nextTimer c, delay)] |> <| reconnectTimer := Some (nextTimer c) |>
      <| nextTimer := S (nextTimer c) |>.

(** The callback of a reconnect timer. *)
Definition reconnect_fired (loc : Location) (ctor : option jstr) (c : Connection) : Connection :=
  if intentionalClose c then c else open loc true ctor c.

(** ** Handlers of a socket *)

(** [resolveOnce] and [rejectOnce]. *)
Definition resolveOnce (sid : nat) (c : Connection) : Connection :=
  match sockets c !! sid with
  | Some so =>
      if settled so then c
      else resolve_open (so_reconnecting so) (so_epoch so)
             (set_socket sid (so <| settled := true |>) c)
  | None => c
  end.

Definition rejectOnce (sid : nat) (err : jstr) (c : Connection) : Connection :=
  match sockets c !! sid with
  | Some so =>
      if settled so then c
      else reject_open (so_reconnecting so) (so_epoch so) err
             (set_socket sid (so <| settled := true |>) c)
  | None => c
  end.

Definition onopen (sid : nat) (so : Socket) (c : Connection) : Connection :=
  if negb (epoch c =? so_epoch so) then c
  else
    let c := set_socket sid (so <| opened := true |>) c in
    let c := c <| reconnectAttempts := 0 |> in
    let c := setStatus Status.connected c in
    resolveOnce sid (drain c).

Definition onerror (sid : nat) (so : Socket) (c : Connection) : Connection :=
  if negb (opened so) && (epoch c =? so_epoch so)
  then rejectOnce sid (js "WebSocket connection failed") c else c.

Definition onclose (rnd : Z * Z) (sid : nat) (so : Socket) (closeCode : Z) (closeReason : jstr)
  (c : Connection) : Connection :=
  if negb (epoch c =? so_epoch so) then c
  else
    let c := if bool_decide (ws c = Some sid) then c <| ws := None |> else c in
    if negb (opened so) then
      rejectOnce sid (if truthy closeReason then closeReason
                      else js "WebSocket connection closed before opening") c
    else if (closeCode =? 4000) || bool_decide (closeReason = js "session ended") then
      let c := clearQueuedPackets (c <| intentionalClose := true |>) in
      setStatus Status.disconnected (emitRelay session_ended c)
    else if intentionalClose c then setStatus Status.disconnected c
    else scheduleReconnect rnd (clearQueuedPackets c).

(** [data] is [None] when the message is not an [ArrayBuffer]. *)
Definition onmessage (so : Socket) (data : option bytes) (c : Connection) : Connection :=
  match data with
  | None => c
  | Some data =>
      if negb (epoch c =? so_epoch so) then c
      else
        match decodeRelayEvent data with
        | Some event =>
            emitRelay event
              (match event with
               | session_ended => c <| intentionalClose := true |>
               | _ => c
               end)
        | None =>
            match unpackEnvelope data (profile c) with
            | Ok env => emit (OEnvelope env) c
            | Throw err => setError err c
            end
        end
  end.

(** ** Steps *)

Inductive Event :=
| CallConnect (room uuid1 uuid2 : jstr) (ctor : option jstr)
| CallDisconnect (forgetSlot : bool)
| CallEndSession
| CallSend (env : Envelope)
| CallSetProfile (p : TransportProfile)
| CallClearQueuedPackets
| CallRecordVoiceDrop (reason : VoiceDropMetric) (count : Z)
| CallRecordVoiceQueueSize (size : Z)
| SocketOpen (sid : nat)
| SocketError (sid : nat)
| SocketClosing (sid : nat)
| SocketClose (sid : nat) (closeCode : Z) (closeReason : jstr) (rnd : Z * Z)
| SocketMessage (sid : nat) (data : option bytes)
| SocketBuffered (sid : nat) (amount : Z)
| ReconnectTimer (id : nat) (ctor : option jstr)
| ReconnectCatch (rnd : Z * Z)
| DrainTimer
| DrainYield.

(** The socket of an event, if the browser can fire the event on it. *)
Definition with_socket (sid : nat) (possible : ReadyState -> bool) (c : Connection)
  (k : Socket -> Connection) : option Connection :=
  match sockets c !! sid with
  | Some so => if possible (readyState so) then Some (k so) else None
  | None => None
  end.

Definition is_connecting (r : ReadyState) : bool := bool_decide (r = CONNECTING).
Definition is_open (r : ReadyState) : bool := bool_decide (r = OPEN).
Definition not_closed (r : ReadyState) : bool := negb (bool_decide (r = CLOSED)).

(** [None] when the event cannot happen. *)
Definition step (loc : Location) (e : Event) (c : Connection) : option Connection :=
  match e with
  | CallConnect room uuid1 uuid2 ctor => Some (connect loc room uuid1 uuid2 ctor c)
  | CallDisconnect forgetSlot => Some (disconnect forgetSlot c)
  | CallEndSession => Some (endSession c).1
  | CallSend env => Some (send env c).1
  | CallSetProfile p => Some (setProfile p c)
  | CallClearQueuedPackets => Some (clearQueuedPackets c)
  | CallRecordVoiceDrop reason count => Some (recordVoiceDrop reason count c)
  | CallRecordVoiceQueueSize size => Some (recordVoiceQueueSize size c)
  | SocketOpen sid =>
      with_socket sid is_connecting c (fun so =>
        let so := so <| readyState := OPEN |> in onopen sid so (set_socket sid so c))
  | SocketError sid => with_socket sid (fun _ => true) c (fun so => onerror sid so c)
  | SocketClosing sid =>
      with_socket sid not_closed c (fun so => set_socket sid (so <| readyState := CLOSING |>) c)
  | SocketClose sid closeCode closeReason rnd =>
      with_socket sid not_closed c (fun so =>
        let so := so <| readyState := CLOSED |> in
        onclose rnd sid so closeCode closeReason (set_socket sid so c))
  | SocketMessage sid data => with_socket sid is_open c (fun so => onmessage so data c)
  | SocketBuffered sid amount =>
      match sockets c !! sid with
      | Some so =>
          if (0 <=? amount) && (amount <=? bufferedAmount so)
          then Some (set_socket sid (so <| bufferedAmount := amount |>) c) else None
      | None => None
      end
  | ReconnectTimer id ctor =>
      if bool_decide (id ∈ (armed c).*1)
      then Some (reconnect_fired loc ctor (c <| armed := filter (fun t => t.1 <> id) (armed c) |>))
      else None
  | ReconnectCatch rnd =>
      match catches c with
      | O => None
      | S n => Some (scheduleReconnect rnd (c <| catches := n |>))
      end
  | DrainTimer => if drainTimer c then Some (drain (c <| drainTimer := false |>)) else None
  | DrainYield => if draining c then Some (drain_turn c) else None
  end.

Fixpoint run (loc : Location) (es : list Event) (c : Connection) : option Connection :=
  match es with
  | [] => Some c
  | e :: es' => match step loc e c with Some c' => run loc es' c' | None => None end
  end.
