(* ===== verification/ConnectionProps.v ===== *)
(** * Properties of the connection

    Invariants of every run of [Connection]: one live socket, no lost
    wake-up of the drain loop, lanes that keep their order and lose nothing
    but by a clear, backpressure limits, closing for good, bounded
    reconnection and the slot token. *)
From S2P Require Import Prelude JsMap Bytes Utf8 Profiles Envelope RelayControl Scheduler Connection.

(** ** Operations that leave the sockets and the queue alone *)

Definition quiet_output (o : Output) : Prop :=
  match o with OWire _ _ _ | OAccepted _ | OCleared => False | _ => True end.

Record quiet (c c' : Connection) : Prop := {
  qt_ws : ws c' = ws c;
  qt_sockets : sockets c' = sockets c;
  qt_scheduler : scheduler c' = scheduler c;
  qt_epoch : epoch c' = epoch c;
  qt_draining : draining c' = draining c;
  qt_drainTimer : drainTimer c' = drainTimer c;
  qt_profile : profile c' = profile c;
  qt_sent : sentPackets (metricsValue c') = sentPackets (metricsValue c) /\
            sentBytes (metricsValue c') = sentBytes (metricsValue c);
  qt_log : exists l, log c' = log c ++ l /\ Forall quiet_output l;
}.

#[export] Instance quiet_preorder : PreOrder quiet.
Proof.
  split.
  - intros c. split; try done. exists []. by rewrite app_nil_r.
  - intros c1 c2 c3 [] []. split; try congruence.
    + destruct qt_sent0, qt_sent1. split; congruence.
    + destruct qt_log0 as (l & E & Hl), qt_log1 as (k & E' & Hk). exists (l ++ k).
      rewrite E', E, app_assoc. split; [done|]. by apply Forall_app.
Qed.

Ltac quiet_nolog := split; try done; exists []; by rewrite app_nil_r.

Lemma quiet_emit o c : quiet_output o -> quiet c (emit o c).
Proof. intros Ho. split; try done. exists [o]. by rewrite Forall_singleton. Qed.

Lemma quiet_metrics m c :
  sentPackets m = sentPackets (metricsValue c) -> sentBytes m = sentBytes (metricsValue c) ->
  quiet c (c <| metricsValue := m |>).
Proof. intros. quiet_nolog. Qed.

#[export] Hint Resolve quiet_emit quiet_metrics : onlytwo.

Lemma quiet_setStatus s c : quiet c (setStatus s c).
Proof.
  unfold setStatus. case_bool_decide; [done|].
  transitivity (c <| statusValue := s |>); [quiet_nolog|by apply quiet_emit].
Qed.

Lemma quiet_emitMetrics c : quiet c (emitMetrics c).
Proof. by apply quiet_emit. Qed.

Lemma quiet_setLastError e c : quiet c (setLastError e c).
Proof. by apply quiet_metrics. Qed.

Lemma quiet_setError e c : quiet c (setError e c).
Proof. unfold setError. etrans; [apply quiet_setLastError|apply quiet_emitMetrics]. Qed.

Lemma quiet_updateQueueMetrics c : quiet c (updateQueueMetrics c).
Proof. unfold updateQueueMetrics. etrans; [|apply quiet_emitMetrics]. by apply quiet_metrics. Qed.

Lemma quiet_recordVoiceDrop r n c : quiet c (recordVoiceDrop r n c).
Proof.
  unfold recordVoiceDrop. destruct (_ <=? _); [done|]. etrans; [|apply quiet_emitMetrics].
  destruct r; by apply quiet_metrics.
Qed.

Lemma quiet_recordVoiceQueueSize n c : quiet c (recordVoiceQueueSize n c).
Proof.
  unfold recordVoiceQueueSize. destruct (_ <=? _); [done|]. etrans; [|apply quiet_emitMetrics].
  by apply quiet_metrics.
Qed.

Lemma quiet_clearReconnectTimer c : quiet c (clearReconnectTimer c).
Proof. unfold clearReconnectTimer. destruct (reconnectTimer c); [quiet_nolog|done]. Qed.

Lemma quiet_forgetSlotToken c : quiet c (forgetSlotToken c).
Proof. unfold forgetSlotToken. destruct (truthy _); [|done]. destruct (writable _); quiet_nolog. Qed.

Lemma quiet_reject_open r e err c : quiet c (reject_open r e err c).
Proof. unfold reject_open. destruct r; [quiet_nolog|by apply quiet_emit]. Qed.

Lemma quiet_resolve_open r e c : quiet c (resolve_open r e c).
Proof. unfold resolve_open. destruct r; [done|by apply quiet_emit]. Qed.

#[export] Hint Resolve quiet_setStatus quiet_emitMetrics quiet_setLastError quiet_setError
  quiet_updateQueueMetrics quiet_recordVoiceDrop quiet_recordVoiceQueueSize
  quiet_clearReconnectTimer quiet_forgetSlotToken quiet_reject_open quiet_resolve_open : onlytwo.

Lemma quiet_scheduleReconnect rnd c : quiet c (scheduleReconnect rnd c).
Proof.
  unfold scheduleReconnect. destruct (intentionalClose c); [done|]. destruct (_ <=? _).
  - etrans; [apply quiet_setStatus|]. etrans; [apply quiet_setLastError|apply quiet_emitMetrics].
  - transitivity (c <| reconnectAttempts := reconnectAttempts c + 1 |>); [quiet_nolog|].
    etrans; [by apply (quiet_metrics ((metricsValue c) <| reconnects := reconnects (metricsValue c) + 1 |>))|].
    etrans; [apply (quiet_setStatus Status.reconnecting)|].
    etrans; [apply quiet_emitMetrics|]. quiet_nolog.
Qed.

#[export] Hint Resolve quiet_scheduleReconnect : onlytwo.

(** A property of a connection that only reads what quiet steps keep. *)
Class Stable (P : Connection -> Prop) := stable c c' : quiet c c' -> P c -> P c'.

Lemma quiet_open_socket c c' : quiet c c' -> open_socket c' = open_socket c.
Proof. intros []. unfold open_socket. by rewrite qt_ws0, qt_sockets0. Qed.

(** ** One live socket *)

Definition live (so : Socket) : Prop := readyState so = CONNECTING \/ readyState so = OPEN.

(** A socket that is not closing is the current one, the current one has the
    current epoch, and only the last socket made can have it. *)
Record one_socket (c : Connection) : Prop := {
  os_live : forall i so, sockets c !! i = Some so -> live so -> ws c = Some i;
  os_ws : forall i, ws c = Some i -> exists so, sockets c !! i = Some so /\ so_epoch so = epoch c;
  os_epoch : forall i so, sockets c !! i = Some so -> so_epoch so <= epoch c;
  os_last : forall i so, sockets c !! i = Some so -> so_epoch so = epoch c -> S i = length (sockets c);
  os_opened : forall i so, sockets c !! i = Some so -> readyState so = OPEN -> opened so = true;
  os_profile : sched_profile (scheduler c) = profile c;
}.

#[export] Instance one_socket_stable : Stable one_socket.
Proof.
  intros c c' [] []. split; rewrite ?qt_sockets0, ?qt_ws0, ?qt_epoch0, ?qt_scheduler0, ?qt_profile0;
    eauto.
Qed.

(** ** Small steps

    Every event is a sequence of the following changes, so an invariant is
    proved once for each of them.  [allowed] are the profiles the session may
    switch to. *)
Section Micro.
Context (allowed : TransportProfile -> Prop).

Inductive micro : Connection -> Connection -> Prop :=
| m_quiet c c' : quiet c c' -> micro c c'
| m_flags c d t : micro c (c <| draining := d |> <| drainTimer := t |>)
| m_socket c sid so so' :
    sockets c !! sid = Some so -> so_epoch so' = so_epoch so -> (live so' -> live so) ->
    (readyState so' = OPEN -> opened so' = true) ->
    micro c (set_socket sid so' c)
| m_detach c :
    (forall i so, ws c = Some i -> sockets c !! i = Some so -> ~ live so) ->
    micro c (c <| ws := None |>)
| m_epoch c : ws c = None -> micro c (c <| epoch := epoch c + 1 |>)
| m_attach c so :
    ws c = None -> so_epoch so = epoch c -> readyState so = CONNECTING ->
    (forall i s, sockets c !! i = Some s -> so_epoch s < epoch c) ->
    micro c (c <| ws := Some (length (sockets c)) |> <| sockets := sockets c ++ [so] |>)
| m_profile c p :
    allowed p ->
    micro c (c <| profile := p |> <| scheduler := Scheduler.setProfile p (scheduler c) |>)
| m_clear c : micro c (emit OCleared (c <| scheduler := clear (scheduler c) |>))
| m_accept c packet sched r :
    enqueue packet (scheduler c) = (sched, r) -> ok r = true ->
    micro c (emit (OAccepted packet) (c <| scheduler := sched |>))
| m_refuse c packet sched r :
    enqueue packet (scheduler c) = (sched, r) -> ok r = false ->
    micro c (c <| scheduler := sched |>)
| m_wire c sid so packet sched :
    open_socket c = Some (sid, so) -> next (scheduler c) = (sched, Some packet) ->
    bufferedAmount so <= maxBufferedAmountBytes (outbox (profile c)) ->
    (pkt_lane packet = Lane.voice -> bufferedAmount so <= VOICE_BROWSER_BUFFER_LIMIT_BYTES) ->
    micro c ((emit (OWire sid packet (bufferedAmount so)) (c <| scheduler := sched |>))
      <| metricsValue := (metricsValue c) <| sentPackets := sentPackets (metricsValue c) + 1 |>
           <| sentBytes := sentBytes (metricsValue c) + pkt_size packet |> |>)
| m_drop c packet sched :
    pkt_lane packet = Lane.voice -> next (scheduler c) = (sched, Some packet) ->
    micro c (c <| scheduler := sched |>).

Definition micros := star micro.

#[local] Instance micros_preorder : PreOrder micros.
Proof. split; [intros c; apply star_refl|intros c1 c2 c3; apply star_trans]. Qed.

Lemma micro_one c c' : micro c c' -> micros c c'.
Proof. apply star_one. Qed.

Lemma quiet_micros c c' : quiet c c' -> micros c c'.
Proof. intros. by apply micro_one, m_quiet. Qed.

Lemma micros_flags c d t : micros c (c <| draining := d |> <| drainTimer := t |>).
Proof. apply micro_one, m_flags. Qed.

Lemma micros_draining c d : micros c (c <| draining := d |>).
Proof. exact (micros_flags c d (drainTimer c)). Qed.

Lemma micros_drainTimer c t : micros c (c <| drainTimer := t |>).
Proof. exact (micros_flags c (draining c) t). Qed.

Lemma ws_send_Ok sid so data c :
  sockets c !! sid = Some so -> readyState so = OPEN ->
  ws_send sid data c = Ok (set_socket sid (so <| bufferedAmount := bufferedAmount so + zlength data |>) c).
Proof. intros Hs Ho. unfold ws_send. rewrite Hs, Ho. done. Qed.

Lemma open_socket_Some c sid so :
  open_socket c = Some (sid, so) -> ws c = Some sid /\ sockets c !! sid = Some so /\ readyState so = OPEN.
Proof.
  unfold open_socket. destruct (ws c) as [i|]; [|done]. destruct (sockets c !! i) as [s|] eqn:E; [|done].
  case_bool_decide; [|done]. intros [= -> ->]. done.
Qed.

Lemma sched_profile_clear s : sched_profile (clear s) = sched_profile s.
Proof. done. Qed.

Lemma sched_profile_enqueue packet s : sched_profile (enqueue packet s).1 = sched_profile s.
Proof.
  unfold enqueue. destruct (_ <? _); [done|].
  destruct (make_room _ _ _ _ _ _ _ _) as [[[[q tp] tb] d] room]. by destruct room.
Qed.

Lemma sched_profile_next s : sched_profile (next s).1 = sched_profile s.
Proof. unfold next. destruct (sort_lanes _ _); [done|]. by destruct (packets _). Qed.

(** Changing a socket the way its handlers and the browser do. *)
Lemma one_socket_set_socket sid so so' c :
  one_socket c -> sockets c !! sid = Some so -> so_epoch so' = so_epoch so ->
  (live so' -> live so) -> (readyState so' = OPEN -> opened so' = true) ->
  one_socket (set_socket sid so' c).
Proof.
  intros [] Hs He Hl Ho.
  assert (Hlk : forall i s, <[sid := so']> (sockets c) !! i = Some s ->
    (i = sid /\ s = so') \/ sockets c !! i = Some s).
  { intros i s. rewrite list_lookup_insert_Some. naive_solver. }
  split; cbn [set_socket update ws sockets epoch scheduler profile].
  - intros i s [[-> ->]|H]%Hlk; eauto.
  - intros i Hi. destruct (os_ws0 i Hi) as (s & Hs' & E). destruct (decide (i = sid)) as [->|].
    + exists so'. rewrite list_lookup_insert_eq by (by eapply lookup_lt_Some). split; [done|]. congruence.
    + exists s. by rewrite list_lookup_insert_ne.
  - intros i s [[-> ->]|H]%Hlk; [rewrite He|]; eauto.
  - intros i s [[-> ->]|H]%Hlk E; rewrite length_insert; [|by eauto].
    apply (os_last0 _ _ Hs). congruence.
  - intros i s [[-> ->]|H]%Hlk; eauto.
  - done.
Qed.

(** Changes that leave the sockets alone. *)
Lemma one_socket_same c c' :
  ws c' = ws c -> sockets c' = sockets c -> epoch c' = epoch c ->
  sched_profile (scheduler c') = profile c' ->
  one_socket c -> one_socket c'.
Proof. intros E1 E2 E3 E4 []. split; rewrite ?E1, ?E2, ?E3; eauto. Qed.

Lemma one_socket_attach c so :
  ws c = None -> so_epoch so = epoch c -> readyState so = CONNECTING ->
  (forall i s, sockets c !! i = Some s -> so_epoch s < epoch c) ->
  one_socket c ->
  one_socket (c <| ws := Some (length (sockets c)) |> <| sockets := sockets c ++ [so] |>).
Proof.
  intros Hw He Hr Hlt [].
  assert (Hlk : forall i s, (sockets c ++ [so]) !! i = Some s ->
    sockets c !! i = Some s \/ (i = length (sockets c) /\ s = so)).
  { intros i s [H|[Hl H]]%lookup_app_Some; [by left|]. apply list_lookup_singleton_Some in H as [Hi ->].
    right. split; [lia|done]. }
  split; cbn [update ws sockets epoch scheduler profile].
  - intros i s [H|[-> ->]]%Hlk Hl; [|done]. apply (os_live0 _ _ H) in Hl. congruence.
  - intros i [= <-]. exists so. split; [|done]. by rewrite list_lookup_middle.
  - intros i s [H|[-> ->]]%Hlk; [eauto|]. rewrite He. lia.
  - intros i s [H|[-> ->]]%Hlk E; rewrite length_app; cbn [length]; [|lia].
    apply Hlt in H. lia.
  - intros i s [H|[-> ->]]%Hlk Ho; [eauto|]. congruence.
  - done.
Qed.

Lemma one_socket_micro c c' : micro c c' -> one_socket c -> one_socket c'.
Proof.
  destruct 1; intros Ho.
  - by eapply one_socket_stable.
  - by eapply one_socket_same; [..|done]; try done; apply Ho.
  - by eapply one_socket_set_socket.
  - destruct Ho. split; cbn [update ws sockets epoch scheduler profile]; try done.
    intros i so Hs Hl. exfalso. eapply H; eauto.
  - destruct Ho. split; cbn [update ws sockets epoch scheduler profile]; try done.
    + intros i Hi. congruence.
    + intros i so Hs. apply os_epoch0 in Hs. lia.
    + intros i so Hs E. apply os_epoch0 in Hs. lia.
  - by apply one_socket_attach.
  - by eapply one_socket_same; [..|done].
  - by eapply one_socket_same; [..|done]; try done; apply Ho.
  - eapply one_socket_same; [..|done]; try done. cbn. rewrite <- (os_profile _ Ho).
    pose proof (sched_profile_enqueue packet (scheduler c)) as E. by rewrite H in E.
  - eapply one_socket_same; [..|done]; try done. cbn. rewrite <- (os_profile _ Ho).
    pose proof (sched_profile_enqueue packet (scheduler c)) as E. by rewrite H in E.
  - eapply one_socket_same; [..|done]; try done. cbn. rewrite <- (os_profile _ Ho).
    pose proof (sched_profile_next (scheduler c)) as E. by rewrite H0 in E.
  - eapply one_socket_same; [..|done]; try done. cbn. rewrite <- (os_profile _ Ho).
    pose proof (sched_profile_next (scheduler c)) as E. by rewrite H0 in E.
Qed.

Lemma one_socket_micros c c' : micros c c' -> one_socket c -> one_socket c'.
Proof. intros H. revert c c' H. apply star_invariant. intros c c' Hc Hm. by eapply one_socket_micro. Qed.

(** ** Every operation is a sequence of small steps *)

Lemma scheduleDrain_micros c : micros c (scheduleDrain c).
Proof. unfold scheduleDrain. destruct (drainTimer c); [done|apply micros_drainTimer]. Qed.

Lemma clearQueuedPackets_micros c : micros c (clearQueuedPackets c).
Proof.
  unfold clearQueuedPackets, clearDrainTimer. etrans; [apply (micros_drainTimer c false)|].
  etrans; [apply micro_one, m_clear|]. apply quiet_micros, quiet_updateQueueMetrics.
Qed.

(** One sent packet, as the loop does it. *)
Lemma wire_micros c sid so packet sched :
  one_socket c -> open_socket c = Some (sid, so) -> next (scheduler c) = (sched, Some packet) ->
  bufferedAmount so <= maxBufferedAmountBytes (outbox (profile c)) ->
  (pkt_lane packet = Lane.voice -> bufferedAmount so <= VOICE_BROWSER_BUFFER_LIMIT_BYTES) ->
  let c1 := set_socket sid (so <| bufferedAmount := bufferedAmount so + pkt_size packet |>)
              (c <| scheduler := sched |>) in
  micros c ((emit (OWire sid packet (bufferedAmount so)) c1)
    <| metricsValue := (metricsValue c1) <| sentPackets := sentPackets (metricsValue c1) + 1 |>
         <| sentBytes := sentBytes (metricsValue c1) + pkt_size packet |> |>).
Proof.
  intros Hc Hs Hn Hb Hv c1.
  pose proof (m_wire c sid so packet sched Hs Hn Hb Hv) as Hw. etrans; [apply micro_one, Hw|].
  apply open_socket_Some in Hs as (Hw' & Hs & Ho). apply micro_one.
  match goal with |- micro ?c2 _ =>
    change (micro c2 (set_socket sid (so <| bufferedAmount := bufferedAmount so + pkt_size packet |>) c2))
  end.
  eapply m_socket; [done|done|done|]. intros _. by apply (os_opened _ Hc _ _ Hs).
Qed.

Lemma drain_loop_micros fuel c : one_socket c -> micros c (drain_loop fuel c).1.
Proof.
  revert c. induction fuel as [|fuel IH]; intros c Hc; cbn [drain_loop]; [done|].
  destruct (open_socket c) as [[sid so]|] eqn:Hs; [|done].
  destruct (maxBufferedAmountBytes _ <? bufferedAmount so) eqn:Eb.
  { cbn [fst]. etrans; [|apply scheduleDrain_micros].
    etrans; [|apply quiet_micros, quiet_setLastError]. by apply quiet_micros, quiet_metrics. }
  destruct (next_cases (scheduler c)) as [[En _]|(lane & packet & rest & Hq & _ & En)].
  { rewrite En. cbn [fst]. apply quiet_micros. quiet_nolog. }
  rewrite En. cbv beta iota.
  destruct (bool_decide (pkt_lane packet = Lane.voice) && _) eqn:Ev.
  - bool_facts. pose proof (m_drop c packet _ ltac:(done) En) as Hd.
    assert (Hc1 := one_socket_micro _ _ Hd Hc).
    etrans; [apply micro_one, Hd|]. set (c1 := c <| scheduler := _ |>) in *.
    assert (Hq1 : quiet c1 (updateQueueMetrics (recordVoiceDrop browser_backpressure 1 c1))).
    { etrans; [apply quiet_recordVoiceDrop|apply quiet_updateQueueMetrics]. }
    etrans; [apply quiet_micros, Hq1|]. apply IH. by eapply one_socket_stable.
  - assert (Hv : pkt_lane packet = Lane.voice -> bufferedAmount so <= VOICE_BROWSER_BUFFER_LIMIT_BYTES).
    { intros Hl. rewrite bool_decide_true in Ev by done. simpl in Ev. by apply Z.ltb_ge in Ev. }
    apply Z.ltb_ge in Eb. pose proof (wire_micros c sid so packet _ Hc Hs En Eb Hv) as Hw. cbn zeta in Hw.
    apply open_socket_Some in Hs as (Hw' & Hs & Ho).
    rewrite (ws_send_Ok sid so) by done. cbv beta iota zeta.
    destruct (resumeBufferedAmountBytes _ <? _); cbn [fst]; (etrans; [apply Hw|]).
    + etrans; [apply quiet_micros, quiet_updateQueueMetrics|]. apply scheduleDrain_micros.
    + apply quiet_micros, quiet_updateQueueMetrics.
Qed.

Lemma drain_turn_micros c : one_socket c -> micros c (drain_turn c).
Proof.
  intros Hc. unfold drain_turn. pose proof (drain_loop_micros (S (queued_count (scheduler c))) c Hc) as H.
  destruct (drain_loop _ c) as [c' []]; [done|]. cbn [fst] in H. etrans; [apply H|].
  etrans; [apply (micros_draining c' false)|]. apply quiet_micros, quiet_emitMetrics.
Qed.

Lemma drain_micros c : one_socket c -> micros c (drain c).
Proof.
  intros Hc. unfold drain. destruct (_ || _); [done|].
  assert (Hf : micros c ((clearDrainTimer c) <| draining := true |>)).
  { unfold clearDrainTimer. exact (micros_flags c true false). }
  etrans; [apply Hf|]. apply drain_turn_micros. by eapply one_socket_micros.
Qed.

Lemma enqueue_packet_micros packet c : one_socket c -> micros c (enqueue_packet packet c).1.
Proof.
  intros Hc. unfold enqueue_packet. destruct (enqueue packet (scheduler c)) as [sched r] eqn:E.
  set (c2 := if _ && _ then _ else _).
  assert (Hq : quiet (c <| scheduler := sched |>) c2).
  { subst c2. destruct (_ && _); [by apply quiet_metrics|done]. }
  destruct (ok r) eqn:Eo; cbn [fst].
  - assert (Hm : micros c (emit (OAccepted packet) c2)).
    { etrans; [by eapply micro_one, m_accept|]. apply quiet_micros. destruct Hq. split; try done.
      destruct qt_log0 as (l & El & Hl). cbn in El |- *. subst c2.
      exists []. rewrite app_nil_r. by destruct (_ && _). }
    assert (Hm' : micros c (updateQueueMetrics (emit (OAccepted packet) c2))).
    { etrans; [apply Hm|]. apply quiet_micros, quiet_updateQueueMetrics. }
    etrans; [apply Hm'|]. apply drain_micros. by eapply one_socket_micros.
  - etrans; [by eapply micro_one, m_refuse|]. etrans; [apply quiet_micros, Hq|].
    etrans; [apply quiet_micros, quiet_setLastError|apply quiet_micros, quiet_emitMetrics].
Qed.

Lemma send_micros env c : one_socket c -> micros c (send env c).1.
Proof.
  intros Hc. unfold send.
  set (go := match packEnvelope _ _ with Ok _ => _ | Throw _ => _ end).
  assert (Hgo : micros c go.1).
  { subst go. destruct (packEnvelope _ _); [by apply enqueue_packet_micros|].
    apply quiet_micros, quiet_setError. }
  case_bool_decide; [|done].
  assert (Hr : forall e, micros c (recordVoiceDrop browser_backpressure 1 (setLastError e c))).
  { intros e. etrans; [apply quiet_micros, (quiet_setLastError e)|].
    apply quiet_micros, quiet_recordVoiceDrop. }
  destruct (open_socket c) as [[sid so]|]; [|apply Hr]. destruct (_ <? _); [apply Hr|done].
Qed.

Lemma setProfile_micros p c : allowed p -> one_socket c -> micros c (setProfile p c).
Proof.
  intros Ha Hc. unfold setProfile.
  assert (Hm : micros c (updateQueueMetrics
    (c <| profile := p |> <| scheduler := Scheduler.setProfile p (scheduler c) |>))).
  { etrans; [by apply micro_one, (m_profile c p)|]. apply quiet_micros, quiet_updateQueueMetrics. }
  etrans; [apply Hm|]. apply drain_micros. by eapply one_socket_micros.
Qed.

Lemma closeSocket_fields c :
  ws (closeSocket c) = None /\ intentionalClose (closeSocket c) = intentionalClose c /\
  epoch (closeSocket c) = epoch c.
Proof.
  unfold closeSocket, ws_close. destruct (ws c) as [i|] eqn:E; [|done].
  change (sockets (c <| ws := None |>)) with (sockets c).
  destruct (sockets c !! i) as [so|]; [|done]. by destruct (readyState so).
Qed.

(** Closing a socket before the reference to it is dropped, or after, is the
    same. *)
Lemma closeSocket_micros c : one_socket c -> micros c (closeSocket c) /\ ws (closeSocket c) = None.
Proof.
  intros Hc. unfold closeSocket. destruct (ws c) as [i|] eqn:Ew; [|done].
  destruct (os_ws _ Hc _ Ew) as (so & Hs & _). unfold ws_close.
  cbn [update sockets]. rewrite Hs.
  assert (Hdone : ~ live so -> micros c (c <| ws := None |>)).
  { intros Hl. apply micro_one, m_detach. intros j s. rewrite Ew. intros [= <-]. congruence. }
  assert (Hlive : live so -> micros c (set_socket i (so <| readyState := CLOSING |>) (c <| ws := None |>))).
  { intros Hl. assert (Hm : micro c (set_socket i (so <| readyState := CLOSING |>) c)).
    { by apply (m_socket c i so). }
    etrans; [apply micro_one, Hm|]. apply micro_one.
    change (micro (set_socket i (so <| readyState := CLOSING |>) c)
      ((set_socket i (so <| readyState := CLOSING |>) c) <| ws := None |>)).
    apply m_detach. cbn. intros j s. rewrite Ew. intros [= <-].
    rewrite list_lookup_insert_eq by (by eapply lookup_lt_Some). intros [= <-]. unfold live. cbn [update readyState]. naive_solver. }
  unfold live in *. destruct (readyState so); (split; [|done]); try (apply Hlive; naive_solver);
    apply Hdone; naive_solver.
Qed.

(** [open] opens a socket of a fresh epoch after closing the current one. *)
Lemma open_micros loc r ctor c : one_socket c -> micros c (open loc r ctor c).
Proof.
  intros Hc. destruct (closeSocket_micros c Hc) as [Hm Hw]. unfold open.
  destruct (closeSocket_fields c) as (_ & _ & Ee).
  assert (Ec : closeSocket (c <| epoch := epoch c + 1 |>) = (closeSocket c) <| epoch := epoch c + 1 |>).
  { unfold closeSocket, ws_close. change (ws (c <| epoch := epoch c + 1 |>)) with (ws c).
    destruct (ws c) as [n|]; [|done]. cbn [update sockets].
    destruct (sockets c !! n) as [so|]; [|done]. by destruct (readyState so). }
  rewrite Ec. pose proof (one_socket_micros _ _ Hm Hc) as Hc1.
  set (c1 := closeSocket c) in *. rewrite <- Ee.
  assert (Hm2 : micro c1 (c1 <| epoch := epoch c1 + 1 |>)) by by apply m_epoch.
  pose proof (one_socket_micro _ _ Hm2 Hc1) as Hc2.
  assert (Hold : forall i s, sockets c1 !! i = Some s -> so_epoch s < epoch c1 + 1).
  { intros i s Hs. pose proof (os_epoch _ Hc1 _ _ Hs). lia. }
  set (c2 := c1 <| epoch := epoch c1 + 1 |>) in *.
  etrans; [apply Hm|]. etrans; [apply micro_one, Hm2|].
  set (status := if r then _ else _). pose proof (quiet_setStatus status c2) as Hq.
  etrans; [apply quiet_micros, Hq|]. set (c3 := setStatus status c2) in *.
  destruct (encodeURIComponent _); [|apply quiet_micros, quiet_reject_open].
  set (o := OConnect _ _). etrans; [by apply quiet_micros, (quiet_emit o)|].
  destruct ctor; [apply quiet_micros, quiet_reject_open|].
  destruct Hq. apply micro_one, m_attach; cbn; rewrite ?qt_ws0, ?qt_epoch0, ?qt_sockets0; try done.
Qed.

Lemma quiet_connect_fields c room st token :
  quiet c (c <| code := room |> <| storage := st |> <| slotToken := token |>
             <| intentionalClose := false |> <| reconnectAttempts := 0 |>).
Proof. quiet_nolog. Qed.

Lemma connect_micros loc room u1 u2 ctor c : one_socket c -> micros c (connect loc room u1 u2 ctor c).
Proof.
  intros Hc. unfold connect. destruct (getOrCreateSlotToken _ _ _ _) as [st token].
  pose proof (quiet_connect_fields c room st token) as Hq.
  etrans; [apply quiet_micros, Hq|]. apply open_micros. by eapply one_socket_stable.
Qed.

Lemma disconnect_micros f c : one_socket c -> micros c (disconnect f c).
Proof.
  intros Hc. unfold disconnect.
  assert (Hm : micros c (clearQueuedPackets (clearReconnectTimer (c <| intentionalClose := true |>)))).
  { etrans; [|apply clearQueuedPackets_micros]. apply quiet_micros.
    etrans; [|apply quiet_clearReconnectTimer]. quiet_nolog. }
  etrans; [apply Hm|]. etrans; [apply closeSocket_micros; by eapply one_socket_micros|].
  etrans; [|apply quiet_micros, quiet_updateQueueMetrics].
  etrans; [|apply quiet_micros, quiet_setStatus].
  destruct f; [apply quiet_micros, quiet_forgetSlotToken|done].
Qed.

Lemma endSession_micros c : one_socket c -> micros c (endSession c).1.
Proof.
  intros Hc. unfold endSession. pose proof (quiet_forgetSlotToken c) as Hq.
  set (c1 := forgetSlotToken c) in *. pose proof (one_socket_stable _ _ Hq Hc) as Hc1.
  destruct (open_socket c) as [[sid so]|] eqn:Hs; cbn [fst]; [|by apply quiet_micros].
  rewrite <- (quiet_open_socket _ _ Hq) in Hs. apply open_socket_Some in Hs as (_ & Hs & Ho).
  rewrite (ws_send_Ok sid so) by done. cbn [fst]. etrans; [apply quiet_micros, Hq|].
  etrans; [|by apply quiet_micros, quiet_emit]. apply micro_one.
  apply (m_socket c1 sid so); try done. intros _. by apply (os_opened _ Hc1 _ _ Hs).
Qed.

(** A settled promise. *)
Lemma settle_micros sid so c :
  one_socket c -> sockets c !! sid = Some so -> micros c (set_socket sid (so <| settled := true |>) c).
Proof.
  intros Hc Hs. apply micro_one, (m_socket c sid so); try done. intros Ho. by apply (os_opened _ Hc _ _ Hs).
Qed.

Lemma resolveOnce_micros sid c : one_socket c -> micros c (resolveOnce sid c).
Proof.
  intros Hc. unfold resolveOnce. destruct (sockets c !! sid) as [so|] eqn:Hs; [|done].
  destruct (settled so); [done|]. etrans; [by apply (settle_micros sid so)|].
  apply quiet_micros, quiet_resolve_open.
Qed.

Lemma rejectOnce_micros sid err c : one_socket c -> micros c (rejectOnce sid err c).
Proof.
  intros Hc. unfold rejectOnce. destruct (sockets c !! sid) as [so|] eqn:Hs; [|done].
  destruct (settled so); [done|]. etrans; [by apply (settle_micros sid so)|].
  apply quiet_micros, quiet_reject_open.
Qed.

(** A socket that can still open is the current one. *)
Lemma connecting_current sid so c :
  one_socket c -> sockets c !! sid = Some so -> live so -> ws c = Some sid /\ so_epoch so = epoch c.
Proof.
  intros Hc Hs Hl. pose proof (os_live _ Hc _ _ Hs Hl) as Hw. split; [done|].
  destruct (os_ws _ Hc _ Hw) as (so' & Hs' & E). congruence.
Qed.

Lemma set_socket_twice sid so1 so2 c : set_socket sid so2 (set_socket sid so1 c) = set_socket sid so2 c.
Proof. unfold set_socket. cbn [update sockets]. by rewrite list_insert_insert_eq. Qed.

(** The state in which [onopen] calls [drain]. *)
Definition opening (sid : nat) (so : Socket) (c : Connection) : Connection :=
  setStatus Status.connected
    ((set_socket sid (so <| readyState := OPEN |> <| opened := true |>) c) <| reconnectAttempts := 0 |>).

Lemma opening_micros sid so c :
  one_socket c -> sockets c !! sid = Some so -> readyState so = CONNECTING ->
  micros c (opening sid so c).
Proof.
  intros Hc Hs Hr. unfold opening. etrans; [|apply quiet_micros, quiet_setStatus].
  assert (Hm : micro c (set_socket sid (so <| readyState := OPEN |> <| opened := true |>) c)).
  { apply (m_socket c sid so); try done. intros _. by left. }
  etrans; [apply micro_one, Hm|]. apply quiet_micros. quiet_nolog.
Qed.

Lemma onopen_eq sid so c :
  one_socket c -> sockets c !! sid = Some so -> readyState so = CONNECTING ->
  onopen sid (so <| readyState := OPEN |>) (set_socket sid (so <| readyState := OPEN |>) c) =
  resolveOnce sid (drain (opening sid so c)).
Proof.
  intros Hc Hs Hr. destruct (connecting_current _ _ _ Hc Hs (or_introl Hr)) as [_ E].
  unfold onopen. change (so_epoch (so <| readyState := OPEN |>)) with (so_epoch so).
  change (epoch (set_socket sid (so <| readyState := OPEN |>) c)) with (epoch c).
  rewrite E, Z.eqb_refl. cbn [negb].
  rewrite set_socket_twice. reflexivity.
Qed.

Lemma onopen_micros sid so c :
  one_socket c -> sockets c !! sid = Some so -> readyState so = CONNECTING ->
  micros c (onopen sid (so <| readyState := OPEN |>) (set_socket sid (so <| readyState := OPEN |>) c)).
Proof.
  intros Hc Hs Hr. rewrite onopen_eq by done.
  pose proof (opening_micros sid so c Hc Hs Hr) as H1.
  pose proof (drain_micros _ (one_socket_micros _ _ H1 Hc)) as H2.
  etrans; [apply H1|]. etrans; [apply H2|]. apply resolveOnce_micros.
  eapply one_socket_micros, Hc. etrans; [apply H1|apply H2].
Qed.

(** [onclose] up to the branch on [opened]. *)
Lemma closed_micros sid so c (so' := so <| readyState := CLOSED |>) :
  sockets c !! sid = Some so ->
  micros c (let c := set_socket sid so' c in if bool_decide (ws c = Some sid) then c <| ws := None |> else c).
Proof.
  intros Hs. assert (Hm : micro c (set_socket sid so' c)).
  { apply (m_socket c sid so); [done|done| |done]. subst so'. unfold live. cbn. naive_solver. }
  etrans; [apply micro_one, Hm|]. cbv zeta. case_bool_decide as Hw; [|done].
  apply micro_one, m_detach. intros i s Hi. rewrite Hw in Hi. injection Hi as <-.
  cbn. rewrite list_lookup_insert_eq by (by eapply lookup_lt_Some). intros [= <-].
  subst so'. unfold live. cbn. naive_solver.
Qed.

Lemma onclose_micros rnd sid so k reason c (so' := so <| readyState := CLOSED |>) :
  one_socket c -> sockets c !! sid = Some so ->
  micros c (onclose rnd sid so' k reason (set_socket sid so' c)).
Proof.
  intros Hc Hs. pose proof (closed_micros sid so c Hs) as Hm. cbv zeta in Hm. fold so' in Hm.
  unfold onclose. destruct (negb (_ =? _)).
  { apply micro_one, (m_socket c sid so); [done|done| |done]. subst so'. unfold live. cbn. naive_solver. }
  set (c1 := if bool_decide (ws (set_socket _ _ _) = _) then _ else _) in *.
  pose proof (one_socket_micros _ _ Hm Hc) as Hc1. etrans; [apply Hm|].
  destruct (negb (opened so')); [by apply rejectOnce_micros|].
  destruct (_ || _).
  { etrans; [|apply quiet_micros, quiet_setStatus]. etrans; [|by apply quiet_micros, quiet_emit].
    etrans; [|apply clearQueuedPackets_micros]. apply quiet_micros. quiet_nolog. }
  destruct (intentionalClose c1); [apply quiet_micros, quiet_setStatus|].
  etrans; [apply clearQueuedPackets_micros|]. apply quiet_micros, quiet_scheduleReconnect.
Qed.

Lemma onmessage_quiet so data c : quiet c (onmessage so data c).
Proof.
  unfold onmessage. destruct data as [data|]; [|done]. destruct (negb _); [done|].
  destruct (decodeRelayEvent data) as [e|].
  - destruct e; try (by apply quiet_emit).
    transitivity (c <| intentionalClose := true |>); [quiet_nolog|by apply quiet_emit].
  - destruct (unpackEnvelope _ _); [by apply quiet_emit|apply quiet_setError].
Qed.

Lemma with_socket_Some sid possible c k c' :
  with_socket sid possible c k = Some c' ->
  exists so, sockets c !! sid = Some so /\ possible (readyState so) = true /\ c' = k so.
Proof.
  unfold with_socket. destruct (sockets c !! sid) as [so|]; [|done].
  destruct (possible _) eqn:E; [|done]. intros [= <-]. eauto.
Qed.

Lemma reconnect_fired_micros loc ctor c : one_socket c -> micros c (reconnect_fired loc ctor c).
Proof. intros Hc. unfold reconnect_fired. destruct (intentionalClose c); [done|by apply open_micros]. Qed.

(** What the browser does to a socket, apart from opening and closing it. *)
Lemma browser_socket_micros sid so so' c :
  one_socket c -> sockets c !! sid = Some so -> so_epoch so' = so_epoch so -> opened so' = opened so ->
  readyState so' = readyState so \/ readyState so' = CLOSING ->
  micros c (set_socket sid so' c).
Proof.
  intros Hc Hs He Ho Hr. apply micro_one, (m_socket c sid so); [done|done| |].
  - unfold live. destruct Hr as [->| ->]; [done|]. naive_solver.
  - destruct Hr as [->| ->]; [|done]. rewrite Ho. intros. by apply (os_opened _ Hc _ _ Hs).
Qed.

Definition allowed_event (e : Event) : Prop :=
  match e with CallSetProfile p => allowed p | _ => True end.

Lemma step_micros loc e c c' :
  allowed_event e -> one_socket c -> step loc e c = Some c' -> micros c c'.
Proof.
  intros Ha Hc Hs. destruct e; cbn [step] in Hs; try (apply (inj Some) in Hs as <-).
  - by apply connect_micros.
  - by apply disconnect_micros.
  - by apply endSession_micros.
  - by apply send_micros.
  - by apply setProfile_micros.
  - apply clearQueuedPackets_micros.
  - apply quiet_micros, quiet_recordVoiceDrop.
  - apply quiet_micros, quiet_recordVoiceQueueSize.
  - apply with_socket_Some in Hs as (so & Hso & Hr & ->). unfold is_connecting in Hr. bool_facts.
    by apply onopen_micros.
  - apply with_socket_Some in Hs as (so & Hso & _ & ->). unfold onerror.
    destruct (_ && _); [by apply rejectOnce_micros|done].
  - apply with_socket_Some in Hs as (so & Hso & _ & ->).
    by apply (browser_socket_micros sid so); [..|right].
  - apply with_socket_Some in Hs as (so & Hso & _ & ->). by apply onclose_micros.
  - apply with_socket_Some in Hs as (so & Hso & _ & ->). apply quiet_micros, onmessage_quiet.
  - destruct (sockets c !! sid) as [so|] eqn:Hso; [|done]. destruct (_ && _); [|done].
    apply (inj Some) in Hs as <-. by apply (browser_socket_micros sid so); [..|left].
  - case_bool_decide; [|done]. apply (inj Some) in Hs as <-. set (c1 := c <| armed := _ |>).
    assert (Hq : quiet c c1) by quiet_nolog.
    etrans; [apply quiet_micros, Hq|]. apply reconnect_fired_micros. by eapply one_socket_stable.
  - destruct (catches c) as [|n]; [done|]. apply (inj Some) in Hs as <-. apply quiet_micros.
    transitivity (c <| catches := n |>); [quiet_nolog|apply quiet_scheduleReconnect].
  - destruct (drainTimer c); [|done]. apply (inj Some) in Hs as <-.
    pose proof (micros_drainTimer c false) as Hm. etrans; [apply Hm|].
    apply drain_micros. by eapply one_socket_micros.
  - destruct (draining c); [|done]. apply (inj Some) in Hs as <-. by apply drain_turn_micros.
Qed.

Lemma run_micros loc es c c' :
  Forall allowed_event es -> one_socket c -> run loc es c = Some c' -> micros c c'.
Proof.
  intros Ha. revert c. induction Ha as [|e es He _ IH]; intros c Hc; cbn [run]; [by intros [= <-]|].
  destruct (step loc e c) as [c1|] eqn:Hs; [|done]. intros Hr.
  pose proof (step_micros _ _ _ _ He Hc Hs) as Hm. etrans; [apply Hm|].
  apply IH; [|done]. by eapply one_socket_micros.
Qed.

End Micro.

Lemma one_socket_new p st : one_socket (newConnection p st).
Proof. by split. Qed.

Lemma any_event es : Forall (allowed_event (fun _ => True)) es.
Proof. apply Forall_true. by intros []. Qed.

Lemma one_socket_run loc es c c' : one_socket c -> run loc es c = Some c' -> one_socket c'.
Proof. intros Hc Hr. eapply one_socket_micros, Hc. by eapply run_micros; [apply any_event|..]. Qed.

(** ** What the lanes carry *)

Definition on_lane (lane : LaneName) (p : QueuedPacket) : option QueuedPacket :=
  if decide (pkt_lane p = lane) then Some p else None.

(** The packets of a lane that were taken into the queue, and those that were
    handed to a socket. *)
Definition accepted (lane : LaneName) (l : list Output) : list QueuedPacket :=
  omap (fun o => match o with OAccepted p => on_lane lane p | _ => None end) l.

Definition wired (lane : LaneName) (l : list Output) : list QueuedPacket :=
  omap (fun o => match o with OWire _ p _ => on_lane lane p | _ => None end) l.

(** The outputs after the last time the queue was emptied. *)
Definition since_clear (l : list Output) : list Output :=
  foldl (fun acc o => match o with OCleared => [] | _ => acc ++ [o] end) [] l.

Lemma since_clear_snoc l o :
  since_clear (l ++ [o]) = match o with OCleared => [] | _ => since_clear l ++ [o] end.
Proof. unfold since_clear. by rewrite foldl_app. Qed.

Lemma since_clear_quiet l k : Forall quiet_output k -> since_clear (l ++ k) = since_clear l ++ k.
Proof.
  intros Hk. induction k as [|o k IH] using rev_ind; [by rewrite !app_nil_r|].
  apply Forall_app in Hk as [Hk Ho]. rewrite Forall_singleton in Ho.
  rewrite app_assoc, since_clear_snoc, IH by done. destruct o; try done; by rewrite app_assoc.
Qed.

Lemma quiet_lane lane k : Forall quiet_output k -> accepted lane k = [] /\ wired lane k = [].
Proof.
  induction 1 as [|o k Ho _ [IH1 IH2]]; [done|]. unfold accepted, wired in *. simpl.
  destruct o; try done; by rewrite IH1, IH2.
Qed.

Lemma accepted_app lane l k : accepted lane (l ++ k) = accepted lane l ++ accepted lane k.
Proof. apply omap_app. Qed.

Lemma wired_app lane l k : wired lane (l ++ k) = wired lane l ++ wired lane k.
Proof. apply omap_app. Qed.

(** Lanes that refuse a packet rather than drop an older one. *)
Definition keeps (p : TransportProfile) : Prop :=
  forall lane, lane <> Lane.voice -> dropPolicy (lanes p lane) = drop_fail.

Definition queued (lane : LaneName) (c : Connection) : list QueuedPacket :=
  packets (queues (scheduler c) lane).

(** The contract of the outgoing path: a lane is a first-in first-out queue
    that never invents, repeats or reorders a packet; and all lanes but the
    voice lane lose nothing except when the queue is emptied. *)
Record lane_contract (c : Connection) : Prop := {
  lc_named : forall lane, Forall (fun p => pkt_lane p = lane) (queued lane c);
  lc_fifo : forall lane, sublist (wired lane (log c) ++ queued lane c) (accepted lane (log c));
  lc_lossless : forall lane, lane <> Lane.voice ->
    accepted lane (since_clear (log c)) = wired lane (since_clear (log c)) ++ queued lane c;
  lc_policy : keeps (sched_profile (scheduler c));
  lc_sent : sentPackets (metricsValue c) = sum_by (fun lane => zlength (wired lane (log c))) LANES /\
            sentBytes (metricsValue c) = sum_by (fun lane => sum_by pkt_size (wired lane (log c))) LANES;
}.

#[export] Instance lane_contract_stable : Stable lane_contract.
Proof.
  intros c c' [] []. destruct qt_log0 as (l & El & Hl), qt_sent0 as [E1 E2], lc_sent0 as [S1 S2].
  unfold queued in *.
  assert (Ha : forall lane, accepted lane l = [] /\ wired lane l = []) by (intros; by apply quiet_lane).
  assert (Hw : forall lane, wired lane (log c ++ l) = wired lane (log c)).
  { intros lane. rewrite wired_app, (proj2 (Ha lane)). apply app_nil_r. }
  split; rewrite ?El, ?E1, ?E2, ?since_clear_quiet by done; unfold queued; rewrite ?qt_scheduler0; try done.
  - intros lane. rewrite Hw, accepted_app, (proj1 (Ha lane)), app_nil_r. apply lc_fifo0.
  - intros lane Hlane. rewrite accepted_app, wired_app, (proj1 (Ha lane)), (proj2 (Ha lane)), !app_nil_r.
    by apply lc_lossless0.
  - rewrite S1, S2. unfold LANES. cbn [sum_by foldr]. by rewrite !Hw.
Qed.

Lemma enqueue_lane packet s sched r lane :
  enqueue packet s = (sched, r) ->
  exists k, packets (queues sched lane) =
      drop k (packets (queues s lane)) ++ (if ok r then option_list (on_lane lane packet) else []) /\
    (dropPolicy (lanes (sched_profile s) lane) = drop_fail -> k = 0%nat).
Proof.
  intros H. apply enqueue_cases in H as [(_ & -> & ->)|(_ & q' & tp & tb & k & room & Hm & _ & -> & _ & ->)].
  { exists 0%nat. by rewrite drop_0, app_nil_r. }
  unfold on_lane. destruct Hm as [_ Hp _ _ _ _ Hpol _ _].
  destruct (decide (pkt_lane packet = lane)) as [<-|Hne].
  - exists k. split.
    + destruct room; rewrite queues_set_queue, decide_True by done; cbn [packets option_list];
        by rewrite Hp, ?app_nil_r.
    + intros Hd. apply Hpol. by rewrite Hd.
  - exists 0%nat. split; [|done]. rewrite drop_0.
    destruct room; rewrite queues_set_queue, decide_False by done; by rewrite app_nil_r.
Qed.

Lemma next_lane s sched packet :
  (forall lane, Forall (fun p => pkt_lane p = lane) (packets (queues s lane))) ->
  next s = (sched, Some packet) ->
  forall lane, packets (queues s lane) = option_list (on_lane lane packet) ++ packets (queues sched lane).
Proof.
  intros Hn E lane. destruct (next_cases s) as [[E' _]|(l & k & rest & Hq & _ & E')]; [by rewrite E' in E|].
  rewrite E' in E. injection E as <- ->. rewrite queues_set_queue.
  pose proof (Hn l) as Hl. rewrite Hq in Hl. inversion Hl as [|? ? Hk _]; subst. unfold on_lane.
  destruct (decide (lane = pkt_lane packet)) as [->|Hne].
  - by rewrite decide_True.
  - by rewrite decide_False.
Qed.

Lemma queues_clear s lane : packets (queues (clear s) lane) = [].
Proof. by destruct lane. Qed.

(** Emptying the queue. *)
Lemma lane_contract_clear c :
  lane_contract c -> lane_contract (emit OCleared (c <| scheduler := clear (scheduler c) |>)).
Proof.
  intros []. destruct lc_sent0.
  assert (Hw : forall lane, wired lane (log c ++ [OCleared]) = wired lane (log c)).
  { intros lane. by rewrite wired_app, app_nil_r. }
  split; unfold queued in *; cbn [emit update log scheduler metricsValue].
  - intros lane. by rewrite queues_clear.
  - intros lane. rewrite Hw, accepted_app, !app_nil_r, queues_clear, app_nil_r.
    etrans; [|apply lc_fifo0]. apply sublist_inserts_r. done.
  - intros lane _. by rewrite since_clear_snoc, queues_clear.
  - done.
  - unfold LANES in *. cbn [sum_by foldr] in *. rewrite !Hw. by split.
Qed.

(** Taking a packet into the queue, or refusing it. *)
Lemma lane_contract_enqueue c packet sched r (c1 := c <| scheduler := sched |>) :
  enqueue packet (scheduler c) = (sched, r) -> lane_contract c ->
  lane_contract (if ok r then emit (OAccepted packet) c1 else c1).
Proof.
  intros E []. destruct lc_sent0.
  assert (Ep : sched_profile sched = sched_profile (scheduler c)).
  { pose proof (sched_profile_enqueue packet (scheduler c)) as Ep. by rewrite E in Ep. }
  pose proof (fun lane => enqueue_lane _ _ _ _ lane E) as HE. unfold queued in *.
  assert (Hnil : forall lane, wired lane (log c ++ [OAccepted packet]) = wired lane (log c)).
  { intros lane. by rewrite wired_app, app_nil_r. }
  assert (Hac : forall lane l, accepted lane (l ++ [OAccepted packet]) =
                          accepted lane l ++ option_list (on_lane lane packet)).
  { intros lane l. rewrite accepted_app. unfold accepted at 2. simpl. by destruct (on_lane lane packet). }
  assert (Hnamed : forall lane, Forall (fun p => pkt_lane p = lane) (option_list (on_lane lane packet))).
  { intros lane. unfold on_lane. case_decide; [|done]. by apply Forall_singleton. }
  destruct (ok r); split; unfold queued; subst c1; cbn [emit update log scheduler metricsValue];
    rewrite ?Ep; try done; try (intros lane; destruct (HE lane) as (k & -> & Hk)).
  - apply Forall_app. split; [by apply Forall_drop|done].
  - rewrite Hnil, Hac, app_assoc. apply sublist_app; [|done]. etrans; [|apply lc_fifo0].
    apply sublist_app; [done|apply sublist_drop].
  - intros Hv. rewrite since_clear_snoc, Hac, wired_app, app_nil_r, lc_lossless0 by done.
    rewrite Hk by (by apply lc_policy0). by rewrite drop_0, app_assoc.
  - unfold LANES in *. cbn [sum_by foldr] in *. rewrite !Hnil. by split.
  - rewrite app_nil_r. by apply Forall_drop.
  - rewrite app_nil_r. etrans; [|apply lc_fifo0]. apply sublist_app; [done|apply sublist_drop].
  - intros Hv. rewrite app_nil_r, Hk by (by apply lc_policy0). rewrite drop_0. by apply lc_lossless0.
Qed.

(** Taking the next packet to the wire. *)
Lemma lane_contract_wire c sid packet b sched m :
  next (scheduler c) = (sched, Some packet) -> lane_contract c ->
  sentPackets m = sentPackets (metricsValue c) + 1 ->
  sentBytes m = sentBytes (metricsValue c) + pkt_size packet ->
  lane_contract ((emit (OWire sid packet b) (c <| scheduler := sched |>)) <| metricsValue := m |>).
Proof.
  intros E [] Em1 Em2. destruct lc_sent0 as [S1 S2].
  assert (Ep : sched_profile sched = sched_profile (scheduler c)).
  { pose proof (sched_profile_next (scheduler c)) as Ep. by rewrite E in Ep. }
  pose proof (next_lane _ _ _ lc_named0 E) as HE. unfold queued in *.
  assert (Hwi : forall lane l, wired lane (l ++ [OWire sid packet b]) =
                          wired lane l ++ option_list (on_lane lane packet)).
  { intros lane l. rewrite wired_app. unfold wired at 2. simpl. by destruct (on_lane lane packet). }
  assert (Hac : forall lane l, accepted lane (l ++ [OWire sid packet b]) = accepted lane l).
  { intros lane l. by rewrite accepted_app, app_nil_r. }
  split; unfold queued; cbn [emit update log scheduler metricsValue]; rewrite ?Ep; try done.
  - intros lane. pose proof (lc_named0 lane) as Hn. rewrite HE in Hn. by apply Forall_app in Hn as [_ Hn].
  - intros lane. rewrite Hwi, Hac, <- app_assoc, <- HE. apply lc_fifo0.
  - intros lane Hv. rewrite since_clear_snoc, Hwi, Hac, <- app_assoc, <- HE. by apply lc_lossless0.
  - unfold LANES in *. cbn [sum_by foldr] in *. rewrite !Hwi, Em1, Em2, S1, S2.
    autorewrite with onlytwo. unfold on_lane. destruct (pkt_lane packet);
      repeat (case_decide; try done); unfold option_list, option_rect;
      autorewrite with onlytwo; unfold sum_by; cbn [foldr]; lia.
Qed.

Lemma lane_contract_drop c packet sched :
  pkt_lane packet = Lane.voice -> next (scheduler c) = (sched, Some packet) -> lane_contract c ->
  lane_contract (c <| scheduler := sched |>).
Proof.
  intros Hl E []. assert (Ep : sched_profile sched = sched_profile (scheduler c)).
  { pose proof (sched_profile_next (scheduler c)) as Ep. by rewrite E in Ep. }
  pose proof (next_lane _ _ _ lc_named0 E) as HE. unfold queued in *.
  split; unfold queued; cbn [update log scheduler metricsValue]; rewrite ?Ep; try done.
  - intros lane. pose proof (lc_named0 lane) as Hn. rewrite HE in Hn. by apply Forall_app in Hn as [_ Hn].
  - intros lane. etrans; [|apply lc_fifo0]. rewrite (HE lane). apply sublist_app; [done|].
    by apply sublist_inserts_l.
  - intros lane Hv. rewrite lc_lossless0, (HE lane) by done. unfold on_lane.
    by rewrite decide_False by congruence.
Qed.

Lemma lane_contract_same c c' :
  scheduler c' = scheduler c -> log c' = log c -> metricsValue c' = metricsValue c ->
  lane_contract c -> lane_contract c'.
Proof. intros E1 E2 E3 []. unfold queued in *. split; unfold queued; by rewrite ?E1, ?E2, ?E3. Qed.

Lemma lane_contract_micro c c' : micro keeps c c' -> lane_contract c -> lane_contract c'.
Proof.
  destruct 1 as [c c' Hq|c d t|c sid so so'|c|c|c so|c p Hp|c|c k sched r E Eo|c k sched r E Eo|c sid so k sched _ E _ _|c k sched Hk E];
    intros Hc; try (by eapply lane_contract_same; [..|apply Hc]).
  - by eapply lane_contract_stable.
  - destruct Hc. unfold queued in *. split; unfold queued; cbn [update scheduler Scheduler.setProfile sched_profile]; try done.
    all: intros lane; by destruct lane.
  - by apply lane_contract_clear.
  - pose proof (lane_contract_enqueue _ _ _ _ E Hc) as H. by rewrite Eo in H.
  - pose proof (lane_contract_enqueue _ _ _ _ E Hc) as H. by rewrite Eo in H.
  - by apply lane_contract_wire.
  - by eapply lane_contract_drop.
Qed.

Lemma lane_contract_new p st : keeps p -> lane_contract (newConnection p st).
Proof.
  intros Hp. split; try done; intros lane; by destruct lane.
Qed.


(** ** No lost wake-up *)

(** With an open socket and a packet waiting, a drain is under way or a timer
    will start one. *)
Definition has_open (c : Connection) : Prop := is_Some (open_socket c).
Definition waiting (c : Connection) : Prop := exists lane, queued lane c <> [].
Definition awake (c : Connection) : Prop :=
  has_open c -> waiting c -> draining c = true \/ drainTimer c = true.

Lemma awake_from c c' :
  (has_open c' -> has_open c) -> (waiting c' -> waiting c) ->
  draining c' = draining c -> drainTimer c' = drainTimer c -> awake c -> awake c'.
Proof. unfold awake. intros H1 H2 -> -> Hc Ho Hw. auto. Qed.

#[export] Instance awake_stable : Stable awake.
Proof.
  intros c c' Hq. pose proof (quiet_open_socket _ _ Hq) as E. destruct Hq.
  apply awake_from; unfold has_open, waiting, queued; rewrite ?E, ?qt_scheduler0; done.
Qed.

Lemma awake_idle c : (forall lane, queued lane c = []) -> awake c.
Proof. intros H _ [lane Hl]. by rewrite H in Hl. Qed.

Lemma awake_no_socket c : ~ has_open c -> awake c.
Proof. intros H Ho. done. Qed.

Lemma awake_draining c : draining c = true -> awake c.
Proof. intros H _ _. by left. Qed.

Lemma queued_count_next s sched packet :
  next s = (sched, Some packet) -> queued_count s = S (queued_count sched).
Proof.
  destruct (next_cases s) as [[-> _]|(lane & k & rest & Hq & _ & ->)]; [done|].
  intros [= <- <-]. unfold queued_count. rewrite !queue_order_unfold, !length_app.
  destruct lane; simpl in *; rewrite Hq; simpl; lia.
Qed.

(** A loop that is left does not leave work behind, and it always has fuel
    for one more turn. *)
Lemma drain_loop_awake fuel c c' susp :
  one_socket c -> (queued_count (scheduler c) < fuel)%nat -> drain_loop fuel c = (c', susp) ->
  draining c' = draining c /\
  (susp = false -> ~ has_open c' \/ (forall lane, queued lane c' = []) \/ drainTimer c' = true).
Proof.
  revert c. induction fuel as [|fuel IH]; intros c Hc Hf; cbn [drain_loop]; [lia|].
  assert (Hsd : forall x, draining (scheduleDrain x) = draining x /\ drainTimer (scheduleDrain x) = true).
  { intros x. unfold scheduleDrain. by destruct (drainTimer x) eqn:E. }
  unfold has_open. destruct (open_socket c) as [[sid so]|] eqn:Hs.
  2:{ intros [<- <-]%pair_equal_spec. split; [done|]. intros _. left. rewrite Hs. apply is_Some_None. }
  destruct (_ <? bufferedAmount so).
  { intros [<- <-]%pair_equal_spec. destruct (Hsd (setLastError (js "browser_backpressure")
      (c <| metricsValue := (metricsValue c) <| backpressurePauses := backpressurePauses (metricsValue c) + 1 |> |>)))
      as [E1 E2]. split; [by rewrite E1|]. intros _. right. by right. }
  destruct (next_cases (scheduler c)) as [[En He]|(lane & packet & rest & Hq & _ & En)]; rewrite En; cbv beta iota zeta.
  { intros [<- <-]%pair_equal_spec. split; [done|]. intros _. right. by left. }
  pose proof (queued_count_next _ _ _ En) as Hcount.
  destruct (bool_decide (pkt_lane packet = Lane.voice) && _) eqn:Ev.
  - bool_facts. pose proof (one_socket_micro _ _ _ (m_drop (fun _ => True) c packet _ ltac:(done) En) Hc) as Hc1.
    set (c1 := c <| scheduler := _ |>) in *.
    assert (Hq1 : quiet c1 (updateQueueMetrics (recordVoiceDrop browser_backpressure 1 c1))).
    { etrans; [apply quiet_recordVoiceDrop|apply quiet_updateQueueMetrics]. }
    intros Hl. apply IH in Hl as [Hd Hrest].
    + destruct Hq1. rewrite qt_draining0 in Hd. done.
    + by eapply one_socket_stable.
    + destruct Hq1. rewrite qt_scheduler0. subst c1. cbn [update scheduler]. lia.
  - apply open_socket_Some in Hs as (_ & Hs & Ho). rewrite (ws_send_Ok sid so) by done.
    cbv beta iota zeta. destruct (resumeBufferedAmountBytes _ <? _).
    + intros [<- <-]%pair_equal_spec.
      match goal with |- draining (scheduleDrain ?x) = _ /\ _ => destruct (Hsd x) as [E1 E2] end.
      split; [by rewrite E1|]. intros _. right. by right.
    + intros [<- <-]%pair_equal_spec. done.
Qed.

Lemma drain_turn_awake c : one_socket c -> draining c = true -> awake (drain_turn c).
Proof.
  intros Hc Hd. unfold drain_turn.
  destruct (drain_loop _ c) as [c' susp] eqn:E.
  apply drain_loop_awake in E as [Hd' Hleft]; [|done|lia].
  destruct susp; [apply awake_draining; congruence|].
  set (c1 := c' <| draining := false |>). apply (awake_stable c1); [apply quiet_emitMetrics|].
  destruct (Hleft eq_refl) as [H|[H|H]].
  - by apply awake_no_socket.
  - by apply awake_idle.
  - intros _ _. by right.
Qed.

Lemma drain_awake c : one_socket c -> awake (drain c).
Proof.
  intros Hc. unfold drain. destruct (draining c) eqn:Ed; [by apply awake_draining|].
  cbn [orb]. case_bool_decide as Ho; cbn [negb]; [|by apply awake_no_socket].
  apply drain_turn_awake; [|done]. eapply (one_socket_micros (fun _ => True)); [|apply Hc].
  exact (micros_flags _ c true false).
Qed.

Lemma no_ws_no_open c : ws c = None -> ~ has_open c.
Proof. unfold has_open, open_socket. intros ->. apply is_Some_None. Qed.

Lemma quiet_no_open c c' : quiet c c' -> ~ has_open c -> ~ has_open c'.
Proof. intros Hq. unfold has_open. by rewrite (quiet_open_socket _ _ Hq). Qed.

(** A change of a socket that does not open it. *)
Lemma set_socket_open sid so so' c :
  sockets c !! sid = Some so -> (readyState so' = OPEN -> readyState so = OPEN) ->
  has_open (set_socket sid so' c) -> has_open c.
Proof.
  intros Hs Ho. unfold has_open, open_socket. cbn [set_socket update ws sockets].
  destruct (ws c) as [i|]; [|done]. destruct (decide (i = sid)) as [->|].
  - rewrite Hs, list_lookup_insert_eq by (by eapply lookup_lt_Some).
    repeat case_bool_decide; try done. naive_solver.
  - by rewrite list_lookup_insert_ne.
Qed.

Lemma awake_set_socket sid so so' c :
  sockets c !! sid = Some so -> (readyState so' = OPEN -> readyState so = OPEN) ->
  awake c -> awake (set_socket sid so' c).
Proof. intros Hs Ho. apply awake_from; try done. by apply (set_socket_open sid so). Qed.

Lemma settleOnce_awake sid err c :
  awake c -> awake (resolveOnce sid c) /\ awake (rejectOnce sid err c).
Proof.
  intros Ha. unfold resolveOnce, rejectOnce. destruct (sockets c !! sid) as [so|] eqn:Hs; [|done].
  destruct (settled so); [done|]. pose proof (awake_set_socket sid so (so <| settled := true |>) c Hs id Ha) as H.
  split; (eapply awake_stable, H); [apply quiet_resolve_open|apply quiet_reject_open].
Qed.

Lemma clearQueuedPackets_idle c lane : queued lane (clearQueuedPackets c) = [].
Proof.
  unfold clearQueuedPackets, queued. destruct (quiet_updateQueueMetrics
    (emit OCleared ((clearDrainTimer c) <| scheduler := clear (scheduler (clearDrainTimer c)) |>))).
  rewrite qt_scheduler0. apply queues_clear.
Qed.

Lemma open_no_open loc r ctor c : one_socket c -> ~ has_open (open loc r ctor c).
Proof.
  intros Hc. unfold open.
  destruct (closeSocket_fields (c <| epoch := epoch c + 1 |>)) as (Hw & _ & _).
  set (status := if r then _ else _). set (c1 := closeSocket _) in *.
  pose proof (quiet_setStatus status c1) as Hq. pose proof (quiet_no_open _ _ Hq (no_ws_no_open _ Hw)) as H1.
  set (c2 := setStatus status c1) in *.
  destruct (encodeURIComponent _); [|by eapply quiet_no_open; [apply quiet_reject_open|]].
  set (o := OConnect _ _). pose proof (quiet_no_open _ _ (quiet_emit o c2 I) H1) as H2.
  destruct ctor; [by eapply quiet_no_open; [apply quiet_reject_open|]|].
  unfold has_open, open_socket. cbn [update ws sockets emit]. rewrite list_lookup_middle by done.
  cbn [readyState]. rewrite bool_decide_false by done. apply is_Some_None.
Qed.

Lemma disconnect_no_open f c : one_socket c -> ~ has_open (disconnect f c).
Proof.
  intros Hc. unfold disconnect. set (c1 := clearQueuedPackets _).
  assert (Hm : micros (fun _ => True) c c1).
  { eapply star_trans; [|apply clearQueuedPackets_micros]. apply quiet_micros.
    etrans; [|apply quiet_clearReconnectTimer]. quiet_nolog. }
  destruct (closeSocket_micros (fun _ => True) c1) as [_ Hw]; [by eapply one_socket_micros|].
  apply no_ws_no_open in Hw. eapply quiet_no_open, Hw.
  etrans; [|apply quiet_updateQueueMetrics]. etrans; [|apply quiet_setStatus].
  destruct f; [apply quiet_forgetSlotToken|done].
Qed.

Lemma enqueue_packet_awake packet c : one_socket c -> awake c -> awake (enqueue_packet packet c).1.
Proof.
  intros Hc Ha. unfold enqueue_packet. destruct (enqueue packet (scheduler c)) as [sched r] eqn:E.
  set (c1 := c <| scheduler := sched |>). set (c2 := if _ && _ then _ else _).
  assert (Hq : quiet c1 c2). { subst c2. destruct (_ && _); [by apply quiet_metrics|done]. }
  assert (Hc2 : one_socket c2).
  { eapply one_socket_stable; [apply Hq|]. eapply one_socket_same, Hc; try done.
    cbn. rewrite <- (os_profile _ Hc). pose proof (sched_profile_enqueue packet (scheduler c)) as Ep.
    by rewrite E in Ep. }
  destruct (ok r) eqn:Eo; cbn [fst].
  - apply drain_awake. eapply one_socket_stable; [apply quiet_updateQueueMetrics|].
    eapply one_socket_same, Hc2; try done. apply Hc2.
  - eapply awake_stable; [apply quiet_emitMetrics|]. eapply awake_stable; [apply quiet_setLastError|].
    eapply awake_stable; [apply Hq|]. eapply awake_from, Ha; try done.
    unfold waiting, queued. intros [lane Hl]. exists lane.
    destruct (enqueue_lane _ _ _ _ lane E) as (k & Hk & _). cbn in Hl. rewrite Hk, Eo, app_nil_r in Hl.
    intros Hn. rewrite Hn, drop_nil in Hl. done.
Qed.

Lemma send_awake env c : one_socket c -> awake c -> awake (send env c).1.
Proof.
  intros Hc Ha. unfold send. set (go := match packEnvelope _ _ with Ok _ => _ | Throw _ => _ end).
  assert (Hgo : awake go.1).
  { subst go. destruct (packEnvelope _ _); [by apply enqueue_packet_awake|].
    eapply awake_stable, Ha. apply quiet_setError. }
  case_bool_decide; [|done].
  assert (Hr : forall e, awake (recordVoiceDrop browser_backpressure 1 (setLastError e c))).
  { intros e. eapply awake_stable, Ha. etrans; [apply (quiet_setLastError e)|apply quiet_recordVoiceDrop]. }
  destruct (open_socket c) as [[sid so]|]; [|apply Hr]. destruct (_ <? _); [apply Hr|done].
Qed.

Lemma onclose_awake rnd sid so k reason c (so' := so <| readyState := CLOSED |>) :
  one_socket c -> sockets c !! sid = Some so -> awake c ->
  awake (onclose rnd sid so' k reason (set_socket sid so' c)).
Proof.
  intros Hc Hs Ha. assert (H0 : awake (set_socket sid so' c)) by by apply (awake_set_socket sid so).
  unfold onclose. destruct (negb (_ =? _)); [done|].
  set (c1 := if bool_decide (ws (set_socket _ _ _) = _) then _ else _).
  assert (H1 : awake c1). { subst c1. case_bool_decide; [by apply awake_no_socket, no_ws_no_open|done]. }
  destruct (negb (opened so')); [by apply settleOnce_awake|].
  destruct (_ || _).
  { eapply awake_stable; [apply quiet_setStatus|]. eapply awake_stable; [by apply quiet_emit|].
    apply awake_idle. intros lane. apply clearQueuedPackets_idle. }
  destruct (intentionalClose c1); [by eapply awake_stable; [apply quiet_setStatus|]|].
  eapply awake_stable; [apply quiet_scheduleReconnect|].
  apply awake_idle. intros lane. apply clearQueuedPackets_idle.
Qed.

Lemma endSession_awake c : one_socket c -> awake c -> awake (endSession c).1.
Proof.
  intros Hc Ha. unfold endSession. pose proof (quiet_forgetSlotToken c) as Hq.
  set (c1 := forgetSlotToken c) in *. pose proof (awake_stable _ _ Hq Ha) as H1.
  destruct (open_socket c) as [[sid so]|] eqn:Hs; cbn [fst]; [|done].
  rewrite <- (quiet_open_socket _ _ Hq) in Hs. apply open_socket_Some in Hs as (_ & Hs & Ho).
  rewrite (ws_send_Ok sid so) by done. cbn [fst]. eapply awake_stable; [by apply quiet_emit|].
  by apply (awake_set_socket sid so).
Qed.

Lemma step_awake loc e c c' : one_socket c -> awake c -> step loc e c = Some c' -> awake c'.
Proof.
  intros Hc Ha Hs. destruct e; cbn [step] in Hs; try (apply (inj Some) in Hs as <-).
  - unfold connect. destruct (getOrCreateSlotToken _ _ _ _) as [st token].
    apply awake_no_socket, open_no_open. eapply one_socket_stable, Hc. apply quiet_connect_fields.
  - by apply awake_no_socket, disconnect_no_open.
  - by apply endSession_awake.
  - by apply send_awake.
  - apply drain_awake. eapply one_socket_stable; [apply quiet_updateQueueMetrics|].
    by eapply one_socket_same, Hc.
  - apply awake_idle. intros lane. apply clearQueuedPackets_idle.
  - eapply awake_stable, Ha. apply quiet_recordVoiceDrop.
  - eapply awake_stable, Ha. apply quiet_recordVoiceQueueSize.
  - apply with_socket_Some in Hs as (so & Hso & Hr & ->). unfold is_connecting in Hr. bool_facts.
    cbv zeta. rewrite onopen_eq by done. apply settleOnce_awake; [exact []|]. apply drain_awake.
    eapply one_socket_micros, Hc. by apply (opening_micros (fun _ => True)).
  - apply with_socket_Some in Hs as (so & Hso & _ & ->). unfold onerror.
    destruct (_ && _); [by apply settleOnce_awake|done].
  - apply with_socket_Some in Hs as (so & Hso & _ & ->). by apply (awake_set_socket sid so).
  - apply with_socket_Some in Hs as (so & Hso & _ & ->). by apply onclose_awake.
  - apply with_socket_Some in Hs as (so & Hso & _ & ->). eapply awake_stable, Ha. apply onmessage_quiet.
  - destruct (sockets c !! sid) as [so|] eqn:Hso; [|done]. destruct (_ && _); [|done].
    apply (inj Some) in Hs as <-. by apply (awake_set_socket sid so).
  - case_bool_decide; [|done]. apply (inj Some) in Hs as <-. unfold reconnect_fired.
    set (c1 := c <| armed := _ |>). assert (Hq : quiet c c1) by quiet_nolog.
    destruct (intentionalClose c1); [by eapply awake_stable|].
    apply awake_no_socket, open_no_open. by eapply one_socket_stable.
  - destruct (catches c) as [|n]; [done|]. apply (inj Some) in Hs as <-. eapply awake_stable, Ha.
    transitivity (c <| catches := n |>); [quiet_nolog|apply quiet_scheduleReconnect].
  - destruct (drainTimer c); [|done]. apply (inj Some) in Hs as <-. apply drain_awake.
    eapply one_socket_micros, Hc. apply (micros_drainTimer (fun _ => True)).
  - destruct (draining c) eqn:Ed; [|done]. apply (inj Some) in Hs as <-. by apply drain_turn_awake.
Qed.

Lemma step_one_socket loc e c c' : one_socket c -> step loc e c = Some c' -> one_socket c'.
Proof.
  intros Hc Hs. eapply one_socket_micros, Hc. apply (step_micros (fun _ => True) loc e); [|done..].
  by destruct e.
Qed.


(** ** Old sockets *)

(** What an event on a socket does to the socket itself. *)
Definition socket_event (e : Event) : option nat :=
  match e with
  | SocketOpen sid | SocketError sid | SocketClosing sid | SocketClose sid _ _ _
  | SocketMessage sid _ | SocketBuffered sid _ => Some sid
  | _ => None
  end.

(** C19: at any time at most one socket is connecting or open, it is the current
    one, and an event of a socket that [open] has replaced changes nothing
    except that socket: no status, relay event, envelope, queue, timer or
    metric. *)
Theorem replaced_socket_inert loc p st es c e c' sid so :
  run loc es (newConnection p st) = Some c ->
  (forall i j si sj, sockets c !! i = Some si -> sockets c !! j = Some sj ->
     live si -> live sj -> i = j /\ ws c = Some i) /\
  (socket_event e = Some sid -> sockets c !! sid = Some so -> so_epoch so <> epoch c ->
   step loc e c = Some c' ->
   exists so', c' = c <| sockets := <[sid := so']> (sockets c) |>).
Proof.
  intros Hr. pose proof (one_socket_run _ _ _ _ (one_socket_new p st) Hr) as Hc. split.
  { intros i j si sj Hi Hj Li Lj. pose proof (os_live _ Hc _ _ Hi Li). pose proof (os_live _ Hc _ _ Hj Lj).
    split; congruence. }
  assert (Hsame : sockets c !! sid = Some so -> exists so', c = c <| sockets := <[sid := so']> (sockets c) |>).
  { intros Hs. exists so. rewrite list_insert_id by done. by destruct c. }
  intros He Hs Hne Hst. assert (Hneq : (epoch c =? so_epoch so) = false) by (apply Z.eqb_neq; congruence).
  assert (Hdead : ~ live so).
  { intros Hl. destruct (connecting_current _ _ _ Hc Hs Hl) as [_ E]. done. }
  destruct e; simplify_eq/=; try done; unfold with_socket in Hst; rewrite Hs in Hst.
  - unfold is_connecting in Hst. rewrite bool_decide_false in Hst; [done|]. intros E. apply Hdead. by left.
  - apply (inj Some) in Hst as <-. unfold onerror. rewrite Hneq, andb_false_r. by apply Hsame.
  - destruct (not_closed _); [|done]. apply (inj Some) in Hst as <-. by eexists.
  - destruct (not_closed _); [|done]. apply (inj Some) in Hst as <-. unfold onclose.
    change (epoch (set_socket _ _ c)) with (epoch c). cbn [update so_epoch]. rewrite Hneq. by eexists.
  - unfold is_open in Hst. rewrite bool_decide_false in Hst; [done|]. intros E. apply Hdead. by right.
  - destruct (_ && _); [|done]. apply (inj Some) in Hst as <-. by eexists.
Qed.

(** ** Closing for good *)

Definition closed (c : Connection) : Prop :=
  intentionalClose c = true /\ ws c = None /\ statusValue c = Status.disconnected.

(** Nothing is opened, sent, delivered or reported as a status. *)
Definition inert_output (o : Output) : Prop :=
  match o with
  | OStatus _ | OConnect _ _ | OWire _ _ _ | OCommand _ _ | OEnvelope _ | OResolved _ => False
  | _ => True
  end.

Definition hush (c c' : Connection) : Prop :=
  closed c -> closed c' /\ exists l, log c' = log c ++ l /\ Forall inert_output l.

#[export] Instance hush_preorder : PreOrder hush.
Proof.
  split.
  - intros c Hc. split; [done|]. exists []. by rewrite app_nil_r.
  - intros c1 c2 c3 H12 H23 H1. destruct (H12 H1) as [H2 (l & El & Hl)].
    destruct (H23 H2) as [H3 (k & Ek & Hk)]. split; [done|]. exists (l ++ k).
    rewrite Ek, El, app_assoc. split; [done|]. by apply Forall_app.
Qed.

Lemma hush_same c c' :
  intentionalClose c' = intentionalClose c -> ws c' = ws c -> statusValue c' = statusValue c ->
  log c' = log c -> hush c c'.
Proof.
  intros E1 E2 E3 E4. unfold hush, closed. rewrite E1, E2, E3, E4. intros H. split; [done|].
  exists []. by rewrite app_nil_r.
Qed.

Lemma hush_closed c c' : (closed c -> hush c c') -> hush c c'.
Proof. intros H Hc. by apply H. Qed.

Lemma hush_emit o c : inert_output o -> hush c (emit o c).
Proof. intros Ho H. split; [done|]. exists [o]. by rewrite Forall_singleton. Qed.

Lemma hush_emitMetrics c : hush c (emitMetrics c).
Proof. by apply hush_emit. Qed.

Lemma hush_error e c : hush c (setLastError e c) /\ hush c (setError e c).
Proof. split; [by apply hush_same|]. etrans; [|apply hush_emitMetrics]. by apply hush_same. Qed.

Lemma hush_updateQueueMetrics c : hush c (updateQueueMetrics c).
Proof. etrans; [|apply hush_emitMetrics]. by apply hush_same. Qed.

Lemma hush_recordVoiceDrop r n c : hush c (recordVoiceDrop r n c).
Proof.
  unfold recordVoiceDrop. destruct (_ <=? _); [done|]. etrans; [|apply hush_emitMetrics].
  by apply hush_same.
Qed.

Lemma hush_setStatus c : hush c (setStatus Status.disconnected c).
Proof. intros (H1 & H2 & H3). unfold setStatus. rewrite bool_decide_true by done. by apply (hush_same c c). Qed.

Lemma hush_clearQueuedPackets c : hush c (clearQueuedPackets c).
Proof.
  etrans; [|apply hush_updateQueueMetrics]. etrans; [|by apply hush_emit]. by apply hush_same.
Qed.

Lemma hush_forgetSlotToken c : hush c (forgetSlotToken c).
Proof. unfold forgetSlotToken. destruct (truthy _); [|done]. destruct (writable _); by apply hush_same. Qed.

Lemma closed_no_open c : closed c -> open_socket c = None.
Proof. intros (_ & E & _). unfold open_socket. by rewrite E. Qed.

Lemma hush_drain_turn c : hush c (drain_turn c).
Proof.
  apply hush_closed. intros Hc. unfold drain_turn. cbn [drain_loop]. rewrite (closed_no_open _ Hc).
  etrans; [|apply hush_emitMetrics]. by apply hush_same.
Qed.

Lemma hush_drain c : hush c (drain c).
Proof.
  unfold drain. destruct (_ || _); [done|]. etrans; [|apply hush_drain_turn]. by apply hush_same.
Qed.

Lemma hush_enqueue_packet k c : hush c (enqueue_packet k c).1.
Proof.
  unfold enqueue_packet. destruct (enqueue k (scheduler c)) as [sched r].
  set (c2 := if _ && _ then _ else _).
  assert (H2 : hush c c2). { subst c2. destruct (_ && _); by apply hush_same. }
  etrans; [apply H2|]. destruct (ok r); cbn [fst].
  - etrans; [|apply hush_drain]. etrans; [|apply hush_updateQueueMetrics]. by apply hush_emit.
  - etrans; [|apply hush_emitMetrics]. apply hush_error.
Qed.

Lemma hush_send env c : hush c (send env c).1.
Proof.
  apply hush_closed. intros Hc. unfold send. set (go := match packEnvelope _ _ with Ok _ => _ | Throw _ => _ end).
  assert (Hgo : hush c go.1).
  { subst go. destruct (packEnvelope _ _); [apply hush_enqueue_packet|apply hush_error]. }
  case_bool_decide; [|done]. rewrite (closed_no_open _ Hc).
  etrans; [|apply hush_recordVoiceDrop]. apply hush_error.
Qed.

Lemma hush_rejectOnce sid err c : hush c (rejectOnce sid err c).
Proof.
  unfold rejectOnce. destruct (sockets c !! sid) as [so|]; [|done]. destruct (settled so); [done|].
  unfold reject_open. destruct (so_reconnecting so); [by apply hush_same|].
  etrans; [|by apply hush_emit]. by apply hush_same.
Qed.

Lemma hush_disconnect f c : hush c (disconnect f c).
Proof.
  apply hush_closed. intros Hc. unfold disconnect, closeSocket. set (c1 := clearQueuedPackets _).
  assert (H1 : hush c c1).
  { etrans; [|apply hush_clearQueuedPackets]. unfold clearReconnectTimer.
    destruct Hc as (E & _). cbn [update reconnectTimer]. destruct (reconnectTimer c); by apply hush_same. }
  assert (Hw : ws c1 = None) by apply (H1 Hc). rewrite Hw.
  etrans; [apply H1|]. etrans; [|apply hush_updateQueueMetrics]. etrans; [|apply hush_setStatus].
  destruct f; [apply hush_forgetSlotToken|done].
Qed.

Lemma hush_onclose rnd sid so k reason c : hush c (onclose rnd sid so k reason c).
Proof.
  apply hush_closed. intros Hc. unfold onclose. destruct (negb (_ =? _)); [done|].
  rewrite bool_decide_false by (destruct Hc as (_ & -> & _); done).
  destruct (negb (opened so)); [apply hush_rejectOnce|]. destruct (_ || _).
  { etrans; [|apply hush_setStatus]. etrans; [|by apply hush_emit].
    etrans; [|apply hush_clearQueuedPackets]. destruct Hc as (E1 & _). by apply hush_same. }
  rewrite (proj1 Hc). apply hush_setStatus.
Qed.

Definition not_connect (e : Event) : Prop :=
  match e with CallConnect _ _ _ _ => False | _ => True end.

Lemma hush_step loc e c c' : not_connect e -> one_socket c -> step loc e c = Some c' -> hush c c'.
Proof.
  intros Hn Hc Hs. apply hush_closed. intros Hcl.
  assert (Hdead : forall sid so, sockets c !! sid = Some so -> ~ live so).
  { intros sid so Hso Hl. pose proof (os_live _ Hc _ _ Hso Hl). destruct Hcl as (_ & E & _). congruence. }
  destruct e; cbn [step] in Hs; try done; try (apply (inj Some) in Hs as <-).
  - apply hush_disconnect.
  - unfold endSession. rewrite (closed_no_open _ Hcl). apply hush_forgetSlotToken.
  - apply hush_send.
  - unfold setProfile. etrans; [|apply hush_drain]. etrans; [|apply hush_updateQueueMetrics].
    by apply hush_same.
  - apply hush_clearQueuedPackets.
  - apply hush_recordVoiceDrop.
  - unfold recordVoiceQueueSize. destruct (_ <=? _); [done|]. etrans; [|apply hush_emitMetrics].
    by apply hush_same.
  - apply with_socket_Some in Hs as (so & Hso & Hr & _). unfold is_connecting in Hr. bool_facts.
    destruct (Hdead _ _ Hso). by left.
  - apply with_socket_Some in Hs as (so & Hso & _ & ->). unfold onerror.
    destruct (_ && _); [apply hush_rejectOnce|done].
  - apply with_socket_Some in Hs as (so & Hso & _ & ->). by apply hush_same.
  - apply with_socket_Some in Hs as (so & Hso & _ & ->). etrans; [|apply hush_onclose]. by apply hush_same.
  - apply with_socket_Some in Hs as (so & Hso & Hr & _). unfold is_open in Hr. bool_facts.
    destruct (Hdead _ _ Hso). by right.
  - destruct (sockets c !! sid) as [so|]; [|done]. destruct (_ && _); [|done].
    apply (inj Some) in Hs as <-. by apply hush_same.
  - case_bool_decide; [|done]. apply (inj Some) in Hs as <-. unfold reconnect_fired.
    match goal with |- context [if ?b then _ else _] => change b with (intentionalClose c) end.
    rewrite (proj1 Hcl). by apply hush_same.
  - destruct (catches c) as [|n]; [done|]. apply (inj Some) in Hs as <-. unfold scheduleReconnect.
    match goal with |- context [if ?b then _ else _] => change b with (intentionalClose c) end.
    rewrite (proj1 Hcl). by apply hush_same.
  - destruct (drainTimer c); [|done]. apply (inj Some) in Hs as <-. etrans; [|apply hush_drain].
    by apply hush_same.
  - destruct (draining c); [|done]. apply (inj Some) in Hs as <-. apply hush_drain_turn.
Qed.

Lemma hush_run loc es c c' :
  Forall not_connect es -> one_socket c -> run loc es c = Some c' -> hush c c'.
Proof.
  intros Hn. revert c. induction Hn as [|e es He _ IH]; intros c Hc; cbn [run]; [by intros [= <-]|].
  destruct (step loc e c) as [c1|] eqn:Hs; [|done]. intros Hr.
  etrans; [by eapply hush_step|]. apply IH; [by eapply step_one_socket|done].
Qed.

Lemma disconnect_closed f c : one_socket c -> closed (disconnect f c).
Proof.
  intros Hc. unfold disconnect. set (c1 := clearQueuedPackets _).
  assert (E1 : intentionalClose c1 = true).
  { subst c1. unfold clearReconnectTimer. cbn [update reconnectTimer].
    destruct (reconnectTimer c); reflexivity. }
  clearbody c1. destruct (closeSocket_fields c1) as (Hw & E2 & _). rewrite E1 in E2.
  set (c2 := closeSocket c1) in *. clearbody c2.
  assert (E3 : intentionalClose (if f then forgetSlotToken c2 else c2) = true /\
               ws (if f then forgetSlotToken c2 else c2) = None).
  { destruct f; [|done]. unfold forgetSlotToken. destruct (truthy _); [|done]. by destruct (writable _). }
  set (c3 := if f then _ else _) in *. destruct E3 as [E3 E4]. unfold closed, setStatus.
  case_bool_decide; split_and!; done.
Qed.


(** ** Reconnection *)

Definition valid_rnd (rnd : Z * Z) : Prop := 0 <= rnd.1 < rnd.2.

(** The fields reconnection works on. *)
Record same_retry (c c' : Connection) : Prop := {
  sr_intent : intentionalClose c' = intentionalClose c;
  sr_attempts : reconnectAttempts c' = reconnectAttempts c;
  sr_armed : armed c' = armed c;
  sr_profile : profile c' = profile c;
}.

#[export] Instance same_retry_preorder : PreOrder same_retry.
Proof. split; [by split|]. intros ? ? ? [] []. split; congruence. Qed.

Lemma same_retry_setStatus s c : same_retry c (setStatus s c) /\ statusValue (setStatus s c) = s.
Proof. unfold setStatus. by case_bool_decide. Qed.

Definition fresh_socket (e : Z) : Socket :=
  {| so_epoch := e; so_reconnecting := true; readyState := CONNECTING; bufferedAmount := 0;
     opened := false; settled := false |}.

Lemma setStatus_keeps s c :
  ws (setStatus s c) = ws c /\ sockets (setStatus s c) = sockets c /\ catches (setStatus s c) = catches c /\
  epoch (setStatus s c) = epoch c /\ code (setStatus s c) = code c /\ slotToken (setStatus s c) = slotToken c.
Proof. unfold setStatus. by case_bool_decide. Qed.

(** Opening again: either it fails at once, or there is one more socket. *)
Lemma open_reconnect loc ctor c (c' := open loc true ctor c) :
  ws c = None ->
  same_retry c c' /\ statusValue c' = Status.reconnecting /\ epoch c' = epoch c + 1 /\
  ((ws c' = None /\ sockets c' = sockets c /\ catches c' = S (catches c)) \/
   (ctor = None /\ ws c' = Some (length (sockets c)) /\
    sockets c' = sockets c ++ [fresh_socket (epoch c + 1)] /\ catches c' = catches c)).
Proof.
  intros Hw. subst c'. unfold open, closeSocket.
  change (ws (c <| epoch := epoch c + 1 |>)) with (ws c). rewrite Hw.
  set (c1 := c <| epoch := epoch c + 1 |>).
  destruct (same_retry_setStatus Status.reconnecting c1) as [Hr Hs].
  destruct (setStatus_keeps Status.reconnecting c1) as (K1 & K2 & K3 & K4 & _ & _).
  set (c2 := setStatus Status.reconnecting c1) in *. clearbody c2.
  assert (Hr' : same_retry c c2) by (etrans; [|apply Hr]; by split).
  assert (Hrej : forall err c3, ws c3 = ws c2 -> sockets c3 = sockets c2 -> catches c3 = catches c2 ->
    epoch c3 = epoch c2 -> statusValue c3 = statusValue c2 -> same_retry c2 c3 ->
    let c' := reject_open true (epoch c + 1) err c3 in
    same_retry c c' /\ statusValue c' = Status.reconnecting /\ epoch c' = epoch c + 1 /\
    (ws c' = None /\ sockets c' = sockets c /\ catches c' = S (catches c))).
  { intros err c3 E1 E2 E3 E4 E5 Hs3. cbn. rewrite E1, E2, E3, E4, E5, K1, K2, K3, K4, Hs.
    split_and!; try done. etrans; [apply Hr'|]. etrans; [apply Hs3|]. by split. }
  destruct (encodeURIComponent _).
  2:{ destruct (Hrej e c2 eq_refl eq_refl eq_refl eq_refl eq_refl ltac:(done)) as (H1 & H2 & H3 & H4).
      split; [done|]. split; [done|]. split; [done|]. by left. }
  set (o := OConnect _ _). destruct ctor as [err|].
  { destruct (Hrej err (emit o c2) eq_refl eq_refl eq_refl eq_refl eq_refl ltac:(by split)) as (H1 & H2 & H3 & H4).
    split; [done|]. split; [done|]. split; [done|]. by left. }
  split; [|split; [done|split]].
  - etrans; [apply Hr'|]. by split.
  - cbn. by rewrite K4.
  - right. cbn. rewrite K2, K3. done.
Qed.

Lemma scheduleReconnect_spec rnd c (c' := scheduleReconnect rnd c) :
  intentionalClose c = false ->
  ws c' = ws c /\ sockets c' = sockets c /\ catches c' = catches c /\ profile c' = profile c /\
  epoch c' = epoch c /\ intentionalClose c' = false /\
  if maxAttempts (reconnect (profile c)) <=? reconnectAttempts c
  then statusValue c' = Status.failed /\ armed c' = armed c /\
       lastError (metricsValue c') = Some (js "reconnect_exhausted")
  else statusValue c' = Status.reconnecting /\ reconnectAttempts c' = reconnectAttempts c + 1 /\
       armed c' = armed c ++ [(nextTimer c, reconnectDelay (reconnect (profile c)) rnd (reconnectAttempts c))].
Proof.
  intros Hi. subst c'. unfold scheduleReconnect. rewrite Hi. destruct (_ <=? _).
  - unfold setStatus. by case_bool_decide.
  - unfold setStatus. by case_bool_decide.
Qed.

Lemma reconnectDelay_bounds r rnd k :
  valid_rnd rnd -> 0 <= jitterMs r ->
  Z.min (baseDelayMs r * 2 ^ k) (maxDelayMs r) <= reconnectDelay r rnd k
    <= Z.min (baseDelayMs r * 2 ^ k) (maxDelayMs r) + jitterMs r.
Proof.
  unfold valid_rnd, reconnectDelay. destruct rnd as [p q]. simpl. intros Hr Hj.
  assert (0 <= p * jitterMs r / q) by (apply Z.div_pos; nia).
  assert (p * jitterMs r / q <= jitterMs r) by (apply Z.div_le_upper_bound; nia). lia.
Qed.

(** The ways a reconnection fails: the constructor throws, the socket closes
    before it opens, or it reports an error first (and the [catch] then runs
    before the close event). *)
Inductive Failure :=
| f_throw (err : jstr)
| f_close (closeCode : Z) (closeReason : jstr)
| f_error (closeCode : Z) (closeReason : jstr).

Definition attempt_events (id sid : nat) (rnd : Z * Z) (f : Failure) : list Event :=
  match f with
  | f_throw err => [ReconnectTimer id (Some err); ReconnectCatch rnd]
  | f_close k reason => [ReconnectTimer id None; SocketClose sid k reason rnd; ReconnectCatch rnd]
  | f_error k reason =>
      [ReconnectTimer id None; SocketError sid; ReconnectCatch rnd; SocketClose sid k reason rnd]
  end.

Definition failed_attempt (loc : Location) (c c' : Connection) : Prop :=
  exists id f rnd, valid_rnd rnd /\ run loc (attempt_events id (length (sockets c)) rnd f) c = Some c'.

(** [k] attempts in a row. *)
Fixpoint attempts_fail (loc : Location) (k : nat) (c c' : Connection) : Prop :=
  match k with
  | O => c' = c
  | S k => exists c1, failed_attempt loc c c1 /\ attempts_fail loc k c1 c'
  end.

Definition delay_ok (r : Reconnect) (k d : Z) : Prop :=
  Z.min (baseDelayMs r * 2 ^ k) (maxDelayMs r) <= d
    <= Z.min (baseDelayMs r * 2 ^ k) (maxDelayMs r) + jitterMs r.

(** One timer is armed, for attempt [k + 1]. *)
Record retrying (r : Reconnect) (k : Z) (c : Connection) : Prop := {
  rt_intent : intentionalClose c = false;
  rt_catches : catches c = 0%nat;
  rt_status : statusValue c = Status.reconnecting;
  rt_attempts : reconnectAttempts c = k + 1;
  rt_policy : reconnect (profile c) = r;
  rt_armed : exists id d, armed c = [(id, d)] /\ delay_ok r k d;
}.

Record given_up (c : Connection) : Prop := {
  gu_status : statusValue c = Status.failed;
  gu_armed : armed c = [];
  gu_catches : catches c = 0%nat;
  gu_error : lastError (metricsValue c) = Some (js "reconnect_exhausted");
}.

(** What the [catch] of a failed attempt leads to. *)
Definition after_failure (r : Reconnect) (k : Z) (c : Connection) : Prop :=
  if maxAttempts r <=? k + 1 then given_up c else retrying r (k + 1) c.

(** A failed attempt before its [catch] runs. *)
Record failing (r : Reconnect) (k : Z) (c : Connection) : Prop := {
  fl_intent : intentionalClose c = false;
  fl_catches : catches c = 1%nat;
  fl_armed : armed c = [];
  fl_attempts : reconnectAttempts c = k + 1;
  fl_policy : reconnect (profile c) = r;
}.

Lemma catch_after_failure loc r k rnd c c' :
  0 <= jitterMs r -> valid_rnd rnd -> failing r k c -> step loc (ReconnectCatch rnd) c = Some c' ->
  ws c' = ws c /\ sockets c' = sockets c /\ epoch c' = epoch c /\ after_failure r k c'.
Proof.
  intros Hj Hr [] Hs. cbn [step] in Hs. rewrite fl_catches0 in Hs. apply (inj Some) in Hs as <-.
  set (c1 := c <| catches := 0%nat |>).
  destruct (scheduleReconnect_spec rnd c1) as (K1 & K2 & K3 & K4 & K5 & K6 & K7); [done|].
  set (c2 := scheduleReconnect rnd c1) in *. clearbody c2. subst c1.
  cbn in K1, K2, K3, K4, K5, K7. split_and!; [done|done|done|]. unfold after_failure.
  rewrite fl_policy0, fl_attempts0 in K7. destruct (_ <=? _).
  - destruct K7 as (S1 & S2 & S3). cbn in S2. split; try congruence. exact S3.
  - destruct K7 as (S1 & S2 & S3). cbn in S2, S3. split; try congruence.
    exists (nextTimer c), (reconnectDelay r rnd (k + 1)). split; [by rewrite S3, fl_armed0|].
    by apply reconnectDelay_bounds.
Qed.

Lemma rejectOnce_fields sid err so c (c' := rejectOnce sid err c) :
  sockets c !! sid = Some so -> so_reconnecting so = true ->
  same_retry c c' /\ ws c' = ws c /\ epoch c' = epoch c /\
  catches c' = (if settled so then catches c else S (catches c)) /\
  sockets c' = if settled so then sockets c else <[sid := so <| settled := true |>]> (sockets c).
Proof.
  intros Hs Hr. subst c'. unfold rejectOnce. rewrite Hs. destruct (settled so); [done|].
  rewrite Hr. by split_and!.
Qed.

(** Only the armed timer can fire. *)
Lemma timer_fires loc r k id ctor c c' :
  retrying r k c -> ws c = None -> step loc (ReconnectTimer id ctor) c = Some c' ->
  exists c0, c' = open loc true ctor c0 /\ ws c0 = None /\ sockets c0 = sockets c /\ epoch c0 = epoch c /\
    catches c0 = 0%nat /\ intentionalClose c0 = false /\ armed c0 = [] /\ reconnectAttempts c0 = k + 1 /\
    reconnect (profile c0) = r.
Proof.
  intros [] Hw Hs. destruct rt_armed0 as (i & d & Ea & _). cbn [step] in Hs. rewrite Ea in Hs.
  case_bool_decide as Hin; [|done]. simpl in Hin. apply list_elem_of_singleton in Hin as ->.
  apply (inj Some) in Hs as <-. unfold reconnect_fired.
  set (c0 := c <| armed := _ |>). change (intentionalClose c0) with (intentionalClose c).
  rewrite rt_intent0. exists c0. subst c0. split_and!; try done. cbn [update armed].
  rewrite filter_cons_False by (simpl; naive_solver). done.
Qed.

(** A socket that closes before it opened: the promise of [open] is rejected
    once, and [ws] is cleared. *)
Lemma close_unopened loc sid k reason rnd c c' so :
  sockets c !! sid = Some so -> ws c = Some sid -> so_epoch so = epoch c ->
  opened so = false -> so_reconnecting so = true ->
  step loc (SocketClose sid k reason rnd) c = Some c' ->
  same_retry c c' /\ ws c' = None /\ statusValue c' = statusValue c /\
  lastError (metricsValue c') = lastError (metricsValue c) /\
  catches c' = if settled so then catches c else S (catches c).
Proof.
  intros Hs Hw He Ho Hr Hst. cbn [step] in Hst. apply with_socket_Some in Hst as (so' & Hs' & _ & ->).
  rewrite Hs in Hs'. injection Hs' as <-. cbv zeta. set (so1 := so <| readyState := CLOSED |>).
  unfold onclose. change (epoch (set_socket sid so1 c)) with (epoch c).
  change (so_epoch so1) with (so_epoch so). rewrite He, Z.eqb_refl. cbn [negb].
  change (ws (set_socket sid so1 c)) with (ws c). rewrite bool_decide_true by done.
  change (opened so1) with (opened so). rewrite Ho. cbn [negb].
  set (err := if truthy reason then _ else _). set (c1 := (set_socket sid so1 c) <| ws := None |>).
  assert (Hs1 : sockets c1 !! sid = Some so1).
  { subst c1. cbn. apply list_lookup_insert_eq. by eapply lookup_lt_Some. }
  unfold rejectOnce. rewrite Hs1. change (settled so1) with (settled so).
  change (so_reconnecting so1) with (so_reconnecting so). rewrite Hr.
  destruct (settled so); subst c1; split_and!; try done; by split.
Qed.

Lemma after_failure_same r k c c' :
  same_retry c c' -> statusValue c' = statusValue c -> catches c' = catches c ->
  lastError (metricsValue c') = lastError (metricsValue c) ->
  after_failure r k c -> after_failure r k c'.
Proof.
  intros [] E1 E2 E3. unfold after_failure. destruct (_ <=? _); intros []; split; try congruence.
  by rewrite sr_armed0.
Qed.

Lemma run_cons loc e es c c' :
  run loc (e :: es) c = Some c' -> exists c1, step loc e c = Some c1 /\ run loc es c1 = Some c'.
Proof. cbn [run]. destruct (step loc e c) as [c1|]; [eauto|done]. Qed.

(** The start of an attempt. *)
Lemma attempt_opens loc r k id ctor c c1 :
  retrying r k c -> ws c = None -> step loc (ReconnectTimer id ctor) c = Some c1 ->
  (ws c1 = None /\ sockets c1 = sockets c /\ failing r k c1) \/
  (ctor = None /\ ws c1 = Some (length (sockets c)) /\
   sockets c1 !! length (sockets c) = Some (fresh_socket (epoch c1)) /\
   forall c2, same_retry c1 c2 -> catches c2 = S (catches c1) -> failing r k c2).
Proof.
  intros Hrt Hw H1.
  apply (timer_fires loc r k) in H1 as (c0 & -> & E1 & E2 & E3 & E4 & E5 & E6 & E7 & E8); [|done|done].
  destruct (open_reconnect loc ctor c0 E1) as ([] & _ & Ee & [(Hn & Hs & Hk)|(-> & Hn & Hs & Hk)]).
  - left. split_and!; [done|congruence|]. split; congruence.
  - right. rewrite Hn, Hs, Ee, E2. split_and!; [done|done|by rewrite list_lookup_middle|].
    intros c2 [] Hc2. split; congruence.
Qed.

Lemma failed_attempt_spec loc r k c c' :
  0 <= jitterMs r -> retrying r k c -> ws c = None -> failed_attempt loc c c' ->
  after_failure r k c' /\ ws c' = None.
Proof.
  intros Hj Hrt Hw (id & f & rnd & Hrnd & Hrun).
  assert (Htail : forall x y, failing r k x -> ws x = None ->
    run loc [ReconnectCatch rnd] x = Some y -> after_failure r k y /\ ws y = None).
  { intros x y Hf Hx Hy. apply run_cons in Hy as (z & Hz & [= <-]).
    apply (catch_after_failure loc r k) in Hz as (E & _ & _ & Ha); [|done..]. split; [done|congruence]. }
  assert (Hnone : sockets c !! length (sockets c) = None) by (by apply lookup_ge_None).
  destruct f as [err|kc reason|kc reason]; apply run_cons in Hrun as (c1 & H1 & Hrun);
    apply (attempt_opens loc r k) in H1 as [(Hn & Hs & Hf)|(Hc & Hn & Hs & Hf)]; try done.
  - by apply (Htail c1).
  - apply run_cons in Hrun as (c2 & H2 & Hrun). cbn [step] in H2. unfold with_socket in H2.
    by rewrite Hs, Hnone in H2.
  - apply run_cons in Hrun as (c2 & H2 & Hrun).
    apply (close_unopened loc _ _ _ _ _ _ _ Hs Hn) in H2 as (Hr2 & Hw2 & _ & _ & Hc2); [|done..].
    apply (Htail c2); [by apply Hf|done|done].
  - apply run_cons in Hrun as (c2 & H2 & Hrun). cbn [step] in H2. unfold with_socket in H2.
    by rewrite Hs, Hnone in H2.
  - apply run_cons in Hrun as (c2 & H2 & Hrun). apply run_cons in Hrun as (c3 & H3 & Hrun).
    apply run_cons in Hrun as (c4 & H4 & [= <-]).
    cbn [step] in H2. unfold with_socket in H2. rewrite Hs in H2. apply (inj Some) in H2.
    unfold onerror in H2. cbn [fresh_socket opened so_epoch negb andb] in H2. rewrite Z.eqb_refl in H2.
    destruct (rejectOnce_fields _ (js "WebSocket connection failed") _ _ Hs eq_refl)
      as (Hr2 & Hw2 & He2 & Hc2 & Hs2). rewrite H2 in Hr2, Hw2, He2, Hc2, Hs2. cbn [fresh_socket settled] in Hc2, Hs2.
    apply (catch_after_failure loc r k) in H3 as (E1 & E2 & E3 & Ha); [|done|done|by apply Hf].
    apply (close_unopened loc _ _ _ _ _ _ (fresh_socket (epoch c1)) <| settled := true |>) in H4
      as (Hr4 & Hw4 & Hst4 & Hl4 & Hc4); [|..]; try congruence; try done.
    + split; [|done]. by eapply after_failure_same.
    + rewrite E2, Hs2. apply list_lookup_insert_eq. by eapply lookup_lt_Some.
    + cbn. congruence.
Qed.

(** An established connection that breaks arms the first timer. *)
Lemma lost_connection loc sid so kc reason rnd c c0 (r := reconnect (profile c)) :
  one_socket c -> ws c = Some sid -> sockets c !! sid = Some so -> opened so = true ->
  intentionalClose c = false -> armed c = [] -> catches c = 0%nat -> reconnectAttempts c = 0 ->
  valid_rnd rnd -> kc <> 4000 -> reason <> js "session ended" -> 0 <= jitterMs r -> 0 < maxAttempts r ->
  step loc (SocketClose sid kc reason rnd) c = Some c0 ->
  retrying r 0 c0 /\ ws c0 = None /\ (forall lane, queued lane c0 = []).
Proof.
  intros Hc Hw Hs Ho Hi Ha Hk Hn Hr Hkc Hre Hj Hm Hst. cbn [step] in Hst.
  apply with_socket_Some in Hst as (so' & Hs' & _ & ->). rewrite Hs in Hs'. injection Hs' as <-.
  cbv zeta. set (so1 := so <| readyState := CLOSED |>). unfold onclose.
  assert (He : so_epoch so = epoch c) by (destruct (os_ws _ Hc _ Hw) as (s & Hs' & E); congruence).
  change (epoch (set_socket sid so1 c)) with (epoch c). change (so_epoch so1) with (so_epoch so).
  rewrite He, Z.eqb_refl. cbn [negb]. change (ws (set_socket sid so1 c)) with (ws c).
  rewrite bool_decide_true by done. change (opened so1) with (opened so). rewrite Ho. cbn [negb].
  rewrite (proj2 (Z.eqb_neq kc 4000) Hkc), bool_decide_false by done. cbn [orb].
  set (c1 := (set_socket sid so1 c) <| ws := None |>).
  change (intentionalClose c1) with (intentionalClose c). rewrite Hi.
  pose proof (clearQueuedPackets_idle c1) as Hidle.
  assert (E : intentionalClose (clearQueuedPackets c1) = false /\ ws (clearQueuedPackets c1) = None /\
    catches (clearQueuedPackets c1) = 0%nat /\ armed (clearQueuedPackets c1) = [] /\
    reconnectAttempts (clearQueuedPackets c1) = 0 /\ profile (clearQueuedPackets c1) = profile c).
  { by split_and!. }
  set (c2 := clearQueuedPackets c1) in *. clearbody c2. destruct E as (E1 & E2 & E3 & E4 & E5 & E6).
  pose proof (quiet_scheduleReconnect rnd c2) as Hq.
  destruct (scheduleReconnect_spec rnd c2 E1) as (K1 & _ & K3 & K4 & _ & K6 & K7).
  rewrite E6, E5 in K7. fold r in K7. rewrite (proj2 (Z.leb_gt (maxAttempts r) 0)) in K7 by lia.
  destruct K7 as (S1 & S2 & S3). split_and!.
  - split; try congruence; [by rewrite K4, E6|]. exists (nextTimer c2), (reconnectDelay r rnd 0).
    split; [by rewrite S3, E4|]. by apply reconnectDelay_bounds.
  - congruence.
  - intros lane. destruct Hq. unfold queued in *. by rewrite qt_scheduler0.
Qed.

Lemma attempts_fail_spec loc r n k c c' :
  0 <= jitterMs r -> retrying r (Z.of_nat n) c -> ws c = None -> Z.of_nat n < maxAttempts r ->
  attempts_fail loc k c c' ->
  Z.of_nat (n + k) <= maxAttempts r /\
  (Z.of_nat (n + k) < maxAttempts r -> retrying r (Z.of_nat (n + k)) c') /\
  (Z.of_nat (n + k) = maxAttempts r -> given_up c').
Proof.
  intros Hj. revert n c. induction k as [|k IH]; intros n c Hrt Hw Hlt; cbn [attempts_fail].
  { intros ->. rewrite Nat.add_0_r. split_and!; [lia|done|lia]. }
  intros (c1 & H1 & Hrest). apply (failed_attempt_spec loc r (Z.of_nat n)) in H1 as [Ha Hw1]; [|done..].
  unfold after_failure in Ha. destruct (Z.leb_spec (maxAttempts r) (Z.of_nat n + 1)).
  - destruct k as [|k].
    + cbn [attempts_fail] in Hrest. subst c1. split_and!; [lia|lia|done].
    + destruct Hrest as (c2 & (id & f & rnd & _ & Hrun) & _). exfalso.
      assert (Hno : forall ctor, step loc (ReconnectTimer id ctor) c1 = None).
      { intros ctor. cbn [step]. rewrite (gu_armed _ Ha). by rewrite bool_decide_false by (simpl; set_solver). }
      destruct f; cbn [attempt_events] in Hrun; apply run_cons in Hrun as (? & H' & _);
        by rewrite Hno in H'.
  - replace (n + S k)%nat with (S n + k)%nat by lia. apply (IH (S n) c1); [|done|lia|done].
    by replace (Z.of_nat (S n)) with (Z.of_nat n + 1) by lia.
Qed.

(** C21: reconnection is bounded and backs off.  When an established connection
    breaks, the queue is emptied and a timer is armed; after [k] attempts that
    failed in any of the possible ways, the status is [reconnecting] with
    exactly one timer armed, whose delay is [min(base * 2^k, max)] plus a
    jitter of at most [jitterMs], as long as [k < maxAttempts]; after
    [maxAttempts] failures the status is [failed] and nothing is armed; and
    there is no further attempt. *)
Theorem reconnection_bounded loc p st es c sid so kc reason rnd c0 k c' (r := reconnect (profile c)) :
  run loc es (newConnection p st) = Some c ->
  ws c = Some sid -> sockets c !! sid = Some so -> opened so = true ->
  intentionalClose c = false -> armed c = [] -> catches c = 0%nat -> reconnectAttempts c = 0 ->
  valid_rnd rnd -> kc <> 4000 -> reason <> js "session ended" -> 0 <= jitterMs r -> 0 < maxAttempts r ->
  step loc (SocketClose sid kc reason rnd) c = Some c0 ->
  attempts_fail loc k c0 c' ->
  (forall lane, queued lane c0 = []) /\
  Z.of_nat k <= maxAttempts r /\
  (Z.of_nat k < maxAttempts r -> retrying r (Z.of_nat k) c') /\
  (Z.of_nat k = maxAttempts r -> given_up c').
Proof.
  intros Hrun Hw Hs Ho Hi Ha Hk Hn Hr Hkc Hre Hj Hm Hst Hf.
  pose proof (one_socket_run _ _ _ _ (one_socket_new p st) Hrun) as Hc.
  destruct (lost_connection loc sid so kc reason rnd c c0) as (Hrt & Hw0 & Hq); [done..|].
  split; [done|]. by apply (attempts_fail_spec loc r 0 k c0).
Qed.

(** ** Backpressure *)

Definition wire_ok (limit : Z) (o : Output) : Prop :=
  match o with
  | OWire _ packet buffered =>
      buffered <= limit /\ (pkt_lane packet = Lane.voice -> buffered <= VOICE_BROWSER_BUFFER_LIMIT_BYTES)
  | _ => True
  end.

Definition within (limit : Z) (p : TransportProfile) : Prop := maxBufferedAmountBytes (outbox p) <= limit.

Lemma paced_micro limit c c' :
  micro (within limit) c c' ->
  within limit (profile c) /\ Forall (wire_ok limit) (log c) ->
  within limit (profile c') /\ Forall (wire_ok limit) (log c').
Proof.
  unfold within.
  destruct 1 as [c c' []|c d t|c sid so so'|c|c|c so|c p Hp|c|c k sched r E Eo|c k sched r E Eo|c sid so k sched _ E Hb Hv|c k sched Hk E];
    intros [Hl Hf]; try done.
  - rewrite qt_profile0. split; [done|]. destruct qt_log0 as (l & -> & Hq). apply Forall_app. split; [done|].
    eapply Forall_impl; [done|]. by intros [].
  - split; [done|]. cbn. apply Forall_app. split; [done|]. by apply Forall_singleton.
  - split; [done|]. cbn. apply Forall_app. split; [done|]. by apply Forall_singleton.
  - split; [done|]. cbn. apply Forall_app. split; [done|]. apply Forall_singleton. cbn. split; [lia|done].
Qed.


(** ** The slot token *)

Lemma strip_dashes_app u v : strip_dashes (u ++ v) = strip_dashes u ++ strip_dashes v.
Proof. apply filter_app. Qed.

(** [crypto.randomUUID()]: groups of 8, 4, 4, 4 and 12 lower-case hexadecimal
    digits between dashes. *)
Definition is_uuid (u : jstr) : Prop :=
  exists a b c d e, u = a ++ [45] ++ b ++ [45] ++ c ++ [45] ++ d ++ [45] ++ e /\
    Forall (fun x => is_hex_lower x = true) (a ++ b ++ c ++ d ++ e) /\
    zlength a = 8 /\ zlength b = 4 /\ zlength c = 4 /\ zlength d = 4 /\ zlength e = 12.

Lemma strip_hex u : Forall (fun x => is_hex_lower x = true) u -> strip_dashes u = u.
Proof.
  intros H. apply filter_all. eapply Forall_impl; [done|]. intros x Hx ->. by vm_compute in Hx.
Qed.

Lemma uuid_token u : is_uuid u -> is_slot_token (strip_dashes u) = true.
Proof.
  intros (a & b & c & d & e & -> & Hh & La & Lb & Lc & Ld & Le).
  rewrite !Forall_app in Hh. destruct Hh as (Ha & Hb & Hc & Hd & He).
  rewrite !strip_dashes_app. change (strip_dashes [45]) with (@nil Z).
  rewrite !strip_hex by done. cbn [app]. unfold is_slot_token. apply andb_true_intro. split.
  - rewrite !zlength_app. apply Z.eqb_eq. lia.
  - apply forallb_forall. intros x Hx. apply list_elem_of_In in Hx.
    rewrite !elem_of_app in Hx. rewrite Forall_forall in Ha, Hb, Hc, Hd, He. naive_solver.
Qed.

(** The slot token.  With fresh UUIDs, [connect] always uses a well-formed
    token of 32 hexadecimal digits; when session storage works, a later
    [connect] to the same room presents the same token, so the peer keeps its
    slot across reloads; and after [forgetSlotToken] it presents a new one. *)
Theorem slot_token_kept room u1 u2 u1' u2' st st1 t1 :
  is_uuid u1 -> is_uuid u2 ->
  getOrCreateSlotToken room u1 u2 st = (st1, t1) ->
  is_slot_token t1 = true /\
  (readable st = true -> writable st = true ->
   getOrCreateSlotToken room u1' u2' st1 = (st1, t1) /\
   getOrCreateSlotToken room u1' u2'
     {| items := map_delete (SLOT_STORAGE_PREFIX ++ room) (items st1);
        readable := readable st1; writable := writable st1 |} =
     ({| items := map_set (SLOT_STORAGE_PREFIX ++ room) (strip_dashes u1')
                    (map_delete (SLOT_STORAGE_PREFIX ++ room) (items st1));
         readable := readable st1; writable := writable st1 |}, strip_dashes u1')).
Proof.
  intros H1 H2 E. apply uuid_token in H1, H2.
  assert (Ht : is_slot_token t1 = true /\ (readable st = true -> writable st = true ->
    readable st1 = true /\ writable st1 = true /\
    map_get (SLOT_STORAGE_PREFIX ++ room) (items st1) = Some t1)).
  { unfold getOrCreateSlotToken in E. destruct (readable st) eqn:Er; cbn [negb] in E;
      [|injection E as <- <-; by split].
    destruct (map_get _ (items st)) as [x|] eqn:Ex; [destruct (_ && _) eqn:Eb|].
    - injection E as <- <-. apply andb_prop in Eb as [_ Eb]. split; [done|]. intros _ Hw. by rewrite Er.
    - destruct (writable st) eqn:Ew; injection E as <- <-; (split; [done|]); [|done].
      intros _ _. cbn. by rewrite map_get_set_eq.
    - destruct (writable st) eqn:Ew; injection E as <- <-; (split; [done|]); [|done].
      intros _ _. cbn. by rewrite map_get_set_eq. }
  destruct Ht as [Ht Hk]. split; [done|]. intros Hr Hw. destruct (Hk Hr Hw) as (Hr1 & Hw1 & Hg).
  unfold getOrCreateSlotToken. cbn [readable writable items]. rewrite Hr1, Hw1, Hg, Ht. cbn [negb].
  split; [|by rewrite map_get_delete, decide_True by done].
  rewrite andb_true_r. destruct t1; [by vm_compute in Ht|done].
Qed.

(** ** Witnesses *)

Definition demo_location : Location := {| loc_protocol := js "https:"; loc_host := js "onlytwo.example" |}.
Definition demo_storage : SessionStorage := {| items := []; readable := true; writable := true |}.
Definition demo_uuid : jstr := js "0a1b2c3d-4e5f-4a6b-8c7d-9e0f1a2b3c4d".

(** Connected, one packet on its way to the browser and a second one queued. *)
Definition demo_events : list Event :=
  [CallConnect (js "ROOM42") demo_uuid demo_uuid None; SocketOpen 0; CallSend sample_env; CallSend sample_env].

Definition demo_run (es : list Event) : Connection :=
  default (newConnection profile_balanced demo_storage)
    (run demo_location es (newConnection profile_balanced demo_storage)).

Definition demo : Connection := demo_run demo_events.

Lemma demo_reached :
  run demo_location demo_events (newConnection profile_balanced demo_storage) = Some demo.
Proof. vm_compute. reflexivity. Qed.

Lemma keeps_profiles i : keeps (PROFILES i).
Proof. intros [] H; by destruct i. Qed.




(** A second connection to another room; the first socket then closes. *)
Definition demo_moved : list Event :=
  demo_events ++ [CallConnect (js "ROOM43") demo_uuid demo_uuid None].

Lemma replaced_socket_inert_witness :
  exists so', demo_run (demo_moved ++ [SocketClose 0 1006 [] (1, 2)]) =
    (demo_run demo_moved) <| sockets := <[0%nat := so']> (sockets (demo_run demo_moved)) |>.
Proof.
  apply (replaced_socket_inert demo_location profile_balanced demo_storage demo_moved
    (demo_run demo_moved) (SocketClose 0 1006 [] (1, 2))
    (demo_run (demo_moved ++ [SocketClose 0 1006 [] (1, 2)])) 0%nat
    (default (fresh_socket 0) (head (sockets (demo_run demo_moved)))));
    vm_compute; (reflexivity || discriminate).
Defined.


(** The connection breaks, and two attempts fail in different ways. *)
Definition demo_lost : Connection := demo_run (demo_events ++ [SocketClose 0 1006 [] (1, 2)]).

Definition demo_failed1 : Connection :=
  default demo (run demo_location (attempt_events 0 1 (1, 2) (f_throw (js "blocked"))) demo_lost).
Definition demo_failed2 : Connection :=
  default demo (run demo_location (attempt_events 1 1 (1, 3) (f_error 1006 [])) demo_failed1).

Lemma demo_attempts : attempts_fail demo_location 2 demo_lost demo_failed2.
Proof.
  exists demo_failed1. split.
  - exists 0%nat, (f_throw (js "blocked")), (1, 2). split; [by vm_compute|]. vm_compute. reflexivity.
  - exists demo_failed2. split; [|done].
    exists 1%nat, (f_error 1006 []), (1, 3). split; [by vm_compute|]. vm_compute. reflexivity.
Qed.

Lemma reconnection_bounded_witness :
  reconnectAttempts demo_failed2 = 3 /\ retrying (reconnect (profile demo)) 2 demo_failed2.
Proof.
  split; [by vm_compute|].
  refine (proj1 (proj2 (proj2 (reconnection_bounded demo_location profile_balanced demo_storage
    demo_events demo 0%nat (default (fresh_socket 0) (head (sockets demo))) 1006 [] (1, 2) demo_lost
    2%nat demo_failed2 demo_reached _ _ _ _ _ _ _ _ _ _ _ _ _ demo_attempts))) _);
    vm_compute; first [reflexivity | discriminate | split; (discriminate || reflexivity)].
Defined.

Lemma demo_uuid_ok : is_uuid demo_uuid.
Proof.
  exists (js "0a1b2c3d"), (js "4e5f"), (js "4a6b"), (js "8c7d"), (js "9e0f1a2b3c4d").
  split; [done|]. split; [|done]. apply (bool_decide_unpack _). by vm_compute.
Qed.

Lemma slot_token_kept_witness : is_slot_token (strip_dashes demo_uuid) = true.
Proof.
  apply (slot_token_kept (js "ROOM42") demo_uuid demo_uuid demo_uuid demo_uuid demo_storage
    (storage demo) (strip_dashes demo_uuid)); [apply demo_uuid_ok|apply demo_uuid_ok|].
  vm_compute. reflexivity.
Defined.
