(* ===== verification/SessionView.v ===== *)
(** * View state: [client/src/session/types.ts] and the view part of
    [client/src/session/SessionController.ts]

    The state the interface renders and the methods that maintain it: the
    bounded transcript, the list of transfers in its order, the retention of
    finished transfers, and the choice of the next queued file.  Fresh ids
    and [Date.now()] are arguments.  What the methods do outside the view
    (a snapshot to the listeners, a transfer forgotten by the file services,
    a queued file started) is recorded in [outs]. *)
From S2P Require Import Prelude JsMap Bytes Profiles Messages FileReceiver FileSender Scheduler Connection.

(** ** Types *)

Module Phase.
Inductive Phase := idle | creating | joining | waiting | active | ended | failed.
End Phase.
Module Security.
Inductive SecurityState := none | encrypted_unverified | verified | verification_failed.
End Security.
Module Voice.
Inductive VoiceState := idle | starting | active | muted | failed.
End Voice.
Module Transfer.
Inductive TransferState :=
  queued | offered | waiting | sending | receiving | paused | completed | cancelled | failed.
End Transfer.
Inductive TransferDirection := dir_send | dir_receive.
Inductive ItemKind := item_text | item_system | item_file.
Inductive ItemFrom := from_me | from_peer | from_system.
Inductive ItemStatus := item_sending | item_sent | item_failed.
Inductive Severity := sev_info | sev_error.

#[export] Instance Phase_eq_dec : EqDecision Phase.Phase.
Proof. solve_decision. Defined.
#[export] Instance SecurityState_eq_dec : EqDecision Security.SecurityState.
Proof. solve_decision. Defined.
#[export] Instance VoiceState_eq_dec : EqDecision Voice.VoiceState.
Proof. solve_decision. Defined.
#[export] Instance TransferState_eq_dec : EqDecision Transfer.TransferState.
Proof. solve_decision. Defined.
#[export] Instance TransferDirection_eq_dec : EqDecision TransferDirection.
Proof. solve_decision. Defined.
#[export] Instance ItemKind_eq_dec : EqDecision ItemKind.
Proof. solve_decision. Defined.
#[export] Instance Severity_eq_dec : EqDecision Severity.
Proof. solve_decision. Defined.

Record TranscriptItem := {
  it_id : jstr;
  it_kind : ItemKind;
  it_from : ItemFrom;
  it_text : jstr;
  it_at : Z;
  it_status : option ItemStatus;
  it_severity : option Severity;
  it_fileId : option jstr;
}.

(** [progress] is the quotient of the two numbers. *)
Record TransferView := {
  tv_fileId : jstr;
  tv_direction : TransferDirection;
  tv_name : jstr;
  tv_size : Z;
  tv_progress : Z * Z;
  tv_state : Transfer.TransferState;
  tv_reason : option jstr;
  tv_blobUrl : option bytes;
}.

#[export] Instance TransferView_eq_dec : EqDecision TransferView.
Proof. solve_decision. Defined.

Record SessionViewState := {
  phase : Phase.Phase;
  roomCode : jstr;
  vs_profileId : TransportProfileId;
  connection : ConnectionStatus;
  security : Security.SecurityState;
  safetyPhrase : option jstr;
  notice : option jstr;
  voice : Voice.VoiceState;
  muted : bool;
  audioPlaybackBlocked : bool;
  invalidPackets : Z;
  transcript : list TranscriptItem;
  transfers : list TransferView;
}.

#[export] Instance SessionViewState_eta : Eta SessionViewState := fun s =>
  Build_SessionViewState (phase s) (roomCode s) (vs_profileId s) (connection s) (security s)
    (safetyPhrase s) (notice s) (voice s) (muted s) (audioPlaybackBlocked s) (invalidPackets s)
    (transcript s) (transfers s).

Definition initial_view : SessionViewState := {|
  phase := Phase.idle; roomCode := []; vs_profileId := ProfileId.balanced;
  connection := Status.disconnected; security := Security.none; safetyPhrase := None;
  notice := None; voice := Voice.idle; muted := false; audioPlaybackBlocked := false;
  invalidPackets := 0; transcript := []; transfers := [];
|}.

Inductive ViewOutput :=
| VSnapshot (s : SessionViewState)
| VForget (fileId : jstr)          (* sender.remove and receiver.remove *)
| VStartQueued (fileId : jstr).

(** The part of the controller that the view methods read and write. *)
Record View := {
  state : SessionViewState;
  transferOrder : list jstr;
  remoteVoiceActive : bool;
  outs : list ViewOutput;
}.

#[export] Instance View_eta : Eta View := fun v =>
  Build_View (state v) (transferOrder v) (remoteVoiceActive v) (outs v).

Definition MAX_TRANSCRIPT_ITEMS : Z := 500.
Definition MAX_RETAINED_TRANSFERS : Z := 30.

(** ** Transcript *)

Definition vout (o : ViewOutput) (v : View) : View := v <| outs := outs v ++ [o] |>.

Definition emit (v : View) : View := vout (VSnapshot (state v)) v.

Definition with_state (f : SessionViewState -> SessionViewState) (v : View) : View :=
  v <| state := f (state v) |>.

(** [this.patch(...)]. *)
Definition patch (f : SessionViewState -> SessionViewState) (v : View) : View := emit (with_state f v).

Definition set_transcript (l : list TranscriptItem) (v : View) : View :=
  with_state (fun s => s <| transcript := l |>) v.

Definition set_transfers (l : list TransferView) (v : View) : View :=
  with_state (fun s => s <| transfers := l |>) v.

(** [items.slice(items.length - MAX_TRANSCRIPT_ITEMS)]. *)
Definition trimTranscript (items : list TranscriptItem) : list TranscriptItem :=
  if zlength items <=? MAX_TRANSCRIPT_ITEMS then items
  else drop (length items - Z.to_nat MAX_TRANSCRIPT_ITEMS) items.

Definition append (item : TranscriptItem) (v : View) : View :=
  set_transcript (trimTranscript (transcript (state v) ++ [item])) v.

Definition addTranscript (item : TranscriptItem) (v : View) : View := emit (append item v).

Definition addSystem (id : jstr) (now : Z) (text : jstr) (severity : Severity) (v : View) : View :=
  let same :=
    match last (transcript (state v)) with
    | Some previous =>
        bool_decide (it_kind previous = item_system) && bool_decide (it_text previous = text) &&
        bool_decide (it_severity previous = Some severity)
    | None => false
    end in
  if same then v
  else emit (append {| it_id := id; it_kind := item_system; it_from := from_system; it_text := text;
                       it_at := now; it_status := None; it_severity := Some severity;
                       it_fileId := None |} v).

Definition set_status (st : ItemStatus) (item : TranscriptItem) : TranscriptItem :=
  {| it_id := it_id item; it_kind := it_kind item; it_from := it_from item; it_text := it_text item;
     it_at := it_at item; it_status := Some st; it_severity := it_severity item;
     it_fileId := it_fileId item |}.

Definition updateTranscriptStatus (id : jstr) (st : ItemStatus) (v : View) : View :=
  emit (set_transcript
    ((fun item => if decide (it_id item = id) then set_status st item else item)
       <$> transcript (state v)) v).

(** ** Transfers *)

Definition finished (st : Transfer.TransferState) : bool :=
  match st with Transfer.completed | Transfer.cancelled | Transfer.failed => true | _ => false end.

Definition ensureTransferOrder (fileId : jstr) (v : View) : View :=
  if bool_decide (fileId ∈ transferOrder v) then v
  else v <| transferOrder := fileId :: transferOrder v |>.

Definition is_file_item (fileId : jstr) (item : TranscriptItem) : bool :=
  bool_decide (it_kind item = item_file) && bool_decide (it_fileId item = Some fileId).

Definition removeTransferView (fileId : jstr) (v : View) : View :=
  let v := set_transfers (filter (fun t => tv_fileId t <> fileId) (transfers (state v))) v in
  let v := set_transcript (filter (fun i => is_file_item fileId i = false) (transcript (state v))) v in
  v <| transferOrder := filter (fun id => id <> fileId) (transferOrder v) |>.

(** The finished transfers, in the order of the list. *)
Definition retained (v : View) : list jstr :=
  filter (fun id =>
    existsb (fun t => bool_decide (tv_fileId t = id) && finished (tv_state t)) (transfers (state v)) = true)
    (transferOrder v).

Definition forget (v : View) (fileId : jstr) : View :=
  removeTransferView fileId (vout (VForget fileId) v).

Definition trimRetainedTransfers (v : View) : View :=
  foldl forget v (drop (Z.to_nat MAX_RETAINED_TRANSFERS) (retained v)).

(** [new Map(transfers.map((item) => [item.fileId, item]))]. *)
Definition by_id (l : list TransferView) : jsmap jstr TransferView :=
  foldl (fun m t => map_set (tv_fileId t) t m) [] l.

Definition upsertTransfer (id : jstr) (now : Z) (view : TransferView) (v : View) : View :=
  let v := ensureTransferOrder (tv_fileId view) v in
  let existing := map_set (tv_fileId view) view (by_id (transfers (state v))) in
  let v := set_transfers (omap (fun fileId => map_get fileId existing) (transferOrder v)) v in
  let v :=
    if existsb (is_file_item (tv_fileId view)) (transcript (state v)) then v
    else append {| it_id := id; it_kind := item_file;
                   it_from := match tv_direction view with dir_send => from_me | dir_receive => from_peer end;
                   it_text := tv_name view; it_at := now; it_status := None; it_severity := None;
                   it_fileId := Some (tv_fileId view) |} v in
  emit (trimRetainedTransfers v).

Definition removeFile (fileId : jstr) (v : View) : View :=
  match find (fun t => bool_decide (tv_fileId t = fileId)) (transfers (state v)) with
  | Some t => if finished (tv_state t) then emit (forget v fileId) else v
  | None => v
  end.

Definition is_state (l : list Transfer.TransferState) (t : TransferView) : bool :=
  bool_decide (tv_state t ∈ l).

Definition is_send (t : TransferView) : bool := bool_decide (tv_direction t = dir_send).

Definition hasActiveFile (v : View) : bool :=
  existsb (fun t => is_send t &&
    is_state [Transfer.offered; Transfer.waiting; Transfer.sending; Transfer.paused; Transfer.queued] t)
    (transfers (state v)).

Definition hasActiveSendingFileExceptQueued (fileId : jstr) (v : View) : bool :=
  existsb (fun t => negb (bool_decide (tv_fileId t = fileId)) && is_send t &&
    is_state [Transfer.offered; Transfer.waiting; Transfer.sending; Transfer.paused] t)
    (transfers (state v)).

Definition isVoiceActive (v : View) : bool :=
  match voice (state v) with Voice.starting | Voice.active | Voice.muted => true | _ => false end.

Definition startNextQueuedFileIfAllowed (v : View) : View :=
  if isVoiceActive v || remoteVoiceActive v then v
  else if negb (bool_decide (connection (state v) = Status.connected)) then v
  else
    match find (fun t => is_send t && bool_decide (tv_state t = Transfer.queued))
            (reverse (transfers (state v))) with
    | None => v
    | Some queued =>
        if hasActiveSendingFileExceptQueued (tv_fileId queued) v then v
        else vout (VStartQueued (tv_fileId queued)) v
    end.

Definition mapSenderStatus (st : Sender.SenderStatus) : Transfer.TransferState :=
  match st with
  | Sender.offered => Transfer.waiting
  | Sender.sending => Transfer.sending
  | Sender.paused_ => Transfer.paused
  | Sender.queued => Transfer.queued
  | Sender.completed => Transfer.completed
  | Sender.cancelled_ => Transfer.cancelled
  | Sender.failed => Transfer.failed
  end.

Definition mapReceiverStatus (st : Receiver.ReceiverStatus) : Transfer.TransferState :=
  match st with
  | Receiver.offered => Transfer.offered
  | Receiver.receiving => Transfer.receiving
  | Receiver.completed => Transfer.completed
  | Receiver.cancelled => Transfer.cancelled
  | Receiver.failed => Transfer.failed
  end.

Definition sender_view (s : Sender.SenderSnapshot) : TransferView :=
  {| tv_fileId := Sender.ss_fileId s; tv_direction := dir_send; tv_name := Sender.ss_name s;
     tv_size := Sender.ss_size s; tv_progress := (Sender.ss_acked s, Sender.ss_total s);
     tv_state := mapSenderStatus (Sender.ss_status s); tv_reason := Sender.ss_reason s;
     tv_blobUrl := None |}.

Definition receiver_view (s : Receiver.ReceiverSnapshot) : TransferView :=
  {| tv_fileId := Receiver.rs_fileId s; tv_direction := dir_receive;
     tv_name := Receiver.rs_name s; tv_size := Receiver.rs_size s;
     tv_progress := (Receiver.rs_received s, Receiver.rs_total s);
     tv_state := mapReceiverStatus (Receiver.rs_status s);
     tv_reason := Receiver.rs_reason s; tv_blobUrl := Receiver.rs_blobUrl s |}.

Definition updateSender (id : jstr) (now : Z) (snapshot : Sender.SenderSnapshot) (v : View) : View :=
  let v := upsertTransfer id now (sender_view snapshot) v in
  match Sender.ss_status snapshot with
  | Sender.completed | Sender.cancelled_ | Sender.failed => startNextQueuedFileIfAllowed v
  | _ => v
  end.

Definition updateReceiver (id : jstr) (now : Z) (snapshot : Receiver.ReceiverSnapshot) (v : View)
  : View := upsertTransfer id now (receiver_view snapshot) v.

(** ** Voice metadata and limits *)

Definition validateRemoteVoiceStart (p : TransportProfile) (message : CoreAppMessage) : result unit :=
  match message with
  | voice_start streamId sampleRate frameMs_ mode =>
      throw_if negb (bool_decide (streamId = js "voice")) || negb (frameMs_ =? frameMs (voicePolicy p)) ||
               match mode with
               | Some m => negb (bool_decide (m = voice_mode (voicePolicy p)))
               | None => false
               end ||
               (sampleRate <? 8000) || (192000 <? sampleRate)
        with js "Invalid voice stream metadata";
      Ok tt
  | _ => Ok tt
  end.

Definition voiceQueueMaxFrames (p : TransportProfile) : Z :=
  Z.max 1 (ceil_div (maxQueuedLatencyMs (voicePolicy p)) (frameMs (voicePolicy p))).

(** ** Lemmas *)

Definition ids (l : list TransferView) : list jstr := tv_fileId <$> l.

(** The transfers are listed in the order of [transferOrder], each once, the
    transcript is bounded, and few finished transfers are kept. *)
Record view_ok (v : View) : Prop := {
  vo_nodup : NoDup (transferOrder v);
  vo_order : sublist (ids (transfers (state v))) (transferOrder v);
  vo_transcript : zlength (transcript (state v)) <= MAX_TRANSCRIPT_ITEMS;
  vo_retained : zlength (retained v) <= MAX_RETAINED_TRANSFERS;
}.

Lemma trimTranscript_suffix l :
  zlength (trimTranscript l) <= MAX_TRANSCRIPT_ITEMS /\
  (exists k, l = k ++ trimTranscript l) /\
  (zlength l <= MAX_TRANSCRIPT_ITEMS -> trimTranscript l = l) /\
  (MAX_TRANSCRIPT_ITEMS <= zlength l -> zlength (trimTranscript l) = MAX_TRANSCRIPT_ITEMS).
Proof.
  unfold trimTranscript. destruct (Z.leb_spec (zlength l) MAX_TRANSCRIPT_ITEMS).
  - split_and!; [done|by exists []|done|lia].
  - assert (E : zlength (drop (length l - Z.to_nat MAX_TRANSCRIPT_ITEMS) l) = MAX_TRANSCRIPT_ITEMS).
    { unfold zlength, MAX_TRANSCRIPT_ITEMS in *. rewrite length_drop. lia. }
    split_and!; [lia| |lia|done]. eexists. by rewrite take_drop.
Qed.

Lemma ids_nodup v : view_ok v -> NoDup (ids (transfers (state v))).
Proof. intros []. by eapply sublist_NoDup. Qed.

Lemma by_id_app l t : by_id (l ++ [t]) = map_set (tv_fileId t) t (by_id l).
Proof. unfold by_id. by rewrite foldl_app. Qed.

Lemma by_id_get l id t : NoDup (ids l) -> map_get id (by_id l) = Some t <-> t ∈ l /\ tv_fileId t = id.
Proof.
  unfold ids. revert id t. induction l as [|x l IH] using rev_ind; intros id t Hnd.
  { split; [done|]. intros [H _]. by apply not_elem_of_nil in H. }
  rewrite fmap_app, NoDup_app in Hnd. destruct Hnd as (Hl & Hx & _).
  rewrite by_id_app, map_get_set. destruct (decide (id = tv_fileId x)) as [->|Hne].
  - split; [intros [= ->]; set_solver|]. intros [[Ht|Ht%list_elem_of_singleton]%elem_of_app E]; [|by subst].
    destruct (Hx (tv_fileId x)); [|set_solver]. rewrite <- E. by apply list_elem_of_fmap_2.
  - rewrite IH by done. rewrite elem_of_app, list_elem_of_singleton. split; [naive_solver|].
    intros [[H| ->] E]; [done|]. congruence.
Qed.

(** Reading the map in the order of the list. *)
Lemma omap_ids (m : jsmap jstr TransferView) order :
  (forall id t, map_get id m = Some t -> tv_fileId t = id) ->
  sublist (ids (omap (fun id => map_get id m) order)) order.
Proof.
  intros Hm. induction order as [|id order IH]; [done|]. simpl.
  destruct (map_get id m) as [t|] eqn:E; simpl.
  - rewrite (Hm _ _ E). by apply sublist_skip.
  - by apply sublist_cons.
Qed.

Lemma elem_of_ids t l : t ∈ l -> tv_fileId t ∈ ids l.
Proof. apply list_elem_of_fmap_2. Qed.

(** *** Forgetting a transfer *)

Lemma retained_forget v id : retained (forget v id) = filter (fun x => x <> id) (retained v).
Proof.
  unfold retained, forget, removeTransferView, vout.
  cbn [update state transferOrder set_transfers set_transcript with_state transfers].
  rewrite !list_filter_filter. apply list_filter_iff. intros x.
  rewrite !existsb_exists. split.
  - intros [(t & Ht & Hb) Hx]. apply list_elem_of_In, list_elem_of_filter in Ht as [_ Ht].
    split; [done|]. exists t. by rewrite <- list_elem_of_In.
  - intros [Hx (t & Ht & Hb)]. split; [|done]. exists t. split; [|done].
    apply list_elem_of_In, list_elem_of_filter. rewrite <- list_elem_of_In in Ht. split; [|done].
    apply andb_prop in Hb as [Hb _]. bool_facts. congruence.
Qed.

Lemma forget_fields v id :
  transferOrder (forget v id) = filter (fun x => x <> id) (transferOrder v) /\
  transfers (state (forget v id)) = filter (fun t => tv_fileId t <> id) (transfers (state v)) /\
  transcript (state (forget v id)) = filter (fun i => is_file_item id i = false) (transcript (state v)) /\
  outs (forget v id) = outs v ++ [VForget id].
Proof. done. Qed.

Lemma foldl_forget l v :
  transferOrder (foldl forget v l) = filter (fun x => x ∉ l) (transferOrder v) /\
  transfers (state (foldl forget v l)) = filter (fun t => tv_fileId t ∉ l) (transfers (state v)) /\
  retained (foldl forget v l) = filter (fun x => x ∉ l) (retained v) /\
  sublist (transcript (state (foldl forget v l))) (transcript (state v)) /\
  outs (foldl forget v l) = outs v ++ (VForget <$> l).
Proof.
  revert v. induction l as [|id l IH]; intros v; cbn [foldl].
  { rewrite !filter_all by (apply Forall_forall; set_solver). rewrite app_nil_r. done. }
  destruct (forget_fields v id) as (E1 & E2 & E3 & E4).
  destruct (IH (forget v id)) as (-> & -> & -> & Hs & ->).
  rewrite E1, E2, E4, retained_forget, !list_filter_filter, <- app_assoc. split_and!; try done.
  1-3: apply list_filter_iff; intros x; set_solver.
  etrans; [apply Hs|]. rewrite E3. apply sublist_filter.
Qed.

(** *** Invariant *)

Lemma retained_sublist v : sublist (retained v) (transferOrder v).
Proof. apply sublist_filter. Qed.

(** Operations that do not touch the transfers. *)
Lemma view_ok_transcript v v' :
  transferOrder v' = transferOrder v -> transfers (state v') = transfers (state v) ->
  zlength (transcript (state v')) <= MAX_TRANSCRIPT_ITEMS -> view_ok v -> view_ok v'.
Proof.
  intros E1 E2 Ht []. split; try done; unfold retained in *; by rewrite E1, ?E2.
Qed.

Lemma view_ok_append item v : view_ok v -> view_ok (append item v).
Proof. intros Hv. eapply view_ok_transcript, Hv; try done. apply trimTranscript_suffix. Qed.

Lemma view_ok_emit v : view_ok v -> view_ok (emit v).
Proof. intros Hv. eapply view_ok_transcript, Hv; try done. apply Hv. Qed.

Lemma sublist_zlength {A} (l k : list A) : sublist l k -> zlength l <= zlength k.
Proof. intros H%sublist_length. unfold zlength. lia. Qed.

Lemma sublist_fmap_filter {A B} (f : A -> B) (P : B -> Prop) `{!forall x, Decision (P x)} l k :
  sublist (f <$> l) k -> sublist (f <$> filter (fun x => P (f x)) l) (filter P k).
Proof.
  intros Hs. remember (f <$> l) as fl eqn:E. revert l E. induction Hs as [|y fl k _ IH|y fl k _ IH]; intros l E.
  - by destruct l.
  - destruct l as [|x l]; [done|]. simpl in E. injection E as -> ->.
    rewrite !filter_cons. destruct (decide (P (f x))); simpl; [apply sublist_skip|]; by apply IH.
  - rewrite filter_cons. destruct (decide (P y)); [apply sublist_cons|]; by apply IH.
Qed.

Lemma view_ok_forget l v : view_ok v -> view_ok (foldl forget v l).
Proof.
  intros []. destruct (foldl_forget l v) as (E1 & E2 & E3 & Hs & _). split.
  - rewrite E1. by apply NoDup_filter.
  - rewrite E1, E2. exact (sublist_fmap_filter tv_fileId (fun x => x ∉ l) _ _ vo_order0).
  - apply sublist_zlength in Hs. lia.
  - rewrite E3. pose proof (sublist_zlength _ _ (sublist_filter (fun x => x ∉ l) (retained v))). lia.
Qed.

Lemma view_ok_trim v :
  NoDup (transferOrder v) -> sublist (ids (transfers (state v))) (transferOrder v) ->
  zlength (transcript (state v)) <= MAX_TRANSCRIPT_ITEMS ->
  view_ok (trimRetainedTransfers v) /\
  retained (trimRetainedTransfers v) = take (Z.to_nat MAX_RETAINED_TRANSFERS) (retained v).
Proof.
  intros Hnd Hs Ht. unfold trimRetainedTransfers. set (l := drop _ (retained v)).
  destruct (foldl_forget l v) as (E1 & E2 & E3 & Hsub & _).
  assert (E : retained (foldl forget v l) = take (Z.to_nat MAX_RETAINED_TRANSFERS) (retained v)).
  { rewrite E3. apply filter_drop_take. eapply sublist_NoDup; [done|apply retained_sublist]. }
  split; [|done]. split.
  - rewrite E1. by apply NoDup_filter.
  - rewrite E1, E2. exact (sublist_fmap_filter tv_fileId (fun x => x ∉ l) _ _ Hs).
  - apply sublist_zlength in Hsub. lia.
  - rewrite E. unfold zlength, MAX_RETAINED_TRANSFERS. rewrite length_take. lia.
Qed.

(** The state of [upsertTransfer] before it trims. *)
Definition upserted (id : jstr) (now : Z) (view : TransferView) (v : View) : View :=
  let v := ensureTransferOrder (tv_fileId view) v in
  let existing := map_set (tv_fileId view) view (by_id (transfers (state v))) in
  let v := set_transfers (omap (fun fileId => map_get fileId existing) (transferOrder v)) v in
  if existsb (is_file_item (tv_fileId view)) (transcript (state v)) then v
  else append {| it_id := id; it_kind := item_file;
                 it_from := match tv_direction view with dir_send => from_me | dir_receive => from_peer end;
                 it_text := tv_name view; it_at := now; it_status := None; it_severity := None;
                 it_fileId := Some (tv_fileId view) |} v.

Lemma upsertTransfer_eq id now view v :
  upsertTransfer id now view v = emit (trimRetainedTransfers (upserted id now view v)).
Proof. done. Qed.

Lemma upserted_fields id now view v (v' := upserted id now view v)
    (existing := map_set (tv_fileId view) view (by_id (transfers (state v)))) :
  transferOrder v' = transferOrder (ensureTransferOrder (tv_fileId view) v) /\
  transfers (state v') = omap (fun fileId => map_get fileId existing) (transferOrder v') /\
  (zlength (transcript (state v)) <= MAX_TRANSCRIPT_ITEMS ->
   zlength (transcript (state v')) <= MAX_TRANSCRIPT_ITEMS).
Proof.
  subst v'. unfold upserted.
  assert (E : transfers (state (ensureTransferOrder (tv_fileId view) v)) = transfers (state v) /\
              transcript (state (ensureTransferOrder (tv_fileId view) v)) = transcript (state v)).
  { unfold ensureTransferOrder. by case_bool_decide. }
  destruct E as [-> E]. set (w := ensureTransferOrder (tv_fileId view) v) in *. clearbody w.
  destruct (existsb _ _); split_and!; try done.
  - cbn. by rewrite E.
  - intros _. apply trimTranscript_suffix.
Qed.

Lemma ensure_order fileId v :
  NoDup (transferOrder v) ->
  NoDup (transferOrder (ensureTransferOrder fileId v)) /\
  sublist (transferOrder v) (transferOrder (ensureTransferOrder fileId v)) /\
  (forall id, id ∈ transferOrder (ensureTransferOrder fileId v) <-> id = fileId \/ id ∈ transferOrder v).
Proof.
  intros Hnd. unfold ensureTransferOrder. case_bool_decide as H.
  - split_and!; [done|done|]. intros id. split; [by right|]. by intros [->|?].
  - cbn. split_and!; [by constructor|by apply sublist_cons|]. intros id. apply elem_of_cons.
Qed.

Lemma upserted_ok id now view v (v' := upserted id now view v) :
  view_ok v ->
  NoDup (transferOrder v') /\ sublist (ids (transfers (state v'))) (transferOrder v') /\
  zlength (transcript (state v')) <= MAX_TRANSCRIPT_ITEMS /\
  (forall t, t ∈ transfers (state v') <->
     t = view \/ (t ∈ transfers (state v) /\ tv_fileId t <> tv_fileId view)).
Proof.
  intros Hv. destruct (upserted_fields id now view v) as (E1 & E2 & Ht). fold v' in E1, E2, Ht.
  destruct (ensure_order (tv_fileId view) v (vo_nodup _ Hv)) as (Hnd & Hsub & Hin).
  pose proof (ids_nodup v Hv) as Hids. set (existing := map_set _ _ _) in *.
  assert (Hget : forall i t, map_get i existing = Some t <->
     (t = view /\ i = tv_fileId view) \/ (t ∈ transfers (state v) /\ tv_fileId t = i /\ i <> tv_fileId view)).
  { intros i t. unfold existing. rewrite map_get_set. case_decide; [naive_solver|].
    rewrite by_id_get by done. naive_solver. }
  rewrite E2, E1. split_and!; [done| |by apply Ht, Hv|].
  - apply omap_ids. intros i t H. apply Hget in H. naive_solver.
  - intros t. rewrite list_elem_of_omap. setoid_rewrite Hin. setoid_rewrite Hget. split; [naive_solver|].
    intros [->|[H1 H2]]; [naive_solver|]. exists (tv_fileId t). split; [|naive_solver]. right.
    eapply elem_of_sublist; [apply elem_of_ids, H1|apply Hv].
Qed.

(** *** Runs *)

Inductive ViewOp :=
| Upsert (id : jstr) (now : Z) (view : TransferView)
| RemoveFile (fileId : jstr)
| EnsureOrder (fileId : jstr)
| Add (item : TranscriptItem)
| AddSystem (id : jstr) (now : Z) (text : jstr) (severity : Severity)
| SetItemStatus (id : jstr) (st : ItemStatus)
| StartNext
| FreshEpoch.

(** [FreshEpoch]: what [prepareFreshCryptoEpoch] does to the lists. *)
Definition view_step (v : View) (o : ViewOp) : View :=
  match o with
  | Upsert id now view => upsertTransfer id now view v
  | RemoveFile fileId => removeFile fileId v
  | EnsureOrder fileId => ensureTransferOrder fileId v
  | Add item => addTranscript item v
  | AddSystem id now text severity => addSystem id now text severity v
  | SetItemStatus id st => updateTranscriptStatus id st v
  | StartNext => startNextQueuedFileIfAllowed v
  | FreshEpoch =>
      patch (fun s => s <| transfers := [] |>
                        <| transcript := filter (fun i => it_kind i <> item_file) (transcript s) |>)
        (v <| transferOrder := [] |>)
  end.

Lemma view_ok_ensure fileId v : view_ok v -> view_ok (ensureTransferOrder fileId v).
Proof.
  intros Hv. destruct (ensure_order fileId v (vo_nodup _ Hv)) as (Hnd & Hsub & Hin).
  assert (Es : state (ensureTransferOrder fileId v) = state v).
  { unfold ensureTransferOrder. by case_bool_decide. }
  destruct Hv. split; rewrite ?Es; try done; [by etrans|].
  unfold retained in *. rewrite Es. unfold ensureTransferOrder. case_bool_decide as Hx; [done|].
  cbn [update transferOrder]. rewrite filter_cons. case_decide as Hf; [|done].
  apply existsb_exists in Hf as (t & Ht & Hb). apply andb_prop in Hb as [Hb _]. bool_facts.
  destruct Hx. rewrite <- Hb. eapply elem_of_sublist; [|apply vo_order0].
  apply elem_of_ids. by apply list_elem_of_In.
Qed.

Lemma startNext_state v :
  state (startNextQueuedFileIfAllowed v) = state v /\
  transferOrder (startNextQueuedFileIfAllowed v) = transferOrder v.
Proof.
  unfold startNextQueuedFileIfAllowed. destruct (_ || _); [done|]. destruct (negb _); [done|].
  destruct (find _ _) as [t|]; [|done]. by destruct (hasActiveSendingFileExceptQueued _ _).
Qed.

Lemma view_step_ok v o : view_ok v -> view_ok (view_step v o).
Proof.
  intros Hv. destruct o; cbn [view_step].
  - rewrite upsertTransfer_eq. apply view_ok_emit.
    destruct (upserted_ok id now view v Hv) as (H1 & H2 & H3 & _). by apply view_ok_trim.
  - unfold removeFile. destruct (find _ _) as [t|]; [|done]. destruct (finished _); [|done].
    apply view_ok_emit. exact (view_ok_forget [fileId] v Hv).
  - by apply view_ok_ensure.
  - by apply view_ok_emit, view_ok_append.
  - unfold addSystem. destruct (match last _ with Some _ => _ | None => _ end); [done|].
    by apply view_ok_emit, view_ok_append.
  - apply view_ok_emit. eapply view_ok_transcript, Hv; try done. cbn.
    unfold zlength. rewrite length_fmap. apply Hv.
  - destruct (startNext_state v) as [E1 E2]. eapply view_ok_transcript, Hv; rewrite ?E1; try done. apply Hv.
  - apply view_ok_emit. split; cbn; try done; [apply NoDup_nil_2|].
    pose proof (sublist_zlength _ _ (sublist_filter (fun i => it_kind i <> item_file) (transcript (state v)))).
    pose proof (vo_transcript _ Hv). lia.
Qed.

Definition new_view : View :=
  {| state := initial_view; transferOrder := []; remoteVoiceActive := false; outs := [] |}.

Lemma view_run_ok ops : view_ok (foldl view_step new_view ops).
Proof.
  assert (H : forall v, view_ok v -> view_ok (foldl view_step v ops)).
  { induction ops as [|o ops IH]; intros v Hv; cbn [foldl]; [done|]. apply IH. by apply view_step_ok. }
  apply H. split; try done. apply NoDup_nil_2.
Qed.

(** *** The next queued file *)

(** Searching from the end finds the last element with a property. *)
Lemma find_reverse {A} (q : A -> bool) l t :
  find q (reverse l) = Some t <->
  exists before after, l = before ++ t :: after /\ q t = true /\ Forall (fun x => q x = false) after.
Proof.
  induction l as [|x l IH] using rev_ind.
  { split; [done|]. intros (b & a & E & _). by destruct b. }
  rewrite reverse_snoc. cbn [find]. destruct (q x) eqn:Ex.
  - split; [intros [= ->]; by exists l, []|]. intros (b & a & E & Ht & Ha).
    destruct a as [|y a _] using rev_ind.
    + apply app_inj_tail in E as [_ ->]. done.
    + rewrite app_comm_cons, app_assoc in E. apply app_inj_tail in E as [_ <-].
      rewrite Forall_app, Forall_singleton in Ha. naive_solver congruence.
  - rewrite IH. split; intros (b & a & E & Ht & Ha).
    + exists b, (a ++ [x]). rewrite E, <- app_assoc, Forall_app, Forall_singleton. done.
    + destruct a as [|y a _] using rev_ind.
      * apply app_inj_tail in E as [_ ->]. congruence.
      * rewrite app_comm_cons, app_assoc in E. apply app_inj_tail in E as [-> <-].
        rewrite Forall_app in Ha. exists b, a. naive_solver.
Qed.

Definition is_queued_send (t : TransferView) : bool :=
  is_send t && bool_decide (tv_state t = Transfer.queued).

Lemma is_queued_send_iff t :
  is_queued_send t = true <-> tv_direction t = dir_send /\ tv_state t = Transfer.queued.
Proof. unfold is_queued_send, is_send. by rewrite andb_true_iff, !bool_decide_eq_true. Qed.

(** A transfer that does not keep a queued file [fileId] waiting. *)
Definition out_of_the_way (fileId : jstr) (t : TransferView) : Prop :=
  tv_fileId t = fileId \/ tv_direction t = dir_receive \/ finished (tv_state t) = true \/
  tv_state t = Transfer.queued \/ tv_state t = Transfer.receiving.

Lemma hasActiveSending_iff fileId v :
  hasActiveSendingFileExceptQueued fileId v = false <->
  Forall (out_of_the_way fileId) (transfers (state v)).
Proof.
  unfold hasActiveSendingFileExceptQueued. rewrite Forall_forall.
  rewrite <- not_true_iff_false, existsb_exists. unfold out_of_the_way, is_send, is_state. split.
  - intros H t Ht. destruct (decide (tv_fileId t = fileId)); [by left|]. right.
    destruct (tv_direction t) eqn:Ed; [|by left]. right.
    destruct (tv_state t) eqn:Es; try (by left); try (by right; left); try (by right; right);
      exfalso; apply H; exists t; (split; [by apply list_elem_of_In|]);
      rewrite bool_decide_false by done; by rewrite Ed, Es.
  - intros H (t & Ht & Hb). apply list_elem_of_In in Ht. destruct (H t Ht) as [E|[E|[E|[E|E]]]].
    + by rewrite bool_decide_true in Hb.
    + rewrite E in Hb. by rewrite (bool_decide_false (dir_receive = dir_send)), andb_false_r in Hb by done.
    + destruct (tv_state t); try done; by rewrite andb_false_r in Hb.
    + rewrite E in Hb. by rewrite andb_false_r in Hb.
    + rewrite E in Hb. by rewrite andb_false_r in Hb.
Qed.

(** ** Theorems *)

(** Whatever the order of updates, removals, messages and fresh sessions,
    the transfers shown are listed once each in the order of [transferOrder],
    the transcript holds at most 500 items, and at most 30 finished transfers
    are kept. *)
Theorem view_invariant ops (v := foldl view_step new_view ops) :
  NoDup (transferOrder v) /\ NoDup (ids (transfers (state v))) /\
  sublist (ids (transfers (state v))) (transferOrder v) /\
  zlength (transcript (state v)) <= 500 /\
  zlength (filter (fun t => finished (tv_state t) = true) (transfers (state v))) <= 30.
Proof.
  pose proof (view_run_ok ops) as Hv. fold v in Hv. clearbody v.
  split_and!; [apply Hv|by apply ids_nodup|apply Hv|apply Hv|].
  etrans; [|apply (vo_retained _ Hv)].
  set (l := filter _ _). assert (Hl : sublist (ids l) (ids (transfers (state v)))).
  { apply fmap_sublist, sublist_filter. }
  replace (zlength l) with (zlength (ids l)) by (unfold zlength, ids; by rewrite length_fmap).
  assert (Hsub : ids l ⊆+ retained v).
  { apply NoDup_submseteq.
    - eapply sublist_NoDup; [by apply ids_nodup|done].
    - intros i Hi. apply list_elem_of_fmap in Hi as (t & -> & Ht).
      apply list_elem_of_filter in Ht as [Hf Ht]. apply list_elem_of_filter. split.
      + apply existsb_exists. exists t. split; [by apply list_elem_of_In|]. by rewrite bool_decide_true, Hf.
      + eapply elem_of_sublist; [|apply Hv]. by apply elem_of_ids. }
  apply submseteq_length in Hsub. unfold zlength. lia.
Qed.

(** An update of a transfer replaces that transfer and no other one: every
    transfer that is still running stays exactly as it was, the updated one is
    shown while it runs, and what is forgotten are the oldest finished
    transfers beyond 30, each reported to the file services once. *)
Theorem upsert_spec ops id now view (v := foldl view_step new_view ops)
    (v1 := upserted id now view v) (v' := upsertTransfer id now view v) :
  (forall t, finished (tv_state t) = false ->
     t ∈ transfers (state v') <->
     t = view \/ (t ∈ transfers (state v) /\ tv_fileId t <> tv_fileId view)) /\
  retained v' = take 30 (retained v1) /\
  outs v' = outs v1 ++ (VForget <$> drop 30 (retained v1)) ++ [VSnapshot (state v')].
Proof.
  pose proof (view_run_ok ops) as Hv. fold v in Hv. clearbody v.
  destruct (upserted_ok id now view v Hv) as (H1 & H2 & H3 & Hin). fold v1 in H1, H2, H3, Hin.
  destruct (view_ok_trim v1 H1 H2 H3) as [_ Hr].
  assert (Ev : v' = emit (trimRetainedTransfers v1)) by apply upsertTransfer_eq.
  destruct (foldl_forget (drop (Z.to_nat MAX_RETAINED_TRANSFERS) (retained v1)) v1)
    as (E1 & E2 & E3 & E4 & E5). fold (trimRetainedTransfers v1) in E1, E2, E3, E4, E5.
  rewrite Ev. set (w := trimRetainedTransfers v1) in *. split_and!.
  - intros t Ht. change (state (emit w)) with (state w). rewrite E2, list_elem_of_filter, <- Hin.
    split; [naive_solver|]. intros Hx. split; [|done]. intros Hd.
    assert (Hret : tv_fileId t ∈ retained v1) by (eapply elem_of_sublist; [apply Hd|apply sublist_drop]).
    apply list_elem_of_filter in Hret as [Hret _]. apply existsb_exists in Hret as (t' & Ht' & Hb).
    apply andb_prop in Hb as [Hb Hf]. bool_facts. apply list_elem_of_In in Ht'.
    assert (t' = t); [|congruence].
    assert (Hnd : NoDup (ids (transfers (state v1)))) by (by eapply sublist_NoDup).
    apply list_elem_of_lookup in Hx as [i Hi], Ht' as [j Hj].
    assert (i = j); [|congruence]. eapply NoDup_lookup; [apply Hnd| |]; unfold ids; rewrite list_lookup_fmap.
    + by rewrite Hi.
    + rewrite Hj. simpl. by rewrite Hb.
  - exact Hr.
  - unfold emit, vout. cbn [update outs]. by rewrite E5, <- app_assoc.
Qed.

(** A queued file is started exactly when no voice call runs on either
    side, the connection is up and no other file is being sent, and it is the
    one that was queued first. *)
Theorem next_queued_spec v fileId :
  startNextQueuedFileIfAllowed v = vout (VStartQueued fileId) v <->
  isVoiceActive v = false /\ remoteVoiceActive v = false /\
  connection (state v) = Status.connected /\
  (exists newer t older, transfers (state v) = newer ++ t :: older /\ tv_fileId t = fileId /\
     is_queued_send t = true /\ Forall (fun t' => is_queued_send t' = false) older) /\
  Forall (out_of_the_way fileId) (transfers (state v)).
Proof.
  assert (Hdiff : forall P, (P -> False) -> v = vout (VStartQueued fileId) v <-> P).
  { intros P HP. split; [|done]. intros H. exfalso. apply (f_equal (length ∘ outs)) in H.
    unfold vout in H. cbn in H. rewrite length_app in H. simpl in H. lia. }
  unfold startNextQueuedFileIfAllowed. fold is_queued_send.
  destruct (isVoiceActive v); [apply Hdiff; naive_solver|].
  destruct (remoteVoiceActive v); [apply Hdiff; naive_solver|].
  cbn [orb]. case_bool_decide as Hc; cbn [negb]; [|apply Hdiff; naive_solver].
  destruct (find _ (reverse (transfers (state v)))) as [t|] eqn:Ef.
  - rewrite <- hasActiveSending_iff. fold is_queued_send in Ef.
    destruct (hasActiveSendingFileExceptQueued (tv_fileId t) v) eqn:Ea.
    + apply Hdiff. intros (_ & _ & _ & (b & t' & a & E & <- & Hq & Ho) & Hf).
      assert (find is_queued_send (reverse (transfers (state v))) = Some t') by (apply find_reverse; eauto).
      assert (t = t') by (unfold is_queued_send in *; congruence). subst. congruence.
    + split.
      * intros H. apply (f_equal outs) in H. unfold vout in H. cbn in H. apply app_inv_head in H.
        injection H as <-. split_and!; try done. apply find_reverse in Ef as (b & a & E & Hq & Ho). eauto 10.
      * intros (_ & _ & _ & (b & t' & a & E & <- & Hq & Ho) & Hf).
        assert (find is_queued_send (reverse (transfers (state v))) = Some t') by (apply find_reverse; eauto).
        unfold is_queued_send in *. congruence.
  - apply Hdiff. intros (_ & _ & _ & (b & t' & a & E & <- & Hq & Ho) & Hf).
    assert (find is_queued_send (reverse (transfers (state v))) = Some t') by (apply find_reverse; eauto).
    unfold is_queued_send in *. congruence.
Qed.

(** Incoming voice metadata is accepted only with the stream name, the frame
    length and the mode of the profile and a plausible sample rate. *)
Theorem validateRemoteVoiceStart_iff p streamId rate ms mode :
  validateRemoteVoiceStart p (voice_start streamId rate ms mode) = Ok tt <->
  streamId = js "voice" /\ ms = frameMs (voicePolicy p) /\
  (mode = None \/ mode = Some (voice_mode (voicePolicy p))) /\ 8000 <= rate <= 192000.
Proof.
  unfold validateRemoteVoiceStart.
  destruct (negb (bool_decide (streamId = js "voice")) || _ || _ || _ || _) eqn:E.
  - split; [done|]. intros (H1 & H2 & H3 & H4). exfalso. apply not_false_iff_true in E. apply E.
    rewrite bool_decide_true by done. rewrite (proj2 (Z.eqb_eq _ _) H2).
    rewrite (proj2 (Z.ltb_ge _ _)), (proj2 (Z.ltb_ge _ _)) by lia.
    destruct H3 as [->| ->]; [done|]. by rewrite bool_decide_true.
  - split; [|done]. intros _. bool_facts. destruct mode; bool_facts; subst; split_and!; auto; lia.
Qed.

(** What the view calls finished is what the file services call terminal, so
    a forgotten transfer is one they agree to remove. *)
Lemma finished_terminal st st' :
  finished (mapSenderStatus st) = Sender.terminal st /\
  finished (mapReceiverStatus st') = Receiver.terminal st'.
Proof. split; [by destruct st|by destruct st']. Qed.

(** ** Witnesses *)

Definition demo_transfer (n : Z) (st : Transfer.TransferState) : TransferView :=
  {| tv_fileId := js_int n; tv_direction := dir_send; tv_name := js "f"; tv_size := 1;
     tv_progress := (1, 1); tv_state := st; tv_reason := None; tv_blobUrl := None |}.

(** One transfer is running while 32 others finish: the two oldest are
    forgotten, the running one is not. *)
Definition demo_ops : list ViewOp :=
  Upsert [] 0 (demo_transfer 100 Transfer.sending) ::
  ((fun i => Upsert [] 0 (demo_transfer i Transfer.completed)) <$> seqZ 0 32).

Lemma upsert_spec_witness :
  let v := upsertTransfer [] 0 (demo_transfer 32 Transfer.completed) (foldl view_step new_view demo_ops) in
  demo_transfer 100 Transfer.sending ∈ transfers (state v) /\ zlength (transfers (state v)) = 31.
Proof.
  split; [|vm_compute; reflexivity].
  apply (upsert_spec demo_ops [] 0 (demo_transfer 32 Transfer.completed)); [reflexivity|].
  right. split; [|vm_compute; discriminate].
  apply (bool_decide_unpack _). vm_compute. reflexivity.
Defined.
