(* ===== verification/CryptoClient.v ===== *)
(** * Crypto client: [client/src/crypto/CryptoClient.ts] with the worker

    The client turns the worker into a sequence of calls: a call is chained
    behind the previous one, waits for the worker to be ready, is posted under
    a fresh id, and settles by the answer with that id, by its timeout or by a
    crash of the worker.  [System] composes the client with the message queues
    and the worker of [Ratchet], whose own chain handles one request at a
    time; so what the other files take for granted, that a request is one
    transition of the worker, is proved here.

    A call is referred to by its number.  [chain] holds the calls whose
    predecessor has not settled, [running] the one that has started and where
    it waits. *)
From S2P Require Import Prelude JsMap Bytes Profiles Envelope Ratchet RatchetProps.

(** ** The client *)

(** Where a started call waits: for [READY] with its timer armed, for the
    continuation after [waitReady], or for the answer to its id. *)
Inductive Stage :=
| waiting_ready
| resuming
| posted (id : jstr).

Inductive ClientOutput :=
| OPost (id : jstr) (call : nat)
| OAnswered (call : nat) (response : WorkerResponse)
| OFailed (call : nat) (error : jstr).

Record CryptoClient := {
  calls : list WorkerRequest;
  chain : list nat;
  running : option (nat * Stage);
  ready : bool;
  readyWaiters : list nat;
  pending : jsmap jstr nat;
  clog : list ClientOutput;
}.

#[export] Instance CryptoClient_eta : Eta CryptoClient := fun c =>
  Build_CryptoClient (calls c) (chain c) (running c) (ready c) (readyWaiters c) (pending c) (clog c).

Definition newClient : CryptoClient := {|
  calls := []; chain := []; running := None; ready := false; readyWaiters := []; pending := [];
  clog := [];
|}.

Definition cemit (o : ClientOutput) (c : CryptoClient) : CryptoClient := c <| clog := clog c ++ [o] |>.

(** The promise of a call settles and the chain may go on. *)
Definition settle (call : nat) (o : ClientOutput) (c : CryptoClient) : CryptoClient :=
  cemit o (c <| running := match running c with
                           | Some (k, st) => if decide (k = call) then None else Some (k, st)
                           | None => None
                           end |>).

Definition serialRequest (req : WorkerRequest) (c : CryptoClient) : CryptoClient :=
  c <| calls := calls c ++ [req] |> <| chain := chain c ++ [length (calls c)] |>.

(** [rawRequest] up to the await of [waitReady]. *)
Definition rawRequest (c : CryptoClient) : option CryptoClient :=
  match running c, chain c with
  | None, k :: rest =>
      let c := c <| chain := rest |> in
      Some (if ready c then c <| running := Some (k, resuming) |>
            else c <| running := Some (k, waiting_ready) |> <| readyWaiters := readyWaiters c ++ [k] |>)
  | _, _ => None
  end.

(** The rest of [rawRequest]: the promise with its timer, and the message. *)
Definition rawRequest_resume (id : jstr) (c : CryptoClient) : option (CryptoClient * WorkerRequest) :=
  match running c with
  | Some (k, resuming) =>
      match calls c !! k with
      | Some req =>
          Some (cemit (OPost id k) (c <| pending := map_set id k (pending c) |>
                                      <| running := Some (k, posted id) |>), req)
      | None => None
      end
  | _ => None
  end.

Definition ready_timeout (c : CryptoClient) : option CryptoClient :=
  match running c with
  | Some (k, waiting_ready) => Some (settle k (OFailed k (js "Crypto worker ready timeout")) c)
  | _ => None
  end.

(** The message [READY]: the waiters that have not timed out go on. *)
Definition on_ready (c : CryptoClient) : CryptoClient :=
  let woken :=
    match running c with
    | Some (k, waiting_ready) =>
        if decide (k ∈ readyWaiters c) then Some (k, resuming) else Some (k, waiting_ready)
    | r => r
    end in
  c <| ready := true |> <| readyWaiters := [] |> <| running := woken |>.

(** [if (msg.error) req.reject(...) else req.resolve(msg.result)]: an empty
    message counts as no error. *)
Definition answer_output (k : nat) (r : WorkerResponse) : ClientOutput :=
  match r with
  | RError e => if truthy e then OFailed k e else OAnswered k r
  | _ => OAnswered k r
  end.

Definition on_answer (id : jstr) (r : WorkerResponse) (c : CryptoClient) : CryptoClient :=
  if negb (truthy id) then c
  else
    match map_get id (pending c) with
    | None => c
    | Some k => settle k (answer_output k r) (c <| pending := map_delete id (pending c) |>)
    end.

Definition request_type (req : WorkerRequest) : jstr :=
  match req with
  | CONFIGURE _ => js "CONFIGURE"
  | GENERATE_IDENTITY _ => js "GENERATE_IDENTITY"
  | ESTABLISH_SESSION _ _ => js "ESTABLISH_SESSION"
  | ENCRYPT _ _ _ => js "ENCRYPT"
  | DECRYPT _ => js "DECRYPT"
  | RESET => js "RESET"
  end.

Definition request_timeout (id : jstr) (c : CryptoClient) : option CryptoClient :=
  match map_get id (pending c) with
  | None => None
  | Some k =>
      let type := match calls c !! k with Some req => request_type req | None => [] end in
      Some (settle k (OFailed k (js "Crypto operation timed out: " ++ type))
              (c <| pending := map_delete id (pending c) |>))
  end.

(** [worker.onerror]. *)
Definition on_crash (message : jstr) (c : CryptoClient) : CryptoClient :=
  let err := js "Crypto worker crashed: " ++ message in
  (foldl (fun c entry => settle entry.2 (OFailed entry.2 err) c) c (pending c)) <| pending := [] |>.

(** ** The calls the session makes *)

Definition configure_call (p : TransportProfile) : WorkerRequest :=
  CONFIGURE {| cp_paddingBuckets := Some (paddingBuckets p);
               cp_maxSkippedMessageKeys := Some (maxSkippedMessageKeys p);
               cp_protocolVersion := Some (protocolVersion p) |}.

Definition establishSession_call (peerPublicKey : bytes) (profileHashValue : jstr) : WorkerRequest :=
  ESTABLISH_SESSION peerPublicKey profileHashValue.

(** [random] stands for the random bytes the worker draws. *)
Definition encrypt_call (random : Z -> bytes) (data : bytes) (aadContext : AadContext) : WorkerRequest :=
  ENCRYPT random data aadContext.

(** The counter travels as its decimal text and is read back. *)
Definition decrypt_call (ciphertext nonce : bytes) (counter : Z) (aadContext : AadContext) : WorkerRequest :=
  DECRYPT {| req_ciphertext := ciphertext; req_nonce := nonce; req_counter := counter;
             req_aadContext := aadContext |}.

(** ** The system of client, queues and worker *)

Inductive WorkerMessage :=
| MReady
| MAnswer (id : jstr) (response : WorkerResponse).

Record System := {
  client : CryptoClient;
  inbox : list (jstr * WorkerRequest);   (* posted, not yet handled *)
  worker : Worker;
  outbox : list WorkerMessage;           (* posted back, not yet received *)
}.

#[export] Instance System_eta : Eta System := fun s =>
  Build_System (client s) (inbox s) (worker s) (outbox s).

(** A worker posts [READY] when it has loaded. *)
Definition newSystem : System :=
  {| client := newClient; inbox := []; worker := initial_worker; outbox := [MReady] |}.

Inductive Event :=
| Call (req : WorkerRequest)
| Start
| Post (id : jstr)
| ReadyTimeout
| RequestTimeout (id : jstr)
| Crash (message : jstr)
| WorkerHandles
| Deliver.

(** The ids that were posted, with their calls. *)
Definition posts (c : CryptoClient) : list (jstr * nat) :=
  omap (fun o => match o with OPost id k => Some (id, k) | _ => None end) (clog c).

Section System.
Context `{WebCrypto}.

(** [None] when the event cannot happen; [crypto.randomUUID] gives an id that
    was not used before. *)
Definition step (e : Event) (s : System) : option System :=
  match e with
  | Call req => Some (s <| client := serialRequest req (client s) |>)
  | Start => match rawRequest (client s) with Some c => Some (s <| client := c |>) | None => None end
  | Post id =>
      if truthy id && bool_decide (id ∉ (posts (client s)).*1) then
        match rawRequest_resume id (client s) with
        | Some (c, req) => Some (s <| client := c |> <| inbox := inbox s ++ [(id, req)] |>)
        | None => None
        end
      else None
  | ReadyTimeout =>
      match ready_timeout (client s) with Some c => Some (s <| client := c |>) | None => None end
  | RequestTimeout id =>
      match request_timeout id (client s) with Some c => Some (s <| client := c |>) | None => None end
  | Crash message => Some (s <| client := on_crash message (client s) |>)
  | WorkerHandles =>
      match inbox s with
      | (id, req) :: rest =>
          let '(w, r) := handle req (worker s) in
          Some (s <| inbox := rest |> <| worker := w |> <| outbox := outbox s ++ [MAnswer id r] |>)
      | [] => None
      end
  | Deliver =>
      match outbox s with
      | MReady :: rest => Some (s <| client := on_ready (client s) |> <| outbox := rest |>)
      | MAnswer id r :: rest => Some (s <| client := on_answer id r (client s) |> <| outbox := rest |>)
      | [] => None
      end
  end.

Fixpoint run (es : list Event) (s : System) : option System :=
  match es with
  | [] => Some s
  | e :: es' => match step e s with Some s' => run es' s' | None => None end
  end.

(** The specification: the worker as a sequential object. *)
Fixpoint sequential (reqs : list WorkerRequest) (w : Worker) : list WorkerResponse * Worker :=
  match reqs with
  | [] => ([], w)
  | req :: reqs' =>
      let '(w1, r) := handle req w in
      let '(rs, w2) := sequential reqs' w1 in (r :: rs, w2)
  end.

Lemma sequential_snoc reqs req w :
  sequential (reqs ++ [req]) w =
  ((sequential reqs w).1 ++ [(handle req (sequential reqs w).2).2], (handle req (sequential reqs w).2).1).
Proof.
  revert w. induction reqs as [|q reqs IH]; intros w; cbn [sequential app].
  - simpl. by destruct (handle req w).
  - destruct (handle q w) as [w1 r1]. rewrite IH. by destruct (sequential reqs w1).
Qed.

Lemma length_sequential reqs w : length (sequential reqs w).1 = length reqs.
Proof.
  revert w. induction reqs as [|q reqs IH]; intros w; cbn [sequential]; [done|].
  destruct (handle q w) as [w1 r1]. specialize (IH w1). destruct (sequential reqs w1). simpl in *. lia.
Qed.

Lemma sequential_prefix reqs more w i r :
  (sequential reqs w).1 !! i = Some r -> (sequential (reqs ++ more) w).1 !! i = Some r.
Proof.
  induction more as [|m more IH] using rev_ind; [by rewrite app_nil_r|]. intros Hi.
  rewrite app_assoc, sequential_snoc. cbn [fst]. apply lookup_app_l_Some. by apply IH.
Qed.

(** ** Invariant *)

Definition settled (c : CryptoClient) : list nat :=
  omap (fun o => match o with OAnswered k _ | OFailed k _ => Some k | _ => None end) (clog c).

(** The posted requests, in order. *)
Definition requests (c : CryptoClient) : list (jstr * WorkerRequest) :=
  (fun p => (p.1, default RESET (calls c !! p.2))) <$> posts c.

(** What the running call has in the chain, the map and the log. *)
Definition running_call (c : CryptoClient) : list nat :=
  match running c with Some (k, _) => [k] | None => [] end.
Definition running_post (c : CryptoClient) : jsmap jstr nat :=
  match running c with Some (k, posted id) => [(id, k)] | _ => [] end.

(** The calls settle in the order they were made, at most one is running,
    only the running one is pending, and requests are posted in that order. *)
Record client_ok (c : CryptoClient) : Prop := {
  co_order : settled c ++ running_call c ++ chain c = seq 0 (length (calls c));
  co_pending : pending c = running_post c;
  co_ids : NoDup ((posts c).*1);
  co_posted : forall id k, (id, k) ∈ pending c -> (id, k) ∈ posts c;
  co_posts : sublist ((posts c).*2) (settled c ++ (running_post c).*2);
  co_truthy : Forall (fun p => truthy p.1 = true) (posts c);
}.

Lemma posts_cemit o c :
  posts (cemit o c) = posts c ++ match o with OPost id k => [(id, k)] | _ => [] end.
Proof. unfold posts, cemit. cbn [update clog]. rewrite omap_app. by destruct o. Qed.

Lemma settled_cemit o c :
  settled (cemit o c) = settled c ++ match o with OAnswered k _ | OFailed k _ => [k] | _ => [] end.
Proof. unfold settled, cemit. cbn [update clog]. rewrite omap_app. by destruct o. Qed.

(** What a settled call leaves: the next one may start. *)
Lemma settle_ok k st o c pend :
  client_ok c -> running c = Some (k, st) ->
  (match o with OAnswered k' _ | OFailed k' _ => k' = k | OPost _ _ => False end) ->
  pend = [] ->
  client_ok (settle k o (c <| pending := pend |>)).
Proof.
  intros [] Hr Ho ->. unfold running_call, running_post in *. rewrite Hr in *.
  unfold settle. change (running (c <| pending := [] |>)) with (running c). rewrite Hr, decide_True by done.
  set (c1 := c <| pending := [] |> <| running := None |>).
  assert (Ep : posts (cemit o c1) = posts c).
  { rewrite posts_cemit. destruct o; [done| |]; by rewrite app_nil_r. }
  assert (Es : settled (cemit o c1) = settled c ++ [k]).
  { rewrite settled_cemit. by destruct o; subst. }
  split; unfold running_call, running_post; rewrite ?Ep, ?Es; cbn [cemit update running chain calls pending]; try done.
  - by rewrite <- app_assoc.
  - intros id j Hj. by apply not_elem_of_nil in Hj.
  - rewrite app_nil_r. etrans; [apply co_posts0|]. apply sublist_app; [done|].
    destruct st; simpl; try (by apply sublist_nil_l). done.
Qed.

(** A settled call and the map entry it had. *)
Lemma pending_running c id k :
  client_ok c -> map_get id (pending c) = Some k ->
  running c = Some (k, posted id) /\ map_delete id (pending c) = [].
Proof.
  intros [] Hg. rewrite co_pending0 in *. unfold running_post in *.
  destruct (running c) as [[j [| |i]]|]; try done. simpl in Hg. case_decide; [|done]. injection Hg as ->.
  subst i. split; [done|]. unfold map_delete. by rewrite filter_cons_False by naive_solver.
Qed.

Lemma on_answer_ok id r c : client_ok c -> client_ok (on_answer id r c).
Proof.
  intros Hc. unfold on_answer. destruct (negb _); [done|].
  destruct (map_get id (pending c)) as [k|] eqn:E; [|done].
  apply pending_running in E as [Hr Hd]; [|done]. apply (settle_ok _ (posted id)); try done.
  destruct r; try done. simpl. by destruct (truthy message).
Qed.

Lemma request_timeout_ok id c c' : client_ok c -> request_timeout id c = Some c' -> client_ok c'.
Proof.
  intros Hc. unfold request_timeout. destruct (map_get id (pending c)) as [k|] eqn:E; [|done].
  intros [= <-]. apply pending_running in E as [Hr Hd]; [|done]. by apply (settle_ok _ (posted id)).
Qed.

Lemma ready_timeout_ok c c' : client_ok c -> ready_timeout c = Some c' -> client_ok c'.
Proof.
  intros Hc. unfold ready_timeout. destruct (running c) as [[k [| |]]|] eqn:E; try done. intros [= <-].
  pose proof (co_pending _ Hc) as Hp. unfold running_post in Hp. rewrite E in Hp.
  pose proof (settle_ok k waiting_ready (OFailed k (js "Crypto worker ready timeout")) c [] Hc E eq_refl eq_refl) as H'.
  rewrite <- Hp in H'. by destruct c.
Qed.

Lemma on_crash_ok message c : client_ok c -> client_ok (on_crash message c).
Proof.
  intros Hc. unfold on_crash. pose proof (co_pending _ Hc) as Hp. unfold running_post in Hp.
  destruct (running c) as [[k [| |id]]|] eqn:E; rewrite Hp; cbn [foldl].
  1,2,4: destruct c; cbn in *; by rewrite Hp in Hc.
  set (o := OFailed k (js "Crypto worker crashed: " ++ message)).
  exact (settle_ok k (posted id) o c [] Hc E eq_refl eq_refl).
Qed.

Lemma on_ready_ok c : client_ok c -> client_ok (on_ready c).
Proof.
  intros []. unfold on_ready, running_call, running_post in *.
  destruct (running c) as [[k [| |id]]|] eqn:E; try case_decide; split;
    unfold running_call, running_post; done.
Qed.

Lemma rawRequest_ok c c' : client_ok c -> rawRequest c = Some c' -> client_ok c'.
Proof.
  intros []. unfold rawRequest, running_call, running_post in *.
  destruct (running c) eqn:E; [done|]. destruct (chain c) as [|k rest] eqn:Ec; [done|].
  intros [= <-]. cbn [update ready]. destruct (ready c); split; unfold running_call, running_post; done.
Qed.

Lemma serialRequest_ok req c : client_ok c -> client_ok (serialRequest req c).
Proof.
  intros []. split; try done. cbn [serialRequest update calls chain running_call].
  change (settled (serialRequest req c)) with (settled c).
  change (running_call (serialRequest req c)) with (running_call c).
  rewrite length_app, seq_app, <- co_order0. simpl. by rewrite <- !app_assoc.
Qed.

Lemma rawRequest_resume_ok id c c' req :
  client_ok c -> truthy id = true -> id ∉ (posts c).*1 -> rawRequest_resume id c = Some (c', req) ->
  client_ok c' /\ exists k, posts c' = posts c ++ [(id, k)] /\ calls c !! k = Some req /\ calls c' = calls c.
Proof.
  intros [] Ht Hid. unfold rawRequest_resume, running_call, running_post in *.
  destruct (running c) as [[k [| |]]|] eqn:E; try done. destruct (calls c !! k) as [q|] eqn:Eq; [|done].
  intros Heq. apply (inj Some), pair_equal_spec in Heq as [<- <-]. rewrite co_pending0. cbn [map_set].
  set (c1 := c <| pending := [(id, k)] |> <| running := Some (k, posted id) |>).
  assert (Ep : posts (cemit (OPost id k) c1) = posts c ++ [(id, k)]) by by rewrite posts_cemit.
  assert (Es : settled (cemit (OPost id k) c1) = settled c).
  { by rewrite settled_cemit, app_nil_r. }
  split; [|exists k; by rewrite Ep].
  split; unfold running_call, running_post; rewrite ?Ep, ?Es, ?fmap_app; cbn [cemit update running chain calls pending]; try done.
  - apply NoDup_app. split_and!; [done|set_solver|apply NoDup_singleton].
  - intros i j Hj. apply list_elem_of_singleton in Hj as [= -> ->]. set_solver.
  - apply sublist_app; [|done]. by rewrite app_nil_r in co_posts0.
  - apply Forall_app. split; [done|]. by apply Forall_singleton.
Qed.

Lemma posts_in_range c id k : client_ok c -> (id, k) ∈ posts c -> (k < length (calls c))%nat.
Proof.
  intros Hc Hin. assert (Hk : k ∈ settled c ++ running_call c ++ chain c).
  { assert (Hk : k ∈ settled c ++ (running_post c).*2).
    { eapply elem_of_sublist; [|apply (co_posts _ Hc)]. by apply (list_elem_of_fmap_2 snd _ (id, k)). }
    apply elem_of_app in Hk as [Hk|Hk]; [set_solver|]. rewrite !elem_of_app. right. left.
    unfold running_post, running_call in *. destruct (running c) as [[j [| |]]|]; set_solver. }
  rewrite (co_order _ Hc) in Hk. apply elem_of_seq in Hk. lia.
Qed.

(** The handled prefix of the posted requests determines the worker, its
    answers, and what the calls were answered. *)
Record sys_ok (s : System) : Prop := {
  so_client : client_ok (client s);
  so_worker : exists handled, requests (client s) = handled ++ inbox s /\
    worker s = (sequential handled.*2 initial_worker).2 /\
    forall id r, MAnswer id r ∈ outbox s ->
      exists i, (requests (client s)).*1 !! i = Some id /\
        (sequential handled.*2 initial_worker).1 !! i = Some r;
  so_log : forall k r, OAnswered k r ∈ clog (client s) ->
    exists i id, posts (client s) !! i = Some (id, k) /\
      (sequential (requests (client s)).*2 initial_worker).1 !! i = Some r;
}.

(** A change of the client that posts and answers nothing. *)
Record silent (c c' : CryptoClient) : Prop := {
  sl_posts : posts c' = posts c;
  sl_requests : requests c' = requests c;
  sl_answers : forall k r, OAnswered k r ∈ clog c' -> OAnswered k r ∈ clog c;
}.

Lemma sys_ok_silent s c' :
  sys_ok s -> client_ok c' -> silent (client s) c' -> sys_ok (s <| client := c' |>).
Proof.
  intros [] Hc' []. split; cbn [update client inbox worker outbox]; [done| |].
  - by rewrite sl_requests0.
  - rewrite sl_posts0, sl_requests0. eauto.
Qed.

Lemma silent_same c c' : calls c' = calls c -> clog c' = clog c -> silent c c'.
Proof.
  intros E1 E2. assert (Ep : posts c' = posts c) by (unfold posts; by rewrite E2).
  split; [done| |by rewrite E2]. unfold requests. by rewrite Ep, E1.
Qed.

Lemma silent_fail k e c c1 :
  calls c1 = calls c -> clog c1 = clog c -> silent c (settle k (OFailed k e) c1).
Proof.
  intros E1 E2. assert (Ep : posts (settle k (OFailed k e) c1) = posts c).
  { unfold settle. rewrite posts_cemit, app_nil_r. unfold posts. cbn [update clog]. by rewrite E2. }
  split; [done| |].
  - unfold requests. rewrite Ep. change (calls (settle k (OFailed k e) c1)) with (calls c1). by rewrite E1.
  - intros k' r. unfold settle, cemit. cbn [update clog]. rewrite E2. set_solver.
Qed.

Lemma on_crash_silent message c : client_ok c -> silent c (on_crash message c).
Proof.
  intros Hc. unfold on_crash. pose proof (co_pending _ Hc) as Hp. unfold running_post in Hp.
  destruct (running c) as [[k [| |id]]|] eqn:E; rewrite Hp; cbn [foldl]; try by apply silent_same.
  set (e := js "Crypto worker crashed: " ++ message). destruct (silent_fail k e c c eq_refl eq_refl).
  by split.
Qed.

Lemma serialRequest_silent req c : client_ok c -> silent c (serialRequest req c).
Proof.
  intros Hc. split; [done| |done]. unfold requests. change (posts (serialRequest req c)) with (posts c).
  apply list_fmap_ext. intros i [id k] Hi. cbn. do 2 f_equal. rewrite lookup_app_l; [done|].
  eapply posts_in_range; [done|]. by eapply list_elem_of_lookup_2.
Qed.

(** The index of a posted id is unique. *)
Lemma post_index c i id j k :
  client_ok c -> (requests c).*1 !! i = Some id -> posts c !! j = Some (id, k) -> i = j.
Proof.
  intros Hc Hi Hj. eapply NoDup_lookup; [apply (co_ids _ Hc)| |].
  - unfold requests in Hi. rewrite <- list_fmap_compose in Hi. apply Hi.
  - by rewrite list_lookup_fmap, Hj.
Qed.

Lemma sys_ok_post id s c' req :
  sys_ok s -> truthy id = true -> id ∉ (posts (client s)).*1 ->
  rawRequest_resume id (client s) = Some (c', req) ->
  sys_ok (s <| client := c' |> <| inbox := inbox s ++ [(id, req)] |>).
Proof.
  intros [Hc Hw Hl] Ht Hid Hr. pose proof Hr as Hr0.
  apply rawRequest_resume_ok in Hr as (Hc' & k & Ep & Eq & Ec); [|done..].
  assert (Er : requests c' = requests (client s) ++ [(id, req)]).
  { unfold requests. rewrite Ep, Ec, fmap_app. simpl. by rewrite Eq. }
  assert (Ha : forall j r, OAnswered j r ∈ clog c' -> OAnswered j r ∈ clog (client s)).
  { intros j r. unfold rawRequest_resume in Hr0. destruct (running (client s)) as [[j' [| |]]|]; try done.
    destruct (calls (client s) !! j'); [|done]. injection Hr0 as <- <-. unfold cemit. cbn. set_solver. }
  split; cbn [update client inbox worker outbox]; [done| |].
  - destruct Hw as (handled & E & Ew & Hout). exists handled. rewrite Er, E, app_assoc. split_and!; [done|done|].
    intros i' r Hin. destruct (Hout _ _ Hin) as (i & Hi & Hr'). exists i. split; [|done].
    rewrite fmap_app. apply lookup_app_l_Some. by rewrite <- E.
  - intros j r Hin. destruct (Hl j r (Ha _ _ Hin)) as (i & id' & Hi & Hr'). exists i, id'.
    rewrite Ep, Er, fmap_app. split; [by apply lookup_app_l_Some|by apply sequential_prefix].
Qed.

Lemma sys_ok_worker s id req rest w r :
  sys_ok s -> inbox s = (id, req) :: rest -> handle req (worker s) = (w, r) ->
  sys_ok (s <| inbox := rest |> <| worker := w |> <| outbox := outbox s ++ [MAnswer id r] |>).
Proof.
  intros [Hc (handled & E & Ew & Hout) Hl] Ei Hh. split; cbn [update client inbox worker outbox]; [done| |done].
  exists (handled ++ [(id, req)]). rewrite fmap_app. simpl. rewrite sequential_snoc. cbn [fst snd].
  rewrite <- Ew, Hh. split_and!; [by rewrite E, Ei, <- app_assoc|done|].
  intros id' r' Hin. apply elem_of_app in Hin as [Hin|Hin%list_elem_of_singleton].
  - destruct (Hout _ _ Hin) as (i & Hi & Hr). exists i. split; [done|]. by apply lookup_app_l_Some.
  - injection Hin as -> ->. exists (length handled). rewrite E, Ei, fmap_app. split.
    + apply list_lookup_middle. by rewrite length_fmap.
    + apply list_lookup_middle. by rewrite length_sequential, length_fmap.
Qed.

Lemma sys_ok_answer s id r rest :
  sys_ok s -> outbox s = MAnswer id r :: rest ->
  sys_ok (s <| client := on_answer id r (client s) |> <| outbox := rest |>).
Proof.
  intros [Hc (handled & E & Ew & Hout) Hl] Eo. pose proof (on_answer_ok id r _ Hc) as Hc'.
  assert (Hsame : posts (on_answer id r (client s)) = posts (client s) /\
                  calls (on_answer id r (client s)) = calls (client s)).
  { unfold on_answer. destruct (negb _); [done|]. destruct (map_get _ _) as [k|]; [|done]. split; [|done].
    unfold settle. rewrite posts_cemit. destruct r; cbn [answer_output]; try apply app_nil_r.
    destruct (truthy message); apply app_nil_r. }
  destruct Hsame as [Ep Ec].
  assert (Er : requests (on_answer id r (client s)) = requests (client s)) by (unfold requests; by rewrite Ep, Ec).
  split; cbn [update client inbox worker outbox]; [done| |].
  - rewrite Er. exists handled. split_and!; [done|done|]. intros id' r' Hin. apply Hout. rewrite Eo. set_solver.
  - rewrite Ep, Er. intros k r' Hin. unfold on_answer in Hin. destruct (negb _); [by apply Hl|].
    destruct (map_get id (pending (client s))) as [j|] eqn:Eg; [|by apply Hl].
    unfold settle, cemit in Hin. cbn in Hin. apply elem_of_app in Hin as [Hin|Hin%list_elem_of_singleton]; [by apply Hl|].
    assert (k = j /\ r' = r) as [-> ->].
    { destruct r; cbn [answer_output] in Hin; try naive_solver. destruct (truthy message); naive_solver. }
    apply map_get_In, (co_posted _ Hc), list_elem_of_lookup in Eg as [jx Hj].
    destruct (Hout id r) as (i & Hi & Hr); [rewrite Eo; set_solver|].
    assert (i = jx) as -> by apply (post_index _ _ _ _ _ Hc Hi Hj). exists jx, id. split; [done|].
    rewrite E, fmap_app. by apply sequential_prefix.
Qed.

Lemma step_ok e s s' : sys_ok s -> step e s = Some s' -> sys_ok s'.
Proof.
  intros Hs Hst. pose proof (so_client _ Hs) as Hc. destruct e; cbn [step] in Hst.
  - apply (inj Some) in Hst as <-. apply sys_ok_silent; [done|by apply serialRequest_ok|].
    by apply serialRequest_silent.
  - destruct (rawRequest (client s)) as [c'|] eqn:E; [|done]. apply (inj Some) in Hst as <-.
    pose proof (rawRequest_ok _ _ Hc E) as Hc'. apply sys_ok_silent; [done|done|].
    unfold rawRequest in E. destruct (running _); [done|]. destruct (chain _); [done|].
    apply (inj Some) in E as <-.
    match goal with |- context [if ?b then _ else _] => destruct b end; by apply silent_same.
  - destruct (truthy id) eqn:Et; [|done]. case_bool_decide as Hid; [|done]. cbn [andb] in Hst.
    destruct (rawRequest_resume id (client s)) as [[c' req]|] eqn:E; [|done]. apply (inj Some) in Hst as <-.
    by apply sys_ok_post.
  - destruct (ready_timeout (client s)) as [c'|] eqn:E; [|done]. apply (inj Some) in Hst as <-.
    pose proof (ready_timeout_ok _ _ Hc E) as Hc'. apply sys_ok_silent; [done|done|].
    unfold ready_timeout in E. destruct (running _) as [[k [| |]]|]; try done. apply (inj Some) in E as <-.
    by apply silent_fail.
  - destruct (request_timeout id (client s)) as [c'|] eqn:E; [|done]. apply (inj Some) in Hst as <-.
    pose proof (request_timeout_ok _ _ _ Hc E) as Hc'. apply sys_ok_silent; [done|done|].
    unfold request_timeout in E. destruct (map_get _ _); [|done]. apply (inj Some) in E as <-.
    by apply silent_fail.
  - apply (inj Some) in Hst as <-. apply sys_ok_silent; [done|by apply on_crash_ok|by apply on_crash_silent].
  - destruct (inbox s) as [|[id req] rest] eqn:E; [done|]. destruct (handle req (worker s)) as [w r] eqn:Eh.
    apply (inj Some) in Hst as <-. by eapply sys_ok_worker.
  - destruct (outbox s) as [|[|id r] rest] eqn:E; [done| |]; apply (inj Some) in Hst as <-.
    + assert (Hs' : sys_ok (s <| client := on_ready (client s) |>)).
      { apply sys_ok_silent; [done|by apply on_ready_ok|by apply silent_same]. }
      destruct Hs' as [H1 (handled & H2 & H3 & H4) H5]. split; [done| |done]. exists handled.
      split_and!; [done|done|]. intros id r Hin. apply H4. cbn. rewrite E. set_solver.
    + by apply sys_ok_answer.
Qed.

Lemma new_ok : sys_ok newSystem.
Proof.
  split.
  - split; try done. apply NoDup_nil_2.
  - exists []. split_and!; [done|done|]. intros id r Hin. apply list_elem_of_singleton in Hin. done.
  - intros k r Hin. by apply not_elem_of_nil in Hin.
Qed.

Lemma run_ok es s s' : sys_ok s -> run es s = Some s' -> sys_ok s'.
Proof.
  revert s. induction es as [|e es IH]; intros s Hs; cbn [run]; [by intros [= <-]|].
  destruct (step e s) as [s1|] eqn:E; [|done]. apply IH. by eapply step_ok.
Qed.

(** ** Progress *)

(** What the client does on its own: continuations and timers. *)
Definition internal (e : Event) : Prop :=
  match e with Start | Post _ | ReadyTimeout | RequestTimeout _ => True | _ => False end.

Definition measure (c : CryptoClient) : nat :=
  3 * length (chain c) +
  match running c with
  | None => 0
  | Some (_, posted _) => 1
  | Some (_, _) => 2
  end.

Lemma settle_measure k st o c :
  running c = Some (k, st) -> measure (settle k o c) = (3 * length (chain c))%nat /\
  (measure (settle k o c) < measure c)%nat.
Proof.
  intros Hr. unfold measure, settle, cemit. cbn. rewrite Hr, decide_True by done. destruct st; simpl; lia.
Qed.

Lemma internal_decreases e s s' :
  client_ok (client s) -> internal e -> step e s = Some s' ->
  (measure (client s') < measure (client s))%nat /\ calls (client s') = calls (client s).
Proof.
  intros Hc He Hst. destruct e; try done; cbn [step] in Hst.
  - unfold rawRequest in Hst. destruct (running (client s)) eqn:Er; [done|].
    destruct (chain (client s)) eqn:Ec; [done|]. apply (inj Some) in Hst as <-. unfold measure.
    cbn [update client]. rewrite Er, Ec.
    match goal with |- context [if ?b then _ else _] => destruct b end; cbn; (split; [lia|done]).
  - destruct (_ && _); [|done]. unfold rawRequest_resume in Hst.
    destruct (running (client s)) as [[k [| |]]|] eqn:Er; try done.
    destruct (calls (client s) !! k); [|done]. apply (inj Some) in Hst as <-. unfold measure.
    cbn. rewrite Er. split; [lia|done].
  - unfold ready_timeout in Hst. destruct (running (client s)) as [[k [| |]]|] eqn:Er; try done.
    apply (inj Some) in Hst as <-. split; [|done]. by eapply settle_measure.
  - unfold request_timeout in Hst. destruct (map_get id (pending (client s))) as [k|] eqn:Eg; [|done].
    apply pending_running in Eg as [Er _]; [|done]. apply (inj Some) in Hst as <-. split; [|done].
    set (c1 := (client s) <| pending := map_delete id (pending (client s)) |>).
    change (measure (client s)) with (measure c1). by eapply settle_measure.
Qed.

(** An id longer than all that were used. *)
Definition fresh (l : list jstr) : jstr := replicate (S (sum_list_with length l)) 0.

Lemma fresh_spec l : truthy (fresh l) = true /\ fresh l ∉ l.
Proof.
  split; [done|]. intros Hin. assert (Hle : (length (fresh l) <= sum_list_with length l)%nat).
  { clear -Hin. revert Hin. generalize (fresh l) as x. intros x. induction l as [|y l IH]; [intros Hn; by apply not_elem_of_nil in Hn|].
    intros [->|Hx]%elem_of_cons; simpl; [lia|]. specialize (IH Hx). lia. }
  unfold fresh in Hle. rewrite length_replicate in Hle. lia.
Qed.

Lemma internal_enabled s :
  client_ok (client s) -> (measure (client s) <> 0)%nat -> exists e s', internal e /\ step e s = Some s'.
Proof.
  intros Hc Hm. unfold measure in Hm. pose proof (co_order _ Hc) as Ho. unfold running_call in Ho.
  destruct (running (client s)) as [[k [| |id]]|] eqn:Er.
  - exists ReadyTimeout. cbn [step]. unfold ready_timeout. rewrite Er. by eexists.
  - destruct (fresh_spec ((posts (client s)).*1)) as [Ht Hf].
    exists (Post (fresh ((posts (client s)).*1))). cbn [step]. rewrite Ht, bool_decide_true by done. cbn [andb].
    unfold rawRequest_resume. rewrite Er.
    assert (Hk : (k < length (calls (client s)))%nat).
    { assert (k ∈ seq 0 (length (calls (client s)))) as Hk%elem_of_seq by (rewrite <- Ho; set_solver). lia. }
    apply lookup_lt_is_Some_2 in Hk as [req ->]. by eexists.
  - exists (RequestTimeout id). cbn [step]. unfold request_timeout.
    rewrite (co_pending _ Hc). unfold running_post. rewrite Er. cbn [map_get]. rewrite decide_True by done.
    by eexists.
  - exists Start. cbn [step]. unfold rawRequest. rewrite Er. destruct (chain (client s)); [simpl in Hm; lia|].
    by eexists.
Qed.

Lemma settles n s :
  sys_ok s -> (measure (client s) <= n)%nat ->
  exists es s', Forall internal es /\ (length es <= measure (client s))%nat /\ run es s = Some s' /\
    settled (client s') = seq 0 (length (calls (client s))).
Proof.
  revert s. induction n as [|n IH]; intros s Hs Hn.
  all: destruct (decide (measure (client s) = 0%nat)) as [E|E].
  1,3: exists [], s; pose proof (co_order _ (so_client _ Hs)) as Ho; unfold measure, running_call in *;
    destruct (running (client s)) as [[k []]|]; try lia; destruct (chain (client s)); [|simpl in E; lia];
    rewrite app_nil_r in Ho; (split_and!; [done|simpl; lia|done|done]).
  - lia.
  - destruct (internal_enabled s (so_client _ Hs) E) as (e & s1 & He & Hst).
    destruct (internal_decreases _ _ _ (so_client _ Hs) He Hst) as [Hlt Ec].
    destruct (IH s1) as (es & s' & Hes & Hlen & Hrun & Hset); [by eapply step_ok|lia|].
    exists (e :: es), s'. split_and!; [by constructor|simpl; lia| |by rewrite <- Ec].
    cbn [run]. by rewrite Hst.
Qed.

Lemma sublist_same_length {A} (l k : list A) : sublist l k -> (length k <= length l)%nat -> l = k.
Proof.
  induction 1 as [|x l k _ IH|x l k Hs _]; intros Hlen; simpl in *; [done|f_equal; apply IH; lia|].
  apply sublist_length in Hs. lia.
Qed.

(** Without failures every call that settled was posted. *)
Lemma posts_all c :
  client_ok c -> (forall k, k ∈ settled c -> k ∈ (posts c).*2) ->
  exists m, (posts c).*2 = seq 0 m /\ (m <= length (calls c))%nat.
Proof.
  intros Hc Hall. set (L := settled c ++ (running_post c).*2).
  assert (HL : L = seq 0 (length L) /\ (length L <= length (calls c))%nat).
  { pose proof (co_order _ Hc) as Ho. assert (exists rest, L ++ rest = seq 0 (length (calls c))) as [rest Hrest].
    { rewrite <- Ho. unfold L, running_post, running_call.
      destruct (running c) as [[k [| |]]|]; cbn [fmap list_fmap fst snd app];
        [exists (k :: chain c)|exists (k :: chain c)|exists (chain c)|exists (chain c)];
        by rewrite <- ?app_assoc. }
    assert (Hle : (length L <= length (calls c))%nat).
    { apply (f_equal length) in Hrest. rewrite length_app, length_seq in Hrest. lia. }
    split; [|done]. apply (f_equal (take (length L))) in Hrest. rewrite take_app_length, take_seq in Hrest.
    rewrite Hrest at 1. f_equal. lia. }
  destruct HL as [HL Hle]. exists (length L). split; [|done]. rewrite <- HL.
  apply sublist_same_length; [apply (co_posts _ Hc)|]. apply submseteq_length, NoDup_submseteq.
  - rewrite HL. apply NoDup_seq.
  - intros k Hk. apply elem_of_app in Hk as [Hk|Hk]; [by apply Hall|].
    apply list_elem_of_fmap in Hk as ([id j] & -> & Hk). rewrite <- (co_pending _ Hc) in Hk.
    by apply (list_elem_of_fmap_2 snd _ (id, j)), (co_posted _ Hc).
Qed.

Lemma requests_all c m :
  (posts c).*2 = seq 0 m -> (m <= length (calls c))%nat -> (requests c).*2 = take m (calls c).
Proof.
  intros Hp Hm. apply list_eq. intros i. unfold requests. rewrite <- list_fmap_compose, list_lookup_fmap.
  destruct (decide (i < m)%nat) as [Hi|Hi].
  - assert (E : (posts c).*2 !! i = Some i) by (rewrite Hp; by apply lookup_seq_lt).
    rewrite list_lookup_fmap in E. destruct (posts c !! i) as [[id k]|]; [|done]. injection E as ->.
    rewrite lookup_take_lt by done. simpl.
    assert (Hi' : (i < length (calls c))%nat) by lia. apply lookup_lt_is_Some_2 in Hi' as [x ->]. done.
  - rewrite (lookup_ge_None_2 (take m _)) by (rewrite length_take; lia).
    rewrite lookup_ge_None_2; [done|]. apply (f_equal length) in Hp. rewrite length_fmap, length_seq in Hp. lia.
Qed.

(** ** Theorems *)

(** C10: the crypto client is a queue in front of a sequential worker.  In every
    run, with any delays, timeouts and crashes: the calls settle in the order
    they were made, each once; at most one request is outstanding; the worker
    receives requests in the order of the calls; and a call that is answered
    gets exactly the response the worker gives to its request when it handles
    the posted requests one after the other.  While no call fails, that is
    the response of handling all calls one after the other. *)
Theorem calls_linearized es s (c := client s) :
  run es newSystem = Some s ->
  settled c = seq 0 (length (settled c)) /\
  (length (pending c) <= 1)%nat /\
  sublist ((posts c).*2) (seq 0 (length (calls c))) /\
  (forall k r, OAnswered k r ∈ clog c ->
    exists i, (posts c).*2 !! i = Some k /\ (requests c).*2 !! i = calls c !! k /\
      (sequential (requests c).*2 initial_worker).1 !! i = Some r) /\
  ((forall k e, OFailed k e ∉ clog c) ->
   forall k r, OAnswered k r ∈ clog c -> (sequential (calls c) initial_worker).1 !! k = Some r).
Proof.
  intros Hr. pose proof (run_ok _ _ _ new_ok Hr) as [Hc _ Hl]. fold c in Hc, Hl. split_and!.
  - pose proof (co_order _ Hc) as Ho. apply (f_equal (take (length (settled c)))) in Ho.
    rewrite take_app_length, take_seq in Ho. rewrite Ho at 1. f_equal.
    pose proof (co_order _ Hc) as Ho'. apply (f_equal length) in Ho'. rewrite length_app, length_seq in Ho'. lia.
  - rewrite (co_pending _ Hc). unfold running_post. destruct (running c) as [[k []]|]; simpl; lia.
  - etrans; [apply (co_posts _ Hc)|]. rewrite <- (co_order _ Hc). apply sublist_app; [done|].
    unfold running_post, running_call. destruct (running c) as [[k []]|]; simpl; try apply sublist_nil_l.
    apply sublist_skip, sublist_nil_l.
  - intros k r Hin. destruct (Hl k r Hin) as (i & id & Hi & Hresp). exists i.
    assert (Hk : (k < length (calls c))%nat) by (eapply posts_in_range; [done|by eapply list_elem_of_lookup_2]).
    apply lookup_lt_is_Some_2 in Hk as [req Hk].
    split_and!; [by rewrite list_lookup_fmap, Hi| |done].
    unfold requests. rewrite <- list_fmap_compose, list_lookup_fmap, Hi. simpl. by rewrite Hk.
  - intros Hno k r Hin. destruct (posts_all c Hc) as (m & Hp & Hm).
    { intros j Hj. apply list_elem_of_omap in Hj as (o & Ho & Hj). destruct o as [|j' r'|j' e']; [done| |].
      - injection Hj as ->. destruct (Hl j r' Ho) as (i & id & Hi & _). rewrite list_elem_of_fmap.
        exists (id, j). split; [done|by eapply list_elem_of_lookup_2].
      - by destruct (Hno j' e'). }
    destruct (Hl k r Hin) as (i & id & Hi & Hresp).
    assert (Hik : (posts c).*2 !! i = Some k) by by rewrite list_lookup_fmap, Hi.
    rewrite Hp in Hik. apply lookup_seq in Hik as [-> _]. rewrite (requests_all c m) in Hresp by done.
    rewrite <- (take_drop m (calls c)). by apply sequential_prefix.
Qed.

(** C23: no call to the worker hangs.  From every state that can be reached, even
    if the worker never answers again, the client's own continuations and
    timers settle every call, in at most three steps per call; and each of
    those steps brings it closer. *)
Theorem every_call_settles es s :
  run es newSystem = Some s ->
  (exists es' s', Forall internal es' /\ run es' s = Some s' /\
     (length es' <= 3 * length (calls (client s)))%nat /\
     settled (client s') = seq 0 (length (calls (client s)))) /\
  (forall e s', internal e -> step e s = Some s' -> (measure (client s') < measure (client s))%nat).
Proof.
  intros Hr. pose proof (run_ok _ _ _ new_ok Hr) as Hs. split.
  - destruct (settles (measure (client s)) s Hs) as (es' & s' & He & Hlen & Hrun & Hset); [lia|].
    exists es', s'. split_and!; [done|done| |done]. etrans; [apply Hlen|].
    pose proof (co_order _ (so_client _ Hs)) as Ho. apply (f_equal length) in Ho.
    rewrite !length_app, length_seq in Ho. unfold measure, running_call in *.
    destruct (running (client s)) as [[k []]|]; simpl in *; lia.
  - intros e s' He Hst. by apply (internal_decreases _ _ _ (so_client _ Hs) He Hst).
Qed.
End System.

(** ** Witnesses *)

(** Two calls; the answer to the first comes after its timeout, so it is
    ignored, and the second is answered. *)
Definition demo_calls : list Event :=
  [Call (configure_call profile_balanced); Start; Call RESET; Deliver; Post (js "a"); RequestTimeout (js "a");
   Start; Post (js "b"); WorkerHandles; WorkerHandles; Deliver; Deliver].

Definition demo_system : System := default newSystem (run (H := toy) demo_calls newSystem).

Lemma demo_system_reached : run (H := toy) demo_calls newSystem = Some demo_system.
Proof. vm_compute. reflexivity. Qed.

Lemma calls_linearized_witness :
  settled (client demo_system) = [0; 1]%nat /\
  exists i, (posts (client demo_system)).*2 !! i = Some 1%nat /\
    (requests (client demo_system)).*2 !! i = calls (client demo_system) !! 1%nat /\
    (sequential (H := toy) (requests (client demo_system)).*2 initial_worker).1 !! i = Some RTrue.
Proof.
  split; [by vm_compute|].
  apply (calls_linearized (H := toy) demo_calls demo_system demo_system_reached).
  vm_compute. repeat (apply list_elem_of_here || apply list_elem_of_further).
Defined.

Lemma every_call_settles_witness :
  exists es' s', Forall internal es' /\ run (H := toy) es' demo_system = Some s' /\
    (length es' <= 3 * length (calls (client demo_system)))%nat /\
    settled (client s') = seq 0 (length (calls (client demo_system))).
Proof. apply (every_call_settles (H := toy) demo_calls demo_system demo_system_reached). Defined.
