(* ===== verification/Voice.v ===== *)
(** * Voice service: [client/src/features/audio/VoiceService.ts]

    Capture: blocks of samples of any length are cut into frames, gated and
    numbered.  Playback: frames are checked, buffered and scheduled one after
    the other with a bounded lead.  Around both, the browser resources: the
    microphone, two audio contexts, the capture node and the scheduled
    sources, each with a number of its own, so that what is acquired and what
    is released can be compared in the log.

    [start] is cut at its awaits ([StartStage]), [play] and [enablePlayback]
    at the one of [resumeContext]; a call of [start] may be overtaken by
    [stop] and by another [start].  After an await the code reads the fields
    of the object again, and so does the model.  Times are milliseconds; the
    division by 1000 that gives the seconds of Web Audio is left out, and with
    it the rounding of doubles. *)
From S2P Require Import Prelude JsMap Bytes Profiles Audio.

(** ** Data *)

(** A sample of a [Float32Array]: a rational or not a number. *)
Abbreviation sample := (option (Z * Z)).

Record VoiceFrame := {
  vf_streamId : jstr;
  vf_seq : Z;
  vf_sentAt : Z;
  vf_sampleRate : Z;
  vf_frameMs : Z;
  vf_pcm16 : jstr;
}.

Record PlaybackFrame := {
  pf_seq : Z;
  pf_frame : VoiceFrame;
  pf_pcm16 : bytes;
  pf_receivedAt : Z;
}.

Inductive VoiceDropReason := drop_stale | drop_lead_reset.

Inductive JsError := DomException (name message : jstr) | PlainError (message : jstr).

(** What the browser offers. *)
Record Capabilities := {
  cap_secure : bool;           (* window.isSecureContext *)
  cap_microphone : bool;       (* navigator.mediaDevices?.getUserMedia *)
  cap_audio : bool;            (* window.AudioContext *)
  cap_worklet : bool;          (* AudioWorkletNode *)
  cap_context_worklet : bool;  (* inputCtx.audioWorklet *)
}.

(** Where a call of [start] waits. *)
Inductive StartStage :=
| resume_input
| resume_output
| microphone
| microphone_fallback
| worklet_load.

Inductive VoiceOutput :=
| OFrame (frame : VoiceFrame)
| ODrop (reason : VoiceDropReason)
| OOpenContext (id : nat)
| OCloseContext (id : nat)
| OOpenMicrophone (id : nat)
| OStopTracks (id : nat)
| OSchedule (id : nat) (seq startAt frameMs : Z)
| OStopSource (id : nat)
| OStarted (call : nat)
| OStartFailed (call : nat) (error : jstr)
| OPlayed (ok : bool)
| OPlayError (error : jstr).

Record VoiceService := {
  vprofile : TransportProfile;
  stream : option nat;
  inputCtx : option nat;
  outputCtx : option nat;
  captureNode : option nat;
  sourceNode : option nat;
  zeroGain : option nat;
  seqNo : Z;
  vmuted : bool;
  captureBuffer : list (list sample);
  captureSamples : Z;
  jitter : Jitter.JitterBuffer (T := PlaybackFrame);
  playbackTimer : bool;
  nextPlaybackTime : Z;
  vad : Vad.VadGate (F := list sample);
  playbackBlockedValue : bool;
  scheduledSources : list nat;
  starts : jsmap nat StartStage;       (* calls of start inside an await *)
  plays : list (VoiceFrame * bytes);   (* calls of play inside their await *)
  nodes : jsmap nat (Z * Z);           (* capture nodes: sampleRate and samplesPerFrame *)
  rates : jsmap nat Z;                 (* contexts and their sample rate *)
  nextId : nat;
  caps : Capabilities;
  vlog : list VoiceOutput;
}.

#[export] Instance VoiceService_eta : Eta VoiceService := fun s =>
  Build_VoiceService (vprofile s) (stream s) (inputCtx s) (outputCtx s) (captureNode s)
    (sourceNode s) (zeroGain s) (seqNo s) (vmuted s) (captureBuffer s) (captureSamples s)
    (jitter s) (playbackTimer s) (nextPlaybackTime s) (vad s) (playbackBlockedValue s)
    (scheduledSources s) (starts s) (plays s) (nodes s) (rates s) (nextId s) (caps s) (vlog s).

Definition new_jitter (p : TransportProfile) : Jitter.JitterBuffer (T := PlaybackFrame) :=
  {| Jitter.maxFrames := jitterMaxFrames (voicePolicy p); Jitter.frames := []; Jitter.expected := None |}.

Definition newVoiceService (p : TransportProfile) (browser : Capabilities) : VoiceService := {|
  vprofile := p; stream := None; inputCtx := None; outputCtx := None; captureNode := None;
  sourceNode := None; zeroGain := None; seqNo := 0; vmuted := false; captureBuffer := [];
  captureSamples := 0; jitter := new_jitter p; playbackTimer := false; nextPlaybackTime := 0;
  vad := Vad.reset; playbackBlockedValue := false; scheduledSources := []; starts := [];
  plays := []; nodes := []; rates := []; nextId := 0; caps := browser; vlog := [];
|}.

Definition vemit (o : VoiceOutput) (s : VoiceService) : VoiceService := s <| vlog := vlog s ++ [o] |>.

Definition actualSampleRate (s : VoiceService) : Z :=
  match inputCtx s with Some id => default 48000 (map_get id (rates s)) | None => 48000 end.

Definition vadConfig (p : TransportProfile) : Vad.VadConfig :=
  let v := voicePolicy p in
  {| Vad.enabled := vadEnabled v && bool_decide (voice_mode v = mode_efficient);
     Vad.startDb := vadStartDb v; Vad.stopDb := vadStopDb v;
     Vad.preRollFrames := Vad.framesFromMs (vadPreRollMs v) (frameMs v);
     Vad.hangoverFrames := Vad.framesFromMs (vadHangoverMs v) (frameMs v);
     Vad.minSpeechFrames := Vad.framesFromMs (vadMinSpeechMs v) (frameMs v) |}.

(** [this.vad.setConfig(...)] also resets the gate. *)
Definition setProfile (p : TransportProfile) (s : VoiceService) : VoiceService :=
  s <| vprofile := p |> <| jitter := new_jitter p |> <| vad := Vad.reset |>.

(** ** Errors *)

Definition error_message (err : JsError) : jstr :=
  match err with DomException _ m | PlainError m => m end.

Definition voiceError (stage : jstr) (err : JsError) : jstr :=
  let plain := stage ++ js ": " ++ error_message err in
  match err with
  | DomException name _ =>
      if bool_decide (name = js "NotAllowedError") then
        stage ++ js ": microphone access was denied by Android or browser site permissions"
      else if bool_decide (name = js "NotFoundError") then stage ++ js ": no usable microphone was found"
      else if bool_decide (name = js "NotReadableError") then
        stage ++ js ": the microphone is busy or unavailable"
      else if bool_decide (name = js "OverconstrainedError") then
        stage ++ js ": requested microphone settings are unsupported"
      else plain
  | PlainError _ => plain
  end.

Definition stage_name (st : StartStage) : jstr :=
  match st with
  | resume_input | resume_output => js "audio_context_resume"
  | microphone | microphone_fallback => js "microphone_permission"
  | worklet_load => js "audio_worklet_load"
  end.

Definition worklet_missing : jstr :=
  js "This browser does not support the current voice engine (AudioWorklet missing)".

(** Reading a field of [null] throws a [TypeError]. *)
Definition null_error : JsError := PlainError (js "Cannot read properties of null").

(** ** Stopping *)

Definition stopPlayback (s : VoiceService) : VoiceService :=
  let s := s <| jitter := Jitter.clear (jitter s) |> <| nextPlaybackTime := 0 |>
             <| playbackTimer := false |> in
  (foldl (fun s id => vemit (OStopSource id) s) s (scheduledSources s)) <| scheduledSources := [] |>.

(** [void ctx?.close()]. *)
Definition close_context (ctx : option nat) (s : VoiceService) : VoiceService :=
  match ctx with Some id => vemit (OCloseContext id) s | None => s end.

Definition setMuted (m : bool) (s : VoiceService) : VoiceService :=
  s <| vmuted := m |> <| captureBuffer := [] |> <| captureSamples := 0 |> <| vad := Vad.reset |>.

(** The parts of [stop] after the capture state and the playback. *)
Definition disconnect_nodes (s : VoiceService) : VoiceService :=
  s <| captureNode := None |> <| sourceNode := None |> <| zeroGain := None |>.

Definition stop_tracks (s : VoiceService) : VoiceService :=
  match stream s with
  | Some id => vemit (OStopTracks id) (s <| stream := None |>)
  | None => s
  end.

Definition close_contexts (s : VoiceService) : VoiceService :=
  (close_context (outputCtx s) (close_context (inputCtx s) s))
    <| inputCtx := None |> <| outputCtx := None |> <| playbackBlockedValue := false |>.

(** [stop] begins by clearing the same fields as [setMuted(false)]. *)
Definition stop (s : VoiceService) : VoiceService :=
  close_contexts (stop_tracks (disconnect_nodes (stopPlayback (setMuted false s)))).

(** ** Starting *)

Definition new_id (s : VoiceService) : VoiceService * nat := (s <| nextId := S (nextId s) |>, nextId s).

(** [new AudioContext()] with the sample rate of the device. *)
Definition open_context (rate : Z) (s : VoiceService) : VoiceService * nat :=
  let '(s, id) := new_id s in
  (vemit (OOpenContext id) (s <| rates := map_set id rate (rates s) |>), id).

Definition set_stage (call : nat) (st : StartStage) (s : VoiceService) : VoiceService :=
  s <| starts := map_set call st (starts s) |>.

Definition end_start (call : nat) (s : VoiceService) : VoiceService :=
  s <| starts := map_delete call (starts s) |>.

(** The [catch] of [start]. *)
Definition start_catch (call : nat) (st : StartStage) (err : JsError) (s : VoiceService) : VoiceService :=
  vemit (OStartFailed call (voiceError (stage_name st) err)) (end_start call (stop s)).

(** [start] up to its first await. *)
Definition start (rate : Z) (s : VoiceService) : VoiceService :=
  let '(s, call) := new_id s in
  let refuse e := vemit (OStartFailed call e) s in
  match stream s with
  | Some _ => vemit (OStarted call) s
  | None =>
      if negb (voice_enabled (voicePolicy (vprofile s))) then refuse (js "Voice is disabled in this profile")
      else if negb (cap_secure (caps s)) then refuse (js "Voice requires a secure HTTPS page")
      else if negb (cap_microphone (caps s)) then
        refuse (js "This browser does not expose microphone access")
      else if negb (cap_audio (caps s)) then refuse (js "This browser does not support Web Audio")
      else if negb (cap_worklet (caps s)) then refuse worklet_missing
      else
        let '(s, input) := open_context rate s in
        let s := s <| inputCtx := Some input |> in
        let '(s, output) := open_context rate s in
        set_stage call resume_input (s <| outputCtx := Some output |>)
  end.

(** After [await this.resumeContext(...)]. *)
Definition start_resumed (call : nat) (st : StartStage) (r : option JsError) (s : VoiceService)
  : VoiceService :=
  match r with
  | Some err => start_catch call st err s
  | None =>
      match st with
      | resume_input =>
          match outputCtx s with
          | None => start_catch call resume_input null_error s
          | Some _ => set_stage call resume_output s
          end
      | _ =>
          let s := s <| playbackBlockedValue := false |> in
          match inputCtx s with
          | None => start_catch call resume_output null_error s
          | Some _ =>
              if negb (cap_context_worklet (caps s))
              then start_catch call resume_output (PlainError worklet_missing) s
              else set_stage call microphone s
          end
      end
  end.

(** [requestMicrophone] settles: a stream, or an error; when the constraints
    cannot be met a second request is made without them. *)
Definition start_microphone (call : nat) (st : StartStage) (r : option JsError) (s : VoiceService)
  : VoiceService :=
  match r with
  | Some err =>
      match st, err with
      | microphone, DomException name _ =>
          if bool_decide (name = js "OverconstrainedError") then set_stage call microphone_fallback s
          else start_catch call microphone err s
      | microphone, PlainError _ => start_catch call microphone err s
      | _, _ =>
          start_catch call microphone (PlainError (voiceError (js "microphone_constraints") err)) s
      end
  | None =>
      let '(s, id) := new_id s in
      let s := vemit (OOpenMicrophone id) s <| stream := Some id |> in
      match inputCtx s with
      | None => start_catch call worklet_load null_error s
      | Some _ => set_stage call worklet_load s
      end
  end.

(** [Math.max(320, Math.floor((sampleRate * frameMs) / 1000))]. *)
Definition samplesPerFrame (rate ms : Z) : Z := Z.max 320 (rate * ms / 1000).

(** After [addModule]: the audio graph and the message handler. *)
Definition start_module (call : nat) (r : option JsError) (s : VoiceService) : VoiceService :=
  match r with
  | Some err => start_catch call worklet_load err s
  | None =>
      match inputCtx s, stream s with
      | Some ctx, Some _ =>
          let '(s, id) := new_id s in
          let rate := default 48000 (map_get ctx (rates s)) in
          let spf := samplesPerFrame rate (frameMs (voicePolicy (vprofile s))) in
          let s := s <| captureNode := Some id |> <| sourceNode := Some id |> <| zeroGain := Some id |>
                     <| seqNo := 0 |> <| vad := Vad.reset |>
                     <| nodes := map_set id (rate, spf) (nodes s) |> in
          vemit (OStarted call) (end_start call s)
      | _, _ => start_catch call worklet_load null_error s
      end
  end.

(** ** Capture *)

(** The loop of [readFrame] on the buffer: [n] samples are still missing.
    Every turn consumes the first block or completes the frame.  [None]
    stands for the exception on an empty buffer. *)
Fixpoint readFrame (n : nat) (buffer : list (list sample)) : option (list sample * list (list sample)) :=
  match n, buffer with
  | O, _ => Some ([], buffer)
  | S _, [] => None
  | S _, first :: rest =>
      if (n <? length first)%nat then Some (take n first, drop n first :: rest)
      else
        match readFrame (n - length first) rest with
        | Some (frame, buffer') => Some (first ++ frame, buffer')
        | None => None
        end
  end.

Section Voice.
(** [rmsDb(frame) >= threshold], see [Audio]. *)
Context (above : Z -> list sample -> bool).

Definition framesAllowedByVoiceMode (frame : list sample) (s : VoiceService)
  : VoiceService * list (list sample) :=
  if bool_decide (voice_mode (voicePolicy (vprofile s)) = mode_maximum_privacy) then (s, [frame])
  else
    let '(g, d) := Vad.process above (vadConfig (vprofile s)) frame (vad s) in
    (s <| vad := g |>, if Vad.d_send d then Vad.d_frames d else []).

(** [onFrame({ ... })] with the next number. *)
Definition send_frame (rate now : Z) (s : VoiceService) (outbound : list sample) : VoiceService :=
  let s := s <| seqNo := seqNo s + 1 |> in
  vemit (OFrame {| vf_streamId := js "voice"; vf_seq := seqNo s; vf_sentAt := now; vf_sampleRate := rate;
                   vf_frameMs := frameMs (voicePolicy (vprofile s));
                   vf_pcm16 := bytesToBase64Url (Pcm.floatToPcm16 outbound) |}) s.

(** The [while] loop of the handler; a turn takes [spf] samples, so as many
    turns as there are samples are enough. *)
Fixpoint capture_loop (fuel : nat) (spf rate now : Z) (s : VoiceService) : VoiceService :=
  match fuel with
  | O => s
  | S fuel =>
      if spf <=? captureSamples s then
        match readFrame (Z.to_nat spf) (captureBuffer s) with
        | None => s
        | Some (frame, buffer) =>
            let s := s <| captureBuffer := buffer |> <| captureSamples := captureSamples s - spf |> in
            let '(s, allowed) := framesAllowedByVoiceMode frame s in
            capture_loop fuel spf rate now (foldl (send_frame rate now) s allowed)
        end
      else s
  end.

(** [captureNode.port.onmessage]; the handler closes over [sampleRate] and
    [samplesPerFrame]. *)
Definition onmessage (rate spf now : Z) (data : list sample) (s : VoiceService) : VoiceService :=
  if negb (bool_decide (is_Some (stream s))) || vmuted s then s
  else
    let s := s <| captureBuffer := captureBuffer s ++ [data] |>
               <| captureSamples := captureSamples s + zlength data |> in
    capture_loop (Z.to_nat (captureSamples s)) spf rate now s.

(** ** Playback *)

Definition decodeInboundVoiceFrame (frame : VoiceFrame) (p : TransportProfile) : result bytes :=
  throw_if negb (bool_decide (vf_streamId frame = js "voice")) || negb (isSafeInteger (vf_seq frame)) ||
           (vf_seq frame <=? 0) || negb (isSafeInteger (vf_sampleRate frame)) ||
           (vf_sampleRate frame <? 8000) || (192000 <? vf_sampleRate frame) ||
           negb (vf_frameMs frame =? frameMs (voicePolicy p))
    with js "Invalid voice frame metadata";
  let! pcm16 := base64UrlToBytes (vf_pcm16 frame) in
  throw_if negb (zlength pcm16 =? samplesPerFrame (vf_sampleRate frame) (vf_frameMs frame) * 2)
    with js "Invalid voice frame payload";
  Ok pcm16.

(** [enablePlayback] up to its await: [false] when there is nothing to wait
    for because no context could be made. *)
Definition enablePlayback (ctor : option Z) (s : VoiceService) : VoiceService * bool :=
  match outputCtx s with
  | Some _ => (s, true)
  | None =>
      match ctor with
      | None => (s <| playbackBlockedValue := true |>, false)
      | Some rate => let '(s, id) := open_context rate s in (s <| outputCtx := Some id |>, true)
      end
  end.

Definition enablePlayback_resume (ok : bool) (s : VoiceService) : VoiceService :=
  s <| playbackBlockedValue := negb ok |>.

(** [play] up to its await. *)
Definition play (ctor : option Z) (frame : VoiceFrame) (s : VoiceService) : VoiceService :=
  match decodeInboundVoiceFrame frame (vprofile s) with
  | Throw e => vemit (OPlayError e) s
  | Ok pcm16 =>
      let '(s, waiting) := enablePlayback ctor s in
      if waiting then s <| plays := plays s ++ [(frame, pcm16)] |> else vemit (OPlayed false) s
  end.

(** The rest of [play]; [time] is [outputCtx.currentTime]. *)
Definition play_resume (ok : bool) (time now : Z) (frame : VoiceFrame) (pcm16 : bytes) (s : VoiceService)
  : VoiceService :=
  let s := enablePlayback_resume ok s in
  if negb ok then vemit (OPlayed false) s
  else
    let item := {| pf_seq := vf_seq frame; pf_frame := frame; pf_pcm16 := pcm16; pf_receivedAt := now |} in
    let s := s <| jitter := Jitter.push pf_seq item (jitter s) |> in
    let s :=
      if negb (playbackTimer s) && bool_decide (is_Some (outputCtx s))
      then s <| nextPlaybackTime := time + jitterTargetMs (voicePolicy (vprofile s)) |>
             <| playbackTimer := true |>
      else s in
    vemit (OPlayed true) s.

(** The [pop] loop of [flushPlayback]: stale frames are dropped. *)
Fixpoint pop_fresh (fuel : nat) (maxLatencyMs now : Z) (s : VoiceService) : VoiceService * option PlaybackFrame :=
  match fuel with
  | O => (s, None)
  | S fuel =>
      let '(b, item) := Jitter.pop (jitter s) in
      let s := s <| jitter := b |> in
      match item with
      | None => (s, None)
      | Some i =>
          if maxLatencyMs <? now - pf_receivedAt i
          then pop_fresh fuel maxLatencyMs now (vemit (ODrop drop_stale) s)
          else (s, Some i)
      end
  end.

Definition flushPlayback (time now : Z) (s : VoiceService) : VoiceService :=
  match outputCtx s with
  | None => s
  | Some _ =>
      let policy := voicePolicy (vprofile s) in
      if maxQueuedLatencyMs policy <? nextPlaybackTime s - time then
        vemit (ODrop drop_lead_reset)
          (s <| jitter := Jitter.clear (jitter s) |> <| nextPlaybackTime := time + jitterTargetMs policy |>)
      else
        match pop_fresh (S (length (Jitter.frames (jitter s)))) (maxQueuedLatencyMs policy) now s with
        | (s, None) => s
        | (s, Some item) =>
            let '(s, id) := new_id s in
            let startAt := Z.max time (nextPlaybackTime s) in
            let s := s <| scheduledSources := scheduledSources s ++ [id] |> in
            let s := vemit (OSchedule id (pf_seq item) startAt (vf_frameMs (pf_frame item))) s in
            s <| nextPlaybackTime := startAt + vf_frameMs (pf_frame item) |>
        end
  end.

(** ** Steps *)

Inductive Event :=
| CallStart (rate : Z)
| StartSettled (call : nat) (r : option JsError)
| CallStop
| CallStopPlayback
| CallSetMuted (m : bool)
| CallSetProfile (p : TransportProfile)
| CallEnablePlayback (ctor : option Z)
| EnableSettled (ok : bool)
| CallPlay (ctor : option Z) (frame : VoiceFrame)
| PlaySettled (i : nat) (ok : bool) (time now : Z)
| Capture (node : nat) (now : Z) (data : list sample)
| PlaybackTimer (time now : Z)
| SourceEnded (id : nat).

(** [None] when the event cannot happen. *)
Definition step (e : Event) (s : VoiceService) : option VoiceService :=
  match e with
  | CallStart rate => Some (start rate s)
  | StartSettled call r =>
      match map_get call (starts s) with
      | Some (resume_input as st) | Some (resume_output as st) => Some (start_resumed call st r s)
      | Some (microphone as st) | Some (microphone_fallback as st) => Some (start_microphone call st r s)
      | Some worklet_load => Some (start_module call r s)
      | None => None
      end
  | CallStop => Some (stop s)
  | CallStopPlayback => Some (stopPlayback s)
  | CallSetMuted m => Some (setMuted m s)
  | CallSetProfile p => Some (setProfile p s)
  | CallEnablePlayback ctor => Some (enablePlayback ctor s).1
  | EnableSettled ok => Some (enablePlayback_resume ok s)
  | CallPlay ctor frame => Some (play ctor frame s)
  | PlaySettled i ok time now =>
      match plays s !! i with
      | Some (frame, pcm16) =>
          Some (play_resume ok time now frame pcm16 (s <| plays := delete i (plays s) |>))
      | None => None
      end
  | Capture node now data =>
      match map_get node (nodes s) with
      | Some (rate, spf) => Some (onmessage rate spf now data s)
      | None => None
      end
  | PlaybackTimer time now => if playbackTimer s then Some (flushPlayback time now s) else None
  | SourceEnded id =>
      if bool_decide (id ∈ scheduledSources s)
      then Some (s <| scheduledSources := filter (fun x => x <> id) (scheduledSources s) |>) else None
  end.

Fixpoint run (es : list Event) (s : VoiceService) : option VoiceService :=
  match es with
  | [] => Some s
  | e :: es' => match step e s with Some s' => run es' s' | None => None end
  end.
End Voice.
