(* ===== verification/VoiceProps.v ===== *)
(** * Properties of the voice service

    Capture cuts the samples into consecutive frames that the peer accepts;
    [stop] and the other operations leave the capture state consistent. *)
From S2P Require Import Prelude JsMap Bytes Profiles Audio Voice.

(** ** Capture *)

Lemma mjoin_cons {A} (x : list A) l : mjoin (x :: l) = x ++ mjoin l.
Proof. done. Qed.

Lemma readFrame_spec n buffer :
  (n <= length (mjoin buffer))%nat ->
  exists frame buffer', readFrame n buffer = Some (frame, buffer') /\
    length frame = n /\ mjoin buffer = frame ++ mjoin buffer'.
Proof.
  revert n. induction buffer as [|first rest IH]; intros n Hn.
  { simpl in Hn. destruct n; [|lia]. by exists [], []. }
  destruct n as [|n]; [by exists [], (first :: rest)|].
  rewrite mjoin_cons, length_app in Hn. cbn [readFrame].
  destruct (Nat.ltb_spec (S n) (length first)) as [Hlt|Hge].
  - exists (take (S n) first), (drop (S n) first :: rest). split_and!; [done|rewrite length_take; lia|].
    rewrite !mjoin_cons, app_assoc, take_drop. done.
  - destruct (IH (S n - length first)%nat) as (frame & buffer' & -> & Hl & E); [lia|].
    exists (first ++ frame), buffer'. split_and!; [done|rewrite length_app; lia|].
    by rewrite mjoin_cons, E, app_assoc.
Qed.

(** The frame with number [n]. *)
Definition frame_of (p : TransportProfile) (rate now n : Z) (f : list sample) : VoiceFrame :=
  {| vf_streamId := js "voice"; vf_seq := n; vf_sentAt := now; vf_sampleRate := rate;
     vf_frameMs := frameMs (voicePolicy p); vf_pcm16 := bytesToBase64Url (Pcm.floatToPcm16 f) |}.

(** Consecutive numbers after [n]. *)
Fixpoint numbered (p : TransportProfile) (rate now n : Z) (outs : list (list sample)) : list VoiceOutput :=
  match outs with
  | [] => []
  | f :: outs' => OFrame (frame_of p rate now (n + 1) f) :: numbered p rate now (n + 1) outs'
  end.

Lemma numbered_app p rate now n a b :
  numbered p rate now n (a ++ b) = numbered p rate now n a ++ numbered p rate now (n + zlength a) b.
Proof.
  revert n. induction a as [|f a IH]; intros n; cbn [app numbered]; [by rewrite zlength_nil, Z.add_0_r|].
  rewrite IH, zlength_cons. do 3 f_equal. lia.
Qed.

(** What capture changes. *)
Definition captured (buffer : list (list sample)) (g : Vad.VadGate (F := list sample))
    (outs : list (list sample)) (rate now : Z) (s : VoiceService) : VoiceService :=
  s <| captureBuffer := buffer |> <| captureSamples := zlength (mjoin buffer) |> <| vad := g |>
    <| seqNo := seqNo s + zlength outs |>
    <| vlog := vlog s ++ numbered (vprofile s) rate now (seqNo s) outs |>.

Lemma send_frames rate now outs s :
  foldl (send_frame rate now) s outs =
  s <| seqNo := seqNo s + zlength outs |>
    <| vlog := vlog s ++ numbered (vprofile s) rate now (seqNo s) outs |>.
Proof.
  revert s. induction outs as [|f outs IH]; intros s; cbn [foldl].
  { cbn [numbered]. rewrite zlength_nil, Z.add_0_r, app_nil_r. by destruct s. }
  rewrite IH. unfold send_frame, vemit. destruct s. cbn. rewrite zlength_cons, <- app_assoc.
  unfold update. cbn. f_equal. lia.
Qed.

(** The log holds these frames, numbered from [n + 1], each with some time. *)
Fixpoint emits (p : TransportProfile) (rate n : Z) (outs : list (list sample)) (log : list VoiceOutput)
  : Prop :=
  match outs, log with
  | [], [] => True
  | f :: outs', o :: log' =>
      (exists now, o = OFrame (frame_of p rate now (n + 1) f)) /\ emits p rate (n + 1) outs' log'
  | _, _ => False
  end.

Lemma emits_numbered p rate now n outs : emits p rate n outs (numbered p rate now n outs).
Proof. revert n. induction outs as [|f outs IH]; intros n; cbn; [done|]. split; [by eexists|apply IH]. Qed.

Lemma emits_app p rate n a b la lb :
  emits p rate n a la -> emits p rate (n + zlength a) b lb -> emits p rate n (a ++ b) (la ++ lb).
Proof.
  revert n la. induction a as [|f a IH]; intros n la; destruct la as [|o la]; cbn; try done.
  { by rewrite zlength_nil, Z.add_0_r. }
  intros [Ho Ha] Hb. split; [done|]. apply IH; [done|]. rewrite zlength_cons in Hb.
  by replace (n + 1 + zlength a) with (n + (1 + zlength a)) by lia.
Qed.

Section Capture.
Context (above : Z -> list sample -> bool).

(** The frames the mode of the profile lets through. *)
Definition gated (p : TransportProfile) (fs : list (list sample)) (g : Vad.VadGate)
  : Vad.VadGate * list (list sample) :=
  if bool_decide (voice_mode (voicePolicy p) = mode_maximum_privacy) then (g, fs)
  else Vad.run above (vadConfig p) fs g.

(** A frame that is not sent comes with none. *)
Lemma process_frames cfg f g :
  (if Vad.d_send (Vad.process above cfg f g).2 then Vad.d_frames (Vad.process above cfg f g).2 else []) =
  Vad.d_frames (Vad.process above cfg f g).2.
Proof. unfold Vad.process. repeat (case_match; try done). Qed.

Lemma gated_cons p f fs g :
  gated p (f :: fs) g =
  let '(g1, out) := gated p [f] g in let '(g2, outs) := gated p fs g1 in (g2, out ++ outs).
Proof.
  unfold gated. case_bool_decide; [done|]. cbn [Vad.run].
  destruct (Vad.process above (vadConfig p) f g) as [g1 d]. destruct (Vad.run above (vadConfig p) fs g1).
  by rewrite app_nil_r.
Qed.

Lemma framesAllowed_gated f s :
  framesAllowedByVoiceMode above f s =
  (s <| vad := (gated (vprofile s) [f] (vad s)).1 |>, (gated (vprofile s) [f] (vad s)).2).
Proof.
  unfold framesAllowedByVoiceMode, gated. case_bool_decide; [by destruct s|]. cbn [Vad.run].
  pose proof (process_frames (vadConfig (vprofile s)) f (vad s)) as E.
  destruct (Vad.process above (vadConfig (vprofile s)) f (vad s)) as [g d]. cbn in E |- *.
  by rewrite E, app_nil_r.
Qed.

(** The handler's loop: it cuts as many frames as there are. *)
Lemma capture_loop_spec fuel spf rate now s :
  0 < spf -> captureSamples s = zlength (mjoin (captureBuffer s)) -> captureSamples s <= Z.of_nat fuel ->
  exists fs buffer,
    mjoin (captureBuffer s) = mjoin fs ++ mjoin buffer /\
    Forall (fun f => zlength f = spf) fs /\ zlength (mjoin buffer) < spf /\
    capture_loop above fuel spf rate now s =
    captured buffer (gated (vprofile s) fs (vad s)).1 (gated (vprofile s) fs (vad s)).2 rate now s.
Proof.
  intros Hspf. revert s. induction fuel as [|fuel IH]; intros s Hn Hf; cbn [capture_loop].
  all: assert (Hstop : captureSamples s < spf -> exists fs buffer,
    mjoin (captureBuffer s) = mjoin fs ++ mjoin buffer /\ Forall (fun f => zlength f = spf) fs /\
    zlength (mjoin buffer) < spf /\
    s = captured buffer (gated (vprofile s) fs (vad s)).1 (gated (vprofile s) fs (vad s)).2 rate now s)
    by (intros Hlt; exists [], (captureBuffer s);
        assert (E : gated (vprofile s) [] (vad s) = (vad s, [])) by (unfold gated; by case_bool_decide);
        rewrite E; split_and!; [done|done|lia|]; unfold captured; cbn [fst snd numbered];
        rewrite zlength_nil, Z.add_0_r, app_nil_r, <- Hn; by destruct s).
  { apply Hstop. lia. }
  destruct (Z.leb_spec spf (captureSamples s)) as [Hge|Hlt]; [|by apply Hstop].
  destruct (readFrame_spec (Z.to_nat spf) (captureBuffer s)) as (frame & buffer & -> & Hlen & E).
  { unfold zlength in Hn. lia. }
  rewrite framesAllowed_gated. set (s0 := s <| captureBuffer := buffer |> <| captureSamples := _ |>).
  change (vprofile s0) with (vprofile s). change (vad s0) with (vad s).
  destruct (gated (vprofile s) [frame] (vad s)) as [g1 out] eqn:Eg. cbn [fst snd]. rewrite send_frames.
  set (s1 := _ <| vlog := _ |>).
  assert (Hz : zlength (mjoin (captureBuffer s)) = spf + zlength (mjoin buffer)).
  { rewrite E, zlength_app. unfold zlength at 1. lia. }
  assert (Ec : captureSamples s1 = captureSamples s - spf /\ captureBuffer s1 = buffer) by done.
  destruct Ec as [Ec Eb].
  destruct (IH s1) as (fs & buffer' & E1 & Hfs & Hrest & ->); [rewrite Ec, Eb; lia|rewrite Ec; lia|].
  exists (frame :: fs), buffer'. split_and!; [|constructor; [unfold zlength; lia|done]|done|].
  - rewrite Eb in E1. by rewrite E, E1, mjoin_cons, app_assoc.
  - rewrite (gated_cons (vprofile s) frame fs), Eg.
    change (vprofile s1) with (vprofile s). change (vad s1) with g1.
    destruct (gated (vprofile s) fs g1) as [g2 outs]. cbn [fst snd]. unfold captured.
    change (seqNo s1) with (seqNo s + zlength out).
    change (vlog s1) with (vlog s ++ numbered (vprofile s) rate now (seqNo s) out).
    change (vprofile s1) with (vprofile s).
    rewrite zlength_app, numbered_app, <- app_assoc, Z.add_assoc. by destruct s.
Qed.
Lemma gated_app p a b g :
  gated p (a ++ b) g =
  let '(g1, out) := gated p a g in let '(g2, outs) := gated p b g1 in (g2, out ++ outs).
Proof.
  revert g. induction a as [|f a IH]; intros g; cbn [app].
  { replace (gated p [] g) with (g, @nil (list sample)) by (unfold gated; by case_bool_decide).
    by destruct (gated p b g). }
  rewrite (gated_cons p f (a ++ b)), (gated_cons p f a). destruct (gated p [f] g) as [g1 out].
  rewrite IH. destruct (gated p a g1) as [g2 outs]. destruct (gated p b g2). by rewrite app_assoc.
Qed.

(** From a fresh gate, what goes out was captured. *)
Lemma gated_sublist p fs : sublist (gated p fs Vad.reset).2 fs.
Proof.
  unfold gated. case_bool_decide; [done|]. destruct (Vad.enabled (vadConfig p)) eqn:E.
  - destruct (Vad.run above (vadConfig p) fs Vad.reset) as [g out] eqn:Hr.
    apply Vad.run_sublist in Hr; [|done|done]. cbn [Vad.reset Vad.preRoll app snd] in *.
    transitivity (out ++ Vad.preRoll g); [by apply sublist_inserts_r|done].
  - assert (Hall : forall g, (Vad.run above (vadConfig p) fs g).2 = fs); [|by rewrite Hall].
    induction fs as [|f fs IH]; intros g; cbn [Vad.run]; [done|]. unfold Vad.process at 1. rewrite E. cbn [negb].
    specialize (IH g). destruct (Vad.run above (vadConfig p) fs g). cbn in *. by f_equal.
Qed.

(** One message: the samples that wait and the new ones are cut. *)
Lemma onmessage_spec (rate spf now : Z) (data : list sample) (s : VoiceService) :
  0 < spf -> is_Some (stream s) -> vmuted s = false ->
  captureSamples s = zlength (mjoin (captureBuffer s)) ->
  exists fs buffer : list (list sample),
    mjoin (captureBuffer s) ++ data = mjoin fs ++ mjoin buffer /\
    Forall (fun f => zlength f = spf) fs /\ zlength (mjoin buffer) < spf /\
    onmessage above rate spf now data s =
    captured buffer (gated (vprofile s) fs (vad s)).1 (gated (vprofile s) fs (vad s)).2 rate now s.
Proof.
  intros Hspf Hs Hm Hn. unfold onmessage. rewrite (bool_decide_eq_true_2 _ Hs), Hm. cbn [negb orb].
  set (s1 := s <| captureBuffer := _ |> <| captureSamples := _ |>).
  assert (E1 : mjoin (captureBuffer s1) = mjoin (captureBuffer s) ++ data).
  { change (captureBuffer s1) with (captureBuffer s ++ [data]).
    by rewrite join_app, mjoin_cons, app_nil_r. }
  assert (E2 : captureSamples s1 = zlength (mjoin (captureBuffer s1))).
  { rewrite E1, zlength_app, <- Hn. done. }
  destruct (capture_loop_spec (Z.to_nat (captureSamples s1)) spf rate now s1 Hspf E2)
    as (fs & buffer & E & Hfs & Hr & ->).
  { rewrite E2. pose proof (zlength_nonneg (mjoin (captureBuffer s1))). lia. }
  exists fs, buffer. rewrite <- E1. split_and!; [done..|]. by destruct s.
Qed.
(** The blocks of a capture, each with the time of its message. *)
Definition capture_blocks (rate spf : Z) (blocks : list (Z * list sample)) (s : VoiceService) : VoiceService :=
  foldl (fun s b => onmessage above rate spf b.1 b.2 s) s blocks.

Lemma capture_blocks_spec rate spf blocks s :
  0 < spf -> is_Some (stream s) -> vmuted s = false ->
  captureSamples s = zlength (mjoin (captureBuffer s)) -> captureSamples s < spf ->
  exists (fs : list (list sample)) log,
    mjoin (captureBuffer s) ++ mjoin (blocks.*2) =
      mjoin fs ++ mjoin (captureBuffer (capture_blocks rate spf blocks s)) /\
    Forall (fun f => zlength f = spf) fs /\
    captureSamples (capture_blocks rate spf blocks s) < spf /\
    vlog (capture_blocks rate spf blocks s) = vlog s ++ log /\
    emits (vprofile s) rate (seqNo s) (gated (vprofile s) fs (vad s)).2 log.
Proof.
  intros Hspf. revert s. induction blocks as [|[now data] blocks IH]; intros s Hs Hm Hn Hlt.
  - exists [], []. cbn [capture_blocks foldl fmap list_fmap]. rewrite !app_nil_r. split_and!; try done.
    unfold gated. by case_bool_decide.
  - destruct (onmessage_spec rate spf now data s Hspf Hs Hm Hn) as (fs1 & buffer & E1 & Hf1 & Hb1 & Es).
    change (capture_blocks rate spf ((now, data) :: blocks) s)
      with (capture_blocks rate spf blocks (onmessage above rate spf now data s)). rewrite Es.
    destruct (gated (vprofile s) fs1 (vad s)) as [g1 out1] eqn:Eg. cbn [fst snd].
    destruct (IH (captured buffer g1 out1 rate now s)) as (fs2 & log2 & E2 & Hf2 & Hb2 & El & He);
      [done..|].
    exists (fs1 ++ fs2), (numbered (vprofile s) rate now (seqNo s) out1 ++ log2). split_and!.
    + cbn [fmap list_fmap fst snd]. rewrite mjoin_cons, app_assoc, E1, <- app_assoc, join_app, <- app_assoc.
      f_equal. exact E2.
    + by apply Forall_app.
    + done.
    + rewrite El, app_assoc. done.
    + rewrite gated_app, Eg. change (vad (captured buffer g1 out1 rate now s)) with g1 in He.
      change (vprofile (captured buffer g1 out1 rate now s)) with (vprofile s) in He.
      change (seqNo (captured buffer g1 out1 rate now s)) with (seqNo s + zlength out1) in He.
      destruct (gated (vprofile s) fs2 g1) as [g2 outs]. cbn [fst snd] in *.
      apply emits_app; [apply emits_numbered|done].
Qed.
End Capture.

Lemma emits_elem p rate n outs log frame :
  emits p rate n outs log -> OFrame frame ∈ log ->
  exists now k f, frame = frame_of p rate now k f /\ f ∈ outs /\ n < k <= n + zlength outs.
Proof.
  revert n log. induction outs as [|f outs IH]; intros n log; destruct log as [|o log]; cbn [emits]; try done.
  { intros _ H%elem_of_nil. done. }
  intros [[now ->] He] [E|Hin]%elem_of_cons; rewrite zlength_cons.
  - injection E as ->. exists now, (n + 1), f. pose proof (zlength_nonneg outs). split_and!; [done|by left|lia..].
  - destruct (IH _ _ He Hin) as (now' & k & f' & -> & Hf & Hk). exists now', k, f'.
    split_and!; [done|by right|lia..].
Qed.

Lemma le16_bytes z : wf_bytes (Pcm.le16 z).
Proof. unfold Pcm.le16, wf_bytes, is_byte. repeat constructor; apply Z.mod_pos_bound; lia. Qed.

Lemma pcm_bytes f : wf_bytes (Pcm.floatToPcm16 f) /\ zlength (Pcm.floatToPcm16 f) = zlength f * 2.
Proof.
  induction f as [|x f [IH1 IH2]]; [by split; [constructor|]|].
  unfold Pcm.floatToPcm16 in *. rewrite fmap_cons, mjoin_cons. split.
  - apply Forall_app. split; [apply le16_bytes|done].
  - rewrite zlength_app, IH2, zlength_cons. unfold Pcm.le16. rewrite !zlength_cons, zlength_nil. lia.
Qed.

Lemma samplesPerFrame_pos rate ms : 0 < samplesPerFrame rate ms.
Proof. unfold samplesPerFrame. lia. Qed.

(** A captured frame passes the checks of the receiving side. *)
Lemma frame_of_decodes p rate now n f :
  8000 <= rate <= 192000 -> 0 < n <= MAX_SAFE_INTEGER ->
  zlength f = samplesPerFrame rate (frameMs (voicePolicy p)) ->
  decodeInboundVoiceFrame (frame_of p rate now n f) p = Ok (Pcm.floatToPcm16 f).
Proof.
  intros Hr Hn Hf. destruct (pcm_bytes f) as [Hw Hl]. unfold decodeInboundVoiceFrame, frame_of.
  cbn [vf_streamId vf_seq vf_sampleRate vf_frameMs vf_pcm16].
  rewrite bool_decide_eq_true_2 by done. unfold isSafeInteger.
  assert (HM : 192000 <= MAX_SAFE_INTEGER) by (unfold MAX_SAFE_INTEGER; lia).
  rewrite (proj2 (Z.leb_le (- MAX_SAFE_INTEGER) n)), (proj2 (Z.leb_le n MAX_SAFE_INTEGER)),
    (proj2 (Z.leb_gt n 0)), (proj2 (Z.leb_le (- MAX_SAFE_INTEGER) rate)),
    (proj2 (Z.leb_le rate MAX_SAFE_INTEGER)), (proj2 (Z.ltb_ge rate 8000)), (proj2 (Z.ltb_ge 192000 rate)),
    Z.eqb_refl by lia.
  cbn [negb andb orb]. rewrite base64Url_roundtrip by done. cbn [rbind]. by rewrite Hl, Hf, Z.eqb_refl.
Qed.

Lemma zlength_join_ge (spf : Z) (fs : list (list sample)) :
  0 < spf -> Forall (fun f => zlength f = spf) fs -> zlength fs <= zlength (mjoin fs).
Proof.
  intros H. induction 1 as [|f fs Hf Hfs IH]; [done|]. rewrite mjoin_cons, zlength_cons, zlength_app. lia.
Qed.

(** C24: capture.  After [start] has built the audio graph, the blocks the
    worklet delivers, of whatever lengths, are cut into consecutive frames of
    exactly [samplesPerFrame] samples, none lost, repeated or reordered, and
    fewer than one frame wait; the frames that go out are those the gate lets
    through (all of them under maximum privacy), numbered 1, 2, ..., and each
    passes the peer's checks and yields the PCM of a captured frame. *)
Theorem capture_reframed above call ctx rate blocks s0 (p := vprofile s0)
    (spf := samplesPerFrame rate (frameMs (voicePolicy p))) (s := start_module call None s0)
    (s' := capture_blocks above rate spf blocks s) :
  inputCtx s0 = Some ctx -> map_get ctx (rates s0) = Some rate -> 8000 <= rate <= 192000 ->
  is_Some (stream s0) -> vmuted s0 = false -> captureBuffer s0 = [] -> captureSamples s0 = 0 ->
  zlength (mjoin (blocks.*2)) <= MAX_SAFE_INTEGER ->
  exists (fs : list (list sample)) log (outs := (gated above p fs Vad.reset).2),
    mjoin (blocks.*2) = mjoin fs ++ mjoin (captureBuffer s') /\
    Forall (fun f => zlength f = spf) fs /\ captureSamples s' < spf /\
    vlog s' = vlog s ++ log /\ emits p rate 0 outs log /\
    sublist outs fs /\ (voice_mode (voicePolicy p) = mode_maximum_privacy -> outs = fs) /\
    forall frame, OFrame frame ∈ log ->
      exists f, f ∈ fs /\ decodeInboundVoiceFrame frame p = Ok (Pcm.floatToPcm16 f).
Proof.
  intros Hc Hr Hrate [mic Hs] Hm Hb Hn HM. pose proof (samplesPerFrame_pos rate (frameMs (voicePolicy p))) as Hspf.
  assert (Hf : stream s = Some mic /\ vmuted s = false /\ captureBuffer s = [] /\ captureSamples s = 0 /\
    vprofile s = p /\ seqNo s = 0 /\ vad s = Vad.reset).
  { unfold s, start_module. rewrite Hc, Hs. rewrite <- Hs, <- Hm, <- Hb, <- Hn. by split_and!. }
  destruct Hf as (F1 & F2 & F3 & F4 & F5 & F6 & F7).
  destruct (capture_blocks_spec above rate spf blocks s) as (fs & log & E & Hfs & Hlt & El & He);
    [done|by rewrite F1|done|by rewrite F3, F4|by rewrite F4|].
  rewrite F3 in E. change (mjoin (blocks.*2) = mjoin fs ++ mjoin (captureBuffer s')) in E. rewrite F5, F6, F7 in He. pose proof (gated_sublist above p fs) as Hsub.
  exists fs, log. cbv zeta. split_and!; try done.
  - unfold gated. intros ->. by rewrite bool_decide_eq_true_2.
  - intros frame Hin. destruct (emits_elem _ _ _ _ _ _ He Hin) as (now & k & f & -> & Hf & Hk).
    assert (Hff : f ∈ fs) by (by eapply elem_of_sublist). exists f. split; [done|].
    apply frame_of_decodes; [done| |by eapply Forall_forall in Hfs].
    pose proof (zlength_join_ge spf fs Hspf Hfs). pose proof (sublist_length _ _ Hsub).
    rewrite E, zlength_app in HM. pose proof (zlength_nonneg (mjoin (captureBuffer s'))).
    unfold zlength in *. lia.
Qed.

(** A browser with everything. *)
Definition full_caps : Capabilities :=
  {| cap_secure := true; cap_microphone := true; cap_audio := true; cap_worklet := true;
     cap_context_worklet := true |}.

(** The service with the microphone open and the worklet loading. *)
Definition capture_demo : VoiceService :=
  default (newVoiceService profile_maximum_privacy full_caps)
    (run (fun _ _ => true) [CallStart 8000; StartSettled 0 None; StartSettled 0 None; StartSettled 0 None]
       (newVoiceService profile_maximum_privacy full_caps)).

Definition capture_demo_blocks : list (Z * list sample) :=
  [(5, replicate 500 (Some (1, 2))); (9, replicate 500 None)].

Lemma capture_reframed_witness (p := vprofile capture_demo)
    (s' := capture_blocks (fun _ _ => true) 8000 (samplesPerFrame 8000 (frameMs (voicePolicy p)))
             capture_demo_blocks (start_module 0 None capture_demo)) :
  captureSamples s' = 40 /\ seqNo s' = 2 /\
  exists (fs : list (list sample)) log,
    mjoin (capture_demo_blocks.*2) = mjoin fs ++ mjoin (captureBuffer s') /\
    vlog s' = vlog (start_module 0 None capture_demo) ++ log /\
    emits p 8000 0 (gated (fun _ _ => true) p fs Vad.reset).2 log.
Proof.
  split; [vm_compute; reflexivity|]. split; [vm_compute; reflexivity|].
  destruct (capture_reframed (fun _ _ => true) 0 1 8000 capture_demo_blocks capture_demo)
    as (fs & log & E & _ & _ & El & He & _);
    [vm_compute; reflexivity|vm_compute; reflexivity|lia|vm_compute; by eexists|vm_compute; reflexivity..
    |vm_compute; discriminate|].
  exists fs, log. split; [exact E|]. split; [exact El|exact He].
Defined.

(** ** What the operations leave *)

Lemma foldl_vemit (f : nat -> VoiceOutput) l s :
  foldl (fun s id => vemit (f id) s) s l = s <| vlog := vlog s ++ (f <$> l) |>.
Proof.
  revert s. induction l as [|x l IH]; intros s; cbn [foldl fmap list_fmap].
  - rewrite app_nil_r. by destruct s.
  - rewrite IH. change (vlog (vemit (f x) s)) with (vlog s ++ [f x]). rewrite <- app_assoc. by destruct s.
Qed.

Definition opt_out (f : nat -> VoiceOutput) (o : option nat) : list VoiceOutput :=
  match o with Some id => [f id] | None => [] end.

Lemma stopPlayback_eq s :
  stopPlayback s =
  s <| jitter := Jitter.clear (jitter s) |> <| nextPlaybackTime := 0 |> <| playbackTimer := false |>
    <| scheduledSources := [] |> <| vlog := vlog s ++ (OStopSource <$> scheduledSources s) |>.
Proof. unfold stopPlayback. rewrite foldl_vemit. by destruct s. Qed.

(** What [stop] resets, what it keeps, and what it releases. *)
Record stopped (s s' : VoiceService) : Prop := {
  sd_stream : stream s' = None;
  sd_inputCtx : inputCtx s' = None;
  sd_outputCtx : outputCtx s' = None;
  sd_sources : scheduledSources s' = [];
  sd_timer : playbackTimer s' = false;
  sd_buffer : captureBuffer s' = [];
  sd_samples : captureSamples s' = 0;
  sd_jitter : jitter s' = Jitter.clear (jitter s);
  sd_profile : vprofile s' = vprofile s;
  sd_starts : starts s' = starts s;
  sd_plays : plays s' = plays s;
  sd_nodes : nodes s' = nodes s;
  sd_nextId : nextId s' = nextId s;
  sd_log : vlog s' = vlog s ++ (OStopSource <$> scheduledSources s) ++ opt_out OStopTracks (stream s) ++
             opt_out OCloseContext (inputCtx s) ++ opt_out OCloseContext (outputCtx s);
}.

Lemma stop_tracks_eq s :
  stop_tracks s = s <| stream := None |> <| vlog := vlog s ++ opt_out OStopTracks (stream s) |>.
Proof. unfold stop_tracks. destruct (stream s) eqn:E; [done|]. cbn [opt_out]. rewrite app_nil_r. destruct s; cbn in E; by subst. Qed.

Lemma close_contexts_eq s :
  close_contexts s = s <| inputCtx := None |> <| outputCtx := None |> <| playbackBlockedValue := false |>
    <| vlog := vlog s ++ opt_out OCloseContext (inputCtx s) ++ opt_out OCloseContext (outputCtx s) |>.
Proof.
  unfold close_contexts, close_context. destruct (inputCtx s), (outputCtx s); cbn [opt_out app];
    rewrite ?app_nil_r; [|done|done|by destruct s].
  change (vlog s ++ [OCloseContext n; OCloseContext n0]) with (vlog s ++ [OCloseContext n] ++ [OCloseContext n0]).
  rewrite app_assoc. reflexivity.
Qed.

Lemma stop_stopped s : stopped s (stop s).
Proof.
  unfold stop. set (s1 := setMuted false s).
  set (s2 := stopPlayback s1). set (s3 := disconnect_nodes s2). set (s4 := stop_tracks s3).
  pose proof (close_contexts_eq s4) as E5. set (s5 := close_contexts s4) in *.
  pose proof (stop_tracks_eq s3 : s4 = _) as E4. pose proof (stopPlayback_eq s1 : s2 = _) as E2.
  assert (E3 : s3 = disconnect_nodes s2) by done. assert (E1 : s1 = setMuted false s) by done.
  clearbody s5. clearbody s4. clearbody s3. clearbody s2. clearbody s1.
  destruct s. cbv in E1. subst s1.
  lazy -[app fmap list_fmap Jitter.clear] in E2. subst s2.
  cbv in E3. subst s3. lazy -[app opt_out] in E4. subst s4. lazy -[app opt_out] in E5. subst s5.
  split; cbn; rewrite <- ?app_assoc; reflexivity.
Qed.

(** The buffer and its count agree, and frames are at least 320 samples. *)
Record capture_ok (s : VoiceService) : Prop := {
  ck_count : captureSamples s = zlength (mjoin (captureBuffer s));
  ck_nodes : Forall (fun e => 320 <= e.2.2) (nodes s);
}.

Lemma capture_ok_same s s' :
  captureSamples s' = captureSamples s -> captureBuffer s' = captureBuffer s -> nodes s' = nodes s ->
  capture_ok s -> capture_ok s'.
Proof. intros E1 E2 E3 []. split; by rewrite ?E1, ?E2, ?E3. Qed.

Lemma capture_ok_reset s s' :
  captureSamples s' = 0 -> captureBuffer s' = [] -> nodes s' = nodes s -> capture_ok s -> capture_ok s'.
Proof. intros E1 E2 E3 []. split; by rewrite ?E1, ?E2, ?E3. Qed.

Lemma capture_ok_stop s : capture_ok s -> capture_ok (stop s).
Proof. destruct (stop_stopped s). by apply capture_ok_reset. Qed.

Lemma capture_ok_catch call st err s : capture_ok s -> capture_ok (start_catch call st err s).
Proof.
  intros H%capture_ok_stop. unfold start_catch. generalize dependent (stop s). intros s' H.
  by apply (capture_ok_same s').
Qed.

Lemma Forall_map_set {K V} `{EqDecision K} (P : K * V -> Prop) k v (m : jsmap K V) :
  P (k, v) -> Forall P m -> Forall P (map_set k v m).
Proof.
  intros Hk. induction 1 as [|[k' v'] m Hp Hm IH]; cbn [map_set]; [by apply Forall_singleton|].
  case_decide; constructor; done.
Qed.

Lemma capture_ok_start rate s : capture_ok s -> capture_ok (start rate s).
Proof.
  intros H. unfold start, new_id. cbv beta iota zeta.
  match goal with |- context [match ?x with Some _ => _ | None => _ end] => destruct x end;
    [by eapply capture_ok_same, H|].
  repeat (match goal with |- capture_ok (if ?b then _ else _) => destruct b end;
    [by eapply capture_ok_same, H|]). by eapply capture_ok_same, H.
Qed.

Lemma capture_ok_settled call st r s :
  capture_ok s ->
  capture_ok (start_resumed call st r s) /\ capture_ok (start_microphone call st r s) /\
  capture_ok (start_module call r s).
Proof.
  intros H. split_and!.
  - unfold start_resumed. destruct r; [by apply capture_ok_catch|].
    destruct st; cbn [update inputCtx outputCtx caps]; repeat case_match;
      try (by apply capture_ok_catch; eapply capture_ok_same, H); by eapply capture_ok_same, H.
  - unfold start_microphone, new_id. destruct r as [[name m|m]|]; cbv beta iota zeta.
    + destruct st; try (by apply capture_ok_catch). case_bool_decide; [by eapply capture_ok_same, H|by apply capture_ok_catch].
    + destruct st; by apply capture_ok_catch.
    + cbn [update inputCtx vemit]. destruct (inputCtx s).
      * by eapply capture_ok_same, H.
      * apply capture_ok_catch. by eapply capture_ok_same, H.
  - unfold start_module, new_id. destruct r; [by apply capture_ok_catch|].
    destruct (inputCtx s), (stream s); try (by apply capture_ok_catch). destruct H. split; [done|].
    cbn [update nodes vemit end_start]. apply Forall_map_set; [|done]. cbn. unfold samplesPerFrame. lia.
Qed.
