(* ===== verification/VoicePlayback.v ===== *)
(** * Playback and resources of the voice service

    Playback schedules frames in order, without overlap and with a bounded
    lead; [stop] releases what was acquired, and two theorems show where it
    does not. *)
From stdpp Require Import sorting.
From S2P Require Import Prelude JsMap Bytes Profiles Audio Voice VoiceProps.

(** ** Playback *)

Definition schedule_of (o : VoiceOutput) : option (Z * Z * Z) :=
  match o with OSchedule _ n startAt ms => Some (n, startAt, ms) | _ => None end.

(** The frames a log schedules: number, start and duration. *)
Definition schedule (log : list VoiceOutput) : list (Z * Z * Z) := omap schedule_of log.

(** The second frame has a higher number and starts after the first ends. *)
Definition follows (a b : Z * Z * Z) : Prop := a.1.1 < b.1.1 /\ a.1.2 + a.2 <= b.1.2.

Definition timed (f : VoiceFrame) : Prop := 0 <= vf_frameMs f.

Definition buffered (b : Jitter.JitterBuffer (T := PlaybackFrame)) : Prop :=
  Forall (fun kv => timed (pf_frame kv.2)) (Jitter.frames b).

(** Invariant of playback. *)
Record play_ok (s : VoiceService) : Prop := {
  po_inv : Jitter.inv pf_seq (jitter s);
  po_buffered : buffered (jitter s);
  po_plays : Forall (fun c => timed c.1) (plays s);
  po_profile : 0 <= frameMs (voicePolicy (vprofile s));
}.

Lemma Forall_map_delete {K V} `{EqDecision K} (P : K * V -> Prop) k (m : jsmap K V) :
  Forall P m -> Forall P (map_delete k m).
Proof.
  unfold map_delete. rewrite !Forall_forall. intros H x [_ Hx]%list_elem_of_filter. by apply H.
Qed.

Lemma evict_Forall (P : Z * PlaybackFrame -> Prop) fuel max m e :
  Forall P m -> Forall P (Jitter.evict fuel max m e).1.
Proof.
  revert m e. induction fuel as [|fuel IH]; intros m e Hm; cbn [Jitter.evict]; [done|].
  destruct (max <? zlength m); [|done]. destruct m; [done|]. apply IH. by apply Forall_map_delete.
Qed.

Lemma push_buffered i b : timed (pf_frame i) -> buffered b -> buffered (Jitter.push pf_seq i b).
Proof.
  unfold buffered, Jitter.push. intros Hi Hb.
  match goal with |- context [if ?c then _ else _] => destruct c end; [done|].
  match goal with |- context [Jitter.evict ?f ?a ?m ?e] =>
    pose proof (evict_Forall (fun kv => timed (pf_frame kv.2)) f a m e) as H;
    destruct (Jitter.evict f a m e) end.
  apply H. by apply Forall_map_set.
Qed.

Lemma pop_buffered b :
  buffered b -> buffered (Jitter.pop b).1 /\
  match (Jitter.pop b).2 with Some i => timed (pf_frame i) | None => True end.
Proof.
  unfold buffered, Jitter.pop. intros Hb. destruct (Jitter.frames b) as [|kv m] eqn:E; [cbn; by rewrite E|].
  rewrite <- E in *. clear E. repeat case_match; cbn [fst snd Jitter.set Jitter.frames]; try done.
  all: simplify_eq/=; split; [by apply Forall_map_delete|].
  all: match goal with H : map_get _ _ = Some _ |- _ => apply map_get_In in H; rewrite Forall_forall in Hb;
         exact (Hb _ H) end.
Qed.

Lemma clear_ok b : Jitter.inv pf_seq (Jitter.clear b) /\ buffered (Jitter.clear b).
Proof.
  split; [|constructor]. split_and!; cbn; [apply map_ok_nil|constructor|set_solver|].
  rewrite zlength_nil. lia.
Qed.

(** ** The timer *)

Lemma pop_length (b : Jitter.JitterBuffer (T := PlaybackFrame)) :
  Jitter.inv pf_seq b ->
  match (Jitter.pop b).2 with
  | Some _ => S (length (Jitter.frames (Jitter.pop b).1)) = length (Jitter.frames b)
  | None => Jitter.frames (Jitter.pop b).1 = []
  end.
Proof.
  intros (Hok & _). unfold Jitter.pop. destruct (Jitter.frames b) as [|kv m] eqn:E; [cbn; by rewrite E|].
  rewrite <- E in *. destruct (Jitter.min_key_spec pf_seq (Jitter.frames b)) as [Hin _]; [by rewrite E|].
  match goal with |- context [map_get ?x _] => destruct (map_get x (Jitter.frames b)) eqn:Ex end;
    cbn [fst snd Jitter.set Jitter.frames].
  { apply map_size_delete; [done|]. by eexists. }
  apply map_get_is_Some in Hin as [f Hf]. rewrite Hf. cbn [fst snd Jitter.set Jitter.frames].
  apply map_size_delete; [done|]. by eexists.
Qed.

(** The loop of [flushPlayback]: it drops stale frames and ends with a fresh
    one or with an empty buffer. *)
Lemma pop_fresh_spec fuel lat now s :
  Jitter.inv pf_seq (jitter s) -> buffered (jitter s) -> (length (Jitter.frames (jitter s)) < fuel)%nat ->
  exists b k o,
    pop_fresh fuel lat now s = (s <| jitter := b |> <| vlog := vlog s ++ replicate k (ODrop drop_stale) |>, o) /\
    Jitter.inv pf_seq b /\ buffered b /\
    match o with
    | Some i => timed (pf_frame i) /\ now - pf_receivedAt i <= lat /\
        Jitter.not_before (Jitter.expected (jitter s)) (pf_seq i) /\
        Jitter.expected b = Some (pf_seq i + 1)
    | None => Jitter.frames b = [] /\
        forall n, Jitter.not_before (Jitter.expected b) n -> Jitter.not_before (Jitter.expected (jitter s)) n
    end.
Proof.
  revert s. induction fuel as [|fuel IH]; intros s Hi Hb Hf; [lia|]. cbn [pop_fresh].
  destruct (Jitter.pop_inv pf_seq (jitter s) Hi) as [Hi' Hp]. destruct (pop_buffered _ Hb) as [Hb' Ht].
  pose proof (pop_length (jitter s) Hi) as Hl.
  destruct (Jitter.pop (jitter s)) as [b [i|]]; cbn [fst snd] in *.
  - destruct Hp as [Hn He]. destruct (Z.ltb_spec lat (now - pf_receivedAt i)) as [Hs|Hs].
    + destruct (IH (vemit (ODrop drop_stale) (s <| jitter := b |>))) as (b' & k & o & -> & Hi2 & Hb2 & Ho);
        [done|done|cbn; lia|].
      exists b', (S k), o. split_and!; [|done|done|].
      * f_equal. cbn [replicate]. unfold vemit. destruct s. cbn. by rewrite <- app_assoc.
      * change (jitter (vemit _ (s <| jitter := b |>))) with b in Ho. rewrite He in Ho.
        destruct o as [j|]; [destruct Ho as (H1 & H2 & H3 & H4)|destruct Ho as [H1 H2]]; split_and!; try done.
        -- unfold Jitter.not_before in *. destruct (Jitter.expected (jitter s)); [lia|done].
        -- intros n H%H2. unfold Jitter.not_before in *. destruct (Jitter.expected (jitter s)); [lia|done].
    + exists b, 0%nat, (Some i). cbn [replicate]. rewrite app_nil_r. split_and!; try done.
  - exists b, 0%nat, None. cbn [replicate]. rewrite app_nil_r. by split_and!.
Qed.

(** How playback moves on: nothing is scheduled and the clock of a running
    timer stays, or one frame is put after all the others. *)
Definition moved (s : VoiceService) (l : list VoiceOutput) (s' : VoiceService) : Prop :=
  (schedule l = [] /\
   (playbackTimer s = true -> playbackTimer s' = true /\ nextPlaybackTime s' = nextPlaybackTime s) /\
   forall n, Jitter.not_before (Jitter.expected (jitter s')) n ->
             Jitter.not_before (Jitter.expected (jitter s)) n) \/
  (exists n startAt ms, schedule l = [(n, startAt, ms)] /\ 0 <= ms /\
     playbackTimer s = true /\ playbackTimer s' = true /\
     nextPlaybackTime s <= startAt /\ nextPlaybackTime s' = startAt + ms /\
     Jitter.not_before (Jitter.expected (jitter s)) n /\ Jitter.expected (jitter s') = Some (n + 1)).

(** A reset of the lead, or a start that failed. *)
Definition disturbs (o : VoiceOutput) : bool :=
  match o with ODrop drop_lead_reset | OStartFailed _ _ => true | _ => false end.

Definition undisturbed (l : list VoiceOutput) : Prop := Forall (fun o => disturbs o = false) l.

#[export] Instance undisturbed_dec l : Decision (undisturbed l).
Proof. unfold undisturbed. apply _. Defined.

Lemma schedule_app a b : schedule (a ++ b) = schedule a ++ schedule b.
Proof. unfold schedule. apply omap_app. Qed.

Lemma schedule_stale k : schedule (replicate k (ODrop drop_stale)) = [].
Proof. induction k; [done|]. cbn. done. Qed.

(** What a step leaves when it has nothing to do with playback. *)
Record kept (s s' : VoiceService) : Prop := {
  kp_jitter : jitter s' = jitter s;
  kp_next : nextPlaybackTime s' = nextPlaybackTime s;
  kp_timer : playbackTimer s' = playbackTimer s;
  kp_plays : plays s' = plays s;
  kp_profile : vprofile s' = vprofile s;
}.

Lemma kept_refl s : kept s s.
Proof. done. Qed.

Lemma kept_ok s s' : kept s s' -> play_ok s -> play_ok s'.
Proof. intros [] []. split; by simplify_eq/=; congruence. Qed.

Lemma kept_moved s l s' : kept s s' -> schedule l = [] -> moved s l s'.
Proof. intros [Hj Hn Ht _ _] E. left. rewrite Hj, Hn, Ht. done. Qed.

Lemma stop_ok s : play_ok s -> play_ok (stop s).
Proof.
  intros []. destruct (stop_stopped s). destruct (clear_ok (jitter s)). split; congruence.
Qed.

(** [flushPlayback]: the frame it schedules starts after everything before it
    and within the permitted lead. *)
Lemma flush_spec time now s :
  play_ok s -> playbackTimer s = true ->
  exists l, vlog (flushPlayback time now s) = vlog s ++ l /\ play_ok (flushPlayback time now s) /\
    (undisturbed l -> moved s l (flushPlayback time now s)) /\
    forall n startAt ms, (n, startAt, ms) ∈ schedule l ->
      time <= startAt <= time + Z.max 0 (maxQueuedLatencyMs (voicePolicy (vprofile s))).
Proof.
  intros [Hi Hb Hp Hm] Ht. unfold flushPlayback. destruct (outputCtx s) as [ctx|].
  2: { exists []. rewrite app_nil_r. split_and!; [done|done|intros _; by apply kept_moved|set_solver]. }
  destruct (Z.ltb_spec (maxQueuedLatencyMs (voicePolicy (vprofile s))) (nextPlaybackTime s - time)) as [Hl|Hl].
  { exists [ODrop drop_lead_reset]. destruct (clear_ok (jitter s)). split_and!; [done|by split| |set_solver].
    intros Hu. by inversion_clear Hu. }
  destruct (pop_fresh_spec (S (length (Jitter.frames (jitter s)))) (maxQueuedLatencyMs (voicePolicy (vprofile s)))
    now s Hi Hb) as (b & k & o & -> & Hi' & Hb' & Ho); [lia|].
  destruct o as [i|].
  - destruct Ho as (Hti & Hage & Hn & He). unfold new_id, vemit. cbv beta iota zeta.
    set (s1 := s <| jitter := b |> <| vlog := _ |>).
    set (startAt := Z.max time (nextPlaybackTime _)).
    assert (Es : startAt = Z.max time (nextPlaybackTime s)) by done.
    exists (replicate k (ODrop drop_stale) ++ [OSchedule (nextId s) (pf_seq i) startAt (vf_frameMs (pf_frame i))]).
    rewrite schedule_app, schedule_stale. cbn [app].
    split_and!.
    + rewrite app_assoc. done.
    + by split.
    + intros _. right. exists (pf_seq i), startAt, (vf_frameMs (pf_frame i)). unfold timed in Hti. split_and!; try done; rewrite ?schedule_app, ?schedule_stale, ?Es; done || lia.
    + intros n a ms Hin%list_elem_of_singleton. injection Hin as -> -> ->. lia.
  - destruct Ho as [_ Hn]. exists (replicate k (ODrop drop_stale)). rewrite schedule_stale.
    split_and!; [done|by split| |set_solver]. intros _. left. rewrite schedule_stale. by split_and!.
Qed.

(** ** Every step *)

Definition event_ok (e : Event) : Prop :=
  match e with CallSetProfile p => 0 <= frameMs (voicePolicy p) | _ => True end.

(** Events that do not reset playback by themselves. *)
Definition quiet (e : Event) : Prop :=
  match e with CallStop | CallStopPlayback | CallSetProfile _ => False | _ => True end.

(** A step with its log: playback goes on, or a start has failed. *)
Definition playback_step (e : Event) (s s' : VoiceService) : Prop :=
  exists l, vlog s' = vlog s ++ l /\ play_ok s' /\ (quiet e -> undisturbed l -> moved s l s').

Lemma playback_kept e s s' l :
  play_ok s -> kept s s' -> vlog s' = vlog s ++ l -> schedule l = [] -> playback_step e s s'.
Proof. intros Ho Hk Hl Hs. exists l. split_and!; [done|by eapply kept_ok|]. intros _ _. by apply kept_moved. Qed.

Lemma start_catch_log call st err s :
  exists l, vlog (start_catch call st err s) = vlog s ++ l ++ [OStartFailed call (voiceError (stage_name st) err)] /\
    jitter (start_catch call st err s) = jitter (stop s) /\ plays (start_catch call st err s) = plays (stop s) /\
    vprofile (start_catch call st err s) = vprofile (stop s).
Proof.
  unfold start_catch. destruct (stop_stopped s). eexists. rewrite app_assoc, <- sd_log.
  generalize (stop s). intros s'. by split_and!.
Qed.

Lemma playback_catch e call st err s0 s l0 :
  play_ok s0 -> kept s0 s -> vlog s = vlog s0 ++ l0 -> playback_step e s0 (start_catch call st err s).
Proof.
  intros Ho Hk Hl. destruct (start_catch_log call st err s) as (l & E & E1 & E2 & E3).
  exists (l0 ++ l ++ [OStartFailed call (voiceError (stage_name st) err)]). split_and!.
  - by rewrite E, Hl, <- app_assoc.
  - destruct (stop_ok s) as []; [by eapply kept_ok|]. split; congruence.
  - intros _ Hu. exfalso. unfold undisturbed in Hu. rewrite !Forall_app in Hu. destruct Hu as (_ & _ & Hu).
    by inversion_clear Hu.
Qed.

Lemma start_playback rate s : play_ok s -> playback_step (CallStart rate) s (start rate s).
Proof.
  intros Ho. unfold start, new_id. cbv beta iota zeta.
  match goal with |- context [match ?x with Some _ => _ | None => _ end] => destruct x end;
    [by eapply playback_kept|].
  repeat (match goal with |- playback_step _ _ (if ?b then _ else _) => destruct b end;
    [by eapply playback_kept|]).
  unfold open_context, new_id, vemit, set_stage. cbv beta iota zeta.
  eapply (playback_kept _ _ _ [_; _]); [done|done| |].
  { change (vlog s ++ [?a; ?b]) with (vlog s ++ [a] ++ [b]). rewrite app_assoc. reflexivity. }
  done.
Qed.

Lemma resumed_playback e call st r s : play_ok s -> playback_step e s (start_resumed call st r s).
Proof.
  intros Ho. unfold start_resumed. destruct r as [err|].
  { by eapply (playback_catch _ _ _ _ _ _ []); [done| |rewrite app_nil_r]. }
  assert (Hk : kept s (s <| playbackBlockedValue := false |>)) by done.
  destruct st; cbn [update inputCtx outputCtx caps]; repeat case_match;
    (by eapply (playback_catch _ _ _ _ _ _ []); [done| |rewrite app_nil_r]) ||
    (by eapply (playback_kept _ _ _ []); [done| |rewrite app_nil_r|]).
Qed.

Lemma microphone_playback e call st r s : play_ok s -> playback_step e s (start_microphone call st r s).
Proof.
  intros Ho. unfold start_microphone, new_id.
  assert (Hcatch : forall st err, playback_step e s (start_catch call st err s)).
  { intros. by eapply (playback_catch _ _ _ _ _ _ []); [done| |rewrite app_nil_r]. }
  destruct r as [[name m|m]|]; cbv beta iota zeta.
  - destruct st; try apply Hcatch. case_bool_decide; [|apply Hcatch].
    by eapply (playback_kept _ _ _ []); [done| |rewrite app_nil_r|].
  - destruct st; apply Hcatch.
  - match goal with |- context [match ?x with Some _ => _ | None => _ end] => destruct x end.
    + by eapply playback_kept.
    + by eapply playback_catch.
Qed.

Lemma module_playback e call r s : play_ok s -> playback_step e s (start_module call r s).
Proof.
  intros Ho. unfold start_module, new_id.
  assert (Hcatch : forall st err, playback_step e s (start_catch call st err s)).
  { intros. by eapply (playback_catch _ _ _ _ _ _ []); [done| |rewrite app_nil_r]. }
  destruct r; [apply Hcatch|]. destruct (inputCtx s), (stream s); try apply Hcatch.
  cbv beta iota zeta. by eapply playback_kept.
Qed.

Lemma schedule_numbered p rate now n outs : schedule (numbered p rate now n outs) = [].
Proof. revert n. induction outs as [|f outs IH]; intros n; [done|]. cbn. apply IH. Qed.

Lemma kept_trans s1 s2 s3 : kept s1 s2 -> kept s2 s3 -> kept s1 s3.
Proof. intros [] []. split; congruence. Qed.

Lemma capture_kept above fuel spf rate now s :
  exists l, vlog (capture_loop above fuel spf rate now s) = vlog s ++ l /\ schedule l = [] /\
    kept s (capture_loop above fuel spf rate now s).
Proof.
  revert s. induction fuel as [|fuel IH]; intros s; cbn [capture_loop].
  { exists []. by rewrite app_nil_r. }
  assert (Hnil : exists l, vlog s = vlog s ++ l /\ schedule l = [] /\ kept s s)
    by (exists []; by rewrite app_nil_r).
  destruct (spf <=? captureSamples s); [|done]. destruct (readFrame _ _) as [[frame buffer]|]; [|done].
  rewrite framesAllowed_gated, send_frames. set (s1 := _ <| vlog := _ |>).
  destruct (IH s1) as (l & -> & Hs & Hk). eexists (_ ++ l). split_and!.
  - rewrite app_assoc. reflexivity.
  - by rewrite schedule_app, Hs, schedule_numbered.
  - by eapply kept_trans, Hk.
Qed.

Lemma message_playback e above rate spf now data s :
  play_ok s -> playback_step e s (onmessage above rate spf now data s).
Proof.
  intros Ho. unfold onmessage. destruct (_ || _).
  { by eapply (playback_kept _ _ _ []); [done| |rewrite app_nil_r|]. }
  set (s1 := s <| captureBuffer := _ |> <| captureSamples := _ |>).
  destruct (capture_kept above (Z.to_nat (captureSamples s1)) spf rate now s1) as (l & E & Hs & Hk).
  eapply playback_kept; [done| |exact E|done]. by eapply kept_trans, Hk.
Qed.

Lemma play_playback e ctor frame s : play_ok s -> playback_step e s (play ctor frame s).
Proof.
  intros Ho. unfold play. destruct (decodeInboundVoiceFrame frame (vprofile s)) as [pcm|err] eqn:Ed.
  2: by eapply playback_kept.
  assert (Ht : timed frame).
  { unfold decodeInboundVoiceFrame in Ed. destruct Ho as [_ _ _ Hm].
    match type of Ed with (if ?c then _ else _) = _ => destruct c eqn:Ec end; [done|].
    apply orb_false_elim in Ec as [_ Ec]. apply negb_false_iff, Z.eqb_eq in Ec. unfold timed. by rewrite Ec. }
  unfold enablePlayback. destruct (outputCtx s); [|destruct ctor as [rate|]].
  - exists []. rewrite app_nil_r. split_and!; [done| |intros _ _; by left].
    destruct Ho. split; [done..| |done]. apply Forall_app. by repeat constructor.
  - unfold open_context, new_id, vemit. cbv beta iota zeta. eexists [_]. split_and!; [done| |intros _ _; by left].
    destruct Ho. split; [done..| |done]. apply Forall_app. by repeat constructor.
  - by eapply playback_kept.
Qed.

Lemma resume_playback e i ok time now frame pcm16 s :
  play_ok s -> plays s !! i = Some (frame, pcm16) ->
  playback_step e s (play_resume ok time now frame pcm16 (s <| plays := delete i (plays s) |>)).
Proof.
  intros [Hi Hb Hp Hm] E. pose proof (proj1 (Forall_lookup _ _) Hp _ _ E) as Ht. cbn in Ht.
  assert (Hd : Forall (fun c => timed c.1) (delete i (plays s))) by by apply Forall_delete.
  unfold play_resume. destruct ok; cbn [negb].
  2: { exists [OPlayed false]. split_and!; [done|by split|]. intros _ _. by left. }
  set (item := {| pf_seq := vf_seq frame; pf_frame := frame; pf_pcm16 := pcm16; pf_receivedAt := now |}).
  destruct (Jitter.push_inv pf_seq item (jitter s) Hi) as [Hi' Hn].
  assert (Hb' : buffered (Jitter.push pf_seq item (jitter s))) by by apply push_buffered.
  exists [OPlayed true].
  match goal with |- context [if ?c then _ else _] => destruct c eqn:Ec end;
    (split_and!; [done|by split|intros _ _; left; split_and!; try done]).
  apply andb_prop in Ec as [Ec _]. cbn in Ec. intros E1. by rewrite E1 in Ec.
Qed.

Lemma step_playback above e s s' :
  step above e s = Some s' -> event_ok e -> play_ok s -> playback_step e s s'.
Proof.
  intros Hs He Ho. destruct e as [rate|call r| | |m|p|ctor|ok|ctor frame|i ok time now|node now data|time now|id];
    cbn [step] in Hs.
  - apply (inj Some) in Hs as <-. by apply start_playback.
  - destruct (map_get call (starts s)) as [[]|]; try done; apply (inj Some) in Hs as <-.
    1-2: by apply resumed_playback. 1-2: by apply microphone_playback. by apply module_playback.
  - apply (inj Some) in Hs as <-. destruct (stop_stopped s). eexists. split_and!; [done|by apply stop_ok|done].
  - apply (inj Some) in Hs as <-. rewrite stopPlayback_eq. eexists. split_and!; [done| |done].
    destruct Ho. destruct (clear_ok (jitter s)). by split.
  - apply (inj Some) in Hs as <-. by eapply (playback_kept _ _ _ []); [done| |rewrite app_nil_r|].
  - apply (inj Some) in Hs as <-. exists []. rewrite app_nil_r. split_and!; [done| |done].
    destruct Ho. destruct (clear_ok (new_jitter p)). by split.
  - apply (inj Some) in Hs as <-. unfold enablePlayback, open_context, new_id, vemit.
    destruct (outputCtx s); [|destruct ctor]; cbv beta iota zeta; cbn [fst].
    2: by eapply playback_kept. all: by eapply (playback_kept _ _ _ []); [done| |rewrite app_nil_r|].
  - apply (inj Some) in Hs as <-. by eapply (playback_kept _ _ _ []); [done| |rewrite app_nil_r|].
  - apply (inj Some) in Hs as <-. by apply play_playback.
  - destruct (plays s !! i) as [[frame pcm16]|] eqn:E; [|done]. apply (inj Some) in Hs as <-.
    by apply resume_playback.
  - destruct (map_get node (nodes s)) as [[rate spf]|]; [|done]. apply (inj Some) in Hs as <-.
    by apply message_playback.
  - destruct (playbackTimer s) eqn:Et; [|done]. apply (inj Some) in Hs as <-.
    destruct (flush_spec time now s Ho Et) as (l & El & Ho' & Hm & _). exists l. by split_and!.
  - destruct (bool_decide _); [|done]. apply (inj Some) in Hs as <-.
    by eapply (playback_kept _ _ _ []); [done| |rewrite app_nil_r|].
Qed.

Lemma new_play_ok p c : 0 <= frameMs (voicePolicy p) -> play_ok (newVoiceService p c).
Proof. intros H. destruct (clear_ok (new_jitter p)). by split; [|constructor..|]. Qed.

Lemma run_play_ok above es s s' :
  run above es s = Some s' -> Forall event_ok es -> play_ok s ->
  play_ok s' /\ exists l, vlog s' = vlog s ++ l.
Proof.
  revert s. induction es as [|e es IH]; intros s Hr He Ho; cbn [run] in Hr.
  { apply (inj Some) in Hr as <-. split; [done|]. exists []. by rewrite app_nil_r. }
  apply Forall_cons in He as [He Hes]. destruct (step above e s) as [s1|] eqn:Es; [|done].
  destruct (step_playback _ _ _ _ Es He Ho) as (l & E & Ho1 & _).
  destruct (IH _ Hr Hes Ho1) as (Ho' & l' & E'). split; [done|]. exists (l ++ l').
  by rewrite E', E, app_assoc.
Qed.

(** What has been scheduled so far ends before the clock of the timer and
    has lower numbers than anything still to come. *)
Definition behind (sch : list (Z * Z * Z)) (s : VoiceService) : Prop :=
  Forall (fun x => playbackTimer s = true /\ x.1.2 + x.2 <= nextPlaybackTime s /\
    forall n, Jitter.not_before (Jitter.expected (jitter s)) n -> x.1.1 < n) sch.

Lemma moved_behind sch s l s' :
  moved s l s' -> behind sch s -> StronglySorted follows sch ->
  behind (sch ++ schedule l) s' /\ StronglySorted follows (sch ++ schedule l).
Proof.
  unfold behind. intros [(-> & Ht & Hn)|(n & at_ & ms & -> & Hms & Ht & Ht' & Hle & Hnext & Hn & He)] Hb Hs.
  - rewrite app_nil_r. split; [|done]. eapply Forall_impl; [exact Hb|]. cbn. intros x (T & E & B).
    destruct (Ht T) as [-> ->]. split_and!; auto.
  - rewrite Forall_app, Forall_singleton, He. cbn [fst snd Jitter.not_before]. split_and!; try done; try lia.
    + eapply Forall_impl; [exact Hb|]. cbn. intros x (T & E & B). split_and!; [done|lia|].
      intros k Hk. specialize (B n Hn). lia.
    + apply StronglySorted_app_2; [|done|by repeat constructor].
      intros x y Hx ->%list_elem_of_singleton.
      eapply Forall_forall in Hb as (_ & E & B); [|exact Hx]. split; cbn [fst snd]; [by apply B|lia].
Qed.

Lemma run_scheduled above es s s' sch :
  run above es s = Some s' -> Forall event_ok es -> Forall quiet es -> play_ok s ->
  behind sch s -> StronglySorted follows sch ->
  exists l, vlog s' = vlog s ++ l /\ (undisturbed l -> StronglySorted follows (sch ++ schedule l)).
Proof.
  revert s sch. induction es as [|e es IH]; intros s sch Hr He Hq Ho Hb Hs; cbn [run] in Hr.
  { apply (inj Some) in Hr as <-. exists []. rewrite app_nil_r. split; [done|]. intros _. by rewrite app_nil_r. }
  apply Forall_cons in He as [He Hes]. apply Forall_cons in Hq as [Hq Hqs].
  destruct (step above e s) as [s1|] eqn:Es; [|done].
  destruct (step_playback _ _ _ _ Es He Ho) as (l1 & E1 & Ho1 & Hm).
  destruct (decide (undisturbed l1)) as [Hu|Hu].
  - destruct (moved_behind sch s l1 s1 (Hm Hq Hu) Hb Hs) as [Hb1 Hs1].
    destruct (IH s1 _ Hr Hes Hqs Ho1 Hb1 Hs1) as (l2 & E2 & H2). exists (l1 ++ l2). split.
    + by rewrite E2, E1, app_assoc.
    + intros [_ H]%Forall_app. rewrite schedule_app, app_assoc. by apply H2.
  - destruct (run_play_ok above es s1 s' Hr Hes Ho1) as (_ & l2 & E2). exists (l1 ++ l2). split.
    + by rewrite E2, E1, app_assoc.
    + intros [H _]%Forall_app. done.
Qed.


(** Three frames that arrive in the wrong order. *)
Definition play_demo_frame (n : Z) : VoiceFrame :=
  frame_of profile_balanced 8000 0 n (replicate 320 (Some (0, 1))).

Definition play_demo : list Event :=
  [CallPlay (Some 8000) (play_demo_frame 2); CallPlay None (play_demo_frame 1); PlaySettled 1 true 0 0;
   PlaySettled 0 true 0 1; PlaybackTimer 80 40; CallPlay None (play_demo_frame 1); PlaySettled 0 true 90 50;
   PlaybackTimer 120 80; SourceEnded 1].

Definition play_demo_start : VoiceService := newVoiceService profile_balanced full_caps.

