(* ===== verification/VoiceResources.v ===== *)
(** * Resources of the voice service

    What is open, read off the log of the service: contexts and microphones
    opened and not closed.  As long as [start] is called with nothing pending
    and no context of an earlier [play], the fields of the object account for
    everything that is open and [stop] releases it; without either condition
    it does not. *)
From S2P Require Import Prelude JsMap Bytes Profiles Audio Voice VoiceProps.

Definition track_context (acc : list nat) (o : VoiceOutput) : list nat :=
  match o with
  | OOpenContext id => acc ++ [id]
  | OCloseContext id => filter (fun x => x <> id) acc
  | _ => acc
  end.

Definition track_microphone (acc : list nat) (o : VoiceOutput) : list nat :=
  match o with
  | OOpenMicrophone id => acc ++ [id]
  | OStopTracks id => filter (fun x => x <> id) acc
  | _ => acc
  end.

Definition open_contexts (log : list VoiceOutput) : list nat := foldl track_context [] log.
Definition open_microphones (log : list VoiceOutput) : list nat := foldl track_microphone [] log.

(** The fields account for what is open; one start at most is pending, and
    until it has the microphone there is none. *)
Record accounted (s : VoiceService) : Prop := {
  ac_contexts : open_contexts (vlog s) = option_list (inputCtx s) ++ option_list (outputCtx s);
  ac_microphones : open_microphones (vlog s) = option_list (stream s);
  ac_starts : starts s = [] \/ exists call st, starts s = [(call, st)] /\ (st <> worklet_load -> stream s = None);
  ac_idle : starts s = [] -> stream s = None -> inputCtx s = None;
}.

(** The part that [stop] needs. *)
Record balanced (s : VoiceService) : Prop := {
  bl_contexts : open_contexts (vlog s) = option_list (inputCtx s) ++ option_list (outputCtx s);
  bl_microphones : open_microphones (vlog s) = option_list (stream s);
  bl_starts : starts s = [] \/ exists call st, starts s = [(call, st)];
}.

Lemma accounted_balanced s : accounted s -> balanced s.
Proof. intros [? ? Hs _]. split; [done..|]. destruct Hs as [?|(c & st & ? & _)]; [by left|right; by exists c, st]. Qed.

(** When [start] may be called. *)
Definition start_allowed (s : VoiceService) : Prop :=
  starts s = [] /\ (stream s = None -> outputCtx s = None).

Lemma filter_self (id : nat) : filter (fun x => x <> id) [id] = [].
Proof. rewrite filter_cons_False; [done|]. intros H. by apply H. Qed.

Lemma close_all a b :
  foldl track_context (option_list a ++ option_list b) (opt_out OCloseContext a ++ opt_out OCloseContext b) = [].
Proof.
  destruct a as [a|], b as [b|]; cbn [option_list opt_out app foldl track_context]; rewrite ?filter_self; try done.
  change (option_list (Some a) ++ option_list (Some b)) with [a; b].
  rewrite filter_cons_False by (intros H; by apply H). destruct (decide (b = a)) as [->|Hne].
  - by rewrite filter_self.
  - rewrite (filter_cons_True (fun x => x <> a)) by done. apply filter_self.
Qed.

Lemma track_sources acc l :
  foldl track_context acc (OStopSource <$> l) = acc /\ foldl track_microphone acc (OStopSource <$> l) = acc.
Proof. revert acc. induction l; intros acc; [done|]. cbn. apply IHl. Qed.

(** [stop] releases all of it. *)
Lemma stop_releases s :
  balanced s -> accounted (stop s) /\ open_contexts (vlog (stop s)) = [] /\ open_microphones (vlog (stop s)) = [].
Proof.
  intros [Hc Hm Hst]. destruct (stop_stopped s).
  assert (E1 : open_contexts (vlog (stop s)) = []).
  { rewrite sd_log. unfold open_contexts. rewrite !foldl_app. fold (open_contexts (vlog s)). rewrite Hc.
    rewrite (proj1 (track_sources _ _)).
    assert (E : foldl track_context (option_list (inputCtx s) ++ option_list (outputCtx s))
      (opt_out OStopTracks (stream s)) = option_list (inputCtx s) ++ option_list (outputCtx s))
      by by destruct (stream s).
    rewrite E, <- foldl_app. apply close_all. }
  assert (E2 : open_microphones (vlog (stop s)) = []).
  { rewrite sd_log. unfold open_microphones. rewrite !foldl_app. fold (open_microphones (vlog s)). rewrite Hm.
    rewrite (proj2 (track_sources _ _)).
    assert (E : foldl track_microphone (option_list (stream s)) (opt_out OStopTracks (stream s)) = []).
    { destruct (stream s); [apply filter_self|done]. }
    rewrite E. by destruct (inputCtx s), (outputCtx s). }
  split_and!; try done. split; [by rewrite E1, sd_inputCtx, sd_outputCtx|by rewrite E2, sd_stream| |done].
  rewrite sd_starts. destruct Hst as [?|(call & st & ?)]; [by left|]. right. exists call, st. done.
Qed.

(** What the other operations do not touch. *)
Record held (s s' : VoiceService) (l : list VoiceOutput) : Prop := {
  hd_log : vlog s' = vlog s ++ l;
  hd_contexts : forall acc, foldl track_context acc l = acc;
  hd_microphones : forall acc, foldl track_microphone acc l = acc;
  hd_stream : stream s' = stream s;
  hd_input : inputCtx s' = inputCtx s;
  hd_output : outputCtx s' = outputCtx s;
  hd_starts : starts s' = starts s;
}.

Lemma held_accounted s s' l : held s s' l -> accounted s -> accounted s'.
Proof.
  intros [E Hc Hm E1 E2 E3 E4] []. split; rewrite ?E1, ?E2, ?E3, ?E4; try done; rewrite E.
  - unfold open_contexts. rewrite foldl_app, Hc. done.
  - unfold open_microphones. rewrite foldl_app, Hm. done.
Qed.

Lemma held_nil s s' :
  vlog s' = vlog s -> stream s' = stream s -> inputCtx s' = inputCtx s -> outputCtx s' = outputCtx s ->
  starts s' = starts s -> held s s' [].
Proof. intros. split; try done. by rewrite app_nil_r. Qed.

(** ** Every operation *)

Lemma catch_balanced call st err s : balanced s -> accounted (start_catch call st err s).
Proof.
  intros H. destruct (stop_releases s H) as [Ha _]. unfold start_catch.
  assert (Hm : stream (stop s) = None /\ inputCtx (stop s) = None) by (destruct (stop_stopped s); done).
  generalize dependent (stop s). intros s' [Hc Hm' Hst Hi] [E1 E2].
  set (s1 := vemit _ _). assert (Es : starts s1 = map_delete call (starts s')) by done.
  assert (El : vlog s1 = vlog s' ++ [OStartFailed call (voiceError (stage_name st) err)]) by done.
  assert (Ef : stream s1 = stream s' /\ inputCtx s1 = inputCtx s' /\ outputCtx s1 = outputCtx s') by done.
  clearbody s1. destruct Ef as (F1 & F2 & F3). split.
  - rewrite El, F2, F3, <- Hc. unfold open_contexts. by rewrite foldl_app.
  - rewrite El, F1, <- Hm'. unfold open_microphones. by rewrite foldl_app.
  - rewrite Es, F1. destruct Hst as [->|(c & st' & -> & _)]; [by left|]. unfold map_delete.
    rewrite filter_cons. case_decide; [right; by exists c, st'|by left].
  - by rewrite F2.
Qed.

Lemma catch_accounted call st err s : accounted s -> accounted (start_catch call st err s).
Proof. intros H. by apply catch_balanced, accounted_balanced. Qed.

(** The one pending start moves to another await. *)
Lemma pending s call st :
  accounted s -> map_get call (starts s) = Some st ->
  starts s = [(call, st)] /\ (st <> worklet_load -> stream s = None).
Proof.
  intros [_ _ [->|(c & st' & -> & H)] _] E; [done|]. cbn in E. case_decide; [|done]. simplify_eq. done.
Qed.

Lemma stage_accounted s s' call st st' :
  accounted s -> map_get call (starts s) = Some st -> st <> worklet_load ->
  vlog s' = vlog s -> stream s' = stream s -> inputCtx s' = inputCtx s -> outputCtx s' = outputCtx s ->
  starts s' = map_set call st' (starts s) -> accounted s'.
Proof.
  intros Ha E Hst El E1 E2 E3 E4. destruct (pending s call st Ha E) as [Es Hs]. specialize (Hs Hst).
  destruct Ha. rewrite Es in E4. cbn in E4. rewrite decide_True in E4 by done.
  split; rewrite ?El, ?E1, ?E2, ?E3; try done.
  - right. rewrite E4. by exists call, st'.
  - by rewrite E4.
Qed.

Lemma start_accounted rate s : accounted s -> start_allowed s -> accounted (start rate s).
Proof.
  intros Ha [Hs Ho]. unfold start, new_id. cbv beta iota zeta.
  change (stream (s <| nextId := S (nextId s) |>)) with (stream s). destruct (stream s) as [m|] eqn:Em.
  { by eapply held_accounted, Ha; eapply Build_held. }
  repeat (match goal with |- accounted (if ?b then _ else _) => destruct b end;
    [by eapply held_accounted, Ha; eapply Build_held|]).
  destruct Ha as [Hc Hm _ Hi]. specialize (Hi Hs Em). specialize (Ho eq_refl).
  unfold open_context, new_id, vemit. cbv beta iota zeta. set (s1 := set_stage _ _ _).
  assert (El : vlog s1 = (vlog s ++ [OOpenContext (S (nextId s))]) ++ [OOpenContext (S (S (nextId s)))]) by done.
  assert (Ef : stream s1 = stream s /\ inputCtx s1 = Some (S (nextId s)) /\ outputCtx s1 = Some (S (S (nextId s))) /\
    starts s1 = map_set (nextId s) resume_input (starts s)) by done.
  clearbody s1. destruct Ef as (F1 & F2 & F3 & F4). rewrite Hs in F4. split.
  - rewrite El, F2, F3. unfold open_contexts. rewrite !foldl_app. fold (open_contexts (vlog s)).
    by rewrite Hc, Hi, Ho.
  - rewrite El, F1. unfold open_microphones. rewrite !foldl_app. fold (open_microphones (vlog s)).
    by rewrite Hm.
  - right. rewrite F4, F1. by eexists _, _.
  - by rewrite F4.
Qed.

Lemma resumed_accounted call st r s :
  accounted s -> map_get call (starts s) = Some st -> st = resume_input \/ st = resume_output ->
  accounted (start_resumed call st r s).
Proof.
  intros Ha E Hst. unfold start_resumed. destruct r as [err|]; [by apply catch_accounted|].
  set (s1 := s <| playbackBlockedValue := false |>).
  assert (H1 : accounted s1) by (by eapply held_accounted, Ha; apply held_nil).
  assert (E1 : starts s1 = starts s) by done. clearbody s1.
  destruct Hst as [-> | ->]; cbn iota.
  - destruct (outputCtx s); [|by apply catch_accounted].
    by apply (stage_accounted s _ call resume_input resume_output).
  - destruct (inputCtx s1); [|by apply catch_accounted].
    destruct (cap_context_worklet (caps s1)); cbn [negb]; [|by apply catch_accounted].
    apply (stage_accounted s1 _ call resume_output microphone); rewrite ?E1; try done. by rewrite <- E1.
Qed.

Lemma microphone_accounted call st r s :
  accounted s -> map_get call (starts s) = Some st -> st = microphone \/ st = microphone_fallback ->
  accounted (start_microphone call st r s).
Proof.
  intros Ha E Hst. unfold start_microphone, new_id. destruct r as [err|]; cbv beta iota zeta.
  { destruct Hst as [-> | ->]; [|by apply catch_accounted].
    destruct err; [|by apply catch_accounted]. case_bool_decide; [|by apply catch_accounted].
    by apply (stage_accounted s _ call microphone microphone_fallback). }
  set (s1 := vemit _ _ <| stream := _ |>).
  destruct (pending s call st Ha E) as [Es Hn]. assert (Hs : stream s = None) by (apply Hn; by destruct Hst as [-> | ->]).
  assert (El : vlog s1 = vlog s ++ [OOpenMicrophone (nextId s)]) by done.
  assert (Ef : stream s1 = Some (nextId s) /\ inputCtx s1 = inputCtx s /\ outputCtx s1 = outputCtx s /\
    starts s1 = starts s) by done.
  clearbody s1. destruct Ef as (F1 & F2 & F3 & F4).
  assert (Hopen : forall s2, vlog s2 = vlog s1 -> stream s2 = stream s1 -> inputCtx s2 = inputCtx s1 ->
    outputCtx s2 = outputCtx s1 -> starts s2 = [(call, worklet_load)] -> accounted s2).
  { intros s2 G1 G2 G3 G4 G5. destruct Ha as [Hc Hm _ _]. split; rewrite ?G1, ?El, ?G2, ?G3, ?G4, ?G5, ?F1, ?F2, ?F3.
    - unfold open_contexts. by rewrite foldl_app.
    - unfold open_microphones. rewrite foldl_app. fold (open_microphones (vlog s)). by rewrite Hm, Hs.
    - right. by exists call, worklet_load.
    - done. }
  assert (Ew : map_set call worklet_load (starts s1) = [(call, worklet_load)]).
  { rewrite F4, Es. cbn. by rewrite decide_True. }
  destruct (inputCtx s1) eqn:Ei.
  - by apply Hopen.
  - apply catch_balanced. destruct Ha as [Hc Hm _ _]. split.
    + rewrite El, Ei, F3. unfold open_contexts. rewrite foldl_app. fold (open_contexts (vlog s)).
      by rewrite Hc, <- F2.
    + rewrite El, F1. unfold open_microphones. rewrite foldl_app. fold (open_microphones (vlog s)).
      by rewrite Hm, Hs.
    + right. rewrite F4. by exists call, st.
Qed.

Lemma module_accounted call r s :
  accounted s -> map_get call (starts s) = Some worklet_load -> accounted (start_module call r s).
Proof.
  intros Ha E. destruct (pending s call _ Ha E) as [Es _]. unfold start_module, new_id.
  destruct r; [by apply catch_accounted|]. destruct (inputCtx s) as [ctx|] eqn:Ei; [|by apply catch_accounted].
  destruct (stream s) as [m|] eqn:Em; [|by apply catch_accounted]. cbv beta iota zeta. set (s1 := vemit _ _).
  assert (El : vlog s1 = vlog s ++ [OStarted call]) by done.
  assert (Ef : stream s1 = stream s /\ inputCtx s1 = inputCtx s /\ outputCtx s1 = outputCtx s /\
    starts s1 = map_delete call (starts s)) by done.
  clearbody s1. destruct Ef as (F1 & F2 & F3 & F4). destruct Ha as [Hc Hm _ _].
  assert (Hd : starts s1 = []).
  { rewrite F4, Es. unfold map_delete. rewrite filter_cons. by rewrite decide_False by (cbn; tauto). }
  split; rewrite ?El, ?F1, ?F2, ?F3.
  - unfold open_contexts. by rewrite foldl_app.
  - unfold open_microphones. by rewrite foldl_app.
  - by left.
  - by rewrite Em.
Qed.

Lemma enable_accounted ctor s : accounted s -> accounted (enablePlayback ctor s).1.
Proof.
  intros Ha. unfold enablePlayback. destruct (outputCtx s) as [c|] eqn:Eo; [done|].
  destruct ctor as [rate|]; [|by eapply held_accounted, Ha; apply held_nil].
  unfold open_context, new_id, vemit. cbv beta iota zeta. cbn [fst]. set (s1 := _ <| outputCtx := _ |>).
  assert (El : vlog s1 = vlog s ++ [OOpenContext (nextId s)]) by done.
  assert (Ef : stream s1 = stream s /\ inputCtx s1 = inputCtx s /\ outputCtx s1 = Some (nextId s) /\
    starts s1 = starts s) by done.
  clearbody s1. destruct Ef as (F1 & F2 & F3 & F4). destruct Ha as [Hc Hm Hs Hi].
  split; rewrite ?El, ?F1, ?F2, ?F3, ?F4; try done.
  - unfold open_contexts. rewrite foldl_app. fold (open_contexts (vlog s)). rewrite Hc, Eo.
    cbn [foldl track_context]. by rewrite app_nil_r.
  - unfold open_microphones. by rewrite foldl_app.
Qed.

Lemma play_accounted ctor frame s : accounted s -> accounted (play ctor frame s).
Proof.
  intros Ha. unfold play. destruct (decodeInboundVoiceFrame frame (vprofile s)).
  2: by eapply held_accounted, Ha; eapply Build_held.
  pose proof (enable_accounted ctor s Ha) as H1. destruct (enablePlayback ctor s) as [s1 [|]]; cbn [fst] in H1.
  - by eapply held_accounted, H1; apply held_nil.
  - by eapply held_accounted, H1; eapply Build_held.
Qed.

(** Logs without openings and closings. *)
Definition neutral (o : VoiceOutput) : bool :=
  match o with
  | OOpenContext _ | OCloseContext _ | OOpenMicrophone _ | OStopTracks _ => false
  | _ => true
  end.

Lemma neutral_tracks l :
  Forall (fun o => neutral o = true) l ->
  (forall acc, foldl track_context acc l = acc) /\ (forall acc, foldl track_microphone acc l = acc).
Proof.
  induction 1 as [|o l Ho Hl [IH1 IH2]]; [done|]. split; intros acc; cbn [foldl]; [rewrite IH1|rewrite IH2];
    by destruct o.
Qed.

Lemma numbered_neutral p rate now n outs : Forall (fun o => neutral o = true) (numbered p rate now n outs).
Proof. revert n. induction outs as [|f outs IH]; intros n; constructor; [done|apply IH]. Qed.

Lemma capture_held above fuel spf rate now s : exists l, held s (capture_loop above fuel spf rate now s) l.
Proof.
  revert s. induction fuel as [|fuel IH]; intros s; cbn [capture_loop].
  { exists []. by apply held_nil. }
  destruct (spf <=? captureSamples s); [|exists []; by apply held_nil].
  destruct (readFrame _ _) as [[frame buffer]|]; [|exists []; by apply held_nil].
  rewrite framesAllowed_gated, send_frames. set (s1 := _ <| vlog := _ |>).
  destruct (IH s1) as (l & [E Hc Hm E1 E2 E3 E4]).
  destruct (neutral_tracks _ (numbered_neutral (vprofile s) rate now (seqNo s)
    (gated above (vprofile s) [frame] (vad s)).2)) as [Nc Nm].
  eexists (_ ++ l). split.
  - rewrite E, app_assoc. reflexivity.
  - intros acc. rewrite foldl_app, Hc. apply Nc.
  - intros acc. rewrite foldl_app, Hm. apply Nm.
  - by rewrite E1.
  - by rewrite E2.
  - by rewrite E3.
  - by rewrite E4.
Qed.

Lemma message_accounted above rate spf now data s :
  accounted s -> accounted (onmessage above rate spf now data s).
Proof.
  intros Ha. unfold onmessage. destruct (_ || _); [done|].
  set (s1 := s <| captureBuffer := _ |> <| captureSamples := _ |>).
  destruct (capture_held above (Z.to_nat (captureSamples s1)) spf rate now s1) as [l Hl].
  eapply held_accounted; [exact Hl|]. by eapply held_accounted, Ha; apply held_nil.
Qed.

Lemma held_trans s1 s2 s3 l1 l2 : held s1 s2 l1 -> held s2 s3 l2 -> held s1 s3 (l1 ++ l2).
Proof.
  intros [A1 A2 A3 A4 A5 A6 A7] [B1 B2 B3 B4 B5 B6 B7]. split; try congruence.
  - by rewrite B1, A1, app_assoc.
  - intros acc. by rewrite foldl_app, A2.
  - intros acc. by rewrite foldl_app, A3.
Qed.

Lemma pop_fresh_held fuel lat now s : exists l, held s (pop_fresh fuel lat now s).1 l.
Proof.
  revert s. induction fuel as [|fuel IH]; intros s; cbn [pop_fresh]; [exists []; by apply held_nil|].
  destruct (Jitter.pop (jitter s)) as [b [i|]]; [|exists []; by apply held_nil].
  destruct (lat <? now - pf_receivedAt i); [|exists []; by apply held_nil].
  destruct (IH (vemit (ODrop drop_stale) (s <| jitter := b |>))) as [l Hl].
  exists ([ODrop drop_stale] ++ l). eapply held_trans, Hl. by eapply Build_held.
Qed.

Lemma flush_accounted time now s : accounted s -> accounted (flushPlayback time now s).
Proof.
  intros Ha. unfold flushPlayback. destruct (outputCtx s); [|done]. destruct (_ <? _).
  { by eapply held_accounted, Ha; eapply Build_held. }
  match goal with |- context [pop_fresh ?f ?a ?b s] => destruct (pop_fresh_held f a b s) as [l Hl];
    destruct (pop_fresh f a b s) as [s1 [i|]] end; cbn [fst] in Hl.
  - apply (held_accounted _ _ _ Hl) in Ha. clear Hl. unfold new_id, vemit. cbv beta iota zeta.
    by eapply held_accounted, Ha; eapply Build_held.
  - by eapply held_accounted, Ha.
Qed.

Lemma resume_accounted ok time now frame pcm16 s :
  accounted s -> accounted (play_resume ok time now frame pcm16 s).
Proof.
  intros Ha. unfold play_resume. destruct ok; cbn [negb].
  - match goal with |- context [if ?c then _ else _] => destruct c end;
      by eapply held_accounted, Ha; eapply Build_held.
  - by eapply held_accounted, Ha; eapply Build_held.
Qed.

Lemma stopPlayback_accounted s : accounted s -> accounted (stopPlayback s).
Proof.
  intros Ha. rewrite stopPlayback_eq. eapply held_accounted, Ha.
  eapply Build_held; [reflexivity| | |done..]; intros acc; apply track_sources.
Qed.

Definition event_allowed (e : Event) (s : VoiceService) : Prop :=
  match e with CallStart _ => start_allowed s | _ => True end.

Lemma step_accounted above e s s' :
  step above e s = Some s' -> event_allowed e s -> accounted s -> accounted s'.
Proof.
  intros Hs He Ha. destruct e as [rate|call r| | |m|p|ctor|ok|ctor frame|i ok time now|node now data|time now|id];
    cbn [step] in Hs.
  - apply (inj Some) in Hs as <-. by apply start_accounted.
  - destruct (map_get call (starts s)) as [[]|] eqn:E; try done; apply (inj Some) in Hs as <-.
    1-2: apply resumed_accounted; auto. 1-2: apply microphone_accounted; auto. by apply module_accounted.
  - apply (inj Some) in Hs as <-. by apply stop_releases, accounted_balanced.
  - apply (inj Some) in Hs as <-. by apply stopPlayback_accounted.
  - apply (inj Some) in Hs as <-. by eapply held_accounted, Ha; apply held_nil.
  - apply (inj Some) in Hs as <-. by eapply held_accounted, Ha; apply held_nil.
  - apply (inj Some) in Hs as <-. by apply enable_accounted.
  - apply (inj Some) in Hs as <-. by eapply held_accounted, Ha; apply held_nil.
  - apply (inj Some) in Hs as <-. by apply play_accounted.
  - destruct (plays s !! i) as [[frame pcm16]|]; [|done]. apply (inj Some) in Hs as <-.
    apply resume_accounted. by eapply held_accounted, Ha; apply held_nil.
  - destruct (map_get node (nodes s)) as [[rate spf]|]; [|done]. apply (inj Some) in Hs as <-.
    by apply message_accounted.
  - destruct (playbackTimer s); [|done]. apply (inj Some) in Hs as <-. by apply flush_accounted.
  - destruct (bool_decide _); [|done]. apply (inj Some) in Hs as <-. by eapply held_accounted, Ha; apply held_nil.
Qed.

(** A run in which [start] is only called when it may be. *)
Inductive proper_run (above : Z -> list sample -> bool) : list Event -> VoiceService -> VoiceService -> Prop :=
| proper_nil s : proper_run above [] s s
| proper_cons e es s s1 s' :
    event_allowed e s -> step above e s = Some s1 -> proper_run above es s1 s' ->
    proper_run above (e :: es) s s'.

Lemma proper_accounted above es s s' : proper_run above es s s' -> accounted s -> accounted s'.
Proof. induction 1; eauto using step_accounted. Qed.

Lemma new_accounted p c : accounted (newVoiceService p c).
Proof. split; try done. by left. Qed.

(** C26: resources.  In every run in which [start] is called only with no start
    pending and no output context left by [play], the microphone and the
    contexts that are open are those of the fields of the service, even when
    [stop] overtakes a start that waits for permission; so [stop], at any
    point, leaves no microphone and no context open and nothing scheduled. *)
Theorem stop_releases_all above p c es s :
  proper_run above es (newVoiceService p c) s ->
  open_microphones (vlog s) = option_list (stream s) /\
  open_contexts (vlog s) = option_list (inputCtx s) ++ option_list (outputCtx s) /\
  open_microphones (vlog (stop s)) = [] /\ open_contexts (vlog (stop s)) = [] /\
  scheduledSources (stop s) = [] /\ playbackTimer (stop s) = false /\
  stream (stop s) = None /\ captureSamples (stop s) = 0.
Proof.
  intros Hr. apply proper_accounted in Hr; [|apply new_accounted].
  destruct (stop_releases s (accounted_balanced _ Hr)) as (_ & Hc & Hm). destruct (stop_stopped s), Hr.
  by split_and!.
Qed.

(** A start overtaken by [stop] while it waits for the microphone. *)
Definition overtaken : list Event :=
  [CallStart 48000; StartSettled 0 None; StartSettled 0 None; CallStop; StartSettled 0 None].

Lemma stop_releases_all_witness :
  exists s, run (fun _ _ => true) overtaken (newVoiceService profile_balanced full_caps) = Some s /\
    vlog s !! 4%nat = Some (OOpenMicrophone 3) /\ open_microphones (vlog s) = [].
Proof.
  eexists. split; [vm_compute; reflexivity|]. split; [vm_compute; reflexivity|].
  refine (proj1 (stop_releases_all (fun _ _ => true) profile_balanced full_caps overtaken _ _)).
  eapply proper_cons; [split; vm_compute; done|vm_compute; reflexivity|].
  repeat (eapply proper_cons; [exact I|vm_compute; reflexivity|]). apply proper_nil.
Defined.

