(* ===== verification/Session.v ===== *)
(** * Session controller: [client/src/session/SessionController.ts]

    The controller runs many asynchronous methods at once.  An activation of
    one has a number, which is also the number of the promise it returns;
    while it waits it is an entry of [tasks]: the activation, the promise it
    awaits and the rest of its body, a [Frame] with the local variables that
    are still needed.  A promise that is settled is in [promises].  Any task
    whose promise is settled may go on next, so every order of continuations
    is covered, also those that the microtask queue would not choose.

    Calls on the other components that return a promise are recorded in
    [calls] and settled by an event with any outcome of the right kind; their
    synchronous calls are effects.  What they answer at once (whether the
    socket took a packet, the status of the transport, clocks, identifiers)
    comes with the event ([Answers]).  The promise chain [cryptoSerial] is the
    list of the tasks that were put on it since it was last renewed. *)
From S2P Require Import Prelude JsMap Bytes Profiles Envelope RelayControl Scheduler Messages Json.
From S2P Require Import Negotiation Reliable FileProtocol FileReceiver FileSender Audio Rooms Connection.
From S2P Require Import SessionView Voice.

(** ** Data *)

(** What a promise can deliver. *)
Inductive Value :=
| VUnit
| VBool (b : bool)
| VRoom (code : jstr) (profileId : TransportProfileId)
| VKey (key : bytes)
| VEnvelope (env : Envelope)
| VMessage (message : AppMessage)
| VBody (body : option CoreAppMessage)
| VText (text : jstr).

Inductive Outcome := Fulfilled (v : Value) | Rejected (error : jstr).

(** Asynchronous calls on other components. *)
Inductive Call :=
| CCreateRoom (profileId : TransportProfileId)
| CLookupRoom (code : jstr)
| CConfigure (p : TransportProfile)
| CGenerateIdentity
| CCryptoReset
| CEstablishSession (peerKey : bytes) (hash : jstr)
| CEncrypt (channel : nat) (message : AppMessage) (lane : LaneName)
| CDecrypt (channel : nat) (env : Envelope)
| CProfileHash (p : TransportProfile)
| CPhrase (i : PhraseInput)
| CConnect (code : jstr)
| CReliableSend (body : CoreAppMessage) (channel : ReliableChannelName) (trackingId : option jstr)
| CReliableReceive (message : AppMessage)
| CSenderOffer (name : jstr) (size : Z) (queued : bool)
| CSenderAccept (fileId : jstr)
| CSenderCancel (fileId reason : jstr) (notifyPeer : bool)
| CReceiverAccept (fileId : jstr)
| CReceiverReject (fileId : jstr)
| CReceiverCancel (fileId reason : jstr)
| CReceiverChunk (message : CoreAppMessage)
| CReceiverPeerCancel (fileId reason : jstr)
| CVoiceStart
| CVoicePlay (message : CoreAppMessage)
| CVoiceEnable.

(** A public key is an object: [id] tells two keys with the same bytes apart. *)
Record KeyObject := { key_id : nat; key_bytes : bytes }.

(** The tasks given to [runCrypto]. *)
Inductive CryptoTask :=
| TaskEstablish (peerKey : bytes) (hash : jstr)
| TaskEncrypt (channel : nat) (message : AppMessage) (lane : LaneName)
| TaskDecrypt (channel : nat) (env : Envelope).

Inductive StartPhase := start_creating | start_joining.

(** The rest of a method after an await, with its local variables. *)
Inductive Frame :=
| KReturn                                       (* [return await ...] *)
| KRoom (phase : StartPhase)                    (* createRoom, joinRoom *)
| KStarted
| KStartConfigured (lifecycle : Z) (code : jstr)
| KStartIdentity (lifecycle : Z) (code : jstr)
| KStartConnected (lifecycle : Z)
| KHandshakeHash (initial : bool) (key : KeyObject) (lifecycle epoch : Z) (p : TransportProfile)
| KPrepared (work : nat)                        (* prepareFreshCryptoEpoch *)
| KWorkReset (lifecycle : Z)
| KWorkConfigured (lifecycle : Z)
| KWorkIdentity (lifecycle : Z)
| KConnectedPrepared                            (* onConnectionStatus *)
| KConnectedSent
| KPresentPrepared                              (* onRelayEvent *)
| KDisconnectedPrepared
| KRejoinedPrepared
| KEnvelopeHandled                              (* onEnvelope *)
| KDecrypted (epoch : Z) (channel : nat) (env : Envelope)
| KReplySent (hs : HandshakeMessage) (peerKey : bytes)   (* handleHandshake *)
| KPeerHash (hs : HandshakeMessage) (peerKey : bytes)
| KEstablished (hs : HandshakeMessage) (peerKey : bytes)
| KPhrase
| KCryptoTurn (task : CryptoTask)               (* runCrypto *)
| KReconfigured (peerKey : bytes) (hash : jstr)
| KReceived                                     (* handleAppMessage *)
| KFileRejected
| KSenderCancelled (fileId reason : jstr)
| KReceiverCancelled
| KPlayed
| KInboundVoice                                 (* processOneInboundVoice *)
| KPump (epoch : Z)                             (* pumpOutboundVoice *)
| KEncrypted (epoch : Z) (channel : nat)        (* sendRawApp *)
| KTextSent (messageId : jstr)                  (* sendText *)
| KOffered (queued voiceActive : bool)          (* offerFile *)
| KFileCancelled                                (* cancelFile *)
| KVoiceStarted                                 (* startVoice *)
| KVoiceAnnounced
| KVoiceStopped                                 (* stopVoice *)
| KPlaybackEnabled.                             (* enableAudioPlayback *)

(** Synchronous calls on other components.  A packet given to the transport
    is recorded with the channel that encrypted it, if any, and with the
    epoch and the channel of the controller at that moment. *)
Inductive Effect :=
| TSetProfile (p : TransportProfile)
| TClearQueuedPackets
| TDisconnect (forgetSlot : bool)
| TEndSession
| TSendHandshake (initial : bool) (epoch : Z) (env : Envelope)
| TSendData (channel : nat) (current : option nat) (epoch : Z) (env : Envelope)
| TRecordVoiceDrop (reason : VoiceDropMetric) (count : Z)
| TRecordVoiceQueueSize (size : Z)
| EDispatch (channel : nat) (current : option nat) (message : AppMessage)
| VoiceStop
| VoiceStopPlayback
| VoiceSetMuted (m : bool)
| VoiceSetProfile (p : TransportProfile)
| SenderReset | SenderSetProfile (p : TransportProfile)
| SenderSetGlobalPaused (paused : bool) (reason : jstr)
| SenderAck (fileId : jstr) (index : Z)
| SenderNack (fileId : jstr) (index : Z) (reason : jstr)
| SenderPause (fileId reason : jstr)
| SenderResume (fileId : jstr)
| ReceiverReset | ReceiverSetProfile (p : TransportProfile)
| ReceiverOffer (message : CoreAppMessage)
| ReceiverCompleteNotice (message : CoreAppMessage)
| ReliableFailAll (reason : jstr)
| ReliableReset.

(** Tasks of the inbound queue. *)
Inductive InboundTask :=
| IStatus (lifecycle : Z) (status : ConnectionStatus)
| IRelay (lifecycle : Z) (event : RelayEvent)
| IEnvelope (env : Envelope) (epoch : Z)
| IVoice.

(** What other components answer at once during a step. *)
Record Answers := {
  an_sent : bool;                   (* transport.send *)
  an_ended : bool;                  (* transport.endSession *)
  an_canSendVoice : bool;           (* transport.canSendVoiceNow *)
  an_status : ConnectionStatus;     (* transport.status *)
  an_sampleRate : Z;                (* voice.actualSampleRate *)
  an_failed : list (option jstr);   (* what reliable.failAll reports *)
  an_id : jstr;                     (* makeId *)
  an_now : Z;                       (* Date.now, performance.now *)
}.

Record Session := {
  view : View;
  profile : TransportProfile;
  secure : option nat;
  nextChannel : nat;
  outboundVoice : Fresh.VoiceFreshnessQueue VoiceFrame;
  inboundVoice : Fresh.VoiceFreshnessQueue Envelope;
  outboundVoicePumping : bool;
  inboundVoiceScheduled : bool;
  voiceQueueEpoch : Z;
  inboundSerial : list InboundTask;
  inboundRunning : option nat;
  epochPreparation : option nat;
  cryptoSerial : list nat;
  lifecycleEpoch : Z;
  secureEpoch : Z;
  startupInFlight : bool;
  endSessionTimer : bool;
  failTimers : nat;
  s_localPublicKey : option KeyObject;
  s_peerPublicKey : option bytes;
  initialHandshakeSent : bool;
  replyHandshakeSent : bool;
  establishing : bool;
  promises : jsmap nat Outcome;
  tasks : list (nat * nat * Frame);
  calls : jsmap nat Call;
  nextId : nat;
  effects : list Effect;
}.

#[export] Instance Session_eta : Eta Session := fun s =>
  Build_Session (view s) (profile s) (secure s) (nextChannel s) (outboundVoice s) (inboundVoice s)
    (outboundVoicePumping s) (inboundVoiceScheduled s) (voiceQueueEpoch s) (inboundSerial s)
    (inboundRunning s) (epochPreparation s) (cryptoSerial s) (lifecycleEpoch s) (secureEpoch s) (startupInFlight s)
    (endSessionTimer s) (failTimers s) (s_localPublicKey s) (s_peerPublicKey s)
    (initialHandshakeSent s) (replyHandshakeSent s) (establishing s) (promises s) (tasks s) (calls s)
    (nextId s) (effects s).

(** [createVoiceQueue]. *)
Definition createVoiceQueue {T} (p : TransportProfile) : Fresh.VoiceFreshnessQueue T :=
  Fresh.create (voiceQueueMaxFrames p) (maxQueuedLatencyMs (voicePolicy p)).

Definition newSession : Session :=
  let p := getProfile ProfileId.balanced in {|
  view := new_view; profile := p; secure := None; nextChannel := 0;
  outboundVoice := createVoiceQueue p; inboundVoice := createVoiceQueue p;
  outboundVoicePumping := false; inboundVoiceScheduled := false; voiceQueueEpoch := 0;
  inboundSerial := []; inboundRunning := None; epochPreparation := None; cryptoSerial := [];
  lifecycleEpoch := 0;
  secureEpoch := 0; startupInFlight := false; endSessionTimer := false; failTimers := 0;
  s_localPublicKey := None; s_peerPublicKey := None; initialHandshakeSent := false;
  replyHandshakeSent := false; establishing := false; promises := []; tasks := []; calls := [];
  nextId := 0; effects := [];
|}.

(** ** Promises and activations *)

Definition effect (e : Effect) (s : Session) : Session := s <| effects := effects s ++ [e] |>.

Definition new_promise (s : Session) : Session * nat := (s <| nextId := S (nextId s) |>, nextId s).

Definition settle (p : nat) (o : Outcome) (s : Session) : Session :=
  s <| promises := map_set p o (promises s) |>.

(** The end of an activation. *)
Definition ret (p : nat) (s : Session) : Session := settle p (Fulfilled VUnit) s.
Definition ret_bool (p : nat) (b : bool) (s : Session) : Session := settle p (Fulfilled (VBool b)) s.
Definition throw (p : nat) (error : jstr) (s : Session) : Session := settle p (Rejected error) s.

Definition await (p q : nat) (k : Frame) (s : Session) : Session := s <| tasks := tasks s ++ [(p, q, k)] |>.

Definition call (c : Call) (s : Session) : Session * nat :=
  let '(s, q) := new_promise s in (s <| calls := map_set q c (calls s) |>, q).

Definition await_call (p : nat) (c : Call) (k : Frame) (s : Session) : Session :=
  let '(s, q) := call c s in await p q k s.

(** [await this.method(...)]: the method is another activation. *)
Definition await_async (p : nat) (method : nat -> Session -> Session) (k : Frame) (s : Session) : Session :=
  let '(s, q) := new_promise s in await p q k (method q s).

(** [void this.method(...)]. *)
Definition start_async (method : nat -> Session -> Session) (s : Session) : Session :=
  let '(s, q) := new_promise s in method q s.

(** ** The chain of crypto tasks *)

(** What the next task waits for: the last task of the chain, or a promise
    that is resolved. *)
Definition serial_tail (s : Session) : Session * nat :=
  match last (cryptoSerial s) with
  | Some t => (s, t)
  | None => let '(s, r) := new_promise s in (settle r (Fulfilled VUnit) s, r)
  end.

(** [await this.runCrypto(task)]. *)
Definition runCrypto (p : nat) (task : CryptoTask) (k : Frame) (s : Session) : Session :=
  let '(s, t) := new_promise s in
  let '(s, r) := serial_tail s in
  let s := await t r (KCryptoTurn task) s in
  await p t k (s <| cryptoSerial := cryptoSerial s ++ [t] |>).

(** The task when its turn has come, however the one before it ended. *)
Definition run_task (task : CryptoTask) (t : nat) (s : Session) : Session :=
  match task with
  | TaskEstablish peerKey hash => await_call t (CConfigure (profile s)) (KReconfigured peerKey hash) s
  | TaskEncrypt channel message lane => await_call t (CEncrypt channel message lane) KReturn s
  | TaskDecrypt channel env => await_call t (CDecrypt channel env) KReturn s
  end.

(** ** The view *)

Definition on_view (f : View -> View) (s : Session) : Session := s <| view := f (view s) |>.

Definition patch_view (f : SessionViewState -> SessionViewState) (s : Session) : Session :=
  on_view (patch f) s.

(** The character that ends a notice of something under way. *)
Definition ellipsis : jstr := [8230].

Definition set_notice (text : jstr) (s : Session) : Session :=
  patch_view (fun v => v <| notice := Some text |>) s.

Definition system (a : Answers) (text : jstr) (severity : Severity) (s : Session) : Session :=
  on_view (addSystem (an_id a) (an_now a) text severity) s.

(** ** Voice queues and file pauses *)

(** [if (dropped) this.transport.recordVoiceDrop(...)]. *)
Definition record_drop (reason : VoiceDropMetric) (count : Z) (s : Session) : Session :=
  if count =? 0 then s else effect (TRecordVoiceDrop reason count) s.

Definition clearOutboundVoiceQueue (s : Session) : Session :=
  let s := s <| voiceQueueEpoch := voiceQueueEpoch s + 1 |> in
  let '(q, dropped) := Fresh.clear (outboundVoice s) in
  record_drop before_encrypt dropped (s <| outboundVoice := q |>).

Definition clearVoiceQueues (s : Session) : Session :=
  let s := clearOutboundVoiceQueue s in
  let '(q, dropped) := Fresh.clear (inboundVoice s) in
  let s := record_drop before_decrypt dropped (s <| inboundVoice := q |>) in
  s <| inboundVoiceScheduled := false |>.

Definition updateVoiceQueueLimits (s : Session) : Session :=
  let frames := voiceQueueMaxFrames (profile s) in
  let age := maxQueuedLatencyMs (voicePolicy (profile s)) in
  let '(q, outboundDropped) := Fresh.setLimits frames age (outboundVoice s) in
  let s := s <| outboundVoice := q |> in
  let '(q, inboundDropped) := Fresh.setLimits frames age (inboundVoice s) in
  let s := s <| inboundVoice := q |> in
  record_drop before_decrypt inboundDropped (record_drop before_encrypt outboundDropped s).

Definition updateFilePauseForVoice (s : Session) : Session :=
  let shouldPause := isVoiceActive (view s) || remoteVoiceActive (view s) in
  let s := effect (SenderSetGlobalPaused shouldPause (js "Paused during voice")) s in
  if shouldPause then s else on_view startNextQueuedFileIfAllowed s.

Definition set_remoteVoice (b : bool) (s : Session) : Session :=
  on_view (fun v => v <| remoteVoiceActive := b |>) s.

(** [this.profile = ...] and the components that follow it. *)
Definition apply_profile (p : TransportProfile) (s : Session) : Session :=
  let s := s <| profile := p |> in
  let s := effect (ReceiverSetProfile p) (effect (SenderSetProfile p)
             (effect (VoiceSetProfile p) (effect (TSetProfile p) s))) in
  updateVoiceQueueLimits s.

Definition setProfile (i : TransportProfileId) (s : Session) : Session :=
  if negb (bool_decide (phase (state (view s)) = Phase.idle)) &&
     negb (bool_decide (phase (state (view s)) = Phase.ended)) then s
  else patch_view (fun v => v <| vs_profileId := i |>) (apply_profile (getProfile i) s).

(** ** Ending *)

Definition clear_handshake_flags (s : Session) : Session :=
  s <| establishing := false |> <| initialHandshakeSent := false |> <| replyHandshakeSent := false |>.

Definition reset_transfers (s : Session) : Session :=
  effect ReceiverReset (effect SenderReset (effect VoiceStop (clearVoiceQueues (set_remoteVoice false s)))).

Definition forget_keys (s : Session) : Session :=
  s <| secure := None |> <| s_localPublicKey := None |> <| s_peerPublicKey := None |> <| cryptoSerial := [] |>.

Definition ended_view (text : jstr) (v : SessionViewState) : SessionViewState :=
  v <| phase := Phase.ended |> <| connection := Status.disconnected |> <| security := Security.none |>
    <| safetyPhrase := None |> <| voice := Voice.idle |> <| muted := false |>
    <| audioPlaybackBlocked := false |> <| notice := Some text |> <| transcript := [] |>
    <| transfers := [] |>.

(** The stages of [disconnect]. *)
Definition new_lifecycle (s : Session) : Session :=
  clear_handshake_flags
    (s <| lifecycleEpoch := lifecycleEpoch s + 1 |> <| secureEpoch := secureEpoch s + 1 |>
       <| endSessionTimer := false |> <| epochPreparation := None |>).

Definition clear_order (s : Session) : Session := on_view (fun v => v <| transferOrder := [] |>) s.

Definition drop_session (forgetSlot : bool) (s : Session) : Session :=
  effect ReliableReset (clear_order (forget_keys (call CCryptoReset (effect (TDisconnect forgetSlot) s)).1)).

Definition disconnect (silent forgetSlot : bool) (text : jstr) (s : Session) : Session :=
  let s := drop_session forgetSlot (reset_transfers (new_lifecycle s)) in
  if silent then s else patch_view (ended_view text) s.

Definition room_closed : jstr := js "Room closed on this device.".

Definition endChatForBoth (a : Answers) (s : Session) : Session :=
  if bool_decide (phase (state (view s)) = Phase.idle) || bool_decide (phase (state (view s)) = Phase.ended)
  then s
  else
    let s := effect TEndSession (s <| endSessionTimer := false |>) in
    if negb (an_ended a) then disconnect false true (js "Chat ended on this device.") s
    else (set_notice (js "Ending chat for both" ++ ellipsis) s) <| endSessionTimer := true |>.

(** The callback of the fallback timer. *)
Definition end_timer_fired (s : Session) : Session :=
  disconnect false true (js "Chat ended for both.") (s <| endSessionTimer := false |>).

(** ** Handshakes *)

(** [initial] is not in the source: it tells the two callers apart. *)
Definition sendHandshake (initial : bool) (p : nat) (s : Session) : Session :=
  match s_localPublicKey s with
  | None => ret p s
  | Some key =>
      await_call p (CProfileHash (profile s))
        (KHandshakeHash initial key (lifecycleEpoch s) (secureEpoch s) (profile s)) s
  end.

Definition handshake_envelope (p : TransportProfile) (payload : bytes) : Envelope := {|
  env_protocolVersion := protocolVersion p; env_outerType := OuterType.HANDSHAKE; env_flags := 0;
  env_streamId := 0; env_sequence := 0; env_counter := 0; env_nonce := replicate 12 0;
  env_payload := payload; env_lane := Lane.control;
|}.

Definition handshake_of (key : bytes) (p : TransportProfile) (hash : jstr) : HandshakeMessage := {|
  hs_publicKey := bytesToBase64Url key; hs_profileId := profile_id p; hs_profileHash := hash;
  hs_appVersion := APP_VERSION; hs_featureFlags := FEATURE_FLAGS;
|}.

(** [sendHandshake] after the hash.  The profile objects of [PROFILES] are
    told apart by their identifier. *)
Definition sendHandshake_resume (initial : bool) (key : KeyObject) (lifecycle epoch : Z)
    (pr : TransportProfile) (hash : jstr) (p : nat) (a : Answers) (s : Session) : Session :=
  if negb (lifecycle =? lifecycleEpoch s) || negb (epoch =? secureEpoch s) ||
     negb (match s_localPublicKey s with Some k => (key_id k =? key_id key)%nat | None => false end) ||
     negb (bool_decide (profile_id pr = profile_id (profile s)))
  then ret p s
  else
    match encodeHandshake (handshake_of (key_bytes key) pr hash) with
    | None => throw p (js "JSON") s
    | Some payload =>
        let s := effect (TSendHandshake initial (secureEpoch s) (handshake_envelope pr payload)) s in
        if an_sent a then ret p s else throw p (js "Could not queue secure handshake") s
    end.

Definition sendInitialHandshake (p : nat) (s : Session) : Session :=
  if initialHandshakeSent s then ret p s
  else await_async p (sendHandshake true) KReturn (s <| initialHandshakeSent := true |>).

Definition sendReplyHandshake (p : nat) (s : Session) : Session :=
  if replyHandshakeSent s then ret p s
  else await_async p (sendHandshake false) KReturn (s <| replyHandshakeSent := true |>).

(** ** Starting *)

Definition start_view (phase0 : StartPhase) (code : jstr) (i : TransportProfileId) (v : SessionViewState)
  : SessionViewState :=
  v <| phase := match phase0 with start_creating => Phase.creating | start_joining => Phase.joining end |>
    <| roomCode := code |> <| vs_profileId := i |> <| connection := Status.connecting |>
    <| security := Security.none |> <| safetyPhrase := None |>
    <| notice := Some (match phase0 with
                       | start_creating => js "Room created. Share the code."
                       | start_joining => js "Joining room" ++ ellipsis
                       end) |>
    <| transcript := [] |> <| transfers := [] |> <| invalidPackets := 0 |> <| voice := Voice.idle |>
    <| muted := false |> <| audioPlaybackBlocked := false |>.

(** The synchronous part of [start]. *)
Definition start_reset (code : jstr) (phase0 : StartPhase) (i : TransportProfileId) (s : Session) : Session :=
  let s := apply_profile (getProfile i) (disconnect true false room_closed s) in
  let s := effect ReliableReset (set_remoteVoice false (clear_order s)) in
  patch_view (start_view phase0 code i) (clear_handshake_flags s).

Definition start (code : jstr) (phase0 : StartPhase) (i : TransportProfileId) (p : nat) (s : Session)
  : Session :=
  let s := start_reset code phase0 i s in
  await_call p (CConfigure (profile s)) (KStartConfigured (lifecycleEpoch s) code) s.

Definition start_configured (lifecycle : Z) (code : jstr) (p : nat) (s : Session) : Session :=
  await_call p CGenerateIdentity (KStartIdentity lifecycle code) s.

Definition start_identity (lifecycle : Z) (code : jstr) (key : KeyObject) (p : nat) (s : Session) : Session :=
  if negb (lifecycle =? lifecycleEpoch s) then ret p s
  else await_call p (CConnect code) (KStartConnected lifecycle) (s <| s_localPublicKey := Some key |>).

Definition start_connected (lifecycle : Z) (p : nat) (s : Session) : Session :=
  if negb (lifecycle =? lifecycleEpoch s) then ret p s
  else
    let s := patch_view (fun v => v <| phase := Phase.waiting |>
                                    <| notice := Some (js "Waiting for the other person.") |>) s in
    await_async p sendInitialHandshake KReturn s.

Definition createRoom (p : nat) (s : Session) : Session :=
  if startupInFlight s then ret p s
  else
    let s := s <| startupInFlight := true |> in
    let s := patch_view (fun v => v <| phase := Phase.creating |>
                                    <| notice := Some (js "Creating room" ++ ellipsis) |>) s in
    await_call p (CCreateRoom (vs_profileId (state (view s)))) (KRoom start_creating) s.

Definition joinRoom (rawCode : jstr) (p : nat) (s : Session) : Session :=
  if startupInFlight s then ret p s
  else
    let code := normalizeRoomCode rawCode in
    if negb (zlength code =? 9) then throw p (js "Enter the full room code") s
    else
      let s := s <| startupInFlight := true |> in
      let s := patch_view (fun v => v <| phase := Phase.joining |>
                                      <| notice := Some (js "Looking up room" ++ ellipsis) |>) s in
      await_call p (CLookupRoom code) (KRoom start_joining) s.

(** The [catch] and [finally] of both. *)
Definition startup_failed (error : jstr) (p : nat) (s : Session) : Session :=
  let s := disconnect true false room_closed s in
  let s := patch_view (fun v => v <| phase := Phase.idle |> <| roomCode := [] |> <| notice := Some error |>) s in
  throw p error (s <| startupInFlight := false |>).

(** ** A fresh crypto epoch *)

Definition onDelivered (trackingId : option jstr) (s : Session) : Session :=
  match trackingId with
  | Some id => on_view (updateTranscriptStatus id item_sent) s
  | None => s
  end.

Definition onFailed (a : Answers) (trackingId : option jstr) (reason : jstr) (s : Session) : Session :=
  let s := match trackingId with
           | Some id => on_view (updateTranscriptStatus id item_failed) s
           | None => s
           end in
  system a reason sev_error (set_notice reason s).

Definition session_changed : jstr := js "Session changed. Unsent messages were not delivered.".

Definition fresh_view (text : jstr) (v : SessionViewState) : SessionViewState :=
  v <| phase := Phase.waiting |> <| security := Security.none |> <| safetyPhrase := None |>
    <| voice := Voice.idle |> <| muted := false |> <| audioPlaybackBlocked := false |>
    <| transfers := [] |> <| transcript := filter (fun i => it_kind i <> item_file) (transcript v) |>
    <| notice := Some text |>.

(** The synchronous part of [work], in stages. *)
Definition new_epoch (s : Session) : Session :=
  clear_handshake_flags (s <| secureEpoch := secureEpoch s + 1 |>).

Definition fail_messages (a : Answers) (s : Session) : Session :=
  foldl (fun s id => onFailed a id session_changed s) (effect (ReliableFailAll session_changed) s) (an_failed a).

Definition fresh_epoch (text : jstr) (a : Answers) (s : Session) : Session :=
  let s := clear_order (reset_transfers (effect TClearQueuedPackets (new_epoch s))) in
  patch_view (fresh_view text) (forget_keys (effect ReliableReset (fail_messages a s))).

Definition prepare_work (text : jstr) (a : Answers) (w : nat) (s : Session) : Session :=
  await_call w CCryptoReset (KWorkReset (lifecycleEpoch s)) (fresh_epoch text a s).

Definition prepareFreshCryptoEpoch (text : jstr) (a : Answers) (p : nat) (s : Session) : Session :=
  match epochPreparation s with
  | Some w => await p w KReturn s
  | None =>
      let '(s, w) := new_promise s in
      let s := prepare_work text a w s in
      await p w (KPrepared w) (s <| epochPreparation := Some w |>)
  end.

Definition work_reset (lifecycle : Z) (w : nat) (s : Session) : Session :=
  if negb (lifecycle =? lifecycleEpoch s) then ret w s
  else await_call w (CConfigure (profile s)) (KWorkConfigured lifecycle) s.

Definition work_identity (lifecycle : Z) (key : KeyObject) (a : Answers) (w : nat) (s : Session) : Session :=
  if negb (lifecycle =? lifecycleEpoch s) then ret w s
  else
    let s := s <| s_localPublicKey := Some key |> in
    if bool_decide (an_status a = Status.connected) then await_async w sendInitialHandshake KReturn s
    else ret w s.

(** The [finally] of [prepareFreshCryptoEpoch]. *)
Definition prepared (w p : nat) (o : Outcome) (s : Session) : Session :=
  settle p o (if bool_decide (epochPreparation s = Some w) then s <| epochPreparation := None |> else s).

(** ** Sending *)

Definition sendRawApp (message : AppMessage) (lane : LaneName) (a : Answers) (p : nat) (s : Session) : Session :=
  match secure s with
  | None => ret_bool p false s
  | Some channel =>
      if bool_decide (lane = Lane.voice) && negb (an_canSendVoice a)
      then ret_bool p false (effect (TRecordVoiceDrop before_encrypt 1) s)
      else runCrypto p (TaskEncrypt channel message lane) (KEncrypted (secureEpoch s) channel) s
  end.

Definition is_current (channel : nat) (s : Session) : bool := bool_decide (secure s = Some channel).

(** [sendRawApp] after the encryption. *)
Definition encrypted (epoch : Z) (channel : nat) (o : Outcome) (a : Answers) (p : nat) (s : Session) : Session :=
  match o with
  | Fulfilled (VEnvelope env) =>
      if negb (epoch =? secureEpoch s) || negb (is_current channel s) then ret_bool p false s
      else ret_bool p (an_sent a) (effect (TSendData channel (secure s) (secureEpoch s) env) s)
  | _ => ret_bool p false s
  end.

Definition sendApp (message : AppMessage) (lane : LaneName) (trackingId : option jstr) (a : Answers) (p : nat)
    (s : Session) : Session :=
  match message with
  | Core body =>
      if shouldSendReliably message lane then
        let channel := if bool_decide (lane = Lane.text) then channel_text else channel_control in
        await_call p (CReliableSend body channel trackingId) KReturn s
      else await_async p (sendRawApp message lane a) KReturn s
  | _ => await_async p (sendRawApp message lane a) KReturn s
  end.

Definition not_ready : jstr := js "Encryption is not ready. Leave and rejoin this room.".

Definition no_encryption (s : Session) : Session :=
  patch_view (fun v => v <| security := Security.none |> <| notice := Some not_ready |>) s.

Definition sendText (body : jstr) (a : Answers) (p : nat) (s : Session) : Session :=
  let text := trim body in
  if negb (truthy text) then ret p s
  else
    match secure s with
    | None => ret p (no_encryption s)
    | Some _ =>
        match createTextMessage (an_id a) (an_now a) text with
        | Throw e => throw p e s
        | Ok message =>
            let item := {| it_id := an_id a; it_kind := item_text; it_from := from_me; it_text := text;
                           it_at := an_now a; it_status := Some item_sending; it_severity := None;
                           it_fileId := None |} in
            await_async p (sendApp (Core message) Lane.text (Some (an_id a)) a) (KTextSent (an_id a))
              (on_view (addTranscript item) s)
        end
    end.

Definition text_sent (messageId : jstr) (ok : bool) (p : nat) (s : Session) : Session :=
  ret p (if ok then s else on_view (updateTranscriptStatus messageId item_failed) s).

(** ** Verification *)

Definition mismatch : jstr := js "Verification mismatch. End this chat.".

Definition markVerified (matches : bool) (a : Answers) (p : nat) (s : Session) : Session :=
  match secure s with
  | None => ret p (no_encryption s)
  | Some _ =>
      if negb matches then
        ret p (system a mismatch sev_error
          (patch_view (fun v => v <| security := Security.verification_failed |> <| notice := Some mismatch |>) s))
      else
        let s := patch_view (fun v => v <| security := Security.verified |>
                                        <| notice := Some (js "Verified on this device.") |>) s in
        let s := system a (js "Secure session verified.") sev_info s in
        await_async p (sendApp (Core (session_verified (an_now a))) Lane.control None a) KReturn s
  end.

(** ** Files *)

Definition offerFile (name : jstr) (size : Z) (p : nat) (s : Session) : Session :=
  match secure s with
  | None => ret p (set_notice (js "Encryption is not ready.") s)
  | Some _ =>
      let voiceActive := isVoiceActive (view s) in
      let queued := voiceActive || hasActiveFile (view s) in
      await_call p (CSenderOffer name size queued) (KOffered queued voiceActive) s
  end.

Definition file_offered (queued voiceActive : bool) (fileId : jstr) (a : Answers) (p : nat) (s : Session)
  : Session :=
  let s := on_view (ensureTransferOrder fileId) s in
  ret p (if queued then
           system a (if voiceActive then js "File queued until voice ends." else js "File queued.") sev_info s
         else s).

Definition cancelFile (fileId : jstr) (p : nat) (s : Session) : Session :=
  match find (fun t => jstr_eqb (tv_fileId t) fileId) (transfers (state (view s))) with
  | None => ret p s
  | Some t =>
      await_call p (if is_send t then CSenderCancel fileId (js "cancelled") true
                    else CReceiverCancel fileId (js "cancelled")) KFileCancelled s
  end.

(** ** Voice *)

Definition startVoice (p : nat) (s : Session) : Session :=
  match secure s with
  | None => ret p (set_notice (js "Encryption is not ready.") s)
  | Some _ =>
      if negb (bool_decide (voice (state (view s)) = Voice.idle)) then ret p s
      else
        let s := clearVoiceQueues s in
        let s := patch_view (fun v => v <| voice := Voice.starting |> <| audioPlaybackBlocked := false |>
                                        <| notice := Some (js "Starting voice" ++ ellipsis) |>) s in
        await_call p CVoiceStart KVoiceStarted (updateFilePauseForVoice s)
  end.

Definition voice_started (a : Answers) (p : nat) (s : Session) : Session :=
  let s := patch_view (fun v => v <| voice := Voice.active |> <| muted := false |>
                                  <| audioPlaybackBlocked := false |>
                                  <| notice := Some (js "Voice active. Files are paused.") |>) s in
  let s := system a (js "Voice started.") sev_info s in
  let message := voice_start (js "voice") (an_sampleRate a) (frameMs (voicePolicy (profile s)))
                   (Some (voice_mode (voicePolicy (profile s)))) in
  await_async p (sendApp (Core message) Lane.control None a) KVoiceAnnounced s.

(** The [catch] of [startVoice]. *)
Definition voice_failed (reason : jstr) (a : Answers) (p : nat) (s : Session) : Session :=
  let s := effect VoiceStop (clearVoiceQueues s) in
  let s := patch_view (fun v => v <| voice := Voice.failed |> <| notice := Some reason |>) s in
  let s := system a (js "Voice unavailable: " ++ reason) sev_error (updateFilePauseForVoice s) in
  ret p (s <| failTimers := S (failTimers s) |>).

Definition fail_timer_fired (s : Session) : Session :=
  let s := s <| failTimers := pred (failTimers s) |> in
  if bool_decide (voice (state (view s)) = Voice.failed)
  then patch_view (fun v => v <| voice := Voice.idle |>) s else s.

Definition stopVoice (a : Answers) (p : nat) (s : Session) : Session :=
  if bool_decide (voice (state (view s)) = Voice.idle) then ret p s
  else
    let s := effect VoiceStop (clearVoiceQueues s) in
    await_async p (sendApp (Core (voice_stop (js "voice"))) Lane.control None a) KVoiceStopped s.

Definition voice_stopped (a : Answers) (p : nat) (s : Session) : Session :=
  let s := patch_view (fun v => v <| voice := Voice.idle |> <| muted := false |>
                                  <| audioPlaybackBlocked := false |>
                                  <| notice := Some (js "Voice ended.") |>) s in
  ret p (system a (js "Voice ended.") sev_info (updateFilePauseForVoice s)).

Definition toggleMute (s : Session) : Session :=
  let v := voice (state (view s)) in
  if negb (bool_decide (v = Voice.active)) && negb (bool_decide (v = Voice.muted)) then s
  else
    let m := negb (muted (state (view s))) in
    let s := effect (VoiceSetMuted m) s in
    let s := if m then clearOutboundVoiceQueue s else s in
    patch_view (fun v => v <| muted := m |> <| voice := if m then Voice.muted else Voice.active |>) s.

Definition playback_enabled (enabled : bool) (p : nat) (s : Session) : Session :=
  ret p (patch_view (fun v =>
    v <| audioPlaybackBlocked := negb enabled |>
      <| notice := Some (if enabled then js "Audio playback enabled."
                         else js "Audio playback is still blocked by this browser.") |>) s).

(** ** Outbound voice *)

Definition voice_message (f : VoiceFrame) : AppMessage :=
  Core (voice_frame (vf_streamId f) (vf_seq f) (vf_sentAt f) (vf_sampleRate f) (vf_frameMs f) (vf_pcm16 f)).

Definition voice_flows (s : Session) : bool :=
  negb (bool_decide (voice (state (view s)) = Voice.idle)) && negb (muted (state (view s))).

(** One turn of the [while] loop of [pumpOutboundVoice]: [true] when it
    waits for [sendRawApp], [false] when the loop is left. *)
Definition pump_turn (epoch : Z) (a : Answers) (p : nat) (s : Session) : Session * bool :=
  if (epoch =? voiceQueueEpoch s) && bool_decide (is_Some (secure s)) && voice_flows s then
    let '(q, value, dropped) := Fresh.shiftFresh (an_now a) (outboundVoice s) in
    let s := record_drop before_encrypt dropped (s <| outboundVoice := q |>) in
    match value with
    | None => (s, false)
    | Some frame =>
        if negb (an_canSendVoice a) then
          let '(q, n) := Fresh.clear (outboundVoice s) in
          (effect (TRecordVoiceDrop before_encrypt (1 + n)) (s <| outboundVoice := q |>), false)
        else (await_async p (sendRawApp (voice_message frame) Lane.voice a) (KPump epoch) s, true)
    end
  else (s, false).

(** The pump started by the [finally] of another one.  It does not start a
    third: its loop ends at once only when no frame is left, or without a
    channel, and then there is none either ([no_channel_no_frames]). *)
Definition pump_again (a : Answers) (p : nat) (s : Session) : Session :=
  match pump_turn (voiceQueueEpoch s) a p (s <| outboundVoicePumping := true |>) with
  | (s, true) => s
  | (s, false) => ret p (s <| outboundVoicePumping := false |>)
  end.

Definition pump_finally (epoch : Z) (a : Answers) (p : nat) (s : Session) : Session :=
  let s := s <| outboundVoicePumping := false |> in
  let s :=
    if (epoch =? voiceQueueEpoch s) && (0 <? zlength (Fresh.items (outboundVoice s))) && voice_flows s
    then start_async (pump_again a) s else s in
  ret p s.

Definition pump_resume (epoch : Z) (a : Answers) (p : nat) (s : Session) : Session :=
  match pump_turn epoch a p s with
  | (s, true) => s
  | (s, false) => pump_finally epoch a p s
  end.

Definition pumpOutboundVoice (a : Answers) (p : nat) (s : Session) : Session :=
  if outboundVoicePumping s then ret p s
  else pump_resume (voiceQueueEpoch s) a p (s <| outboundVoicePumping := true |>).

Definition queueOutboundVoice (frame : VoiceFrame) (a : Answers) (s : Session) : Session :=
  if negb (bool_decide (is_Some (secure s))) || negb (voice_flows s) then s
  else
    let '(q, dropped) := Fresh.push frame (an_now a) (outboundVoice s) in
    let s := record_drop before_encrypt dropped (s <| outboundVoice := q |>) in
    let s := effect (TRecordVoiceQueueSize (zlength (Fresh.items (outboundVoice s)))) s in
    start_async (pumpOutboundVoice a) s.

(** ** Inbound tasks *)

Definition enqueueInbound (t : InboundTask) (s : Session) : Session :=
  s <| inboundSerial := inboundSerial s ++ [t] |>.

Definition scheduleInboundVoice (s : Session) : Session :=
  if inboundVoiceScheduled s then s
  else enqueueInbound IVoice (s <| inboundVoiceScheduled := true |>).

Definition queueInboundVoice (env : Envelope) (epoch : Z) (a : Answers) (s : Session) : Session :=
  if negb (epoch =? secureEpoch s) || negb (bool_decide (is_Some (secure s)))
  then effect (TRecordVoiceDrop before_decrypt 1) s
  else
    let '(q, dropped) := Fresh.push env (an_now a) (inboundVoice s) in
    let s := record_drop before_decrypt dropped (s <| inboundVoice := q |>) in
    let s := effect (TRecordVoiceQueueSize (zlength (Fresh.items (inboundVoice s)))) s in
    scheduleInboundVoice s.

Definition routeEnvelope (env : Envelope) (a : Answers) (s : Session) : Session :=
  if (env_outerType env =? OuterType.DATA) && (env_streamId env =? 4)
  then queueInboundVoice env (secureEpoch s) a s
  else enqueueInbound (IEnvelope env (secureEpoch s)) s.

(** [handleHandshake] up to its first await.  The [finally] of its [try]
    clears [establishing]. *)
Definition end_establishing (s : Session) : Session := s <| establishing := false |>.

Definition handleHandshake (payload : bytes) (p : nat) (s : Session) : Session :=
  match s_localPublicKey s with
  | None => ret p s
  | Some key =>
      match decodeHandshake payload with
      | Throw e => throw p e s
      | Ok hs =>
          match base64UrlToBytes (hs_publicKey hs) with
          | Throw e => throw p e s
          | Ok peerKey =>
              if jstr_eqb (bytesToBase64Url peerKey) (bytesToBase64Url (key_bytes key)) then ret p s
              else
                match secure s with
                | Some _ =>
                    if match s_peerPublicKey s with
                       | Some k => jstr_eqb (bytesToBase64Url k) (bytesToBase64Url peerKey)
                       | None => false
                       end
                    then ret p s
                    else ret p (patch_view (fun v =>
                      v <| security := Security.verification_failed |>
                        <| notice := Some (js "Peer identity changed. Leave this room.") |>) s)
                | None =>
                    if establishing s then ret p s
                    else
                      let s := s <| establishing := true |> in
                      if negb (replyHandshakeSent s)
                      then await_async p sendReplyHandshake (KReplySent hs peerKey) s
                      else await_call p (CProfileHash (profile s)) (KPeerHash hs peerKey) s
                end
          end
      end
  end.

Definition reply_sent (hs : HandshakeMessage) (peerKey : bytes) (p : nat) (s : Session) : Session :=
  await_call p (CProfileHash (profile s)) (KPeerHash hs peerKey) s.

Definition peer_compatible (p : TransportProfile) (expected : jstr) (hs : HandshakeMessage) : bool :=
  jstr_eqb (hs_appVersion hs) APP_VERSION && bool_decide (hs_profileId hs = profile_id p) &&
  jstr_eqb (hs_profileHash hs) expected &&
  forallb (fun flag => existsb (jstr_eqb flag) (hs_featureFlags hs)) FEATURE_FLAGS.

Definition incompatible_peer : jstr :=
  js "This peer is using an incompatible OnlyTwo version. Refresh both browsers.".

Definition peer_hash (hs : HandshakeMessage) (peerKey : bytes) (expected : jstr) (a : Answers) (p : nat)
    (s : Session) : Session :=
  if negb (peer_compatible (profile s) expected hs) then
    let s := patch_view (fun v => v <| security := Security.verification_failed |>
                                    <| notice := Some incompatible_peer |>) s in
    ret p (end_establishing (system a incompatible_peer sev_error s))
  else runCrypto p (TaskEstablish peerKey expected) (KEstablished hs peerKey) s.

Definition phrase_input (key peerKey : bytes) (hs : HandshakeMessage) (s : Session) : PhraseInput := {|
  localPublicKey := key; peerPublicKey := peerKey; in_profile := profile s;
  sessionCode := roomCode (state (view s)); peerAppVersion := hs_appVersion hs;
  peerFeatureFlags := hs_featureFlags hs;
|}.

(** After [establishSession]: the channel is created here. *)
Definition established (hs : HandshakeMessage) (peerKey : bytes) (p : nat) (s : Session) : Session :=
  let s := s <| secure := Some (nextChannel s) |> <| nextChannel := S (nextChannel s) |>
             <| s_peerPublicKey := Some peerKey |> in
  match s_localPublicKey s with
  | Some key => await_call p (CPhrase (phrase_input (key_bytes key) peerKey hs s)) KPhrase s
  | None =>
      let '(s, q) := new_promise s in
      await p q KPhrase (throw q (js "Cannot read properties of null") s)
  end.

Definition active_view (i : TransportProfileId) (phrase : jstr) (v : SessionViewState) : SessionViewState :=
  v <| phase := Phase.active |> <| vs_profileId := i |> <| security := Security.encrypted_unverified |>
    <| safetyPhrase := Some phrase |> <| notice := Some (js "Encrypted. Verify the phrase.") |>
    <| invalidPackets := 0 |>.

Definition phrase_ready (phrase : jstr) (a : Answers) (p : nat) (s : Session) : Session :=
  let s := patch_view (active_view (profile_id (profile s)) phrase) s in
  ret p (end_establishing (system a (js "Secure session ready. Verify the safety phrase.") sev_info s)).

(** ** Messages *)

Definition blocked_voice : jstr := js "Incoming voice is blocked. Tap Enable audio.".

Definition handleCoreMessage (message : CoreAppMessage) (a : Answers) (p : nat) (s : Session) : Session :=
  match message with
  | session_verified _ =>
      ret p (if bool_decide (security (state (view s)) = Security.verified) then s
             else system a (js "Peer marked the secure session as verified.") sev_info
                    (set_notice (js "Peer marked this chat verified.") s))
  | text_message messageId body createdAt =>
      let item := {| it_id := messageId; it_kind := item_text; it_from := from_peer; it_text := body;
                     it_at := createdAt; it_status := Some item_sent; it_severity := None;
                     it_fileId := None |} in
      ret p (on_view (addTranscript item) s)
  | file_offer fileId _ _ _ _ _ _ =>
      ret p (on_view (ensureTransferOrder fileId) (effect (ReceiverOffer message) s))
  | file_accept fileId => await_call p (CSenderAccept fileId) KReturn s
  | file_reject fileId reason => await_call p (CSenderCancel fileId reason false) KFileRejected s
  | file_chunk _ _ _ _ => await_call p (CReceiverChunk message) KReturn s
  | file_ack fileId index => ret p (effect (SenderAck fileId index) s)
  | file_nack fileId index reason => ret p (effect (SenderNack fileId index reason) s)
  | file_pause fileId reason => ret p (effect (SenderPause fileId reason) s)
  | file_resume fileId => ret p (effect (SenderResume fileId) s)
  | file_cancel fileId reason =>
      await_call p (CSenderCancel fileId reason false) (KSenderCancelled fileId reason) s
  | file_complete _ _ => ret p (effect (ReceiverCompleteNotice message) s)
  | voice_start _ _ _ _ =>
      match validateRemoteVoiceStart (profile s) message with
      | Throw e => throw p e s
      | Ok _ =>
          let s := set_notice (js "Peer started voice.") (set_remoteVoice true s) in
          ret p (updateFilePauseForVoice (system a (js "Peer started voice.") sev_info s))
      end
  | voice_frame _ _ _ _ _ _ =>
      if negb (remoteVoiceActive (view s)) then throw p (js "Voice frame received before voice start") s
      else await_call p (CVoicePlay message) KPlayed s
  | voice_stop streamId =>
      if negb (jstr_eqb streamId (js "voice")) then throw p (js "Invalid voice stream metadata") s
      else
        let s := set_remoteVoice false s in
        let s := s <| inboundVoice := (Fresh.clear (inboundVoice s)).1 |> in
        let s := effect VoiceStopPlayback s in
        let s := patch_view (fun v => v <| audioPlaybackBlocked := false |>
                                        <| notice := Some (js "Peer ended voice.") |>) s in
        ret p (system a (js "Peer ended voice.") sev_info (updateFilePauseForVoice s))
  end.

Definition handleAppMessage (message : AppMessage) (a : Answers) (p : nat) (s : Session) : Session :=
  match message with
  | Core m => handleCoreMessage m a p s
  | _ => await_call p (CReliableReceive message) KReceived s
  end.

Definition received (body : option CoreAppMessage) (a : Answers) (p : nat) (s : Session) : Session :=
  match body with
  | Some m => await_async p (handleAppMessage (Core m) a) KReturn s
  | None => ret p s
  end.

Definition played (playing : bool) (a : Answers) (p : nat) (s : Session) : Session :=
  ret p (if negb playing && negb (audioPlaybackBlocked (state (view s))) then
           system a blocked_voice sev_error
             (patch_view (fun v => v <| audioPlaybackBlocked := true |> <| notice := Some blocked_voice |>) s)
         else s).

(** The [catch] of [onEnvelope]. *)
Definition packet_dropped (p : nat) (s : Session) : Session :=
  let n := invalidPackets (state (view s)) + 1 in
  let s := on_view (with_state (fun v => v <| invalidPackets := n |>)) s in
  ret p (if (n =? 3) || (n mod 20 =? 0) then set_notice (js "Network unstable. Some packets were dropped.") s
         else on_view emit s).

Definition onEnvelope (env : Envelope) (epoch : Z) (p : nat) (s : Session) : Session :=
  if negb (epoch =? secureEpoch s) then ret p s
  else if env_outerType env =? OuterType.HANDSHAKE then
    if negb (env_streamId env =? 0) then packet_dropped p s
    else await_async p (handleHandshake (env_payload env)) KEnvelopeHandled s
  else
    match secure s with
    | None => ret p s
    | Some channel => runCrypto p (TaskDecrypt channel env) (KDecrypted epoch channel env) s
    end.

Definition decrypted (epoch : Z) (channel : nat) (env : Envelope) (message : AppMessage) (a : Answers) (p : nat)
    (s : Session) : Session :=
  if negb (epoch =? secureEpoch s) || negb (is_current channel s) then ret p s
  else
    match validateInboundStream message (env_streamId env) with
    | Throw _ => packet_dropped p s
    | Ok _ =>
        await_async p (handleAppMessage message a) KEnvelopeHandled
          (effect (EDispatch channel (secure s) message) s)
    end.

(** [processOneInboundVoice]. *)
Definition inbound_voice_finally (p : nat) (o : Outcome) (s : Session) : Session :=
  let s := s <| inboundVoiceScheduled := false |> in
  let s := if 0 <? zlength (Fresh.items (inboundVoice s)) then scheduleInboundVoice s else s in
  settle p o s.

Definition processOneInboundVoice (a : Answers) (p : nat) (s : Session) : Session :=
  let '(q, value, dropped) := Fresh.shiftFresh (an_now a) (inboundVoice s) in
  let s := record_drop before_decrypt dropped (s <| inboundVoice := q |>) in
  match value with
  | Some env => await_async p (onEnvelope env (secureEpoch s)) KInboundVoice s
  | None => inbound_voice_finally p (Fulfilled VUnit) s
  end.

(** ** Connection and relay events *)

Definition reconnecting_notice : jstr := js "Connection interrupted. Reconnecting securely" ++ ellipsis.
Definition establishing_notice : jstr := js "Establishing a fresh secure session" ++ ellipsis.
Definition waiting_notice : jstr := js "Peer disconnected. Waiting for rejoin" ++ ellipsis.
Definition rejoined_notice : jstr := js "Peer rejoined. Establishing a new secure session" ++ ellipsis.

(** [onConnectionStatus] after the preparation. *)
Definition connected_prepared (p : nat) (s : Session) : Session :=
  if bool_decide (is_Some (s_localPublicKey s)) && negb (bool_decide (is_Some (secure s))) &&
     negb (initialHandshakeSent s)
  then await_async p sendInitialHandshake KConnectedSent s
  else ret p (updateFilePauseForVoice s).

Definition onConnectionStatus (status : ConnectionStatus) (a : Answers) (p : nat) (s : Session) : Session :=
  let s := patch_view (fun v => v <| connection := status |>) s in
  match status with
  | Status.reconnecting => await_async p (prepareFreshCryptoEpoch reconnecting_notice a) KReturn s
  | Status.connected =>
      match s_localPublicKey s with
      | None => await_async p (prepareFreshCryptoEpoch establishing_notice a) KConnectedPrepared s
      | Some _ => connected_prepared p s
      end
  | Status.failed =>
      let s := patch_view (fun v => v <| phase := Phase.failed |> <| notice := Some (js "Connection lost.") |>) s in
      ret p (system a (js "Connection lost.") sev_error s)
  | _ => ret p s
  end.

Definition peer_disconnected (a : Answers) (p : nat) (s : Session) : Session :=
  let s := patch_view (fun v => v <| phase := Phase.waiting |> <| notice := Some waiting_notice |>) s in
  ret p (system a (js "Peer disconnected. Waiting for rejoin.") sev_info s).

Definition peer_rejoined (a : Answers) (p : nat) (s : Session) : Session :=
  await_async p sendInitialHandshake KReturn
    (system a (js "Peer rejoined. New secure session started.") sev_info s).

Definition onRelayEvent (event : RelayEvent) (a : Answers) (p : nat) (s : Session) : Session :=
  match event with
  | RelayControl.peer_present =>
      if bool_decide (is_Some (secure s)) || bool_decide (is_Some (s_peerPublicKey s)) ||
         negb (bool_decide (is_Some (s_localPublicKey s)))
      then await_async p (prepareFreshCryptoEpoch establishing_notice a) KPresentPrepared s
      else await_async p sendInitialHandshake KReturn s
  | RelayControl.peer_disconnected =>
      await_async p (prepareFreshCryptoEpoch waiting_notice a) KDisconnectedPrepared s
  | RelayControl.peer_rejoined =>
      await_async p (prepareFreshCryptoEpoch rejoined_notice a) KRejoinedPrepared s
  | RelayControl.session_ended => ret p (disconnect false true (js "Chat ended for both.") s)
  end.

(** ** Continuations

    [q] is the promise that was awaited.  A value of the wrong kind cannot
    occur ([fits]); it is treated like [undefined]. *)

(** Without [try] a rejection ends the method. *)
Definition or_throw (o : Outcome) (p : nat) (k : Value -> Session -> Session) (s : Session) : Session :=
  match o with Fulfilled v => k v s | Rejected e => throw p e s end.

(** Inside the [try] of [handleHandshake]. *)
Definition or_end_establishing (o : Outcome) (p : nat) (k : Value -> Session -> Session) (s : Session)
  : Session :=
  match o with Fulfilled v => k v s | Rejected e => throw p e (end_establishing s) end.

Definition bool_of (v : Value) : bool := match v with VBool b => b | _ => false end.
Definition text_of (v : Value) : jstr := match v with VText t => t | _ => [] end.
Definition key_of (q : nat) (v : Value) : KeyObject :=
  {| key_id := q; key_bytes := match v with VKey k => k | _ => [] end |}.

Definition resume (p q : nat) (k : Frame) (o : Outcome) (a : Answers) (s : Session) : Session :=
  match k with
  | KReturn => settle p o s
  | KRoom phase0 =>
      match o with
      | Fulfilled (VRoom code i) => await_async p (start code phase0 i) KStarted s
      | Fulfilled _ => startup_failed (js "Cannot read properties of undefined") p s
      | Rejected e => startup_failed e p s
      end
  | KStarted =>
      match o with
      | Fulfilled _ => ret p (s <| startupInFlight := false |>)
      | Rejected e => startup_failed e p s
      end
  | KStartConfigured lifecycle code => or_throw o p (fun _ => start_configured lifecycle code p) s
  | KStartIdentity lifecycle code => or_throw o p (fun v => start_identity lifecycle code (key_of q v) p) s
  | KStartConnected lifecycle => or_throw o p (fun _ => start_connected lifecycle p) s
  | KHandshakeHash initial key lifecycle epoch pr =>
      or_throw o p (fun v => sendHandshake_resume initial key lifecycle epoch pr (text_of v) p a) s
  | KPrepared w => prepared w p o s
  | KWorkReset lifecycle => work_reset lifecycle p s
  | KWorkConfigured lifecycle =>
      or_throw o p (fun _ => await_call p CGenerateIdentity (KWorkIdentity lifecycle)) s
  | KWorkIdentity lifecycle => or_throw o p (fun v => work_identity lifecycle (key_of q v) a p) s
  | KConnectedPrepared => or_throw o p (fun _ => connected_prepared p) s
  | KConnectedSent => or_throw o p (fun _ s => ret p (updateFilePauseForVoice s)) s
  | KPresentPrepared => or_throw o p (fun _ => await_async p sendInitialHandshake KReturn) s
  | KDisconnectedPrepared => or_throw o p (fun _ => peer_disconnected a p) s
  | KRejoinedPrepared => or_throw o p (fun _ => peer_rejoined a p) s
  | KEnvelopeHandled => match o with Fulfilled _ => ret p s | Rejected _ => packet_dropped p s end
  | KDecrypted epoch channel env =>
      match o with
      | Fulfilled (VMessage m) => decrypted epoch channel env m a p s
      | Fulfilled _ => ret p s
      | Rejected _ => packet_dropped p s
      end
  | KReplySent hs peerKey => or_end_establishing o p (fun _ => reply_sent hs peerKey p) s
  | KPeerHash hs peerKey => or_end_establishing o p (fun v => peer_hash hs peerKey (text_of v) a p) s
  | KEstablished hs peerKey => or_end_establishing o p (fun _ => established hs peerKey p) s
  | KPhrase => or_end_establishing o p (fun v => phrase_ready (text_of v) a p) s
  | KCryptoTurn task => run_task task p s
  | KReconfigured peerKey hash => or_throw o p (fun _ => await_call p (CEstablishSession peerKey hash) KReturn) s
  | KReceived =>
      or_throw o p (fun v => received (match v with VBody b => b | _ => None end) a p) s
  | KFileRejected => or_throw o p (fun _ s => ret p (on_view startNextQueuedFileIfAllowed s)) s
  | KSenderCancelled fileId reason =>
      or_throw o p (fun _ => await_call p (CReceiverPeerCancel fileId reason) KReceiverCancelled) s
  | KReceiverCancelled => or_throw o p (fun _ s => ret p (on_view startNextQueuedFileIfAllowed s)) s
  | KPlayed => or_throw o p (fun v => played (bool_of v) a p) s
  | KInboundVoice => inbound_voice_finally p o s
  | KPump epoch => pump_resume epoch a p s
  | KEncrypted epoch channel => encrypted epoch channel o a p s
  | KTextSent messageId => or_throw o p (fun v => text_sent messageId (bool_of v) p) s
  | KOffered queued voiceActive =>
      or_throw o p (fun v => file_offered queued voiceActive (text_of v) a p) s
  | KFileCancelled => or_throw o p (fun _ s => ret p (on_view startNextQueuedFileIfAllowed s)) s
  | KVoiceStarted =>
      match o with Fulfilled _ => voice_started a p s | Rejected e => voice_failed e a p s end
  | KVoiceAnnounced =>
      match o with Fulfilled _ => ret p s | Rejected e => voice_failed e a p s end
  | KVoiceStopped => or_throw o p (fun _ => voice_stopped a p) s
  | KPlaybackEnabled => or_throw o p (fun v => playback_enabled (bool_of v) p) s
  end.

(** ** Events *)

Inductive Event :=
(* calls of the user interface *)
| UCreateRoom | UJoinRoom (code : jstr) | USetProfile (i : TransportProfileId)
| USendText (body : jstr) | UMarkVerified (matches : bool)
| UOfferFile (name : jstr) (size : Z) | UAcceptFile (fileId : jstr) | URejectFile (fileId : jstr)
| UCancelFile (fileId : jstr) | URemoveFile (fileId : jstr)
| UStartVoice | UStopVoice | UToggleMute | UEnableAudio
| UEndChat | UDisconnect (silent forgetSlot : bool) (text : jstr)
(* callbacks of the components *)
| OnStatus (status : ConnectionStatus) | OnRelay (event : RelayEvent) | OnEnvelope (env : Envelope)
| OnSenderUpdate (snapshot : Sender.SenderSnapshot) | OnReceiverUpdate (snapshot : Receiver.ReceiverSnapshot)
| OnComponentSend (message : AppMessage) (lane : LaneName)
| OnReliableSend (message : AppMessage) (lane : LaneName)
| OnDelivered (trackingId : option jstr) | OnFailed (trackingId : option jstr) (reason : jstr)
| OnVoiceFrame (frame : VoiceFrame) | OnVoiceDrop (reason : VoiceDropMetric)
(* promises and timers *)
| Settle (q : nat) (o : Outcome) | Resume (i : nat) | NextInbound
| EndTimer | FailTimer.

(** What a call can deliver. *)
Definition fits (c : Call) (v : Value) : bool :=
  match c, v with
  | CCreateRoom _, VRoom _ _ | CLookupRoom _, VRoom _ _ => true
  | CGenerateIdentity, VKey _ => true
  | CEncrypt _ _ _, VEnvelope _ => true
  | CDecrypt _ _, VMessage _ => true
  | CProfileHash _, VText _ | CPhrase _, VText _ | CSenderOffer _ _ _, VText _ => true
  | CReliableSend _ _ _, VBool _ | CVoicePlay _, VBool _ | CVoiceEnable, VBool _ => true
  | CReliableReceive _, VBody _ => true
  | (CCreateRoom _ | CLookupRoom _ | CGenerateIdentity | CEncrypt _ _ _ | CDecrypt _ _ | CProfileHash _
    | CPhrase _ | CSenderOffer _ _ _ | CReliableSend _ _ _ | CVoicePlay _ | CVoiceEnable
    | CReliableReceive _), _ => false
  | _, VUnit => true
  | _, _ => false
  end.

(** A promise is settled once. *)
Definition settle_call (q : nat) (o : Outcome) (s : Session) : option Session :=
  match map_get q (calls s), map_get q (promises s) with
  | Some c, None =>
      if match o with Fulfilled v => fits c v | Rejected _ => true end then Some (settle q o s) else None
  | _, _ => None
  end.

Definition resume_task (i : nat) (a : Answers) (s : Session) : option Session :=
  match tasks s !! i with
  | Some (p, q, k) =>
      match map_get q (promises s) with
      | Some o => Some (resume p q k o a (s <| tasks := delete i (tasks s) |>))
      | None => None
      end
  | None => None
  end.

(** One task of the inbound queue. *)
Definition run_inbound (t : InboundTask) (a : Answers) (p : nat) (s : Session) : Session :=
  match t with
  | IStatus lifecycle status =>
      if lifecycle =? lifecycleEpoch s then onConnectionStatus status a p s else ret p s
  | IRelay lifecycle event =>
      if lifecycle =? lifecycleEpoch s then onRelayEvent event a p s else ret p s
  | IEnvelope env epoch => onEnvelope env epoch p s
  | IVoice => processOneInboundVoice a p s
  end.

(** The next task starts when the one before it has settled. *)
Definition next_inbound (a : Answers) (s : Session) : option Session :=
  let idle := match inboundRunning s with
              | None => true
              | Some q => bool_decide (is_Some (map_get q (promises s)))
              end in
  match inboundSerial s with
  | t :: rest =>
      if idle then
        let '(s, p) := new_promise (s <| inboundSerial := rest |>) in
        Some (run_inbound t a p (s <| inboundRunning := Some p |>))
      else None
  | [] => None
  end.

Definition step (e : Event) (a : Answers) (s : Session) : option Session :=
  match e with
  | UCreateRoom => Some (start_async createRoom s)
  | UJoinRoom code => Some (start_async (joinRoom code) s)
  | USetProfile i => Some (setProfile i s)
  | USendText body => Some (start_async (sendText body a) s)
  | UMarkVerified matches => Some (start_async (markVerified matches a) s)
  | UOfferFile name size => Some (start_async (offerFile name size) s)
  | UAcceptFile fileId => Some (start_async (fun p => await_call p (CReceiverAccept fileId) KReturn) s)
  | URejectFile fileId => Some (start_async (fun p => await_call p (CReceiverReject fileId) KReturn) s)
  | UCancelFile fileId => Some (start_async (cancelFile fileId) s)
  | URemoveFile fileId => Some (on_view (removeFile fileId) s)
  | UStartVoice => Some (start_async startVoice s)
  | UStopVoice => Some (start_async (stopVoice a) s)
  | UToggleMute => Some (toggleMute s)
  | UEnableAudio => Some (start_async (fun p => await_call p CVoiceEnable KPlaybackEnabled) s)
  | UEndChat => Some (endChatForBoth a s)
  | UDisconnect silent forgetSlot text => Some (disconnect silent forgetSlot text s)
  | OnStatus status => Some (enqueueInbound (IStatus (lifecycleEpoch s) status) s)
  | OnRelay event => Some (enqueueInbound (IRelay (lifecycleEpoch s) event) s)
  | OnEnvelope env => Some (routeEnvelope env a s)
  | OnSenderUpdate snapshot => Some (on_view (updateSender (an_id a) (an_now a) snapshot) s)
  | OnReceiverUpdate snapshot => Some (on_view (updateReceiver (an_id a) (an_now a) snapshot) s)
  | OnComponentSend message lane => Some (start_async (sendApp message lane None a) s)
  | OnReliableSend message lane => Some (start_async (sendRawApp message lane a) s)
  | OnDelivered trackingId => Some (onDelivered trackingId s)
  | OnFailed trackingId reason => Some (onFailed a trackingId reason s)
  | OnVoiceFrame frame => Some (queueOutboundVoice frame a s)
  | OnVoiceDrop reason => Some (effect (TRecordVoiceDrop reason 1) s)
  | Settle q o => settle_call q o s
  | Resume i => resume_task i a s
  | NextInbound => next_inbound a s
  | EndTimer => if endSessionTimer s then Some (end_timer_fired s) else None
  | FailTimer => if (0 <? failTimers s)%nat then Some (fail_timer_fired s) else None
  end.

Fixpoint run (es : list (Event * Answers)) (s : Session) : option Session :=
  match es with
  | [] => Some s
  | (e, a) :: es' => match step e a s with Some s' => run es' s' | None => None end
  end.
