(* ===== verification/SessionProps.v ===== *)
(** * Properties of the session controller

    One invariant of all runs carries the handshake policy, the separation of
    sessions and the voice queue; what an operation leaves alone is stated by
    [inert], which the hints of the database [session] establish. *)
From stdpp Require Import sorting.
From S2P Require Import Prelude JsMap Bytes Profiles Envelope RelayControl Scheduler Messages Json.
From S2P Require Import Negotiation Reliable FileProtocol FileReceiver FileSender Audio Rooms Connection.
From S2P Require Import SessionView Voice Session.

(** ** What is counted *)

Definition is_hash_task (initial : bool) (epoch : Z) (t : nat * nat * Frame) : bool :=
  match t.2 with
  | KHandshakeHash b _ _ e _ => eqb b initial && (e =? epoch)
  | _ => false
  end.

Definition count {A} (f : A -> bool) (l : list A) : nat := length (filter (fun x => f x = true) l).

(** Handshakes under way and handed over, by kind and epoch. *)
Definition hs_pending (initial : bool) (epoch : Z) (s : Session) : nat :=
  count (is_hash_task initial epoch) (tasks s).

Definition is_handshake (initial : bool) (epoch : Z) (e : Effect) : bool :=
  match e with TSendHandshake b ep _ => eqb b initial && (ep =? epoch) | _ => false end.

Definition hs_sent (initial : bool) (epoch : Z) (s : Session) : nat :=
  count (is_handshake initial epoch) (effects s).

Definition hs_flag (initial : bool) (s : Session) : nat :=
  if (if initial then initialHandshakeSent s else replyHandshakeSent s) then 1 else 0.

(** The channel of a packet sent, or of a message dispatched. *)
Definition channel_of (e : Effect) : option nat :=
  match e with TSendData ch _ _ _ | EDispatch ch _ _ => Some ch | _ => None end.

Definition channels (l : list Effect) : list nat := omap channel_of l.

Record session_ok (s : Session) : Prop := {
  ok_future : forall b e, secureEpoch s < e -> hs_pending b e s = 0%nat /\ hs_sent b e s = 0%nat;
  ok_current : forall b, (hs_pending b (secureEpoch s) s + hs_sent b (secureEpoch s) s <= hs_flag b s)%nat;
  ok_past : forall b e, (hs_sent b e s <= 1)%nat;
  ok_channels : StronglySorted Nat.le (channels (effects s));
  ok_made : Forall (fun ch => ch < nextChannel s)%nat (channels (effects s));
  ok_secure : forall k, secure s = Some k -> (S k = nextChannel s)%nat;
  ok_frames : secure s = None -> Fresh.items (outboundVoice s) = [];
}.

(** ** What most operations leave alone *)

Definition critical (e : Effect) : bool :=
  match e with TSendHandshake _ _ _ | TSendData _ _ _ _ | EDispatch _ _ _ => true | _ => false end.

Definition is_hash (k : Frame) : bool := match k with KHandshakeHash _ _ _ _ _ => true | _ => false end.

Record inert (s s' : Session) : Prop := {
  in_epoch : secureEpoch s' = secureEpoch s;
  in_initial : initialHandshakeSent s' = initialHandshakeSent s;
  in_reply : replyHandshakeSent s' = replyHandshakeSent s;
  in_secure : secure s' = secure s;
  in_next : nextChannel s' = nextChannel s;
  in_tasks : filter (fun t => is_hash t.2 = true) (tasks s') = filter (fun t => is_hash t.2 = true) (tasks s);
  in_effects : filter (fun e => critical e = true) (effects s') = filter (fun e => critical e = true) (effects s);
  in_frames : secure s = None -> Fresh.items (outboundVoice s) = [] -> Fresh.items (outboundVoice s') = [];
}.

Lemma inert_refl s : inert s s.
Proof. done. Qed.

Lemma inert_trans s1 s2 s3 : inert s1 s2 -> inert s2 s3 -> inert s1 s3.
Proof.
  intros [A1 A2 A3 A4 A5 A6 A7 A8] [B1 B2 B3 B4 B5 B6 B7 B8]. split; try congruence.
  intros H1 H2. apply B8; [congruence|]. by apply A8.
Qed.

(** A count depends only on the elements that can be counted. *)
Lemma countb_filter {A} (f g : A -> bool) (l : list A) :
  (forall x, f x = true -> g x = true) -> count f l = count f (filter (fun x => g x = true) l).
Proof.
  intros H. unfold count. f_equal. induction l as [|x l IH]; [done|]. rewrite !filter_cons.
  destruct (f x) eqn:Ef.
  - rewrite (H x Ef). rewrite !decide_True by done. rewrite filter_cons, Ef, decide_True by done. by f_equal.
  - rewrite decide_False by done. destruct (g x); [|by rewrite decide_False].
    rewrite decide_True by done. rewrite filter_cons, Ef, decide_False by done. done.
Qed.

Lemma pending_filter b e s s' :
  filter (fun t => is_hash t.2 = true) (tasks s') = filter (fun t => is_hash t.2 = true) (tasks s) ->
  hs_pending b e s' = hs_pending b e s.
Proof.
  intros H. unfold hs_pending.
  assert (Hc : forall t, is_hash_task b e t = true -> is_hash t.2 = true).
  { intros [[p q] k]. unfold is_hash_task. cbn. by destruct k. }
  by rewrite (countb_filter _ (fun t => is_hash t.2) (tasks s') Hc), H,
    <- (countb_filter _ (fun t => is_hash t.2) (tasks s) Hc).
Qed.

Lemma sent_filter b e l l' :
  filter (fun e => critical e = true) l' = filter (fun e => critical e = true) l ->
  count (is_handshake b e) l' = count (is_handshake b e) l /\ channels l' = channels l.
Proof.
  intros H. split.
  - assert (Hc : forall x, is_handshake b e x = true -> critical x = true) by (intros []; done).
    by rewrite (countb_filter _ critical l' Hc), H, <- (countb_filter _ critical l Hc).
  - assert (Hc : forall l, channels l = channels (filter (fun e => critical e = true) l)).
    { clear. intros l. unfold channels. induction l as [|x l IH]; [done|]. rewrite filter_cons.
      destruct x; cbn [critical]; first [rewrite decide_True by done|rewrite decide_False by done]; cbn;
        rewrite ?IH; done. }
    by rewrite Hc, H, <- Hc.
Qed.

Lemma ok_inert s s' : inert s s' -> session_ok s -> session_ok s'.
Proof.
  intros [E1 E2 E3 E4 E5 E6 E7 E8] [].
  assert (Hp : forall b e, hs_pending b e s' = hs_pending b e s) by (intros; by apply pending_filter).
  assert (Hs : forall b e, hs_sent b e s' = hs_sent b e s) by (intros b e; by apply (sent_filter b e)).
  assert (Hf : forall b, hs_flag b s' = hs_flag b s) by (intros []; unfold hs_flag; by rewrite ?E2, ?E3).
  assert (Hc : channels (effects s') = channels (effects s)) by (by apply (sent_filter true 0)).
  split; intros; rewrite ?Hp, ?Hs, ?Hf, ?Hc, ?E5, ?E1 in *; auto.
  - apply ok_secure0. by rewrite <- E4.
  - rewrite E4 in *. auto.
Qed.

(** *** Hints *)

Create HintDb session discriminated.
#[export] Hint Constants Opaque : session.
#[export] Hint Extern 0 (inert ?x ?y) => constr_eq x y; apply inert_refl : session.
#[export] Hint Extern 1 (critical _ = false) => reflexivity : session.
#[export] Hint Extern 1 (is_hash _ = false) => reflexivity : session.

Lemma inert_effect e s x : critical e = false -> inert s x -> inert s (effect e x).
Proof.
  intros He H. eapply inert_trans; [exact H|]. split; try done. cbn [update effects effect].
  rewrite filter_app, filter_cons, He, decide_False by done. by rewrite app_nil_r.
Qed.

Lemma inert_view f s x : inert s x -> inert s (on_view f x).
Proof. intros H. by eapply inert_trans; [exact H|]. Qed.

Lemma inert_settle p o s x : inert s x -> inert s (settle p o x).
Proof. intros H. by eapply inert_trans; [exact H|]. Qed.

Lemma inert_await p q k s x : is_hash k = false -> inert s x -> inert s (await p q k x).
Proof.
  intros Hk H. eapply inert_trans; [exact H|]. split; try done. cbn [update tasks await].
  rewrite filter_app, filter_cons. cbn [snd]. rewrite Hk, decide_False by done. by rewrite app_nil_r.
Qed.

Lemma inert_call c s x : inert s x -> inert s (call c x).1.
Proof. intros H. by eapply inert_trans; [exact H|]. Qed.

Lemma inert_await_call p c k s x : is_hash k = false -> inert s x -> inert s (await_call p c k x).
Proof.
  intros Hk H. unfold await_call. pose proof (inert_call c s x H) as H1.
  destruct (call c x) as [y q]. cbn [fst] in H1. by apply inert_await.
Qed.

#[export] Hint Resolve inert_effect inert_view inert_settle inert_await inert_call inert_await_call
  : session.

(** An update of a field that does not matter. *)
Ltac irrelevant := intros H; eapply inert_trans; [exact H|]; by split.

Lemma inert_voiceEpoch v s x : inert s x -> inert s (x <| voiceQueueEpoch := v |>).
Proof. irrelevant. Qed.
Lemma inert_inboundVoice v s x : inert s x -> inert s (x <| inboundVoice := v |>).
Proof. irrelevant. Qed.
Lemma inert_inboundScheduled v s x : inert s x -> inert s (x <| inboundVoiceScheduled := v |>).
Proof. irrelevant. Qed.
Lemma inert_pumping v s x : inert s x -> inert s (x <| outboundVoicePumping := v |>).
Proof. irrelevant. Qed.
Lemma inert_profile v s x : inert s x -> inert s (x <| profile := v |>).
Proof. irrelevant. Qed.
Lemma inert_establishing v s x : inert s x -> inert s (x <| establishing := v |>).
Proof. irrelevant. Qed.
Lemma inert_startup v s x : inert s x -> inert s (x <| startupInFlight := v |>).
Proof. irrelevant. Qed.
Lemma inert_endTimer v s x : inert s x -> inert s (x <| endSessionTimer := v |>).
Proof. irrelevant. Qed.
Lemma inert_failTimers v s x : inert s x -> inert s (x <| failTimers := v |>).
Proof. irrelevant. Qed.
Lemma inert_localKey v s x : inert s x -> inert s (x <| s_localPublicKey := v |>).
Proof. irrelevant. Qed.
Lemma inert_preparation v s x : inert s x -> inert s (x <| epochPreparation := v |>).
Proof. irrelevant. Qed.
Lemma inert_nextId v s x : inert s x -> inert s (x <| nextId := v |>).
Proof. irrelevant. Qed.
Lemma inert_serial v s x : inert s x -> inert s (x <| inboundSerial := v |>).
Proof. irrelevant. Qed.
Lemma inert_running v s x : inert s x -> inert s (x <| inboundRunning := v |>).
Proof. irrelevant. Qed.
Lemma inert_outbound q s x :
  (Fresh.items (outboundVoice x) = [] -> Fresh.items q = []) -> inert s x -> inert s (x <| outboundVoice := q |>).
Proof. intros Hq H. eapply inert_trans; [exact H|]. by split; try done; intros _. Qed.

#[export] Hint Resolve inert_voiceEpoch inert_inboundVoice inert_inboundScheduled inert_pumping inert_profile
  inert_establishing inert_startup inert_endTimer inert_failTimers inert_localKey inert_preparation
  inert_nextId inert_serial inert_running inert_outbound : session.

Lemma inert_drop r n s x : inert s x -> inert s (record_drop r n x).
Proof. unfold record_drop. destruct (n =? 0); auto with session. Qed.
#[export] Hint Resolve inert_drop : session.

Lemma inert_crypto v s x : inert s x -> inert s (x <| cryptoSerial := v |>).
Proof. irrelevant. Qed.
#[export] Hint Resolve inert_crypto : session.

Lemma inert_tail s x : inert s x -> inert s (serial_tail x).1.
Proof. intros H. unfold serial_tail. destruct (last (cryptoSerial x)); cbn [new_promise fst]; auto with session. Qed.

Lemma inert_runCrypto p task k s x : is_hash k = false -> inert s x -> inert s (runCrypto p task k x).
Proof.
  intros Hk H. unfold runCrypto. cbn [new_promise].
  pose proof (inert_tail s _ (inert_nextId (S (nextId x)) s x H)) as Ht.
  destruct (serial_tail _) as [y r]. cbn [fst] in Ht. auto 10 with session.
Qed.

Lemma inert_run_task task t s x : inert s x -> inert s (run_task task t x).
Proof. intros H. destruct task; cbn [run_task]; auto with session. Qed.
#[export] Hint Resolve inert_runCrypto inert_run_task : session.

Lemma inert_patch f s x : inert s x -> inert s (patch_view f x).
Proof. apply inert_view. Qed.
Lemma inert_notice t s x : inert s x -> inert s (set_notice t x).
Proof. apply inert_view. Qed.
Lemma inert_system a t sev s x : inert s x -> inert s (system a t sev x).
Proof. apply inert_view. Qed.
Lemma inert_ret p s x : inert s x -> inert s (ret p x).
Proof. apply inert_settle. Qed.
Lemma inert_ret_bool p b s x : inert s x -> inert s (ret_bool p b x).
Proof. apply inert_settle. Qed.
Lemma inert_throw p e s x : inert s x -> inert s (throw p e x).
Proof. apply inert_settle. Qed.
Lemma inert_remoteVoice b s x : inert s x -> inert s (set_remoteVoice b x).
Proof. apply inert_view. Qed.
#[export] Hint Resolve inert_patch inert_notice inert_system inert_ret inert_ret_bool inert_throw
  inert_remoteVoice : session.

Lemma inert_clearOutbound s x : inert s x -> inert s (clearOutboundVoiceQueue x).
Proof. intros H. unfold clearOutboundVoiceQueue. cbn [Fresh.clear]. auto 10 with session. Qed.
#[export] Hint Resolve inert_clearOutbound : session.

Lemma inert_clearVoice s x : inert s x -> inert s (clearVoiceQueues x).
Proof. intros H. unfold clearVoiceQueues. cbn [Fresh.clear]. auto 10 with session. Qed.
#[export] Hint Resolve inert_clearVoice : session.

Lemma inert_filePause s x : inert s x -> inert s (updateFilePauseForVoice x).
Proof. intros H. unfold updateFilePauseForVoice. destruct (_ || _); auto 10 with session. Qed.
#[export] Hint Resolve inert_filePause : session.

Lemma setLimits_nil {T} frames age (q : Fresh.VoiceFreshnessQueue T) :
  Fresh.items q = [] -> Fresh.items (Fresh.setLimits frames age q).1 = [].
Proof. intros H. unfold Fresh.setLimits. by rewrite H. Qed.

Lemma inert_limits s x : inert s x -> inert s (updateVoiceQueueLimits x).
Proof.
  intros H. unfold updateVoiceQueueLimits.
  match goal with |- context [Fresh.setLimits ?f ?a (outboundVoice x)] =>
    pose proof (setLimits_nil f a (outboundVoice x)) as Hq; destruct (Fresh.setLimits f a (outboundVoice x)) end.
  destruct (Fresh.setLimits _ _ (inboundVoice _)). auto 10 with session.
Qed.
#[export] Hint Resolve inert_limits : session.

Lemma inert_applyProfile p s x : inert s x -> inert s (apply_profile p x).
Proof. intros H. unfold apply_profile. auto 10 with session. Qed.
#[export] Hint Resolve inert_applyProfile : session.

Lemma inert_onFailed a id r s x : inert s x -> inert s (onFailed a id r x).
Proof. intros H. unfold onFailed. destruct id; auto 10 with session. Qed.
#[export] Hint Resolve inert_onFailed : session.

(** ** The operations that matter *)

Lemma countb_app {A} (f : A -> bool) l k : count f (l ++ k) = (count f l + count f k)%nat.
Proof. unfold count. by rewrite filter_app, length_app. Qed.

Lemma countb_cons {A} (f : A -> bool) x l : count f (x :: l) = ((if f x then 1 else 0) + count f l)%nat.
Proof.
  unfold count. rewrite filter_cons. destruct (f x); [rewrite decide_True by done|rewrite decide_False by done]; done.
Qed.

Lemma countb_nil {A} (f : A -> bool) : count f [] = 0%nat.
Proof. done. Qed.

Lemma not_hash_task b e p q k : is_hash k = false -> is_hash_task b e (p, q, k) = false.
Proof. by destruct k. Qed.

Lemma channels_app l k : channels (l ++ k) = channels l ++ channels k.
Proof. unfold channels. apply omap_app. Qed.

(** A new epoch, with the flags cleared. *)
Lemma ok_bump s s' :
  secureEpoch s' = secureEpoch s + 1 -> initialHandshakeSent s' = false -> replyHandshakeSent s' = false ->
  secure s' = secure s -> nextChannel s' = nextChannel s -> tasks s' = tasks s -> effects s' = effects s ->
  outboundVoice s' = outboundVoice s -> session_ok s -> session_ok s'.
Proof.
  intros E1 E2 E3 E4 E5 E6 E7 E8 [].
  assert (Hp : forall b e, hs_pending b e s' = hs_pending b e s) by (intros; unfold hs_pending; by rewrite E6).
  assert (Hs : forall b e, hs_sent b e s' = hs_sent b e s) by (intros; unfold hs_sent; by rewrite E7).
  split; rewrite ?E4, ?E5, ?E7, ?E8; try done.
  - intros b e He. rewrite Hp, Hs. apply ok_future0. lia.
  - intros b. rewrite Hp, Hs, E1. destruct (ok_future0 b (secureEpoch s + 1)) as [-> ->]; lia.
  - intros b e. rewrite Hs. apply ok_past0.
Qed.

Definition quiet_voice (s : Session) : Prop := Fresh.items (outboundVoice s) = [].

Lemma clearVoice_quiet x : quiet_voice (clearVoiceQueues x).
Proof.
  unfold quiet_voice, clearVoiceQueues, clearOutboundVoiceQueue, record_drop. cbn [Fresh.clear].
  by repeat case_match.
Qed.

Lemma ok_forget s : session_ok s -> quiet_voice s -> session_ok (forget_keys s).
Proof.
  intros [] Hq. split; try done.
Qed.

Lemma ok_flags s : session_ok s -> initialHandshakeSent s = false -> replyHandshakeSent s = false ->
  session_ok (clear_handshake_flags s).
Proof. intros H E1 E2. apply (ok_inert s); [|done]. by split. Qed.

Lemma ok_reset_transfers s : session_ok s -> session_ok (reset_transfers s) /\ quiet_voice (reset_transfers s).
Proof.
  intros H. split; [|apply clearVoice_quiet]. apply (ok_inert s); [|done].
  unfold reset_transfers. auto 10 with session.
Qed.

Lemma inert_order s x : inert s x -> inert s (clear_order x).
Proof. apply inert_view. Qed.
#[export] Hint Resolve inert_order : session.

Lemma ok_new_lifecycle s : session_ok s -> session_ok (new_lifecycle s).
Proof. by apply ok_bump. Qed.

Lemma ok_drop_session forget s : session_ok s -> quiet_voice s -> session_ok (drop_session forget s).
Proof.
  intros H Hq. unfold drop_session. set (x := (call CCryptoReset _).1).
  assert (Hx : session_ok x /\ quiet_voice x).
  { split; [|done]. apply (ok_inert s); [|done]. unfold x. auto 10 with session. }
  clearbody x. destruct Hx as [Hx Hqx]. pose proof (ok_forget x Hx Hqx) as Hf.
  apply (ok_inert _ _) with (2 := Hf). auto 10 with session.
Qed.

Lemma ok_disconnect silent forget text s : session_ok s -> session_ok (disconnect silent forget text s).
Proof.
  intros H. unfold disconnect. destruct (ok_reset_transfers _ (ok_new_lifecycle s H)) as [H1 Hq].
  pose proof (ok_drop_session forget _ H1 Hq) as H2. destruct silent; [done|].
  apply (ok_inert _ _) with (2 := H2). auto with session.
Qed.

(** A handshake starts: its flag is set with it. *)
Lemma ok_arm b s s' t :
  session_ok s -> hs_flag b s = 0%nat -> hs_flag b s' = 1%nat -> hs_flag (negb b) s' = hs_flag (negb b) s ->
  secureEpoch s' = secureEpoch s -> secure s' = secure s -> nextChannel s' = nextChannel s ->
  outboundVoice s' = outboundVoice s -> effects s' = effects s ->
  tasks s' = tasks s ++ t ->
  (forall b' e, count (is_hash_task b' e) t <= if eqb b' b && (e =? secureEpoch s)%Z then 1 else 0)%nat ->
  session_ok s'.
Proof.
  intros [] Hf Hf' Hn E1 E2 E3 E4 E5 E6 Ht.
  assert (Hp : forall b' e, hs_pending b' e s' = (hs_pending b' e s + count (is_hash_task b' e) t)%nat).
  { intros. unfold hs_pending. by rewrite E6, countb_app. }
  assert (Hs : forall b e, hs_sent b e s' = hs_sent b e s) by (intros; unfold hs_sent; by rewrite E5).
  split; rewrite ?E2, ?E3, ?E4, ?E5; try done.
  - intros b' e He. rewrite Hp, Hs. rewrite E1 in He. destruct (ok_future0 b' e He) as [-> ->].
    specialize (Ht b' e). rewrite (proj2 (Z.eqb_neq e (secureEpoch s))), andb_false_r in Ht by lia. split; lia.
  - intros b'. rewrite Hp, Hs, E1. specialize (Ht b' (secureEpoch s)). rewrite Z.eqb_refl, andb_true_r in Ht.
    specialize (ok_current0 b'). destruct (eqb b' b) eqn:Eb.
    + apply eqb_prop in Eb as ->. lia.
    + assert (b' = negb b) as -> by (destruct b, b'; done). lia.
  - intros b' e. rewrite Hs. apply ok_past0.
Qed.

Lemma ok_handshake b p k s :
  session_ok s -> hs_flag b s = 0%nat -> is_hash k = false ->
  session_ok (await_async p (sendHandshake b) k
    (if b then s <| initialHandshakeSent := true |> else s <| replyHandshakeSent := true |>)).
Proof.
  intros H Hf Hk. unfold await_async, new_promise. cbv beta iota zeta. unfold sendHandshake.
  set (s1 := if b then _ else _).
  assert (Es : s_localPublicKey (s1 <| nextId := S (nextId s1) |>) = s_localPublicKey s) by by destruct b.
  rewrite Es. destruct (s_localPublicKey s) as [key|].
  - unfold await_call, call, new_promise. cbv beta iota zeta.
    eapply (ok_arm b s _ [(_, _, KHandshakeHash b key _ (secureEpoch s) _); (p, _, k)]); try done.
    all: try (by destruct b). 
    + cbn [update tasks await]. unfold s1. destruct b; cbn; rewrite <- app_assoc; reflexivity.
    + intros b' e. rewrite !countb_cons, countb_nil, (not_hash_task _ _ p _ k Hk). unfold is_hash_task. cbn [snd].
      destruct b, b', (Z.eqb_spec (secureEpoch s) e), (Z.eqb_spec e (secureEpoch s)); cbn; lia.
  - apply (ok_arm b s _ [(p, nextId s1, k)]); try done; try (by destruct b).
    + intros b' e. rewrite countb_cons, countb_nil, (not_hash_task _ _ p _ k Hk). lia.
Qed.

(** ** Every method keeps the invariant *)

Ltac inert_from H := solve [apply (ok_inert _ _) with (2 := H); auto 14 with session].

Lemma ok_sendInitial p s : session_ok s -> session_ok (sendInitialHandshake p s).
Proof.
  intros H. unfold sendInitialHandshake. destruct (initialHandshakeSent s) eqn:E; [inert_from H|].
  apply (ok_handshake true); [done| |done]. unfold hs_flag. by rewrite E.
Qed.

Lemma ok_sendReply p s : session_ok s -> session_ok (sendReplyHandshake p s).
Proof.
  intros H. unfold sendReplyHandshake. destruct (replyHandshakeSent s) eqn:E; [inert_from H|].
  apply (ok_handshake false); [done| |done]. unfold hs_flag. by rewrite E.
Qed.

Lemma ok_start_async m s :
  session_ok s -> (forall q x, session_ok x -> session_ok (m q x)) -> session_ok (start_async m s).
Proof.
  intros H Hm. unfold start_async, new_promise. cbv beta iota zeta. apply Hm.
  apply (ok_inert s); [|done]. auto with session.
Qed.

Lemma ok_await_async p m k s :
  session_ok s -> is_hash k = false -> (forall q x, session_ok x -> session_ok (m q x)) ->
  session_ok (await_async p m k s).
Proof.
  intros H Hk Hm. unfold await_async, new_promise. cbv beta iota zeta. set (x := m _ _).
  assert (Hx : session_ok x).
  { apply Hm. apply (ok_inert s); [|done]. auto with session. }
  clearbody x. inert_from Hx.
Qed.

(** A packet or a message of the current channel. *)
Lemma ok_channel_effect e ch s :
  session_ok s -> secure s = Some ch -> channel_of e = Some ch -> session_ok (effect e s).
Proof.
  intros [] Hs He.
  assert (Hh : forall b ep, is_handshake b ep e = false) by (intros; by destruct e).
  assert (Hn : forall b ep, hs_sent b ep (effect e s) = hs_sent b ep s).
  { intros. unfold hs_sent. cbn [update effect effects]. rewrite countb_app, countb_cons, Hh, countb_nil. lia. }
  assert (Hc : channels (effects (effect e s)) = channels (effects s) ++ [ch]).
  { cbn [update effect effects]. rewrite channels_app. unfold channels at 2. cbn. by rewrite He. }
  split; try done.
  - intros b ep Hep. rewrite Hn. by apply ok_future0.
  - intros b. rewrite Hn. apply ok_current0.
  - intros b ep. rewrite Hn. apply ok_past0.
  - rewrite Hc. apply StronglySorted_app_2; [|done|by repeat constructor]. intros x y Hx ->%list_elem_of_singleton.
    eapply Forall_forall in ok_made0; [|exact Hx]. specialize (ok_secure0 _ Hs). lia.
  - rewrite Hc. apply Forall_app. split; [done|]. apply Forall_singleton. cbn [update effect nextChannel].
    specialize (ok_secure0 _ Hs). lia.
Qed.

Lemma ok_encrypted epoch ch o a p s : session_ok s -> session_ok (encrypted epoch ch o a p s).
Proof.
  intros H. unfold encrypted. destruct o as [v|e]; [|inert_from H]. destruct v; try (inert_from H).
  destruct (_ || _) eqn:E; [inert_from H|]. apply orb_false_elim in E as [_ E%negb_false_iff].
  unfold is_current in E. bool_facts.
  pose proof (ok_channel_effect (TSendData ch (secure s) (secureEpoch s) env) ch s H E eq_refl) as Hx.
  inert_from Hx.
Qed.

Lemma ok_established hs peerKey p s : session_ok s -> session_ok (established hs peerKey p s).
Proof.
  intros H. unfold established. set (x := _ <| s_peerPublicKey := _ |>).
  assert (Hx : session_ok x).
  { destruct H. split; try done.
    - eapply Forall_impl; [exact ok_made0|]. cbn. lia.
    - intros k. cbn. intros [= ->]. done. }
  clearbody x. destruct (s_localPublicKey x); [inert_from Hx|].
  unfold new_promise. cbv beta iota zeta. inert_from Hx.
Qed.

Lemma ok_sendRawApp m lane a p s : session_ok s -> session_ok (sendRawApp m lane a p s).
Proof.
  intros H. unfold sendRawApp. destruct (secure s); [|inert_from H]. destruct (_ && _); inert_from H.
Qed.

Lemma ok_sendApp m lane t a p s : session_ok s -> session_ok (sendApp m lane t a p s).
Proof.
  intros H. unfold sendApp. destruct m; try (apply ok_await_async; [done|done|]; intros; by apply ok_sendRawApp).
  destruct (shouldSendReliably _ _); [inert_from H|].
  apply ok_await_async; [done|done|]. intros. by apply ok_sendRawApp.
Qed.

(** An activation of another method, or nothing that matters. *)
Ltac ok_method H :=
  first [inert_from H
        |apply ok_await_async; [first [exact H|inert_from H]|reflexivity|intros; solve [auto with session_ok]]
        |apply ok_start_async; [first [exact H|inert_from H]|intros; solve [auto with session_ok]]].

Create HintDb session_ok.
#[export] Hint Resolve ok_sendInitial ok_sendReply ok_sendRawApp ok_sendApp : session_ok.

Lemma ok_sendText body a p s : session_ok s -> session_ok (sendText body a p s).
Proof.
  intros H. unfold sendText. destruct (negb _); [ok_method H|]. destruct (secure s); [|].
  - destruct (createTextMessage _ _ _); ok_method H.
  - unfold no_encryption. ok_method H.
Qed.

Lemma ok_markVerified matches a p s : session_ok s -> session_ok (markVerified matches a p s).
Proof.
  intros H. unfold markVerified, no_encryption. destruct (secure s); [|ok_method H].
  destruct (negb matches); ok_method H.
Qed.

Lemma ok_offerFile name size p s : session_ok s -> session_ok (offerFile name size p s).
Proof. intros H. unfold offerFile. destruct (secure s); ok_method H. Qed.

Lemma ok_cancelFile fileId p s : session_ok s -> session_ok (cancelFile fileId p s).
Proof. intros H. unfold cancelFile. destruct (find _ _); ok_method H. Qed.

Lemma ok_file_offered q v fileId a p s : session_ok s -> session_ok (file_offered q v fileId a p s).
Proof. intros H. unfold file_offered. destruct q, v; ok_method H. Qed.

Lemma ok_startVoice p s : session_ok s -> session_ok (startVoice p s).
Proof.
  intros H. unfold startVoice. destruct (secure s); [|ok_method H]. destruct (negb _); ok_method H.
Qed.

Lemma ok_voice_started a p s : session_ok s -> session_ok (voice_started a p s).
Proof. intros H. unfold voice_started. ok_method H. Qed.

Lemma ok_voice_failed r a p s : session_ok s -> session_ok (voice_failed r a p s).
Proof. intros H. unfold voice_failed. ok_method H. Qed.

Lemma ok_fail_timer s : session_ok s -> session_ok (fail_timer_fired s).
Proof. intros H. unfold fail_timer_fired. destruct (bool_decide _); ok_method H. Qed.

Lemma ok_stopVoice a p s : session_ok s -> session_ok (stopVoice a p s).
Proof. intros H. unfold stopVoice. destruct (bool_decide _); ok_method H. Qed.

Lemma ok_voice_stopped a p s : session_ok s -> session_ok (voice_stopped a p s).
Proof. intros H. unfold voice_stopped. ok_method H. Qed.

Lemma ok_toggleMute s : session_ok s -> session_ok (toggleMute s).
Proof.
  intros H. unfold toggleMute. destruct (_ && _); [done|]. destruct (negb (muted _)); ok_method H.
Qed.

Lemma ok_playback_enabled b p s : session_ok s -> session_ok (playback_enabled b p s).
Proof. intros H. unfold playback_enabled. ok_method H. Qed.
#[export] Hint Resolve ok_sendText ok_markVerified ok_offerFile ok_cancelFile ok_file_offered ok_startVoice
  ok_voice_started ok_voice_failed ok_stopVoice ok_voice_stopped ok_playback_enabled : session_ok.

Lemma shift_nil {T} now (q : Fresh.VoiceFreshnessQueue T) :
  Fresh.items q = [] -> Fresh.items (Fresh.shiftFresh now q).1.1 = [].
Proof. intros E. unfold Fresh.shiftFresh. by rewrite E. Qed.

(** With a channel the queue may hold frames. *)
Lemma inert_queue q s : is_Some (secure s) -> inert s (s <| outboundVoice := q |>).
Proof. intros [k Hk]. split; try done. rewrite Hk. done. Qed.

Lemma ok_pump_turn epoch a p s : session_ok s -> session_ok (pump_turn epoch a p s).1.
Proof.
  intros H. unfold pump_turn. destruct (_ && _) eqn:E; [|done].
  apply andb_prop in E as [E _]. apply andb_prop in E as [_ E]. bool_facts.
  destruct (Fresh.shiftFresh _ _) as [[q value] dropped].
  set (x := record_drop _ _ _).
  assert (Hx : session_ok x).
  { apply (ok_inert s); [|done]. apply inert_drop. by apply inert_queue. }
  clearbody x. destruct value as [frame|]; [|done]. destruct (negb _).
  - cbn [Fresh.clear fst]. ok_method Hx.
  - cbn [fst]. ok_method Hx.
Qed.

Lemma ok_pump epoch a p s :
  session_ok s -> session_ok (pump_again a p s) /\ session_ok (pump_resume epoch a p s) /\
  session_ok (pumpOutboundVoice a p s).
Proof.
  intros H. assert (H1 : forall x q, session_ok x -> session_ok (pump_again a q x)).
  { clear. intros x q H. unfold pump_again.
    assert (Hx : session_ok (x <| outboundVoicePumping := true |>)) by ok_method H.
    pose proof (ok_pump_turn (voiceQueueEpoch x) a q _ Hx) as Ht. destruct (pump_turn _ _ _ _) as [y []]; [done|].
    cbn [fst] in Ht. ok_method Ht. }
  assert (H2 : forall x e, session_ok x -> session_ok (pump_resume e a p x)).
  { clear -H1. intros x e H. unfold pump_resume. pose proof (ok_pump_turn e a p _ H) as Ht.
    destruct (pump_turn _ _ _ _) as [y []]; [done|]. cbn [fst] in Ht. unfold pump_finally.
    set (z := y <| outboundVoicePumping := false |>). assert (Hz : session_ok z) by (unfold z; ok_method Ht).
    clearbody z. destruct (_ && _); [|ok_method Hz].
    assert (Hw : session_ok (start_async (pump_again a) z)) by (apply ok_start_async; auto).
    set (w := start_async _ _) in *. clearbody w. ok_method Hw. }
  split_and!; auto. unfold pumpOutboundVoice. destruct (outboundVoicePumping s); [ok_method H|].
  apply H2. ok_method H.
Qed.

Lemma ok_queueOutbound frame a s : session_ok s -> session_ok (queueOutboundVoice frame a s).
Proof.
  intros H. unfold queueOutboundVoice. destruct (_ || _) eqn:E; [done|].
  apply orb_false_elim in E as [E%negb_false_iff _]. bool_facts. destruct (Fresh.push _ _ _) as [q dropped].
  set (x := record_drop _ _ _).
  assert (Hx : session_ok x).
  { apply (ok_inert s); [|done]. apply inert_drop. by apply inert_queue. }
  clearbody x. apply ok_start_async; [ok_method Hx|]. intros r y Hy. by apply (ok_pump 0 a r y).
Qed.

(** *** Starting and fresh epochs *)

Lemma disconnect_flags silent forget text s :
  initialHandshakeSent (disconnect silent forget text s) = false /\
  replyHandshakeSent (disconnect silent forget text s) = false.
Proof.
  unfold disconnect. set (x := reset_transfers _).
  assert (I : inert (new_lifecycle s) x) by (unfold x, reset_transfers; auto 10 with session).
  assert (F : initialHandshakeSent x = false /\ replyHandshakeSent x = false).
  { destruct I as [_ E1 E2 _ _ _ _ _]. rewrite E1, E2. done. }
  clearbody x. by destruct silent.
Qed.

Lemma ok_start_reset code ph i s : session_ok s -> session_ok (start_reset code ph i s).
Proof.
  intros H. unfold start_reset. pose proof (ok_disconnect true false room_closed s H) as Hd.
  pose proof (disconnect_flags true false room_closed s) as [F1 F2].
  set (d := disconnect true false room_closed s) in *. clearbody d. set (x := effect ReliableReset _).
  assert (I : inert d x) by (unfold x; auto 10 with session). clearbody x.
  pose proof (ok_inert _ _ I Hd) as Hx. destruct I as [_ E1 E2 _ _ _ _ _].
  pose proof (ok_flags x Hx ltac:(congruence) ltac:(congruence)) as Hf. inert_from Hf.
Qed.

Lemma ok_start code ph i p s : session_ok s -> session_ok (start code ph i p s).
Proof.
  intros H. unfold start. pose proof (ok_start_reset code ph i s H) as Hx. set (x := start_reset _ _ _ _) in *.
  clearbody x. ok_method Hx.
Qed.

Lemma ok_start_identity lifecycle code key p s : session_ok s -> session_ok (start_identity lifecycle code key p s).
Proof. intros H. unfold start_identity. destruct (negb _); ok_method H. Qed.

Lemma ok_start_connected lifecycle p s : session_ok s -> session_ok (start_connected lifecycle p s).
Proof. intros H. unfold start_connected. destruct (negb _); ok_method H. Qed.

Lemma ok_createRoom p s : session_ok s -> session_ok (createRoom p s).
Proof. intros H. unfold createRoom. destruct (startupInFlight s); ok_method H. Qed.

Lemma ok_joinRoom code p s : session_ok s -> session_ok (joinRoom code p s).
Proof. intros H. unfold joinRoom. destruct (startupInFlight s); [ok_method H|]. destruct (negb _); ok_method H. Qed.

Lemma ok_startup_failed e p s : session_ok s -> session_ok (startup_failed e p s).
Proof.
  intros H. unfold startup_failed. pose proof (ok_disconnect true false room_closed s H) as Hd.
  set (d := disconnect _ _ _ _) in *. clearbody d. ok_method Hd.
Qed.
#[export] Hint Resolve ok_start ok_start_identity ok_start_connected ok_createRoom ok_joinRoom
  ok_startup_failed : session_ok.

(** The reports of [failAll]. *)
Lemma failures_inert a s : inert s (fail_messages a s) /\ outboundVoice (fail_messages a s) = outboundVoice s.
Proof.
  unfold fail_messages.
  assert (H : forall l z, inert s z -> outboundVoice z = outboundVoice s ->
    inert s (foldl (fun s id => onFailed a id session_changed s) z l) /\
    outboundVoice (foldl (fun s id => onFailed a id session_changed s) z l) = outboundVoice s).
  { induction l as [|id l IH]; intros z Hz Ez; cbn [foldl]; [done|]. apply IH; [auto with session|].
    by destruct id. }
  apply H; [auto with session|done].
Qed.

Lemma ok_failures a s :
  session_ok s -> quiet_voice s ->
  session_ok (effect ReliableReset (fail_messages a s)) /\ quiet_voice (effect ReliableReset (fail_messages a s)).
Proof.
  intros H Hq. destruct (failures_inert a s) as [I E]. pose proof (ok_inert _ _ I H) as Hu.
  assert (Q : quiet_voice (fail_messages a s)) by (unfold quiet_voice; by rewrite E).
  clear I E. generalize dependent (fail_messages a s). intros u Hu Q. split; [ok_method Hu|done].
Qed.

Lemma ok_order s : session_ok s -> quiet_voice s -> session_ok (clear_order s) /\ quiet_voice (clear_order s).
Proof. intros H Hq. split; [ok_method H|done]. Qed.

Lemma ok_fresh_epoch text a s : session_ok s -> session_ok (fresh_epoch text a s).
Proof.
  intros H. unfold fresh_epoch.
  assert (H1 : session_ok (new_epoch s)) by by apply (ok_bump s).
  assert (H2 : session_ok (effect TClearQueuedPackets (new_epoch s))) by ok_method H1.
  destruct (ok_reset_transfers _ H2) as [H3 Q3]. destruct (ok_order _ H3 Q3) as [H4 Q4].
  destruct (ok_failures a _ H4 Q4) as [H5 Q5]. pose proof (ok_forget _ H5 Q5) as H6. inert_from H6.
Qed.

Lemma ok_prepare text a p s : session_ok s -> session_ok (prepareFreshCryptoEpoch text a p s).
Proof.
  intros H. unfold prepareFreshCryptoEpoch. destruct (epochPreparation s); [ok_method H|].
  unfold new_promise, prepare_work. cbv beta iota zeta.
  assert (H1 : session_ok (s <| nextId := S (nextId s) |>)) by ok_method H.
  pose proof (ok_fresh_epoch text a _ H1) as Hx. set (x := fresh_epoch _ _ _) in *. clearbody x.
  ok_method Hx.
Qed.
#[export] Hint Resolve ok_prepare : session_ok.

Lemma ok_work_reset lifecycle p s : session_ok s -> session_ok (work_reset lifecycle p s).
Proof. intros H. unfold work_reset. destruct (negb _); ok_method H. Qed.

Lemma ok_work_identity lifecycle key a p s : session_ok s -> session_ok (work_identity lifecycle key a p s).
Proof. intros H. unfold work_identity. destruct (negb _); [ok_method H|]. destruct (bool_decide _); ok_method H. Qed.

Lemma ok_prepared w p o s : session_ok s -> session_ok (prepared w p o s).
Proof. intros H. unfold prepared. destruct (bool_decide _); ok_method H. Qed.
#[export] Hint Resolve ok_work_reset ok_work_identity ok_prepared : session_ok.

(** *** Inbound *)

Lemma ok_handleHandshake payload p s : session_ok s -> session_ok (handleHandshake payload p s).
Proof.
  intros H. unfold handleHandshake. destruct (s_localPublicKey s); [|ok_method H].
  destruct (decodeHandshake payload); [|ok_method H]. destruct (base64UrlToBytes _); [|ok_method H].
  destruct (jstr_eqb _ _); [ok_method H|]. destruct (secure s).
  - match goal with |- session_ok (if ?c then _ else _) => destruct c end; ok_method H.
  - destruct (establishing s); [ok_method H|]. destruct (negb _); ok_method H.
Qed.

Lemma ok_reply_sent hs peerKey p s : session_ok s -> session_ok (reply_sent hs peerKey p s).
Proof. intros H. unfold reply_sent. ok_method H. Qed.

Lemma ok_peer_hash hs peerKey expected a p s : session_ok s -> session_ok (peer_hash hs peerKey expected a p s).
Proof. intros H. unfold peer_hash, end_establishing. destruct (negb _); ok_method H. Qed.

Lemma ok_phrase_ready phrase a p s : session_ok s -> session_ok (phrase_ready phrase a p s).
Proof. intros H. unfold phrase_ready, end_establishing. ok_method H. Qed.
#[export] Hint Resolve ok_reply_sent ok_peer_hash ok_phrase_ready ok_established ok_encrypted : session_ok.

Lemma ok_handleCore m a p s : session_ok s -> session_ok (handleCoreMessage m a p s).
Proof.
  intros H. unfold handleCoreMessage. destruct m; try (ok_method H).
  - destruct (bool_decide _); ok_method H.
  - destruct (validateRemoteVoiceStart _ _); ok_method H.
  - destruct (negb _); ok_method H.
  - destruct (negb _); ok_method H.
Qed.

Lemma ok_handleApp m a p s : session_ok s -> session_ok (handleAppMessage m a p s).
Proof. intros H. unfold handleAppMessage. destruct m; try (ok_method H). by apply ok_handleCore. Qed.
#[export] Hint Resolve ok_handleHandshake ok_handleApp : session_ok.

Lemma ok_received body a p s : session_ok s -> session_ok (received body a p s).
Proof. intros H. unfold received. destruct body; ok_method H. Qed.

Lemma ok_played b a p s : session_ok s -> session_ok (played b a p s).
Proof. intros H. unfold played. destruct (_ && _); ok_method H. Qed.

Lemma ok_dropped p s : session_ok s -> session_ok (packet_dropped p s).
Proof. intros H. unfold packet_dropped. destruct (_ || _); ok_method H. Qed.

Lemma ok_onEnvelope env epoch p s : session_ok s -> session_ok (onEnvelope env epoch p s).
Proof.
  intros H. unfold onEnvelope. destruct (negb _); [ok_method H|]. destruct (_ =? _).
  - destruct (negb _); [|ok_method H]. by apply ok_dropped.
  - destruct (secure s); ok_method H.
Qed.
#[export] Hint Resolve ok_onEnvelope : session_ok.

Lemma ok_decrypted epoch ch env m a p s : session_ok s -> session_ok (decrypted epoch ch env m a p s).
Proof.
  intros H. unfold decrypted. destruct (_ || _) eqn:E; [ok_method H|].
  apply orb_false_elim in E as [_ E%negb_false_iff]. unfold is_current in E. bool_facts.
  destruct (validateInboundStream _ _); [|by apply ok_dropped].
  pose proof (ok_channel_effect (EDispatch ch (secure s) m) ch s H E eq_refl) as Hx. ok_method Hx.
Qed.

Lemma inert_scheduleVoice s x : inert s x -> inert s (scheduleInboundVoice x).
Proof.
  intros H. unfold scheduleInboundVoice, enqueueInbound. destruct (inboundVoiceScheduled x); auto 10 with session.
Qed.
#[export] Hint Resolve inert_scheduleVoice : session.

Lemma ok_inbound_finally o p s : session_ok s -> session_ok (inbound_voice_finally p o s).
Proof. intros H. unfold inbound_voice_finally. destruct (_ <? _); ok_method H. Qed.

Lemma ok_processOne a p s : session_ok s -> session_ok (processOneInboundVoice a p s).
Proof.
  intros H. unfold processOneInboundVoice. destruct (Fresh.shiftFresh _ _) as [[q value] n].
  set (x := record_drop _ _ _). assert (Hx : session_ok x) by (unfold x; ok_method H). clearbody x.
  destruct value; [ok_method Hx|by apply ok_inbound_finally].
Qed.

Lemma ok_queueInbound env epoch a s : session_ok s -> session_ok (queueInboundVoice env epoch a s).
Proof.
  intros H. unfold queueInboundVoice. destruct (_ || _); [ok_method H|]. destruct (Fresh.push _ _ _). ok_method H.
Qed.

Lemma ok_connected_prepared p s : session_ok s -> session_ok (connected_prepared p s).
Proof. intros H. unfold connected_prepared. destruct (_ && _); ok_method H. Qed.

Lemma ok_onConnectionStatus status a p s : session_ok s -> session_ok (onConnectionStatus status a p s).
Proof.
  intros H. unfold onConnectionStatus. set (x := patch_view _ s).
  assert (Hx : session_ok x) by (unfold x; ok_method H). clearbody x.
  destruct status; try (ok_method Hx). destruct (s_localPublicKey x); [by apply ok_connected_prepared|ok_method Hx].
Qed.

Lemma ok_peer_disconnected a p s : session_ok s -> session_ok (Session.peer_disconnected a p s).
Proof. intros H. unfold Session.peer_disconnected. ok_method H. Qed.

Lemma ok_peer_rejoined a p s : session_ok s -> session_ok (Session.peer_rejoined a p s).
Proof. intros H. unfold Session.peer_rejoined. ok_method H. Qed.

Lemma ok_onRelayEvent event a p s : session_ok s -> session_ok (onRelayEvent event a p s).
Proof.
  intros H. unfold onRelayEvent. destruct event; try (ok_method H).
  - destruct (_ || _); ok_method H.
  - pose proof (ok_disconnect false true (js "Chat ended for both.") s H) as Hd.
    set (d := disconnect _ _ _ _) in *. clearbody d. ok_method Hd.
Qed.
#[export] Hint Resolve ok_received ok_played ok_dropped ok_decrypted ok_inbound_finally ok_processOne
  ok_connected_prepared ok_onConnectionStatus ok_peer_disconnected ok_peer_rejoined ok_onRelayEvent : session_ok.

(** ** Steps *)

Lemma countb_delete {A} (f : A -> bool) i l x :
  l !! i = Some x -> count f l = (count f (delete i l) + if f x then 1 else 0)%nat.
Proof.
  revert i. induction l as [|y l IH]; intros [|i] Hi; try done.
  - injection Hi as ->. rewrite countb_cons. change (delete 0%nat (x :: l)) with l. lia.
  - change (delete (S i) (y :: l)) with (y :: delete i l). rewrite !countb_cons, (IH i Hi). lia.
Qed.

(** A task is taken up: a handshake that was under way no longer counts. *)
Lemma ok_taken i p q k s (x := s <| tasks := delete i (tasks s) |>) :
  session_ok s -> tasks s !! i = Some (p, q, k) ->
  session_ok x /\
  forall b e, (hs_pending b e x + if is_hash_task b e (p, q, k) then 1 else 0)%nat = hs_pending b e s.
Proof.
  intros [] Hi.
  assert (Hp : forall b e, (hs_pending b e x + if is_hash_task b e (p, q, k) then 1 else 0)%nat = hs_pending b e s).
  { intros. unfold hs_pending. by rewrite (countb_delete _ i (tasks s) _ Hi). }
  split; [|done]. split; try done.
  - intros b e He. specialize (ok_future0 b e He). specialize (Hp b e). change (hs_sent b e x) with (hs_sent b e s).
    split; lia.
  - intros b. specialize (ok_current0 b). specialize (Hp b (secureEpoch s)).
    change (hs_sent b (secureEpoch x) x) with (hs_sent b (secureEpoch s) s).
    change (secureEpoch x) with (secureEpoch s). change (hs_flag b x) with (hs_flag b s). lia.
Qed.

(** The handshake is handed over only in the epoch it was started in. *)
Lemma ok_hash b key l ep pr hash p q a i s (x := s <| tasks := delete i (tasks s) |>) :
  session_ok s -> tasks s !! i = Some (p, q, KHandshakeHash b key l ep pr) ->
  session_ok (sendHandshake_resume b key l ep pr hash p a x).
Proof.
  intros H Hi. destruct (ok_taken i p q _ s H Hi) as [Hx Hp]. fold x in Hx, Hp.
  assert (Hq : (hs_pending b ep x + 1 = hs_pending b ep s)%nat).
  { rewrite <- (Hp b ep). unfold is_hash_task. cbn [snd]. by rewrite eqb_reflx, Z.eqb_refl. }
  unfold sendHandshake_resume. destruct (_ || _) eqn:E; [ok_method Hx|].
  apply orb_false_elim in E as [E _]. apply orb_false_elim in E as [E _].
  apply orb_false_elim in E as [_ E]. apply negb_false_iff, Z.eqb_eq in E.
  destruct (encodeHandshake _) as [payload|]; [|ok_method Hx].
  set (y := effect _ x).
  assert (Hy : session_ok y).
  { destruct H as [Hfut Hcur Hpast _ _ _ _]. destruct Hx as [Hfut' Hcur' _ Hch Hma Hse Hfr].
    change (secureEpoch x) with (secureEpoch s) in *. subst ep.
    assert (Hs : forall b' e, hs_sent b' e y =
      (hs_sent b' e s + if eqb b b' && (secureEpoch s =? e)%Z then 1 else 0)%nat).
    { intros. unfold hs_sent, y. cbn [update effect effects]. rewrite countb_app, countb_cons, countb_nil.
      cbn [is_handshake]. change (effects x) with (effects s). change (secureEpoch x) with (secureEpoch s). lia. }
    assert (Hc : channels (effects y) = channels (effects x)).
    { unfold y. cbn [update effect effects]. rewrite channels_app. by rewrite app_nil_r. }
    assert (Hzero : hs_sent b (secureEpoch s) s = 0%nat).
    { specialize (Hcur b). assert (hs_flag b s <= 1)%nat by (unfold hs_flag; destruct (if b then _ else _); lia). lia. }
    split; rewrite ?Hc; try done.
    - intros b' e He. change (secureEpoch y) with (secureEpoch s) in He. rewrite Hs.
      rewrite (proj2 (Z.eqb_neq (secureEpoch s) e)), andb_false_r by lia.
      destruct (Hfut' b' e He) as [H1 H2]. change (hs_pending b' e y) with (hs_pending b' e x).
      change (hs_sent b' e x) with (hs_sent b' e s) in H2. lia.
    - intros b'. change (secureEpoch y) with (secureEpoch s). rewrite Hs, Z.eqb_refl, andb_true_r.
      change (hs_pending b' (secureEpoch s) y) with (hs_pending b' (secureEpoch s) x).
      change (hs_flag b' y) with (hs_flag b' s). specialize (Hcur b').
      destruct (eqb b b') eqn:Eb; [apply eqb_prop in Eb as <-; lia|]. specialize (Hcur' b').
      change (hs_sent b' (secureEpoch s) x) with (hs_sent b' (secureEpoch s) s) in Hcur'.
      change (hs_flag b' x) with (hs_flag b' s) in Hcur'. lia.
    - intros b' e. rewrite Hs. specialize (Hpast b' e).
      destruct (eqb b b') eqn:Eb, (Z.eqb_spec (secureEpoch s) e) as [<-|]; cbn [andb]; try lia.
      apply eqb_prop in Eb as <-. lia. }
  clearbody y. destruct (an_sent a); ok_method Hy.
Qed.

Lemma ok_or_throw o p k s :
  session_ok s -> (forall v x, session_ok x -> session_ok (k v x)) -> session_ok (or_throw o p k s).
Proof. intros H Hk. unfold or_throw. destruct o; [auto|ok_method H]. Qed.

Lemma ok_or_end o p k s :
  session_ok s -> (forall v x, session_ok x -> session_ok (k v x)) -> session_ok (or_end_establishing o p k s).
Proof. intros H Hk. unfold or_end_establishing, end_establishing. destruct o; [auto|ok_method H]. Qed.

Lemma ok_resume p q k o a s :
  is_hash k = false -> session_ok s -> session_ok (resume p q k o a s).
Proof.
  intros Hk H. destruct k; try done; cbn [resume].
  all: try (apply ok_or_throw; [done|intros v x Hx]).
  all: try (apply ok_or_end; [done|intros v x Hx]).
  all: try (destruct o as [v|e]; [destruct v|]).
  all: try solve [auto with session_ok].
  all: try (first [ok_method H|ok_method Hx]).
  all: try (by apply ok_pump).
  - unfold start_configured. ok_method Hx.
  - unfold text_sent. destruct (bool_of v); ok_method Hx.
Qed.

Lemma ok_run_inbound t a p s : session_ok s -> session_ok (run_inbound t a p s).
Proof.
  intros H. unfold run_inbound. destruct t; try (destruct (_ =? _)); auto with session_ok; ok_method H.
Qed.

Lemma ok_step e a s s' : step e a s = Some s' -> session_ok s -> session_ok s'.
Proof.
  intros Hs H. destruct e; cbn [step] in Hs;
    try (apply (inj Some) in Hs as <-; first [ok_method H|done]).
  all: try (apply (inj Some) in Hs as <-).
  - unfold setProfile. destruct (_ && _); ok_method H.
  - apply ok_start_async; [done|]. intros r x Hx. ok_method Hx.
  - apply ok_start_async; [done|]. intros r x Hx. ok_method Hx.
  - by apply ok_toggleMute.
  - apply ok_start_async; [done|]. intros r x Hx. ok_method Hx.
  - unfold endChatForBoth. destruct (_ || _); [done|].
    assert (Hx : session_ok (effect TEndSession (s <| endSessionTimer := false |>))) by ok_method H.
    set (x := effect _ _) in *. clearbody x. destruct (negb _); [by apply ok_disconnect|ok_method Hx].
  - by apply ok_disconnect.
  - unfold enqueueInbound. ok_method H.
  - unfold enqueueInbound. ok_method H.
  - unfold routeEnvelope, enqueueInbound. destruct (_ && _); [by apply ok_queueInbound|ok_method H].
  - unfold onDelivered. destruct trackingId; [ok_method H|done].
  - by apply ok_queueOutbound.
  - unfold settle_call in Hs. destruct (map_get q (calls s)), (map_get q (promises s)); try done.
    match type of Hs with (if ?c then _ else _) = _ => destruct c end; [|done].
    apply (inj Some) in Hs as <-. ok_method H.
  - unfold resume_task in Hs. destruct (tasks s !! i) as [[[p q] k]|] eqn:Ei; [|done].
    destruct (map_get q (promises s)) as [o|]; [|done]. apply (inj Some) in Hs as <-.
    destruct (is_hash k) eqn:Ek.
    + destruct k; try done. cbn [resume]. unfold or_throw. destruct o; [by eapply ok_hash|].
      destruct (ok_taken i p q _ s H Ei) as [Hx _]. ok_method Hx.
    + destruct (ok_taken i p q k s H Ei) as [Hx _]. by apply ok_resume.
  - unfold next_inbound, new_promise in Hs. destruct (inboundSerial s) as [|t rest]; [done|].
    match type of Hs with (if ?c then _ else _) = _ => destruct c end; [|done].
    apply (inj Some) in Hs as <-. apply ok_run_inbound. ok_method H.
  - destruct (endSessionTimer s); [|done]. apply (inj Some) in Hs as <-.
    apply ok_disconnect. ok_method H.
  - destruct (_ <? _)%nat; [|done]. apply (inj Some) in Hs as <-. by apply ok_fail_timer.
Qed.

Lemma ok_run es s s' : run es s = Some s' -> session_ok s -> session_ok s'.
Proof.
  revert s. induction es as [|[e a] es IH]; intros s Hr H; cbn [run] in Hr.
  { by apply (inj Some) in Hr as <-. }
  destruct (step e a s) as [s1|] eqn:E; [|done]. eapply IH; [done|]. by eapply ok_step.
Qed.

Lemma newSession_ok : session_ok newSession.
Proof. split; try done; try (intros; cbn; lia); constructor. Qed.

(** Without a channel there is no frame to send, so the pump that the
    [finally] of another one starts cannot start a third. *)
Lemma no_channel_no_frames es s :
  run es newSession = Some s -> secure s = None -> Fresh.items (outboundVoice s) = [].
Proof. intros Hr. exact (ok_frames _ (ok_run _ _ _ Hr newSession_ok)). Qed.


(** C12: sessions do not mix.  In every run, the channels of the packets handed
    to the transport and of the messages given to the application are in the
    order in which the channels were created: once a packet or message of a
    channel went through, nothing that was encrypted or decrypted by an older
    channel follows, however late its encryption or decryption ends; and the
    current channel is the newest one. *)
Theorem sessions_separated es s :
  run es newSession = Some s ->
  StronglySorted Nat.le (channels (effects s)) /\
  Forall (fun ch => ch < nextChannel s)%nat (channels (effects s)) /\
  (forall k, secure s = Some k -> S k = nextChannel s).
Proof. intros Hr. destruct (ok_run _ _ _ Hr newSession_ok). by split_and!. Qed.

(** ** A concrete session *)

Definition demo_answers : Answers := {|
  an_sent := true; an_ended := true; an_canSendVoice := true; an_status := Status.connected;
  an_sampleRate := 48000; an_failed := []; an_id := js "id"; an_now := 0;
|}.

Definition demo_hash : jstr := js "00112233445566778899aabbccddeeff".
Definition demo_profile : TransportProfile := getProfile ProfileId.balanced.

(** The handshake of a peer. *)
Definition demo_peer : Envelope :=
  handshake_envelope demo_profile (default [] (encodeHandshake (handshake_of (replicate 32 9) demo_profile demo_hash))).

Definition demo_done : Outcome := Fulfilled VUnit.
Definition demo_hashed : Outcome := Fulfilled (VText demo_hash).

(** A room is created, the socket connects and the first handshake is sent. *)
Definition demo_room : list Event :=
  [UCreateRoom; Settle 1 (Fulfilled (VRoom (js "ABCD-EFGH") ProfileId.balanced)); Resume 0;
   Settle 4 demo_done; Resume 0; Settle 5 (Fulfilled (VKey (replicate 32 1))); Resume 1;
   Settle 6 demo_done; Resume 1; Settle 9 demo_hashed; Resume 1; Resume 1; Resume 1; Resume 0].

(** The peer's handshake arrives: the reply, the hash, the session, and the
    phrase is being computed. *)
Definition demo_establish : list Event :=
  [OnEnvelope demo_peer; NextInbound; Settle 14 demo_hashed; Resume 0; Resume 0; Resume 0;
   Settle 15 demo_hashed; Resume 1; Resume 1; Settle 18 demo_done; Resume 2; Settle 19 demo_done; Resume 2;
   Resume 1].

Definition demo_run (es : list Event) : option Session :=
  run ((fun e => (e, demo_answers)) <$> es) newSession.


(** A text is being encrypted when the phrase is ready. *)
Definition demo_text : list Event :=
  [Settle 20 (Fulfilled (VText (js "alpha beta"))); Resume 1; Resume 0;
   OnReliableSend (reliable_ack (js "x")) Lane.control; Resume 0;
   Settle 23 (Fulfilled (VEnvelope demo_peer)); Resume 1; Resume 0].

Lemma sessions_separated_witness :
  exists s, demo_run (demo_room ++ demo_establish ++ demo_text) = Some s /\
    phase (state (view s)) = Phase.active /\ channels (effects s) = [0%nat] /\
    StronglySorted Nat.le (channels (effects s)).
Proof.
  unfold demo_run. eexists. split; [vm_compute; reflexivity|]. split; [vm_compute; reflexivity|].
  split; [vm_compute; reflexivity|].
  refine (proj1 (sessions_separated ((fun e => (e, demo_answers)) <$> (demo_room ++ demo_establish ++ demo_text)) _ _)).
  vm_compute. reflexivity.
Defined.

