(* ===== verification/SessionLive.v ===== *)
(** * Progress of the session controller

    The controller is a net of activations that wait for each other and for
    the other components, and of flags that keep a second activation of the
    same kind out.  This file shows that nothing in it gets lost: an awaited
    promise is settled, is a call that a component still has to answer, or
    belongs to an activation that is waiting itself, never in a circle; and a
    flag that is set belongs to an activation that will clear it.

    The methods are followed with a context of obligations ([Item]): an
    activation that runs ([Hand]) has to settle its promise or to wait, and
    one that holds a flag ([Own]) has to clear it or to pass it on to its
    continuation. *)
From S2P Require Import Prelude JsMap Bytes Profiles Envelope RelayControl Scheduler Messages Json.
From S2P Require Import Negotiation Reliable FileProtocol FileReceiver FileSender Audio Rooms Connection.
From S2P Require Import SessionView Voice Session SessionProps.

(** ** Levels and owners *)

(** The flags. *)
Inductive Owner := OwnStart | OwnEstablish | OwnPump | OwnVoice | OwnPrepare (w : nat).

(** The flags that a continuation clears. *)
Definition frame_owner (k : Frame) : list Owner :=
  match k with
  | KRoom _ | KStarted => [OwnStart]
  | KReplySent _ _ | KPeerHash _ _ | KEstablished _ _ | KPhrase => [OwnEstablish]
  | KPump _ => [OwnPump]
  | KInboundVoice => [OwnVoice]
  | KPrepared w => [OwnPrepare w]
  | _ => []
  end.

(** How deep a continuation may still call other methods. *)
Definition frame_level (k : Frame) : nat :=
  match k with
  | KRoom _ | KVoiceStarted => 3
  | KStartConfigured _ _ | KStartIdentity _ _ | KStartConnected _ | KWorkReset _ | KWorkConfigured _
  | KWorkIdentity _ | KConnectedPrepared | KPresentPrepared | KRejoinedPrepared | KDecrypted _ _ _
  | KPump _ => 2
  | KReceived | KReplySent _ _ | KPeerHash _ _ | KEstablished _ _ => 1
  | _ => 0
  end.

(** ** Obligations *)

Inductive Item :=
| Hand (p lo : nat)      (* the activation runs, and may call methods below its level *)
| Sub (q hi : nat)       (* the activation was called and is not lost *)
| Own (o : Owner).

Definition owners (k : Frame) : list Item := Own <$> frame_owner k.

Definition answered (s : Session) (q : nat) : Prop :=
  is_Some (map_get q (promises s)) \/ is_Some (map_get q (calls s)).

(** An activation that has settled, waits or runs. *)
Definition active (s : Session) (G : list Item) (q : nat) : Prop :=
  is_Some (map_get q (promises s)) \/ (exists r k, (q, r, k) ∈ tasks s) \/ (exists lo, Hand q lo ∈ G).

Definition live (s : Session) (G : list Item) (q : nat) : Prop :=
  is_Some (map_get q (calls s)) \/ active s G q.

(** No number is used before it is given out. *)
Definition fresh_ids (s : Session) : Prop :=
  forall j, (nextId s <= j)%nat -> map_get j (promises s) = None /\ map_get j (calls s) = None.

Definition held (s : Session) (G : list Item) (o : Owner) : Prop :=
  Own o ∈ G \/ exists p q k, (p, q, k) ∈ tasks s /\ o ∈ frame_owner k.

(** The activations that run. *)
Fixpoint hands (G : list Item) : list nat :=
  match G with
  | Hand p _ :: G => p :: hands G
  | _ :: G => hands G
  | [] => []
  end.

Definition acting (s : Session) (G : list Item) : list nat := (tasks s).*1.*1 ++ hands G.

(** An activation is in one place: it waits once, or runs, and then it has
    not settled and is not a call on another component. *)
Definition unsettled (s : Session) (p : nat) : Prop :=
  (p < nextId s)%nat /\ map_get p (promises s) = None /\ map_get p (calls s) = None.

Definition once (s : Session) (G : list Item) : Prop := NoDup (acting s G) /\ Forall (unsettled s) (acting s G).

(** A task of the chain waits for its turn until the one before it ended. *)
Definition turn (s : Session) (t1 t2 : nat) : Prop :=
  is_Some (map_get t1 (promises s)) \/ exists task, (t2, t1, KCryptoTurn task) ∈ tasks s.

Definition in_turn (s : Session) : Prop :=
  forall i t1 t2, cryptoSerial s !! i = Some t1 -> cryptoSerial s !! S i = Some t2 -> turn s t1 t2.

Section Levels.
Context (lvl : nat -> nat).

Definition item_ok (s : Session) (G : list Item) (i : Item) : Prop :=
  match i with
  | Hand p lo => (p < nextId s /\ lo <= lvl p)%nat
  | Sub q hi => (q < nextId s /\ lvl q <= hi)%nat /\ live s G q
  | Own _ => True
  end.

(** A wait leads to a lower level, or to an earlier activation of the same
    level: in the chain of crypto tasks each task waits for the one before it. *)
Definition below (q p : nat) : Prop := (lvl q < lvl p \/ lvl q <= lvl p /\ q < p)%nat.

(** A task awaits something that is under way, and below it. *)
Definition task_ok (s : Session) (G : list Item) (t : nat * nat * Frame) : Prop :=
  let '(p, q, k) := t in
  (p < nextId s /\ q < nextId s /\ frame_level k <= lvl p)%nat /\ live s G q /\ (answered s q \/ below q p).

Record waits (s : Session) (G : list Item) : Prop := {
  wt_fresh : fresh_ids s;
  wt_tasks : Forall (task_ok s G) (tasks s);
  wt_items : Forall (item_ok s G) G;
  wt_prepare : forall w, epochPreparation s = Some w ->
    ((w < nextId s /\ lvl w <= 2)%nat /\ live s G w) /\ held s G (OwnPrepare w);
  wt_serial : Forall (fun t => (t < nextId s /\ lvl t <= 0)%nat /\ active s G t) (cryptoSerial s);
  wt_once : once s G;
  wt_order : in_turn s;
  wt_running : forall q, inboundRunning s = Some q -> active s G q;
  wt_start : startupInFlight s = true -> held s G OwnStart;
  wt_establish : establishing s = true -> held s G OwnEstablish;
  wt_pump : outboundVoicePumping s = true -> held s G OwnPump;
  wt_voice : inboundVoiceScheduled s = true -> IVoice ∈ inboundSerial s \/ held s G OwnVoice;
}.
End Levels.

Definition due (s : Session) (G : list Item) : Prop := exists lvl, waits lvl s G.

(** ** What the conditions depend on *)

Record grows (s s' : Session) (G G' : list Item) : Prop := {
  gr_fresh : fresh_ids s -> fresh_ids s';
  gr_next : (nextId s <= nextId s')%nat;
  gr_calls : forall q, is_Some (map_get q (calls s)) -> is_Some (map_get q (calls s'));
  gr_settled : forall q, is_Some (map_get q (promises s)) -> is_Some (map_get q (promises s'));
  gr_tasks : forall q r k, (q, r, k) ∈ tasks s -> active s' G' q;
  gr_hand : forall q lo, Hand q lo ∈ G -> active s' G' q;
  gr_once : once s G -> once s' G';
  gr_turn : forall t1 t2, turn s t1 t2 -> turn s' t1 t2;
}.

Lemma hands_app G1 G2 : hands (G1 ++ G2) = hands G1 ++ hands G2.
Proof. induction G1 as [|[] G1 IH]; cbn; [done|by rewrite IH|done|done]. Qed.

Lemma hands_owners k : hands (owners k) = [].
Proof. unfold owners. induction (frame_owner k); done. Qed.

(** The activations and what is known about them stay the same. *)
Lemma once_same s s' G G' :
  acting s' G' ≡ₚ acting s G -> (nextId s <= nextId s')%nat -> promises s' = promises s -> calls s' = calls s ->
  once s G -> once s' G'.
Proof.
  intros Hp Hn E1 E2 [Ho Hu]. split; [by rewrite Hp|]. rewrite Hp. eapply Forall_impl; [exact Hu|].
  intros p (? & ? & ?). unfold unsettled. rewrite E1, E2. split_and!; [lia|done|done].
Qed.

Lemma acting_tasks s s' G G' : tasks s' = tasks s -> hands G' = hands G -> acting s' G' ≡ₚ acting s G.
Proof. unfold acting. by intros -> ->. Qed.

Lemma turn_same s s' t1 t2 : tasks s' = tasks s -> promises s' = promises s -> turn s t1 t2 -> turn s' t1 t2.
Proof. unfold turn. by intros -> ->. Qed.

(** A step in which only the context changes, not its activations. *)
Ltac still := first [by apply once_same; [apply acting_tasks|..] | by intros ? ?; apply turn_same].

Lemma active_grows s s' G G' q : grows s s' G G' -> active s G q -> active s' G' q.
Proof. intros [] [H|[(r & k & H)|[lo H]]]; [left|..]; eauto. Qed.

Lemma live_grows s s' G G' q : grows s s' G G' -> live s G q -> live s' G' q.
Proof. intros Hg [H|H]; [left; by apply Hg|right; by eapply active_grows]. Qed.

Lemma gr_answered s s' G G' q : grows s s' G G' -> answered s q -> answered s' q.
Proof. intros Hg [H|H]; [left|right]; by apply Hg. Qed.

Lemma item_grows lvl s s' G G' i : grows s s' G G' -> item_ok lvl s G i -> item_ok lvl s' G' i.
Proof.
  intros H. pose proof (gr_next _ _ _ _ H). destruct i; cbn [item_ok]; [lia| |done].
  intros [? Hl]. split; [lia|]. by eapply live_grows.
Qed.

Lemma task_grows lvl s s' G G' t : grows s s' G G' -> task_ok lvl s G t -> task_ok lvl s' G' t.
Proof.
  intros H. pose proof (gr_next _ _ _ _ H). destruct t as [[p q] k]. intros (? & Hl & Ha). split_and!; try lia.
  - by eapply live_grows.
  - destruct Ha as [Ha|Ha]; [left; by eapply gr_answered|by right].
Qed.

Definition flags (s : Session) :=
  (startupInFlight s, establishing s, outboundVoicePumping s, inboundVoiceScheduled s, epochPreparation s,
   inboundSerial s, inboundRunning s, cryptoSerial s).

(** The flags stay as they are, and what held them still does. *)
Lemma waits_grow lvl s s' G G' :
  waits lvl s G -> grows s s' G G' -> flags s' = flags s ->
  (forall o, held s G o -> held s' G' o) ->
  Forall (task_ok lvl s' G') (tasks s') -> Forall (item_ok lvl s' G') G' ->
  waits lvl s' G'.
Proof.
  intros Hw Hg Hf Hh Ht Hi. unfold flags in Hf. injection Hf as E1 E2 E3 E4 E5 E6 E7 E8.
  pose proof (gr_next _ _ _ _ Hg) as Hn. destruct Hw. constructor; [by apply Hg|done|done|..].
  - intros w Hp. rewrite E5 in Hp. destruct (wt_prepare0 w Hp) as [[? Hl] ?].
    split_and!; [lia|lia|by eapply live_grows|by apply Hh].
  - rewrite E8. eapply Forall_impl; [exact wt_serial0|]. intros t [? Hl]. split; [lia|by eapply active_grows].
  - by apply Hg.
  - unfold in_turn. rewrite E8. intros i t1 t2 H1 H2. by eapply gr_turn, wt_order0.
  - intros q Hq. rewrite E7 in Hq. eapply active_grows; [exact Hg|]. by apply wt_running0.
  - rewrite E1. auto.
  - rewrite E2. auto.
  - rewrite E3. auto.
  - rewrite E4, E6. intros Hv. destruct (wt_voice0 Hv); auto.
Qed.

Lemma held_same s s' G o : tasks s' = tasks s -> held s G o -> held s' G o.
Proof. unfold held. by intros ->. Qed.

Definition core (s : Session) := (nextId s, tasks s, promises s, calls s, flags s).

Lemma due_same s s' G : core s' = core s -> due s G -> due s' G.
Proof.
  unfold core. intros H [lvl Hw]. apply pair_equal_spec in H as [H E5]. injection H as E1 E2 E3 E4. exists lvl.
  assert (grows s s' G G) as Hg.
  { constructor; [unfold fresh_ids; by rewrite E1, E3, E4|by rewrite E1|..]; [by rewrite ?E2, ?E3, ?E4..| | |by apply once_same; [apply acting_tasks|rewrite E1|..]|
      by intros ? ?; apply turn_same]; unfold active; rewrite ?E2, ?E3, ?E4; eauto. }
  eapply waits_grow; [exact Hw|exact Hg|exact E5|..].
  - intros o. by apply held_same.
  - rewrite E2. eapply Forall_impl; [apply Hw|]. intros t. by apply task_grows.
  - eapply Forall_impl; [apply Hw|]. intros t. by apply item_grows.
Qed.

(** ** The steps of a method *)

Lemma due_level s p lo lo' G : (lo' <= lo)%nat -> due s (Hand p lo :: G) -> due s (Hand p lo' :: G).
Proof.
  intros Hlo [lvl Hw]. exists lvl.
  assert (grows s s (Hand p lo :: G) (Hand p lo' :: G)) as Hg.
  { constructor; [done|done|done|done|unfold active; eauto| |still|still]. intros q lo0 H. right. right.
    apply elem_of_cons in H as [[= -> ->]|H]; [exists lo'; by left|exists lo0; by right]. }
  eapply waits_grow; [exact Hw|exact Hg|done|..].
  - intros o [H|H]; [|by right]. left. apply elem_of_cons in H as [|H]; [done|by right].
  - eapply Forall_impl; [apply Hw|]. intros t. by apply task_grows.
  - pose proof (wt_items _ _ _ Hw) as Hi. apply Forall_cons in Hi as [H1 H2].
    constructor; [cbn in *; lia|]. eapply Forall_impl; [exact H2|]. intros t. by apply item_grows.
Qed.

Lemma settled_grows p o s q : is_Some (map_get q (promises s)) -> is_Some (map_get q (promises (settle p o s))).
Proof. cbn. intros H. rewrite map_get_set. by case_decide. Qed.

Lemma fresh_settled p o s : (p < nextId s)%nat -> fresh_ids s -> fresh_ids (settle p o s).
Proof.
  intros Hp Hf j Hj. cbn in *. rewrite map_get_set. case_decide; [lia|]. by apply Hf.
Qed.

Lemma once_settled s p lo o G : once s (Hand p lo :: G) -> once (settle p o s) G.
Proof.
  unfold once, acting. cbn [hands]. rewrite <- Permutation_middle. intros [Ho Hu].
  apply NoDup_cons in Ho as [Hp Ho]. apply Forall_cons in Hu as [_ Hu]. split; [done|].
  apply Forall_forall. intros q Hq. eapply Forall_forall in Hu; [|exact Hq]. destruct Hu as (? & ? & ?).
  split_and!; [done| |done]. cbn. rewrite map_get_set, decide_False; [done|]. by intros ->.
Qed.

Lemma turn_settled s p o t1 t2 : turn s t1 t2 -> turn (settle p o s) t1 t2.
Proof. intros [H|H]; [left; by apply settled_grows|by right]. Qed.

Lemma due_settle s p lo o G : due s (Hand p lo :: G) -> due (settle p o s) G.
Proof.
  intros [lvl Hw]. exists lvl.
  assert (grows s (settle p o s) (Hand p lo :: G) G) as Hg.
  { constructor; [|done|done|apply settled_grows|unfold active; eauto| |apply once_settled|
      intros ? ?; apply turn_settled].
    { apply fresh_settled. pose proof (wt_items _ _ _ Hw) as Hi. apply Forall_cons in Hi as [[Hi _] _]. done. }
    intros q lo0 H.
    apply elem_of_cons in H as [[= -> ->]|H]; [|right; right; by exists lo0]. left. cbn. by rewrite map_get_set_eq. }
  eapply waits_grow; [exact Hw|exact Hg|done|..].
  - intros o' [H|H]; [|by right]. left. apply elem_of_cons in H as [|H]; done.
  - eapply Forall_impl; [apply Hw|]. intros t. by apply task_grows.
  - pose proof (wt_items _ _ _ Hw) as Hi. apply Forall_cons in Hi as [H1 H2].
    eapply Forall_impl; [exact H2|]. intros t. by apply item_grows.
Qed.

Lemma once_new s L G :
  fresh_ids s -> once s G -> once (s <| nextId := S (nextId s) |>) (Hand (nextId s) L :: Sub (nextId s) L :: G).
Proof.
  intros Hf [Ho Hu]. unfold once, acting. cbn [hands]. rewrite <- Permutation_middle.
  destruct (Hf (nextId s) ltac:(lia)) as [H1 H2]. split.
  - constructor; [|done]. intros Hin. eapply Forall_forall in Hu; [|exact Hin]. destruct Hu. lia.
  - constructor; [split_and!; [cbn; lia|done|done]|]. eapply Forall_impl; [exact Hu|].
    intros p (? & ? & ?). split_and!; [cbn; lia|done|done].
Qed.

(** A new activation. *)
Lemma due_new s L G :
  due s G -> due (s <| nextId := S (nextId s) |>) (Hand (nextId s) L :: Sub (nextId s) L :: G).
Proof.
  intros [lvl Hw]. set (n := nextId s). exists (fun i => if decide (i = n) then L else lvl i).
  set (lvl' := fun i => if decide (i = n) then L else lvl i). set (s' := s <| nextId := S n |>).
  set (G' := Hand n L :: Sub n L :: G).
  assert (forall i, (i < n)%nat -> lvl' i = lvl i) as Hl. { intros i Hi. unfold lvl'. case_decide; [lia|done]. }
  assert (grows s s' G G') as Hg.
  { constructor; [intros Hfr j Hj; apply Hfr; cbn in Hj; lia|cbn; lia|done|done|unfold active; eauto| | |still].
    - intros q lo H. right. right. exists lo. by do 2 right.
    - by apply once_new, Hw. }
  assert (forall o, held s G o -> held s' G' o) as Hh.
  { intros o [H|H]; [left; by do 2 right|by right]. }
  assert (lvl' n = L) as Hn by (unfold lvl'; by case_decide).
  assert (forall i, item_ok lvl s G i -> item_ok lvl' s' G' i) as Hi.
  { intros i H. apply (item_grows _ _ _ _ _ _ Hg) in H as H'. destruct i; cbn in *; try done; rewrite Hl; naive_solver lia. }
  assert (forall t, task_ok lvl s G t -> task_ok lvl' s' G' t) as Ht.
  { intros t H. apply (task_grows _ _ _ _ _ _ Hg) in H as H'. destruct t as [[p q] k]. cbn in *.
    unfold below in *. rewrite !Hl by (unfold n; naive_solver). done. }
  destruct Hw. constructor; try (cbn; intros; by auto).
  - by apply Hg.
  - eapply Forall_impl; [exact wt_tasks0|exact Ht].
  - constructor; [cbn; rewrite Hn; fold n; lia|]. constructor.
    + cbn. rewrite Hn. fold n. split; [lia|]. right. right. right. exists L. by left.
    + eapply Forall_impl; [exact wt_items0|exact Hi].
  - cbn. intros w Hw. destruct (wt_prepare0 w Hw) as [[[? ?] ?] ?]. rewrite Hl by (unfold n; lia).
    split_and!; [lia|lia|by eapply live_grows|by apply Hh].
  - cbn. eapply Forall_impl; [exact wt_serial0|]. cbn. intros t [[? ?] ?]. rewrite Hl by (unfold n; lia).
    split_and!; [lia|lia|by eapply active_grows].
  - by apply Hg.
  - cbn. intros q Hq. eapply active_grows; [exact Hg|by apply wt_running0].
  - cbn. intros Hv. destruct (wt_voice0 Hv); [by left|right; by apply Hh].
Qed.

Lemma owned_by k o : Own o ∈ owners k -> o ∈ frame_owner k.
Proof. unfold owners. intros (o' & [= ->] & H)%list_elem_of_fmap. done. Qed.

Lemma waits_await lvl s p q k L G :
  waits lvl s (Hand p L :: owners k ++ G) -> (q < nextId s)%nat -> (frame_level k <= L)%nat ->
  live s (Hand p L :: owners k ++ G) q -> answered s q \/ below lvl q p ->
  waits lvl (await p q k s) G.
Proof.
  intros Hw Hq Hk Hl Ha. set (G0 := Hand p L :: owners k ++ G) in *. set (s' := await p q k s).
  assert ((p, q, k) ∈ tasks s') as Hin by (cbn; apply elem_of_app; right; by left).
  assert (forall t, t ∈ tasks s -> t ∈ tasks s') as Hsub by (intros; cbn; apply elem_of_app; by left).
  assert (grows s s' G0 G) as Hg.
  { constructor; [done|done|done|done|..].
    3: { apply once_same; [|done|done|done]. unfold acting, G0. cbn [hands]. rewrite hands_app, hands_owners.
         unfold s'. cbn. rewrite !fmap_app, <- app_assoc. done. }
    3: { intros ? ? [H|[task H]]; [by left|right; exists task; by apply Hsub]. }
    - intros p' r k' H. right. left. exists r, k'. by apply Hsub.
    - intros p' lo H. unfold G0 in H. apply elem_of_cons in H as [[= -> ->]|H]; [right; left; by exists q, k|].
      apply elem_of_app in H as [H|H]; [|right; right; by exists lo].
      unfold owners in H. by apply list_elem_of_fmap in H as (? & [=] & _). }
  pose proof (wt_items _ _ _ Hw) as Hi. apply Forall_cons in Hi as [Hp Hi]. apply Forall_app in Hi as [_ Hi].
  eapply waits_grow; [exact Hw|exact Hg|done|..].
  - intros o [H|(p' & q' & k' & H & Ho)]; [|right; exists p', q', k'; by auto].
    unfold G0 in H. apply elem_of_cons in H as [|H]; [done|]. apply elem_of_app in H as [H|H]; [|by left].
    right. exists p, q, k. split; [done|]. by apply owned_by.
  - cbn. apply Forall_app. split; [|constructor; [|done]].
    + eapply Forall_impl; [apply Hw|]. intros t. by apply task_grows.
    + cbn in *. split_and!; [lia|lia|lia|by eapply live_grows|done].
  - eapply Forall_impl; [exact Hi|]. intros t. by apply item_grows.
Qed.

Lemma waits_sub lvl s q hi G : waits lvl s (Sub q hi :: G) -> waits lvl s G /\ live s G q.
Proof.
  intros Hw. assert (grows s s (Sub q hi :: G) G) as Hg.
  { constructor; [done|done|done|done|unfold active; eauto| |still|still]. intros p' lo Hi. right. right. exists lo.
    by apply elem_of_cons in Hi as [|Hi]. }
  pose proof (wt_items _ _ _ Hw) as Hi. apply Forall_cons in Hi as [[_ Hl] Hi].
  split; [|by eapply live_grows]. eapply waits_grow; [exact Hw|exact Hg|done|..].
  - intros o [Ho|Ho]; [|by right]. left. by apply elem_of_cons in Ho as [|Ho].
  - eapply Forall_impl; [apply Hw|]. intros t. by apply task_grows.
  - eapply Forall_impl; [exact Hi|]. intros t. by apply item_grows.
Qed.

(** An await on another activation. *)
Lemma due_await s p q k L hi G :
  (frame_level k <= L)%nat -> (hi < L)%nat -> due s (Sub q hi :: Hand p L :: owners k ++ G) -> due (await p q k s) G.
Proof.
  intros Hk Hhi [lvl Hw]. pose proof (wt_items _ _ _ Hw) as Hi.
  apply Forall_cons in Hi as [[[Hq Hle] _] Hi]. apply Forall_cons in Hi as [[_ Hp] _].
  apply waits_sub in Hw as [Hw Hl]. exists lvl. apply (waits_await lvl s p q k L G); [done|done|done|done|right; left; lia].
Qed.

(** A call on another component. *)
Lemma due_call c s G : due s G -> due (call c s).1 G /\ is_Some (map_get (nextId s) (calls (call c s).1)).
Proof.
  intros [lvl Hw]. set (s' := (call c s).1). split; [|cbn; by rewrite map_get_set_eq]. exists lvl.
  assert (grows s s' G G) as Hg.
  { constructor; [|cbn; lia| |done|unfold active; by eauto|unfold active; by eauto| |still].
    3: { intros [Ho Hu]. split; [done|]. eapply Forall_impl; [exact Hu|]. intros p (? & ? & ?).
         split_and!; [cbn; lia|done|]. cbn. rewrite map_get_set, decide_False by lia. done. }
    { intros Hfr j Hj. cbn in *. rewrite map_get_set. case_decide; [lia|]. apply Hfr. lia. }
    cbn. intros q Hq. rewrite map_get_set. by case_decide. }
  eapply waits_grow; [exact Hw|exact Hg|done|done|..].
  - eapply Forall_impl; [apply Hw|]. intros t. by apply task_grows.
  - eapply Forall_impl; [apply Hw|]. intros t. by apply item_grows.
Qed.

Lemma due_await_call p c k L s G :
  (frame_level k <= L)%nat -> due s (Hand p L :: owners k ++ G) -> due (await_call p c k s) G.
Proof.
  intros Hk Hs. apply (due_call c) in Hs as [[lvl Hw] Ha]. exists lvl.
  apply (waits_await lvl (call c s).1 p (nextId s) k L G); [done|cbn; lia|done|by left|left; by right].
Qed.

(** A method of a level settles its promise or waits. *)
Definition serves (L : nat) (m : nat -> Session -> Session) : Prop :=
  forall q y G, due y (Hand q L :: G) -> due (m q y) G.

Lemma due_await_async p m k Lm L s G :
  serves Lm m -> (frame_level k <= L)%nat -> (Lm < L)%nat -> due s (Hand p L :: owners k ++ G) ->
  due (await_async p m k s) G.
Proof.
  intros Hm Hk HL Hs. unfold await_async. cbn [new_promise].
  apply (due_await _ p (nextId s) k L Lm); [done|done|]. apply Hm, due_new, Hs.
Qed.

Lemma due_sub s q hi G : due s (Sub q hi :: G) -> due s G.
Proof. intros [lvl Hw]. exists lvl. by apply waits_sub in Hw as [Hw _]. Qed.

Lemma due_start_async m Lm s G : serves Lm m -> due s G -> due (start_async m s) G.
Proof. intros Hm Hs. unfold start_async. cbn [new_promise]. eapply due_sub, Hm, due_new, Hs. Qed.

(** ** The chain of crypto tasks *)

Lemma due_chained s t G :
  Sub t 0 ∈ G -> active s G t -> (forall r, last (cryptoSerial s) = Some r -> turn s r t) ->
  due s G -> due (s <| cryptoSerial := cryptoSerial s ++ [t] |>) G.
Proof.
  intros Ht Ha Hl [lvl Hw]. exists lvl. pose proof (wt_items _ _ _ Hw) as Hi. eapply Forall_forall in Hi; [|exact Ht].
  destruct Hw. constructor; try done; [cbn; apply Forall_app; split; [done|]; apply Forall_singleton; by destruct Hi|].
  intros i t1 t2. cbn. intros H1 H2. destruct (decide (S i < length (cryptoSerial s))%nat) as [Hlt|Hge].
  - rewrite lookup_app_l in H1, H2 by lia. by apply (wt_order0 i).
  - assert (i < length (cryptoSerial s))%nat as Hlt.
    { apply lookup_lt_Some in H2. rewrite length_app in H2. cbn in H2. lia. }
    rewrite lookup_app_l in H1 by done. rewrite lookup_app_r in H2 by lia.
    replace (S i - length (cryptoSerial s))%nat with 0%nat in H2 by lia. injection H2 as <-.
    apply Hl. rewrite last_lookup. by replace (Init.Nat.pred (length (cryptoSerial s))) with i by lia.
Qed.

(** A task waits for the last one of the chain. *)
Lemma due_turn s t r task G :
  last (cryptoSerial s) = Some r -> (r < t)%nat -> due s (Hand t 0 :: G) -> due (await t r (KCryptoTurn task) s) G.
Proof.
  intros Hr Hlt [lvl Hw]. exists lvl. apply last_Some_elem_of in Hr. pose proof (wt_serial _ _ _ Hw) as Hs.
  eapply Forall_forall in Hs; [|exact Hr]. destruct Hs as [[Hn Hl] Ha].
  pose proof (wt_items _ _ _ Hw) as Hi. apply Forall_cons in Hi as [[_ Hp] _].
  apply (waits_await lvl s t r (KCryptoTurn task) 0 G); [done|done|done|by right|]. right. right. lia.
Qed.

(** A promise that is resolved from the start. *)
Lemma due_resolved s G v :
  due s G -> due (settle (nextId s) (Fulfilled v) (s <| nextId := S (nextId s) |>)) G.
Proof. intros H. eapply due_sub, due_settle, (due_new _ 0), H. Qed.

Lemma due_resolved_turn s t r task v G :
  map_get r (promises s) = Some v -> due s (Hand t 0 :: G) -> due (await t r (KCryptoTurn task) s) G.
Proof.
  intros Hr [lvl Hw]. exists lvl. assert (answered s r) as Ha by (left; by eexists).
  apply (waits_await lvl s t r (KCryptoTurn task) 0 G); [done| |done|right; left; by eexists|by left].
  destruct (Nat.lt_ge_cases r (nextId s)) as [|Hn]; [done|]. apply (wt_fresh _ _ _ Hw) in Hn as [Hn _]. congruence.
Qed.

Lemma serial_known s t G : due s G -> last (cryptoSerial s) = Some t -> (t < nextId s)%nat.
Proof.
  intros [lvl Hw] Ht. apply last_Some_elem_of in Ht. pose proof (wt_serial _ _ _ Hw) as Hs.
  eapply Forall_forall in Hs; [|exact Ht]. apply Hs.
Qed.

Lemma due_runCrypto p task k L s G :
  (frame_level k <= L)%nat -> (0 < L)%nat -> due s (Hand p L :: owners k ++ G) -> due (runCrypto p task k s) G.
Proof.
  intros Hk HL H. unfold runCrypto. cbn [new_promise]. pose proof (due_new _ 0 _ H) as Hn.
  set (t := nextId s) in *. set (x := s <| nextId := S t |>) in *.
  destruct (serial_tail x) as [y r] eqn:Et.
  assert (due (await t r (KCryptoTurn task) y) (Sub t 0 :: Hand p L :: owners k ++ G)) as Hy.
  { unfold serial_tail in Et. destruct (last (cryptoSerial x)) as [r'|] eqn:El.
    - injection Et as <- <-. apply due_turn; [done| |done]. by apply (serial_known s _ _ H).
    - cbn [new_promise] in Et. injection Et as <- <-. eapply due_resolved_turn; [cbn; by rewrite map_get_set_eq|].
      exact (due_resolved x _ VUnit Hn). }
  assert ((t, r, KCryptoTurn task) ∈ tasks (await t r (KCryptoTurn task) y)) as Hin.
  { cbn. apply elem_of_app. right. by left. }
  apply (due_await _ p t k L 0); [done|done|]. apply due_chained; [by left|right; left; by exists r, (KCryptoTurn task)| |exact Hy].
  intros r' Hr'. right. exists task. unfold serial_tail in Et.
  destruct (last (cryptoSerial x)) as [r''|] eqn:El; [|cbn [new_promise] in Et]; injection Et as <- <-;
    cbn in Hr', El; rewrite El in Hr'; [|done]. by injection Hr' as ->.
Qed.

(** ** Flags *)

Definition flags_held (s : Session) (G : list Item) : Prop :=
  (forall w, epochPreparation s = Some w -> held s G (OwnPrepare w)) /\
  (startupInFlight s = true -> held s G OwnStart) /\
  (establishing s = true -> held s G OwnEstablish) /\
  (outboundVoicePumping s = true -> held s G OwnPump) /\
  (inboundVoiceScheduled s = true -> IVoice ∈ inboundSerial s \/ held s G OwnVoice).

Lemma due_held s G : due s G -> flags_held s G.
Proof. intros [lvl []]. split_and!; try done. intros w Hw. by apply wt_prepare0. Qed.

(** The items other than owners. *)
Fixpoint duties (G : list Item) : list Item :=
  match G with
  | Own _ :: G => duties G
  | i :: G => i :: duties G
  | [] => []
  end.

Lemma elem_of_duties i G : i ∈ duties G <-> i ∈ G /\ (forall o, i <> Own o).
Proof. induction G as [|[] G IH]; cbn [duties]; set_solver. Qed.

Lemma hands_duties G : hands (duties G) = hands G.
Proof. induction G as [|[] G IH]; cbn [duties hands]; by rewrite ?IH. Qed.

(** Flags and their owners may change together. *)
Lemma due_move s s' G G' :
  due s G -> (nextId s', tasks s', promises s', calls s', inboundRunning s') =
             (nextId s, tasks s, promises s, calls s, inboundRunning s) ->
  duties G' = duties G ->
  (forall w, epochPreparation s' = Some w -> epochPreparation s = Some w) ->
  cryptoSerial s' = cryptoSerial s \/ cryptoSerial s' = [] ->
  flags_held s' G' -> due s' G'.
Proof.
  intros [lvl Hw] E Hd Hp Hc (F1 & F2 & F3 & F4 & F5). injection E as E1 E2 E3 E4 E5. exists lvl.
  assert (hands G' = hands G) as Hh by by rewrite <- hands_duties, Hd, hands_duties.
  assert (grows s s' G G') as Hg.
  { constructor; [unfold fresh_ids; by rewrite E1, E3, E4|by rewrite E1|..]; unfold active;
      rewrite ?E2, ?E3, ?E4; [done|done|eauto| |by apply once_same; [apply acting_tasks|rewrite E1|..]|
      by intros ? ?; apply turn_same].
    intros q lo H. right. right. exists lo. apply (elem_of_duties (Hand q lo)). rewrite Hd. by apply elem_of_duties. }
  destruct Hw. constructor; [by apply Hg|..|done|done|done|done].
  - rewrite E2. eapply Forall_impl; [exact wt_tasks0|]. intros t. by apply task_grows.
  - apply Forall_forall. intros i Hi. destruct i as [p lo|q hi|o]; [..|done];
      (eapply item_grows; [exact Hg|]; eapply Forall_forall in wt_items0; [exact wt_items0|];
       apply (elem_of_duties _ G); rewrite <- Hd; by apply elem_of_duties).
  - intros w Hw. split; [|by apply F1]. rewrite E1. destruct (wt_prepare0 w (Hp w Hw)) as [[? ?] _].
    split; [done|]. by eapply live_grows.
  - destruct Hc as [-> | ->]; [|done]. eapply Forall_impl; [exact wt_serial0|]. intros t [? ?]. rewrite E1.
    split; [done|]. by eapply active_grows.
  - by apply Hg.
  - unfold in_turn. destruct Hc as [-> | ->]; [|done]. intros i t1 t2 H1 H2. by eapply gr_turn, wt_order0.
  - rewrite E5. intros q Hq. eapply active_grows; [exact Hg|by apply wt_running0].
Qed.

Lemma held_move s s' G G' o :
  tasks s' = tasks s -> (Own o ∈ G -> Own o ∈ G') -> held s G o -> held s' G' o.
Proof. unfold held. intros -> HG [H|H]; auto. Qed.

Lemma voice_move s s' G G' :
  tasks s' = tasks s -> (Own OwnVoice ∈ G -> Own OwnVoice ∈ G') ->
  (IVoice ∈ inboundSerial s -> IVoice ∈ inboundSerial s') ->
  IVoice ∈ inboundSerial s \/ held s G OwnVoice -> IVoice ∈ inboundSerial s' \/ held s' G' OwnVoice.
Proof. intros E HG Hi [H|H]; [left; auto|right]. by eapply held_move. Qed.

(** Membership in a context given by its items. *)
Ltac items :=
  intros; repeat match goal with i : Item |- _ => destruct i end;
  cbn [owners frame_owner fmap list_fmap app] in *; set_solver.
(** A change of flags: each flag is as before, or it changes with its owner. *)
Ltac flag_moved :=
  let Hs := fresh "Hs" in
  intros Hs; pose proof (due_held _ _ Hs) as (? & ? & ? & ? & ?);
  match type of Hs with
  | due ?s ?G =>
      match goal with
      | |- due ?s' ?G' =>
          apply (due_move s s' G G' Hs eq_refl); [reflexivity|intros ?; cbn; congruence|first [by left|by right]|];
          unfold flags_held; cbn [update epochPreparation startupInFlight establishing outboundVoicePumping
            inboundVoiceScheduled end_establishing clear_handshake_flags enqueueInbound];
          split_and!; intros; try congruence;
          first
            [ match goal with |- held _ _ ?o => apply (held_move s s' G G' o eq_refl); [items|by auto] end
            | apply (voice_move s s' G G' eq_refl); [items|cbn; set_solver|by auto]
            | left; cbn; set_solver ]
      end
  end.

Lemma due_own s o p L G : due s (Hand p L :: G) -> due s (Hand p L :: Own o :: G).
Proof. flag_moved. Qed.

Lemma due_start_set s p L G :
  due s (Hand p L :: G) -> due (s <| startupInFlight := true |>) (Hand p L :: Own OwnStart :: G).
Proof. flag_moved. Qed.
Lemma due_start_clear s p L G :
  due s (Hand p L :: Own OwnStart :: G) -> due (s <| startupInFlight := false |>) (Hand p L :: G).
Proof. flag_moved. Qed.

Lemma due_establish_set s p L G :
  due s (Hand p L :: G) -> due (s <| establishing := true |>) (Hand p L :: Own OwnEstablish :: G).
Proof. flag_moved. Qed.
Lemma due_establish_clear s p L G :
  due s (Hand p L :: Own OwnEstablish :: G) -> due (end_establishing s) (Hand p L :: G).
Proof. flag_moved. Qed.
Lemma due_handshake_flags s G : due s G -> due (clear_handshake_flags s) G.
Proof. flag_moved. Qed.

Lemma due_pump_set s p L G :
  due s (Hand p L :: G) -> due (s <| outboundVoicePumping := true |>) (Hand p L :: Own OwnPump :: G).
Proof. flag_moved. Qed.
Lemma due_pump_clear s p L G :
  due s (Hand p L :: Own OwnPump :: G) -> due (s <| outboundVoicePumping := false |>) (Hand p L :: G).
Proof. flag_moved. Qed.

Lemma due_voice_clear s p L G :
  due s (Hand p L :: Own OwnVoice :: G) -> due (s <| inboundVoiceScheduled := false |>) (Hand p L :: G).
Proof. flag_moved. Qed.
Lemma due_voice_off s G : due s G -> due (s <| inboundVoiceScheduled := false |>) G.
Proof. flag_moved. Qed.
Lemma due_enqueue t s G : due s G -> due (enqueueInbound t s) G.
Proof. flag_moved. Qed.
Lemma due_scheduleVoice s G : due s G -> due (scheduleInboundVoice s) G.
Proof. unfold scheduleInboundVoice. destruct (inboundVoiceScheduled s); [done|]. flag_moved. Qed.

Lemma due_prepare_off s G : due s G -> due (s <| epochPreparation := None |>) G.
Proof. flag_moved. Qed.

(** ** Automation *)

Lemma due_settled s p o G : due s (Hand p 0 :: G) -> due (settle p o s) G.
Proof. apply due_settle. Qed.
Lemma due_ret s p G : due s (Hand p 0 :: G) -> due (ret p s) G.
Proof. apply due_settle. Qed.
Lemma due_ret_bool s p b G : due s (Hand p 0 :: G) -> due (ret_bool p b s) G.
Proof. apply due_settle. Qed.
Lemma due_throw s p e G : due s (Hand p 0 :: G) -> due (throw p e s) G.
Proof. apply due_settle. Qed.
Lemma due_effect e s G : due s G -> due (effect e s) G.
Proof. by apply due_same. Qed.
Lemma due_view f s G : due s G -> due (on_view f s) G.
Proof. by apply due_same. Qed.
Lemma due_patch f s G : due s G -> due (patch_view f s) G.
Proof. by apply due_same. Qed.
Lemma due_notice t s G : due s G -> due (set_notice t s) G.
Proof. by apply due_same. Qed.
Lemma due_system a t sev s G : due s G -> due (system a t sev s) G.
Proof. by apply due_same. Qed.
Lemma due_remoteVoice b s G : due s G -> due (set_remoteVoice b s) G.
Proof. by apply due_same. Qed.
Lemma due_order s G : due s G -> due (clear_order s) G.
Proof. by apply due_same. Qed.
Lemma due_forget s G : due s G -> due (forget_keys s) G.
Proof. flag_moved. Qed.
Lemma due_drop r n s G : due s G -> due (record_drop r n s) G.
Proof. unfold record_drop. destruct (n =? 0); by apply due_same. Qed.
Lemma due_called c s G : due s G -> due (call c s).1 G.
Proof. apply due_call. Qed.

(** The level that an await needs. *)
Lemma due_waits_call p c k s G : due s (Hand p (frame_level k) :: owners k ++ G) -> due (await_call p c k s) G.
Proof. by apply due_await_call. Qed.
Lemma due_waits_crypto p task k s G :
  due s (Hand p (1 `max` frame_level k) :: owners k ++ G) -> due (runCrypto p task k s) G.
Proof. apply due_runCrypto; lia. Qed.
Lemma due_waits p m k Lm s G :
  serves Lm m -> due s (Hand p (S Lm `max` frame_level k) :: owners k ++ G) -> due (await_async p m k s) G.
Proof. intros Hm. apply (due_await_async p m k Lm); [done|lia..]. Qed.

Create HintDb due discriminated.
Create HintDb serves discriminated.
#[export] Hint Constants Opaque : due serves.
#[export] Hint Resolve due_settled due_ret due_ret_bool due_throw due_effect due_view due_patch due_notice due_system
  due_remoteVoice due_order due_forget due_drop due_called due_start_set due_start_clear due_establish_set
  due_establish_clear due_handshake_flags due_pump_set due_pump_clear due_enqueue due_scheduleVoice : due.
#[export] Hint Extern 0 (due ?x ?G) => assumption : due.
#[export] Hint Extern 0 (due ?x (Hand ?p ?L :: ?G)) =>
  match goal with H : due x (Hand p ?L' :: G) |- _ => apply (due_level x p L' L G); [lia|exact H] end : due.
(** A field that does not matter here; its value is put out of the way. *)
Ltac due_field x G := cut (due x G); [generalize x; intros ?; apply due_same; reflexivity|].
#[export] Hint Extern 2 (due (@update _ _ _ _ _ ?x) ?G) => due_field x G : due.
Ltac items_of := cbn [owners frame_level frame_owner fmap list_fmap app Nat.max].
#[export] Hint Extern 1 (due (await_call ?p ?c ?k ?x) ?G) => apply (due_waits_call p c k x G); items_of : due.
#[export] Hint Extern 1 (due (runCrypto ?p ?t ?k ?x) ?G) => apply (due_waits_crypto p t k x G); items_of : due.
#[export] Hint Extern 1 (due (await_async ?p ?m ?k ?x) ?G) =>
  eapply (due_waits p m k _ x G); [solve [auto with serves]|items_of] : due.
#[export] Hint Extern 1 (due (start_async ?m ?x) ?G) =>
  eapply (due_start_async m _ x G); [solve [auto with serves]|] : due.

(** The cases of a method, each a composition of the above. *)
Ltac due := intros; repeat case_match; auto 30 with due.

(** ** Starting, ending and handshakes *)

Lemma due_clearOutbound s G : due s G -> due (clearOutboundVoiceQueue s) G.
Proof. unfold clearOutboundVoiceQueue. due. Qed.
#[export] Hint Resolve due_clearOutbound : due.
Lemma due_clearVoice s G : due s G -> due (clearVoiceQueues s) G.
Proof. unfold clearVoiceQueues. intros. case_match. apply due_voice_off. due. Qed.
#[export] Hint Resolve due_clearVoice : due.
Lemma due_filePause s G : due s G -> due (updateFilePauseForVoice s) G.
Proof. unfold updateFilePauseForVoice. due. Qed.
#[export] Hint Resolve due_filePause : due.
Lemma due_limits s G : due s G -> due (updateVoiceQueueLimits s) G.
Proof. unfold updateVoiceQueueLimits. due. Qed.
#[export] Hint Resolve due_limits : due.
Lemma due_applyProfile p s G : due s G -> due (apply_profile p s) G.
Proof. unfold apply_profile. due. Qed.
#[export] Hint Resolve due_applyProfile : due.
Lemma due_setProfile i s G : due s G -> due (setProfile i s) G.
Proof. unfold setProfile. due. Qed.
Lemma due_new_lifecycle s G : due s G -> due (new_lifecycle s) G.
Proof. unfold new_lifecycle. intros. apply due_handshake_flags, due_prepare_off. due. Qed.
#[export] Hint Resolve due_setProfile due_new_lifecycle : due.
Lemma due_disconnect silent forgetSlot text s G : due s G -> due (disconnect silent forgetSlot text s) G.
Proof. unfold disconnect, drop_session, reset_transfers. due. Qed.
#[export] Hint Resolve due_disconnect : due.
Lemma due_endChat a s G : due s G -> due (endChatForBoth a s) G.
Proof. unfold endChatForBoth. due. Qed.
Lemma due_endTimer s G : due s G -> due (end_timer_fired s) G.
Proof. unfold end_timer_fired. due. Qed.
#[export] Hint Resolve due_endChat due_endTimer : due.
Lemma serves_sendHandshake b : serves 0 (sendHandshake b).
Proof. unfold serves, sendHandshake. due. Qed.
#[export] Hint Resolve serves_sendHandshake : serves.
Lemma due_handshake_resume b key l e pr hash p a s G :
  due s (Hand p 0 :: G) -> due (sendHandshake_resume b key l e pr hash p a s) G.
Proof. unfold sendHandshake_resume. due. Qed.
#[export] Hint Resolve due_handshake_resume : due.
Lemma serves_initial : serves 1 sendInitialHandshake.
Proof. unfold serves, sendInitialHandshake. due. Qed.
Lemma serves_reply : serves 1 sendReplyHandshake.
Proof. unfold serves, sendReplyHandshake. due. Qed.
#[export] Hint Resolve serves_initial serves_reply : serves.
Lemma serves_start code ph i : serves 2 (start code ph i).
Proof. unfold serves, start, start_reset. due. Qed.
#[export] Hint Resolve serves_start : serves.
Lemma serves_createRoom : serves 3 createRoom.
Proof. unfold serves, createRoom. due. Qed.
Lemma serves_joinRoom code : serves 3 (joinRoom code).
Proof. unfold serves, joinRoom. due. Qed.
#[export] Hint Resolve serves_createRoom serves_joinRoom : serves.
Lemma due_startup_failed e p s G : due s (Hand p 0 :: Own OwnStart :: G) -> due (startup_failed e p s) G.
Proof. unfold startup_failed. due. Qed.
#[export] Hint Resolve due_startup_failed : due.
Lemma due_onDelivered id s G : due s G -> due (onDelivered id s) G.
Proof. unfold onDelivered. due. Qed.
Lemma due_onFailed a id r s G : due s G -> due (onFailed a id r s) G.
Proof. unfold onFailed. due. Qed.
#[export] Hint Resolve due_onDelivered due_onFailed : due.
Lemma due_failures a s G : due s G -> due (fail_messages a s) G.
Proof.
  intros H. unfold fail_messages. apply (due_effect (ReliableFailAll session_changed)) in H.
  revert H. generalize (effect (ReliableFailAll session_changed) s). clear s.
  induction (an_failed a) as [|id l IH]; intros s H; [done|]. apply IH. due.
Qed.
#[export] Hint Resolve due_failures : due.
Lemma due_fresh text a s G : due s G -> due (fresh_epoch text a s) G.
Proof. unfold fresh_epoch, reset_transfers, new_epoch. due. Qed.
#[export] Hint Resolve due_fresh : due.
Lemma serves_work text a : serves 2 (prepare_work text a).
Proof. unfold serves, prepare_work. due. Qed.

(** The preparation that is under way can be awaited. *)
Lemma due_preparation s w G : epochPreparation s = Some w -> due s G -> due s (Sub w 2 :: G).
Proof.
  intros Hp [lvl Hw]. exists lvl. destruct (wt_prepare _ _ _ Hw w Hp) as [[Hn Hl] _].
  assert (grows s s G (Sub w 2 :: G)) as Hg.
  { constructor; [done|done|done|done|unfold active; eauto| |still|still]. intros q lo H. right. right. exists lo. by right. }
  eapply waits_grow; [exact Hw|exact Hg|done|..].
  - intros o [H|H]; [left; by right|by right].
  - eapply Forall_impl; [apply Hw|]. intros t. by apply task_grows.
  - constructor; [split; [done|by eapply live_grows]|]. eapply Forall_impl; [apply Hw|]. intros t. by apply item_grows.
Qed.

Lemma due_prepare_set s w G :
  Sub w 2 ∈ G -> Own (OwnPrepare w) ∈ G -> due s G -> due (s <| epochPreparation := Some w |>) G.
Proof.
  intros Hs Ho [lvl Hw]. exists lvl. pose proof (wt_items _ _ _ Hw) as Hi. eapply Forall_forall in Hi; [|exact Hs].
  destruct Hw. constructor; cbn; try done. intros w' [= <-]. split; [exact Hi|by left].
Qed.

Lemma serves_prepare text a : serves 3 (prepareFreshCryptoEpoch text a).
Proof.
  intros p s G H. unfold prepareFreshCryptoEpoch. destruct (epochPreparation s) as [w|] eqn:Hp.
  - apply (due_await s p w KReturn 3 2); [cbn; lia|lia|]. by apply due_preparation.
  - cbn [new_promise]. set (w := nextId s).
    apply (due_await _ p w (KPrepared w) 3 2); [cbn; lia|lia|].
    apply due_prepare_set; [by left|items_of; set_solver|]. apply serves_work, due_new, due_own, H.
Qed.
#[export] Hint Resolve serves_prepare : serves.

Lemma due_prepared w p o s G : due s (Hand p 0 :: Own (OwnPrepare w) :: G) -> due (prepared w p o s) G.
Proof.
  intros H. unfold prepared. apply due_settled. case_bool_decide as Hw; revert H; [flag_moved|].
  intros Hs. pose proof (due_held _ _ Hs) as (F1 & F2 & F3 & F4 & F5).
  apply (due_move s s _ _ Hs eq_refl); [done|done|by left|].
  split_and!; intros;
    [apply (held_move s s (Hand p 0 :: Own (OwnPrepare w) :: G) _ _ eq_refl); [|by auto]..
    |apply (voice_move s s (Hand p 0 :: Own (OwnPrepare w) :: G) _ eq_refl); [items|done|by auto]]; [|items..].
  intros Hin. apply elem_of_cons in Hin as [|Hin]; [done|]. apply elem_of_cons in Hin as [[= ->]|Hin]; [done|by right].
Qed.
#[export] Hint Resolve due_prepared : due.
Lemma due_start_connected l p s G : due s (Hand p 2 :: G) -> due (start_connected l p s) G.
Proof. unfold start_connected. due. Qed.
Lemma due_start_identity l code key p s G : due s (Hand p 2 :: G) -> due (start_identity l code key p s) G.
Proof. unfold start_identity. due. Qed.
Lemma due_start_configured l code p s G : due s (Hand p 2 :: G) -> due (start_configured l code p s) G.
Proof. unfold start_configured. due. Qed.
Lemma due_work_reset l w s G : due s (Hand w 2 :: G) -> due (work_reset l w s) G.
Proof. unfold work_reset. due. Qed.
Lemma due_work_identity l key a w s G : due s (Hand w 2 :: G) -> due (work_identity l key a w s) G.
Proof. unfold work_identity. due. Qed.
#[export] Hint Resolve due_start_connected due_start_identity due_start_configured due_work_reset
  due_work_identity : due.

(** ** Messages, files and voice *)

Lemma due_run_task task t s G : due s (Hand t 0 :: G) -> due (run_task task t s) G.
Proof. destruct task; cbn [run_task]; due. Qed.
#[export] Hint Resolve due_run_task : due.
Lemma serves_sendRawApp m lane a : serves 1 (sendRawApp m lane a).
Proof. unfold serves, sendRawApp. due. Qed.
#[export] Hint Resolve serves_sendRawApp : serves.
Lemma due_encrypted e ch o a p s G : due s (Hand p 0 :: G) -> due (encrypted e ch o a p s) G.
Proof. unfold encrypted. due. Qed.
Lemma serves_sendApp m lane id a : serves 2 (sendApp m lane id a).
Proof. unfold serves, sendApp. due. Qed.
#[export] Hint Resolve serves_sendApp : serves.
#[export] Hint Resolve due_encrypted : due.
Lemma serves_sendText body a : serves 3 (sendText body a).
Proof. unfold serves, sendText, no_encryption. due. Qed.
Lemma due_text_sent id ok p s G : due s (Hand p 0 :: G) -> due (text_sent id ok p s) G.
Proof. unfold text_sent. due. Qed.
Lemma serves_markVerified m a : serves 3 (markVerified m a).
Proof. unfold serves, markVerified, no_encryption. due. Qed.
Lemma serves_offerFile name size : serves 0 (offerFile name size).
Proof. unfold serves, offerFile. due. Qed.
Lemma due_file_offered q v id a p s G : due s (Hand p 0 :: G) -> due (file_offered q v id a p s) G.
Proof. unfold file_offered. due. Qed.
Lemma serves_cancelFile id : serves 0 (cancelFile id).
Proof. unfold serves, cancelFile. due. Qed.
Lemma serves_startVoice : serves 3 startVoice.
Proof. unfold serves, startVoice. due. Qed.
Lemma due_voice_started a p s G : due s (Hand p 3 :: G) -> due (voice_started a p s) G.
Proof. unfold voice_started. due. Qed.
Lemma due_voice_failed r a p s G : due s (Hand p 0 :: G) -> due (voice_failed r a p s) G.
Proof. unfold voice_failed. due. Qed.
Lemma due_fail_timer s G : due s G -> due (fail_timer_fired s) G.
Proof. unfold fail_timer_fired. due. Qed.
Lemma serves_stopVoice a : serves 3 (stopVoice a).
Proof. unfold serves, stopVoice. due. Qed.
Lemma due_voice_stopped a p s G : due s (Hand p 0 :: G) -> due (voice_stopped a p s) G.
Proof. unfold voice_stopped. due. Qed.
Lemma due_toggleMute s G : due s G -> due (toggleMute s) G.
Proof. unfold toggleMute. due. Qed.
Lemma due_playback b p s G : due s (Hand p 0 :: G) -> due (playback_enabled b p s) G.
Proof. unfold playback_enabled. due. Qed.
#[export] Hint Resolve serves_sendText serves_markVerified serves_offerFile serves_cancelFile serves_startVoice
  serves_stopVoice : serves.
#[export] Hint Resolve due_text_sent due_file_offered due_voice_started due_voice_failed due_fail_timer
  due_voice_stopped due_toggleMute due_playback : due.

(** ** Voice frames *)

Lemma due_pump_turn e a p s G :
  due s (Hand p 2 :: Own OwnPump :: G) ->
  if (pump_turn e a p s).2 then due (pump_turn e a p s).1 G
  else due (pump_turn e a p s).1 (Hand p 2 :: Own OwnPump :: G).
Proof. intros H. unfold pump_turn. repeat case_match; simplify_eq; cbn [fst snd]; due. Qed.
Lemma serves_pump_again a : serves 2 (pump_again a).
Proof.
  intros p s G H. unfold pump_again. apply due_pump_set, (due_pump_turn (voiceQueueEpoch s) a) in H.
  destruct (pump_turn _ _ _ _) as [y []]; cbn [fst snd] in H; due.
Qed.
#[export] Hint Resolve serves_pump_again : serves.
Lemma due_pump_finally e a p s G : due s (Hand p 2 :: Own OwnPump :: G) -> due (pump_finally e a p s) G.
Proof. unfold pump_finally. due. Qed.
#[export] Hint Resolve due_pump_finally : due.
Lemma due_pump_resume e a p s G : due s (Hand p 2 :: Own OwnPump :: G) -> due (pump_resume e a p s) G.
Proof.
  intros H. unfold pump_resume. apply (due_pump_turn e a) in H.
  destruct (pump_turn e a p s) as [y []]; cbn [fst snd] in H; due.
Qed.
#[export] Hint Resolve due_pump_resume : due.
Lemma serves_pump a : serves 2 (pumpOutboundVoice a).
Proof. unfold serves, pumpOutboundVoice. due. Qed.
#[export] Hint Resolve serves_pump : serves.
Lemma due_queueOutbound f a s G : due s G -> due (queueOutboundVoice f a s) G.
Proof. unfold queueOutboundVoice. due. Qed.
Lemma due_queueInbound env e a s G : due s G -> due (queueInboundVoice env e a s) G.
Proof. unfold queueInboundVoice. due. Qed.
#[export] Hint Resolve due_queueOutbound due_queueInbound : due.
Lemma due_route env a s G : due s G -> due (routeEnvelope env a s) G.
Proof. unfold routeEnvelope. due. Qed.
#[export] Hint Resolve due_route : due.

(** ** Inbound *)

Lemma serves_handleHandshake payload : serves 2 (handleHandshake payload).
Proof. unfold serves, handleHandshake. due. Qed.
#[export] Hint Resolve serves_handleHandshake : serves.
Lemma due_reply_sent hs key p s G : due s (Hand p 1 :: Own OwnEstablish :: G) -> due (reply_sent hs key p s) G.
Proof. unfold reply_sent. due. Qed.
Lemma due_peer_hash hs key h a p s G :
  due s (Hand p 1 :: Own OwnEstablish :: G) -> due (peer_hash hs key h a p s) G.
Proof. unfold peer_hash. due. Qed.
Lemma due_established hs key p s G : due s (Hand p 1 :: Own OwnEstablish :: G) -> due (established hs key p s) G.
Proof.
  intros H. unfold established. case_match; [due|]. cbn [new_promise].
  apply (due_await _ p _ KPhrase 1 0); [cbn; lia|lia|]. apply due_throw, (due_new _ 0). due.
Qed.
Lemma due_phrase_ready t a p s G : due s (Hand p 0 :: Own OwnEstablish :: G) -> due (phrase_ready t a p s) G.
Proof. unfold phrase_ready. due. Qed.
#[export] Hint Resolve due_reply_sent due_peer_hash due_established due_phrase_ready : due.
Lemma due_core m a p s G : due s (Hand p 0 :: G) -> due (handleCoreMessage m a p s) G.
Proof. unfold handleCoreMessage. due. Qed.
#[export] Hint Resolve due_core : due.
Lemma serves_core m a : serves 0 (handleAppMessage (Core m) a).
Proof. intros p s G H. apply (due_core m a p s G H). Qed.
Lemma serves_app m a : serves 1 (handleAppMessage m a).
Proof. unfold serves, handleAppMessage. due. Qed.
#[export] Hint Resolve serves_core | 0 : serves.
#[export] Hint Resolve serves_app | 1 : serves.
Lemma due_received body a p s G : due s (Hand p 1 :: G) -> due (received body a p s) G.
Proof. unfold received. due. Qed.
Lemma due_played b a p s G : due s (Hand p 0 :: G) -> due (played b a p s) G.
Proof. unfold played. due. Qed.
Lemma due_dropped p s G : due s (Hand p 0 :: G) -> due (packet_dropped p s) G.
Proof. unfold packet_dropped. due. Qed.
#[export] Hint Resolve due_received due_played due_dropped : due.
Lemma serves_onEnvelope env e : serves 3 (onEnvelope env e).
Proof. unfold serves, onEnvelope. due. Qed.
#[export] Hint Resolve serves_onEnvelope : serves.
Lemma due_decrypted e ch env m a p s G : due s (Hand p 2 :: G) -> due (decrypted e ch env m a p s) G.
Proof. unfold decrypted. due. Qed.
Lemma due_inbound_finally p o s G : due s (Hand p 0 :: Own OwnVoice :: G) -> due (inbound_voice_finally p o s) G.
Proof.
  intros H. unfold inbound_voice_finally. apply due_settled. apply due_voice_clear in H. destruct (_ <? _); due.
Qed.
#[export] Hint Resolve due_decrypted due_inbound_finally : due.
Lemma due_processOne a p s G : due s (Hand p 4 :: Own OwnVoice :: G) -> due (processOneInboundVoice a p s) G.
Proof. unfold processOneInboundVoice. due. Qed.
Lemma due_connected_prepared p s G : due s (Hand p 2 :: G) -> due (connected_prepared p s) G.
Proof. unfold connected_prepared. due. Qed.
#[export] Hint Resolve due_processOne due_connected_prepared : due.
Lemma due_onStatus st a p s G : due s (Hand p 4 :: G) -> due (onConnectionStatus st a p s) G.
Proof. unfold onConnectionStatus. due. Qed.
Lemma due_peer_disconnected a p s G : due s (Hand p 0 :: G) -> due (Session.peer_disconnected a p s) G.
Proof. unfold Session.peer_disconnected. due. Qed.
Lemma due_peer_rejoined a p s G : due s (Hand p 2 :: G) -> due (Session.peer_rejoined a p s) G.
Proof. unfold Session.peer_rejoined. due. Qed.
Lemma due_onRelay ev a p s G : due s (Hand p 4 :: G) -> due (onRelayEvent ev a p s) G.
Proof. unfold onRelayEvent. due. Qed.
#[export] Hint Resolve due_onStatus due_peer_disconnected due_peer_rejoined due_onRelay : due.

(** ** Continuations and events *)

Lemma due_resume p q k o a s G :
  due s (Hand p (frame_level k) :: owners k ++ G) -> due (resume p q k o a s) G.
Proof.
  intros H. destruct k; revert H; items_of; intros H; cbn [resume];
    unfold or_throw, or_end_establishing; repeat case_match; simplify_eq; auto 30 with due.
Qed.

Lemma elem_of_deleted {A} (l : list A) i x t : l !! i = Some x -> t ∈ l -> t = x \/ t ∈ delete i l.
Proof.
  intros Hi Ht. rewrite delete_take_drop. rewrite <- (take_drop_middle l i x Hi) in Ht.
  apply elem_of_app in Ht as [Ht|Ht]; [right; apply elem_of_app; by left|].
  apply elem_of_cons in Ht as [Ht|Ht]; [by left|right; apply elem_of_app; by right].
Qed.

(** A task that goes on is at hand. *)
Lemma due_taken i p q k s :
  tasks s !! i = Some (p, q, k) -> is_Some (map_get q (promises s)) -> due s [] ->
  due (s <| tasks := delete i (tasks s) |>) (Hand p (frame_level k) :: owners k).
Proof.
  intros Hi Hq [lvl Hw]. exists lvl. set (s' := s <| tasks := delete i (tasks s) |>).
  set (G := Hand p (frame_level k) :: owners k).
  assert (grows s s' [] G) as Hg.
  { constructor; [done|done|done|done| |by intros ? ? ?%elem_of_nil| |].
    2: { apply once_same; [|done|done|done]. unfold acting, s', G. cbn [hands]. rewrite hands_owners, app_nil_r. cbn.
         rewrite <- Permutation_cons_append. change (p :: (delete i (tasks s)).*1.*1) with (((p, q, k) :: delete i (tasks s)).*1.*1).
         do 2 apply fmap_Permutation. symmetry. by apply delete_Permutation. }
    2: { intros t1 t2 [H|[task H]]; [by left|].
         destruct (elem_of_deleted _ _ _ _ Hi H) as [[= -> -> _]|H']; [by left|right; by exists task]. }
    intros p' r k' H.
    destruct (elem_of_deleted _ _ _ _ Hi H) as [[= -> -> ->]|H']; right; [right|left; by exists r, k'].
    exists (frame_level k). by left. }
  pose proof (wt_tasks _ _ _ Hw) as Ht.
  eapply waits_grow; [exact Hw|exact Hg|done|..].
  - intros o [[]%elem_of_nil|(p' & r & k' & H & Ho)].
    destruct (elem_of_deleted _ _ _ _ Hi H) as [[= -> -> ->]|H']; [left|right; by exists p', r, k'].
    right. unfold owners. by apply list_elem_of_fmap_2.
  - cbn. apply Forall_delete. eapply Forall_impl; [exact Ht|]. intros t. by apply task_grows.
  - eapply Forall_forall in Ht; [|by eapply list_elem_of_lookup_2]. constructor; [by destruct Ht as [[? []] _]|].
    apply Forall_forall. intros x Hx. unfold owners in Hx. by apply list_elem_of_fmap in Hx as (? & -> & _).
Qed.

Lemma due_resume_task i a s s' : resume_task i a s = Some s' -> due s [] -> due s' [].
Proof.
  unfold resume_task. destruct (tasks s !! i) as [[[p q] k]|] eqn:Hi; [|done].
  destruct (map_get q (promises s)) as [o|] eqn:Ho; [|done]. intros [= <-] H.
  apply due_resume. rewrite app_nil_r. apply (due_taken i p q k); [done| |done]. by eexists.
Qed.

Lemma due_settle_call q o s s' : settle_call q o s = Some s' -> due s [] -> due s' [].
Proof.
  unfold settle_call. destruct (map_get q (calls s)) eqn:Ec; [|done]. destruct (map_get q (promises s)); [done|].
  destruct (match o with Fulfilled _ => _ | _ => _ end); [|done]. intros [= <-] [lvl Hw]. exists lvl.
  assert (grows s (settle q o s) [] []) as Hg.
  { constructor; [|done|done|apply settled_grows|unfold active; eauto|by intros ? ? ?%elem_of_nil| |
      intros ? ?; apply turn_settled].
    2: { intros [Hn Hu]. split; [done|]. eapply Forall_impl; [exact Hu|]. intros p (? & ? & ?). split_and!; [done| |done].
         cbn. rewrite map_get_set, decide_False; [done|congruence]. }
    apply fresh_settled. destruct (Nat.lt_ge_cases q (nextId s)) as [|Hq]; [done|].
    apply (wt_fresh _ _ _ Hw) in Hq as [_ Hq]. congruence. }
  eapply waits_grow; [exact Hw|exact Hg|done|done|..|done].
  eapply Forall_impl; [apply Hw|]. intros t. by apply task_grows.
Qed.

Lemma due_run_inbound t a p s G :
  due s (Hand p 4 :: match t with IVoice => [Own OwnVoice] | _ => [] end ++ G) -> due (run_inbound t a p s) G.
Proof.
  destruct t; cbn [app run_inbound]; intros H; [due..| |due].
  eapply serves_onEnvelope. due.
Qed.

(** The task that is taken from the inbound queue. *)
Lemma due_pop t rest s :
  inboundSerial s = t :: rest -> due s [] ->
  due (s <| inboundSerial := rest |>) (match t with IVoice => [Own OwnVoice] | _ => [] end).
Proof.
  intros Hi Hs. pose proof (due_held _ _ Hs) as (F1 & F2 & F3 & F4 & F5). set (s' := s <| inboundSerial := rest |>).
  apply (due_move s s' [] _ Hs eq_refl); [by destruct t|done|by left|].
  assert (forall o, held s [] o -> held s' (match t with IVoice => [Own OwnVoice] | _ => [] end) o) as Hh.
  { intros o. apply (held_move s s' _ _ _ eq_refl). by intros []%elem_of_nil. }
  split_and!; cbn; auto. intros Hv. destruct (F5 Hv) as [H|H]; [|right; by apply Hh].
  rewrite Hi in H. apply elem_of_cons in H as [<-|H]; [right; left; by left|by left].
Qed.

Lemma due_running s p L G :
  due s (Hand p L :: G) -> due (s <| inboundRunning := Some p |>) (Hand p L :: G).
Proof.
  intros [lvl Hw]. exists lvl. destruct Hw. constructor; cbn; try done. intros q [= <-]. right. right. exists L. by left.
Qed.

Lemma due_next_inbound a s s' : next_inbound a s = Some s' -> due s [] -> due s' [].
Proof.
  unfold next_inbound. destruct (inboundSerial s) as [|t rest] eqn:Hi; [done|].
  destruct (match inboundRunning s with None => _ | _ => _ end); [|done]. cbn [new_promise]. intros [= <-] H.
  apply (due_pop t rest) in H; [|done]. apply (due_new _ 4) in H. apply due_running in H.
  apply (due_sub _ (nextId s) 4), due_run_inbound. revert H. destruct t; cbn [app]; [done..|].
  intros H. pose proof (due_held _ _ H) as (F1 & F2 & F3 & F4 & F5).
  eapply due_move; [exact H|reflexivity|reflexivity|done|by left|].
  split_and!; [intros w Hw; eapply (held_move _ _ _ _ _ eq_refl); [|by apply F1]; items|..]; intros Hf;
    [eapply (held_move _ _ _ _ _ eq_refl); [|by auto]; items..|].
  eapply (voice_move _ _ _ _ eq_refl); [| |by apply F5]; [items|done].
Qed.

(** A method that only calls another component. *)
Lemma serves_await_call c k : frame_owner k = [] -> serves (frame_level k) (fun p => await_call p c k).
Proof. intros Hk p s G H. apply due_waits_call. unfold owners. by rewrite Hk. Qed.
#[export] Hint Extern 1 (serves _ (fun p => await_call p ?c ?k)) => exact (serves_await_call c k eq_refl) : serves.

Lemma due_step e a s s' : step e a s = Some s' -> due s [] -> due s' [].
Proof.
  intros He H. destruct e; cbn [step] in He;
    try (apply (inj Some) in He as <-; by auto 30 with due);
    [by eapply due_settle_call|by eapply due_resume_task|by eapply due_next_inbound|..];
    repeat case_match; simplify_eq; auto 30 with due.
Qed.

Lemma due_run es s s' : run es s = Some s' -> due s [] -> due s' [].
Proof.
  revert s. induction es as [|[e a] es IH]; intros s H Hs; cbn [run] in H; [by apply (inj Some) in H as <-|].
  destruct (step e a s) as [x|] eqn:Hx; [|done]. eapply IH; [exact H|]. by eapply due_step.
Qed.

Lemma newSession_due : due newSession [].
Proof. exists (fun _ => 0%nat). constructor; try done. split; constructor. Qed.

(** ** Theorems *)

(** A promise is under way when it is settled, when a component has to
    answer it, or when the activation that it belongs to waits for a promise
    under way.  The definition is inductive: the waits do not run in a
    circle. *)
Inductive under_way (s : Session) : nat -> Prop :=
| uw_settled q o : map_get q (promises s) = Some o -> under_way s q
| uw_called q c : map_get q (calls s) = Some c -> under_way s q
| uw_waiting q r k : (q, r, k) ∈ tasks s -> under_way s r -> under_way s q.

(** A task can go on, or a component owes it an answer. *)
Definition can_go_on (s : Session) : Prop :=
  (exists i p q k o, tasks s !! i = Some (p, q, k) /\ map_get q (promises s) = Some o) \/
  (exists p q k c, (p, q, k) ∈ tasks s /\ map_get q (calls s) = Some c /\ map_get q (promises s) = None).

Lemma answered_under_way s q : answered s q -> under_way s q.
Proof. intros [[o H]|[c H]]; [by eapply uw_settled|by eapply uw_called]. Qed.

Lemma answered_goes_on s p q k : (p, q, k) ∈ tasks s -> answered s q -> can_go_on s.
Proof.
  intros Ht Ha. destruct (map_get q (promises s)) as [o|] eqn:Ho.
  - left. apply list_elem_of_lookup in Ht as [i Hi]. by exists i, p, q, k, o.
  - destruct Ha as [[]|[c Hc]]; [congruence|]. right. by exists p, q, k, c.
Qed.

Lemma wait_ends lvl s p q k : waits lvl s [] -> (p, q, k) ∈ tasks s -> under_way s q /\ can_go_on s.
Proof.
  intros Hw. revert q k. remember (lvl p) as n eqn:Hn. revert p Hn. induction (lt_wf n) as [n _ IHn]. intros p.
  induction (lt_wf p) as [p _ IHp]. intros -> q k Ht.
  assert (task_ok lvl s [] (p, q, k)) as (_ & Hl & Ha).
  { pose proof (wt_tasks _ _ _ Hw) as Hts. by eapply Forall_forall in Hts. }
  destruct Ha as [Ha|Ha]; [split; [by apply answered_under_way|by eapply answered_goes_on]|].
  destruct Hl as [Hl|[Hl|[(r & k' & Hl)|[lo []%elem_of_nil]]]];
    [split; [apply answered_under_way|eapply answered_goes_on; [exact Ht|]]; by (left + right)..|].
  enough (under_way s r /\ can_go_on s) as [Hu Hc] by (split; [by eapply uw_waiting|done]).
  destruct (decide (lvl q < lvl p)%nat) as [Hlt|Hge]; [by apply (IHn (lvl q) Hlt q eq_refl r k')|].
  destruct Ha as [|[]]; [lia|]. apply (IHp q ltac:(lia) ltac:(lia) r k' Hl).
Qed.

(** A continuation that clears the flag waits for something under way. *)
Definition owned (s : Session) (o : Owner) : Prop :=
  exists p q k, (p, q, k) ∈ tasks s /\ o ∈ frame_owner k /\ under_way s q.

Lemma held_owned lvl s o : waits lvl s [] -> held s [] o -> owned s o.
Proof.
  intros Hw [[]%elem_of_nil|(p & q & k & Ht & Ho)]. exists p, q, k. split_and!; [done|done|].
  by apply (wait_ends lvl s p q k).
Qed.

Lemma goes_on s a :
  can_go_on s -> (exists i s', step (Resume i) a s = Some s') \/
  exists p q k c, (p, q, k) ∈ tasks s /\ map_get q (calls s) = Some c /\ map_get q (promises s) = None.
Proof.
  intros [(i & p & q & k & o & Hi & Ho)|Hc]; [left|by right]. exists i. cbn [step]. unfold resume_task.
  rewrite Hi, Ho. by eexists.
Qed.

(** When nothing waits, the next event of the queue can be handled. *)
Lemma inbound_goes_on lvl s a :
  waits lvl s [] -> tasks s = [] -> inboundSerial s <> [] -> exists s', step NextInbound a s = Some s'.
Proof.
  intros Hw Ht Hi. cbn [step]. unfold next_inbound. destruct (inboundSerial s) as [|t rest]; [done|].
  assert (match inboundRunning s with None => true | Some q => bool_decide (is_Some (map_get q (promises s))) end = true)
    as ->; [|by eexists].
  destruct (inboundRunning s) as [q|] eqn:Hq; [|done]. apply bool_decide_eq_true.
  destruct (wt_running _ _ _ Hw q Hq) as [Ha|[(r & k & Hl)|[lo []%elem_of_nil]]]; [done|].
  rewrite Ht in Hl. by apply elem_of_nil in Hl.
Qed.

(** A controller in which nothing waits. *)
Lemma quiet_controller es s :
  run es newSession = Some s -> tasks s = [] ->
  fresh_ids s /\ establishing s = false /\
  (forall q, inboundRunning s = Some q -> is_Some (map_get q (promises s))) /\
  (forall t, last (cryptoSerial s) = Some t -> is_Some (map_get t (promises s))).
Proof.
  intros H Ht. apply due_run in H; [|apply newSession_due]. pose proof (due_held _ _ H) as (_ & _ & F & _).
  destruct H as [lvl Hw]. split_and!; [apply Hw|..].
  - destruct (establishing s); [|done]. destruct (held_owned lvl s OwnEstablish Hw (F eq_refl)) as (p & q & k & Hin & _).
    rewrite Ht in Hin. by apply elem_of_nil in Hin.
  - intros q Hq. destruct (wt_running _ _ _ Hw q Hq) as [Ha|[(r & k & Hl)|[lo []%elem_of_nil]]]; [done|].
    rewrite Ht in Hl. by apply elem_of_nil in Hl.
  - intros t Hl%last_Some_elem_of. pose proof (wt_serial _ _ _ Hw) as Hs. eapply Forall_forall in Hs; [|exact Hl].
    destruct Hs as [_ [Ha|[(r & k & Hi)|[lo []%elem_of_nil]]]]; [done|]. rewrite Ht in Hi. by apply elem_of_nil in Hi.
Qed.

(** C13: the controller never gets stuck.  In every run, each promise that an
    activation awaits is under way, so no activation waits in vain or in a
    circle; and as long as an activation waits or a packet, a status or a
    relay event is queued, some continuation can run, the next queued event
    can be handled, or a component owes an answer that is awaited. *)
Theorem never_stuck es s :
  run es newSession = Some s ->
  (forall p q k, (p, q, k) ∈ tasks s -> under_way s q) /\
  (tasks s <> [] \/ inboundSerial s <> [] ->
   forall a,
   (exists i s', step (Resume i) a s = Some s') \/
   (exists s', step NextInbound a s = Some s') \/
   (exists p q k c, (p, q, k) ∈ tasks s /\ map_get q (calls s) = Some c /\ map_get q (promises s) = None)).
Proof.
  intros H. apply due_run in H as [lvl Hw]; [|apply newSession_due].
  split; [intros p q k Ht; by apply (wait_ends lvl s p q k)|]. intros Hne a.
  destruct (tasks s) as [|[[p q] k] l] eqn:Et.
  - right. left. destruct Hne as [|Hne]; [done|]. by apply (inbound_goes_on lvl).
  - rewrite <- Et. destruct (goes_on s a) as [|]; [|by left|by do 2 right].
    apply (wait_ends lvl s p q k); [done|]. rewrite Et. by left.
Qed.

(** C14: no flag of the controller stays set by mistake.  In every run, while
    starting a room, establishing a session, preparing an epoch, sending voice
    or handling inbound voice is marked as in progress, an activation that
    will clear the mark waits for something under way, or the task that will
    is queued.  So none of these operations can be locked out for good. *)
Theorem guards_released es s :
  run es newSession = Some s ->
  (startupInFlight s = true -> owned s OwnStart) /\
  (establishing s = true -> owned s OwnEstablish) /\
  (forall w, epochPreparation s = Some w -> owned s (OwnPrepare w)) /\
  (outboundVoicePumping s = true -> owned s OwnPump) /\
  (inboundVoiceScheduled s = true -> IVoice ∈ inboundSerial s \/ owned s OwnVoice).
Proof.
  intros H. apply due_run in H; [|apply newSession_due]. pose proof (due_held _ _ H) as (F1 & F2 & F3 & F4 & F5).
  destruct H as [lvl Hw].
  split_and!; intros; [by apply (held_owned lvl s); auto..|].
  destruct F5 as [F5|F5]; [done|by left|right]. by apply (held_owned lvl s).
Qed.

(** What an activation that waits for its turn is not: settled. *)
Lemma turn_unsettled lvl s t q k : waits lvl s [] -> (t, q, k) ∈ tasks s -> map_get t (promises s) = None.
Proof.
  intros Hw Ht. destruct (wt_once _ _ _ Hw) as [_ Hu]. unfold acting in Hu. cbn [hands] in Hu. rewrite app_nil_r in Hu.
  eapply Forall_forall in Hu; [apply Hu|]. apply (list_elem_of_fmap_2 fst (tasks s).*1 (t, q)).
  by apply (list_elem_of_fmap_2 fst (tasks s) (t, q, k)).
Qed.

(** A task of the chain that has not begun waits for its turn. *)
Definition begun (s : Session) (t : nat) : Prop := ~ exists q task, (t, q, KCryptoTurn task) ∈ tasks s.

Lemma in_turn_before lvl s i n t1 t2 :
  waits lvl s [] -> cryptoSerial s !! i = Some t1 -> cryptoSerial s !! S (i + n) = Some t2 -> begun s t2 ->
  is_Some (map_get t1 (promises s)).
Proof.
  intros Hw. revert t2. induction n as [|n IH]; intros t2 H1 H2 Hb.
  - rewrite Nat.add_0_r in H2. destruct (wt_order _ _ _ Hw i t1 t2 H1 H2) as [|[task Ht]]; [done|].
    destruct Hb. by exists t1, task.
  - rewrite Nat.add_succ_r in H2. destruct (lookup_lt_is_Some_2 (cryptoSerial s) (S (i + n))) as [t Ht].
    { apply lookup_lt_Some in H2. lia. }
    destruct (wt_order _ _ _ Hw (S (i + n)) t t2 Ht H2) as [Hs|[task Hin]]; [|destruct Hb; by exists t, task].
    apply (IH t H1 Ht). intros (q & task & Hin). rewrite (turn_unsettled lvl s t q _ Hw Hin) in Hs. by destruct Hs.
Qed.


(** While the peer's handshake is handled, and with another packet queued. *)
Definition demo_busy : list Event := take 4 demo_establish ++ [OnRelay RelayControl.peer_present].

Lemma never_stuck_witness :
  exists s, demo_run (demo_room ++ demo_busy) = Some s /\ length (tasks s) = 3%nat /\ length (inboundSerial s) = 1%nat /\
    ((exists i s', step (Resume i) demo_answers s = Some s') \/
     (exists s', step NextInbound demo_answers s = Some s') \/
     (exists p q k c, (p, q, k) ∈ tasks s /\ map_get q (calls s) = Some c /\ map_get q (promises s) = None)).
Proof.
  unfold demo_run. eexists. split; [vm_compute; reflexivity|]. split; [vm_compute; reflexivity|].
  split; [vm_compute; reflexivity|].
  refine (proj2 (never_stuck ((fun e => (e, demo_answers)) <$> (demo_room ++ demo_busy)) _ _) _ demo_answers).
  - vm_compute. reflexivity.
  - right. discriminate.
Defined.

Lemma guards_released_witness :
  exists s, demo_run (demo_room ++ demo_busy) = Some s /\ establishing s = true /\ owned s OwnEstablish.
Proof.
  unfold demo_run. eexists. split; [vm_compute; reflexivity|]. split; [vm_compute; reflexivity|].
  refine (proj1 (proj2 (guards_released ((fun e => (e, demo_answers)) <$> (demo_room ++ demo_busy)) _ _)) _);
    vm_compute; reflexivity.
Defined.

(** Two messages are sent at once, and the first has been encrypted. *)
Definition demo_two : list Event :=
  take 3 demo_text ++ [OnReliableSend (reliable_ack (js "x")) Lane.control; OnReliableSend (reliable_ack (js "y")) Lane.control;
    Resume 0; Settle 25 (Fulfilled (VEnvelope demo_peer)); Resume 3; Resume 1].

