(* ===== verification/SessionHandshake.v ===== *)
(** * Two controllers complete the handshake

    [never_stuck] says that the controller can always go on; this file says
    where a handshake leads.  When both controllers wait for their peer in
    the same room, the handshake that one has sent makes the other reply and
    become active, and the reply makes the first active too, with the same
    safety phrase.  The other components answer as their own models say:
    the profile hash and the phrase are those of [Negotiation]. *)
From S2P Require Import Prelude JsMap Bytes Profiles Envelope RelayControl Scheduler Messages Json.
From S2P Require Import Negotiation Reliable FileProtocol FileReceiver FileSender Audio Rooms Connection.
From S2P Require Import SessionView Voice Session SessionProps SessionLive.

(** ** Steps in which the components answer as they should *)

Section Exchange.
Context (sha256 : bytes -> bytes).

Definition honest (c : Call) (v : Value) : Prop :=
  match c with
  | CProfileHash p => exists h, profileHash sha256 p = Some h /\ v = VText h
  | CPhrase i => exists t, verificationPhrase sha256 i = Some t /\ v = VText t
  | _ => fits c v = true
  end.

Inductive honest_step (a : Answers) : Session -> Session -> Prop :=
| hs_resume i s s' : step (Resume i) a s = Some s' -> honest_step a s s'
| hs_next s s' : step NextInbound a s = Some s' -> honest_step a s s'
| hs_answer q c v s s' :
    map_get q (calls s) = Some c -> honest c v -> step (Settle q (Fulfilled v)) a s = Some s' -> honest_step a s s'.

Lemma honest_fits c v : honest c v -> fits c v = true.
Proof. destruct c; cbn [honest]; try done; by intros (x & _ & ->). Qed.

(** ** What stays the same while a handshake is handled *)

Section One.
Context (a : Answers) (key : KeyObject) (pr : TransportProfile) (L E : Z).

Record stage (busy : option nat) (sec : option nat) (ch n : nat) (l : list (nat * nat * Frame)) (v : View) (eff : list Effect) (s : Session)
  : Prop := {
  sg_tasks : tasks s = l;
  sg_next : nextId s = n;
  sg_fresh : fresh_ids s;
  sg_view : view s = v;
  sg_effects : effects s = eff;
  sg_secure : secure s = sec;
  sg_channel : nextChannel s = ch;
  sg_key : s_localPublicKey s = Some key;
  sg_profile : profile s = pr;
  sg_lifecycle : lifecycleEpoch s = L;
  sg_epoch : secureEpoch s = E;
  sg_chain : forall t, last (cryptoSerial s) = Some t -> busy = Some t \/ is_Some (map_get t (promises s));
}.

Section Stage.
Context (busy sec : option nat) (ch n : nat) (l : list (nat * nat * Frame)) (v : View) (eff : list Effect).

Lemma stage_settle s p o :
  (p < n)%nat -> stage busy sec ch n l v eff s -> stage busy sec ch n l v eff (settle p o s).
Proof.
  intros Hp []. constructor; try done; [apply fresh_settled; [by rewrite sg_next0|done]|].
  intros t Ht. destruct (sg_chain0 t Ht); [by left|right; by apply settled_grows].
Qed.

(** The task of the chain that runs ends. *)
Lemma stage_idle s t o :
  busy = Some t -> (t < n)%nat -> stage busy sec ch n l v eff s -> stage None sec ch n l v eff (settle t o s).
Proof.
  intros Hb Ht []. constructor; try done; [apply fresh_settled; [by rewrite sg_next0|done]|].
  intros t' Ht'. right. destruct (sg_chain0 t' Ht') as [Hs|Hs]; [|by apply settled_grows].
  rewrite Hb in Hs. injection Hs as <-. cbn. by rewrite map_get_set_eq.
Qed.

Lemma stage_tasks s l' : stage busy sec ch n l v eff s -> stage busy sec ch n l' v eff (s <| tasks := l' |>).
Proof. intros []. by constructor. Qed.

Lemma stage_effect e s : stage busy sec ch n l v eff s -> stage busy sec ch n l v (eff ++ [e]) (effect e s).
Proof. intros []. constructor; try done. cbn. by rewrite sg_effects0. Qed.

Lemma stage_await s p q k : stage busy sec ch n l v eff s -> stage busy sec ch n (l ++ [(p, q, k)]) v eff (await p q k s).
Proof. intros []. constructor; try done. cbn. by rewrite sg_tasks0. Qed.

Lemma stage_new s : stage busy sec ch n l v eff s -> stage busy sec ch (S n) l v eff (s <| nextId := S (nextId s) |>).
Proof.
  intros []. constructor; try done; [cbn; by rewrite sg_next0|]. intros j Hj. cbn in *. apply sg_fresh0. lia.
Qed.

(** A call that was just made is open. *)
Lemma stage_call s p c k :
  stage busy sec ch n l v eff s ->
  stage busy sec ch (S n) (l ++ [(p, n, k)]) v eff (await_call p c k s) /\
  map_get n (calls (await_call p c k s)) = Some c /\ map_get n (promises (await_call p c k s)) = None.
Proof.
  intros []. unfold await_call, call, new_promise. subst n. split_and!.
  - constructor; try done; [cbn; by rewrite sg_tasks0|]. intros j Hj. cbn in *. rewrite map_get_set.
    case_decide; [lia|]. apply sg_fresh0. lia.
  - cbn. by rewrite map_get_set_eq.
  - cbn. by apply sg_fresh0.
Qed.

(** A settled promise lets its task go on. *)
Lemma stage_resume s i p q k o :
  stage busy sec ch n l v eff s -> l !! i = Some (p, q, k) -> map_get q (promises s) = Some o ->
  honest_step a s (resume p q k o a (s <| tasks := delete i l |>)).
Proof.
  intros Hs Hi Ho. apply (hs_resume a i). cbn [step]. unfold resume_task. rewrite (sg_tasks _ _ _ _ _ _ _ _ Hs), Hi, Ho.
  done.
Qed.

(** An open call is answered and its task goes on. *)
Lemma stage_answer s i p q k c x :
  stage busy sec ch n l v eff s -> l !! i = Some (p, q, k) -> map_get q (calls s) = Some c ->
  map_get q (promises s) = None -> honest c x ->
  let s1 := (settle q (Fulfilled x) s) <| tasks := delete i l |> in
  stage busy sec ch n (delete i l) v eff s1 /\ star (honest_step a) s (resume p q k (Fulfilled x) a s1).
Proof.
  intros Hs Hi Hc Hp Hx. cbn zeta.
  assert (q < n)%nat as Hq.
  { destruct (Nat.lt_ge_cases q n) as [|Hq]; [done|]. rewrite <- (sg_next _ _ _ _ _ _ _ _ Hs) in Hq.
    apply (sg_fresh _ _ _ _ _ _ _ _ Hs) in Hq as [_ Hq]. congruence. }
  pose proof (stage_settle s q (Fulfilled x) Hq Hs) as Hs1.
  split; [by destruct Hs1; constructor|].
  eapply star_step; [|apply star_one; apply (stage_resume _ i p q k (Fulfilled x) Hs1 Hi); cbn; by rewrite map_get_set_eq].
  apply (hs_answer a q c x); [done|done|]. cbn [step]. unfold settle_call. rewrite Hc, Hp, (honest_fits c x Hx). done.
Qed.
End Stage.

Lemma stage_same busy sec ch n l v eff s s' :
  (nextId s', tasks s', promises s', calls s') = (nextId s, tasks s, promises s, calls s) ->
  view s' = view s -> effects s' = effects s -> secure s' = secure s -> nextChannel s' = nextChannel s ->
  s_localPublicKey s' = s_localPublicKey s -> profile s' = profile s -> lifecycleEpoch s' = lifecycleEpoch s ->
  secureEpoch s' = secureEpoch s -> cryptoSerial s' = cryptoSerial s ->
  stage busy sec ch n l v eff s -> stage busy sec ch n l v eff s'.
Proof.
  intros Hc E1 E2 E3 E4 E5 E6 E7 E8 E9 []. injection Hc as C1 C2 C3 C4.
  constructor; try congruence; [unfold fresh_ids; by rewrite C1, C3, C4|by rewrite E9, C3].
Qed.

(** A task put on an idle chain can start. *)
Lemma stage_crypto sec ch n l v eff s p task k :
  stage None sec ch n l v eff s ->
  exists n' q o, (n < n')%nat /\ map_get q (promises (runCrypto p task k s)) = Some o /\
    stage (Some n) sec ch n' (l ++ [(n, q, KCryptoTurn task); (p, n, k)]) v eff (runCrypto p task k s).
Proof.
  intros Hs. unfold runCrypto. cbn [new_promise]. rewrite (sg_next _ _ _ _ _ _ _ _ Hs). pose proof Hs as [].
  apply stage_new in Hs as H1. rewrite sg_next0 in H1. set (x := s <| nextId := S n |>) in *.
  assert (exists n' y q o, serial_tail x = (y, q) /\ (n < n')%nat /\ map_get q (promises y) = Some o /\
    stage None sec ch n' l v eff y) as (n' & y & q & o & E1 & Hn & Hq & Hy).
  { unfold serial_tail. destruct (last (cryptoSerial x)) as [t|] eqn:Hl.
    - destruct (sg_chain _ _ _ _ _ _ _ _ H1 t Hl) as [|[o Ho]]; [done|]. exists (S n), x, t, o. split_and!; [done|lia|done|done].
    - apply stage_new in H1 as H2. cbn [new_promise]. do 4 eexists. split; [reflexivity|].
      split_and!; [|cbn; apply map_get_set_eq|apply stage_settle; [|exact H2]]; cbn; lia. }
  rewrite E1. exists n', q, o. split_and!; [done|exact Hq|].
  apply (stage_await _ _ _ _ _ _ _ _ n q (KCryptoTurn task)), (stage_await _ _ _ _ _ _ _ _ p n k) in Hy.
  rewrite <- app_assoc in Hy. destruct Hy. constructor; try done.
  intros t. cbn. rewrite last_snoc. intros [= ->]. by left.
Qed.

(** A call that a component has to answer. *)
Definition open_call (q : nat) (c : Call) (s : Session) : Prop :=
  map_get q (calls s) = Some c /\ map_get q (promises s) = None.

(** The answer to a call leads to the next call. *)
Lemma stage_next busy sec ch n l v eff s i p q k c x k' c' :
  stage busy sec ch n l v eff s -> l !! i = Some (p, q, k) -> open_call q c s -> honest c x ->
  (forall s1, stage busy sec ch n (delete i l) v eff s1 -> resume p q k (Fulfilled x) a s1 = await_call p c' k' s1) ->
  exists s', star (honest_step a) s s' /\ stage busy sec ch (S n) (delete i l ++ [(p, n, k')]) v eff s' /\ open_call n c' s'.
Proof.
  intros Hs Hi [Hc Ho] Hx Hr. destruct (stage_answer _ _ _ _ _ _ _ s i p q k c x Hs Hi Hc Ho Hx) as [H1 H2].
  rewrite (Hr _ H1) in H2. eexists. split; [exact H2|]. destruct (stage_call _ _ _ _ _ _ _ _ p c' k' H1) as (H3 & H4 & H5).
  by split.
Qed.

(** ** The handshake of the peer *)

Context (hs : HandshakeMessage) (peerKey payload : bytes).
Hypothesis decoded : decodeHandshake payload = Ok hs.
Hypothesis peer_key : base64UrlToBytes (hs_publicKey hs) = Ok peerKey.
Hypothesis other_key : jstr_eqb (bytesToBase64Url peerKey) (bytesToBase64Url (key_bytes key)) = false.
#[local] Set Default Proof Using "All".

(** Its arrival makes the controller reply. *)
Lemma handshake_replies p ch n l v eff s :
  stage None None ch n l v eff s -> establishing s = false -> replyHandshakeSent s = false ->
  let s' := handleHandshake payload p s in
  stage None None ch (S (S (S n)))
    (l ++ [(S n, S (S n), KHandshakeHash false key L E pr); (n, S n, KReturn); (p, n, KReplySent hs peerKey)]) v eff s' /\
  open_call (S (S n)) (CProfileHash pr) s'.
Proof.
  intros Hs He Hr. cbn zeta. pose proof Hs as []. unfold handleHandshake.
  rewrite sg_key0, decoded, peer_key, other_key, sg_secure0, He.
  change (replyHandshakeSent (s <| establishing := true |>)) with (replyHandshakeSent s). rewrite Hr. cbn [negb].
  unfold await_async, new_promise, sendReplyHandshake.
  match goal with |- context [replyHandshakeSent ?x] => change (replyHandshakeSent x) with (replyHandshakeSent s) end.
  rewrite Hr. unfold await_async, new_promise, sendHandshake.
  match goal with |- context [s_localPublicKey ?x] => change (s_localPublicKey x) with (s_localPublicKey s) end.
  rewrite sg_key0.
  match goal with |- context [await_call _ (CProfileHash (profile ?x)) _ ?y] => set (z := y) end.
  assert (stage None None ch (S (S n)) l v eff z) as Hz.
  { eapply stage_new in Hs. eapply stage_new in Hs. revert Hs. apply stage_same; reflexivity. }
  cbn [nextId update]. change (profile z) with (profile s). change (lifecycleEpoch z) with (lifecycleEpoch s).
  change (secureEpoch z) with (secureEpoch s). rewrite sg_profile0, sg_lifecycle0, sg_epoch0, sg_next0.
  destruct (stage_call _ _ _ _ _ _ _ z (S n) (CProfileHash pr) (KHandshakeHash false key L E pr) Hz) as (H1 & H2 & H3).
  split; [|by split]. apply (stage_await _ _ _ _ _ _ _ _ n (S n) KReturn) in H1.
  apply (stage_await _ _ _ _ _ _ _ _ p n (KReplySent hs peerKey)) in H1. by rewrite <- !app_assoc in H1.
Qed.

Context (h : jstr) (own : bytes).
Hypothesis hash_is : profileHash sha256 pr = Some h.
Hypothesis own_encoded : encodeHandshake (handshake_of (key_bytes key) pr h) = Some own.
Hypothesis transport_takes : an_sent a = true.
Hypothesis peer_fits : peer_compatible pr h hs = true.
#[local] Set Default Proof Using "All".

Definition reply : Effect := TSendHandshake false E (handshake_envelope pr own).

Lemma handshake_sent p busy sec ch n l v eff s :
  stage busy sec ch n l v eff s -> sendHandshake_resume false key L E pr h p a s = ret p (effect reply s).
Proof.
  intros []. unfold sendHandshake_resume. rewrite sg_lifecycle0, sg_epoch0, sg_key0, sg_profile0, !Z.eqb_refl, Nat.eqb_refl.
  rewrite bool_decide_true by done. cbn [negb orb]. rewrite own_encoded, transport_takes. done.
Qed.

(** The reply goes out and the peer's profile is checked. *)
Lemma reply_goes_out ch n q0 q1 c1 p r v eff s :
  stage None None ch n [(q1, c1, KHandshakeHash false key L E pr); (q0, q1, KReturn);
    (p, q0, KReplySent hs peerKey); r] v eff s ->
  open_call c1 (CProfileHash pr) s -> (q0 < n)%nat -> (q1 < n)%nat ->
  exists s', star (honest_step a) s s' /\
    stage None None ch (S n) [r; (p, n, KPeerHash hs peerKey)] v (eff ++ [reply]) s' /\ open_call n (CProfileHash pr) s'.
Proof.
  intros Hs [Hc Ho] Hq0 Hq1.
  destruct (stage_answer _ _ _ _ _ _ _ s 0 _ _ _ _ (VText h) Hs eq_refl Hc Ho) as [H1 H2]; [by exists h|].
  cbn [delete list_delete resume or_throw text_of] in H1, H2. rewrite (handshake_sent q1 _ _ _ _ _ _ _ _ H1) in H2.
  apply (stage_effect _ _ _ _ _ _ _ reply), (stage_settle _ _ _ _ _ _ _ _ q1 (Fulfilled VUnit) Hq1) in H1.
  change (settle q1 (Fulfilled VUnit)) with (ret q1) in H1. revert H1 H2.
  match goal with |- context [ret q1 ?x] => set (s1 := ret q1 x); intros H1 H2 end.
  assert (map_get q1 (promises s1) = Some (Fulfilled VUnit)) as G1 by (unfold s1; cbn; by rewrite map_get_set_eq).
  pose proof (stage_resume _ _ _ _ _ _ _ s1 0 _ _ _ _ H1 eq_refl G1) as H3. cbn [delete list_delete resume] in H3.
  apply (stage_tasks _ _ _ _ _ _ _ _ [(p, q0, KReplySent hs peerKey); r]),
    (stage_settle _ _ _ _ _ _ _ _ q0 (Fulfilled VUnit) Hq0) in H1. revert H1 H3.
  match goal with |- context [settle q0 ?o ?x] => set (s2 := settle q0 o x); intros H1 H3 end.
  assert (map_get q0 (promises s2) = Some (Fulfilled VUnit)) as G2 by (unfold s2; cbn; by rewrite map_get_set_eq).
  pose proof (stage_resume _ _ _ _ _ _ _ s2 0 _ _ _ _ H1 eq_refl G2) as H4.
  cbn [delete list_delete resume or_end_establishing] in H4. unfold reply_sent in H4.
  apply (stage_tasks _ _ _ _ _ _ _ _ [r]) in H1. revert H1 H4.
  match goal with |- context [await_call p _ _ ?x] => set (s3 := x); intros H1 H4 end.
  rewrite (sg_profile _ _ _ _ _ _ _ _ H1) in H4.
  destruct (stage_call _ _ _ _ _ _ _ s3 p (CProfileHash pr) (KPeerHash hs peerKey) H1) as (H5 & H6).
  eexists. split; [|by split]. eapply star_trans; [exact H2|]. eapply star_step; [exact H3|]. by apply star_one.
Qed.

(** What the user is shown. *)
Definition shown (phrase : jstr) (v : View) : View :=
  addSystem (an_id a) (an_now a) (js "Secure session ready. Verify the safety phrase.") sev_info
    (patch (active_view (profile_id pr) phrase) v).

Definition input (v : View) : PhraseInput := {|
  localPublicKey := key_bytes key; peerPublicKey := peerKey; in_profile := pr; sessionCode := roomCode (state v);
  peerAppVersion := hs_appVersion hs; peerFeatureFlags := hs_featureFlags hs;
|}.

(** The checks pass and the worker establishes the session. *)
Lemma session_opens ch n q p r v eff s :
  stage None None ch n [r; (p, q, KPeerHash hs peerKey)] v eff s -> open_call q (CProfileHash pr) s ->
  exists s' n', star (honest_step a) s s' /\ (n <= n')%nat /\
    stage None None ch n' [r; (p, n, KEstablished hs peerKey)] v eff s' /\
    map_get n (promises s') = Some (Fulfilled VUnit).
Proof.
  intros Hs [Hc Ho]. set (task := TaskEstablish peerKey h).
  destruct (stage_answer _ _ _ _ _ _ _ s 1 p q _ _ (VText h) Hs eq_refl Hc Ho) as [H1 T1]; [by exists h|].
  cbn [delete list_delete resume or_end_establishing text_of] in H1, T1. unfold peer_hash in T1.
  rewrite (sg_profile _ _ _ _ _ _ _ _ H1), peer_fits in T1. cbn [negb] in T1.
  destruct (stage_crypto _ _ _ _ _ _ _ p task (KEstablished hs peerKey) H1) as (n1 & q1 & o1 & Hn1 & Hq1 & H2).
  revert Hq1 H2 T1. fold task.
  match goal with |- context [runCrypto ?a1 ?a2 ?a3 ?a4] => generalize (runCrypto a1 a2 a3 a4); intros s1 Hq1 H2 T1 end.
  pose proof (stage_resume _ _ _ _ _ _ _ s1 1 _ _ _ _ H2 eq_refl Hq1) as T2.
  cbn [app delete list_delete resume run_task task] in T2.
  apply (stage_tasks _ _ _ _ _ _ _ _ [r; (p, n, KEstablished hs peerKey)]) in H2. revert H2 T2.
  match goal with |- context [await_call n _ _ ?x] => set (s2 := x); intros H2 T2 end.
  rewrite (sg_profile _ _ _ _ _ _ _ _ H2) in T2.
  destruct (stage_call _ _ _ _ _ _ _ s2 n (CConfigure pr) (KReconfigured peerKey h) H2) as (H3 & O3).
  destruct (stage_next _ _ _ _ _ _ _ _ 2 n n1 _ _ VUnit KReturn (CEstablishSession peerKey h) H3 eq_refl O3)
    as (s3 & T3 & H4 & O4 & P4); [done|done|].
  cbn [app delete list_delete] in H4.
  destruct (stage_answer _ _ _ _ _ _ _ s3 2 n (S n1) _ _ VUnit H4 eq_refl O4 P4) as [H5 T5]; [done|].
  cbn [delete list_delete resume] in H5, T5. apply (stage_idle _ _ _ _ _ _ _ _ n (Fulfilled VUnit) eq_refl) in H5; [|lia].
  eexists _, (S (S n1)). split_and!; [|lia|exact H5|cbn; apply map_get_set_eq].
  eapply star_trans; [exact T1|]. eapply star_step; [exact T2|]. eapply star_trans; [exact T3|exact T5].
Qed.

(** The phrase is computed and the chat is active. *)
Lemma phrase_is_shown ch n q p r v eff phrase s :
  stage None None ch n [r; (p, q, KEstablished hs peerKey)] v eff s -> map_get q (promises s) = Some (Fulfilled VUnit) ->
  (p < n)%nat -> verificationPhrase sha256 (input v) = Some phrase ->
  exists s', star (honest_step a) s s' /\
    stage None (Some ch) (S ch) (S n) [r] (shown phrase v) eff s' /\ map_get p (promises s') = Some (Fulfilled VUnit).
Proof.
  intros Hs Hq Hp Hph. pose proof (stage_resume _ _ _ _ _ _ _ s 1 _ _ _ _ Hs eq_refl Hq) as H2.
  apply (stage_tasks _ _ _ _ _ _ _ _ [r]) in Hs as H1.
  cbn [delete list_delete resume or_end_establishing] in H2. revert H1 H2.
  match goal with |- context [established _ _ _ ?x] => set (s1 := x); intros H1 H2 end.
  set (s2 := s1 <| secure := Some ch |> <| nextChannel := S ch |> <| s_peerPublicKey := Some peerKey |>).
  assert (stage None (Some ch) (S ch) n [r] v eff s2) as H3 by (destruct H1; by constructor).
  assert (established hs peerKey p s1 = await_call p (CPhrase (input v)) KPhrase s2) as E1.
  { unfold established. rewrite (sg_channel _ _ _ _ _ _ _ _ H1). fold s2. rewrite (sg_key _ _ _ _ _ _ _ _ H3).
    unfold phrase_input, input. by rewrite (sg_profile _ _ _ _ _ _ _ _ H3), (sg_view _ _ _ _ _ _ _ _ H3). }
  rewrite E1 in H2. destruct (stage_call _ _ _ _ _ _ _ s2 p (CPhrase (input v)) KPhrase H3) as (H4 & O4 & P4).
  revert H2 H4 O4 P4. generalize (await_call p (CPhrase (input v)) KPhrase s2). intros s3 H2 H4 O4 P4.
  destruct (stage_answer _ _ _ _ _ _ _ s3 1 _ _ _ _ (VText phrase) H4 eq_refl O4 P4) as [H5 H6]; [by exists phrase|].
  cbn [app delete list_delete resume or_end_establishing text_of] in H5, H6. revert H5 H6.
  match goal with |- context [phrase_ready _ _ _ ?x] => generalize x; intros s4 H5 H6 end.
  eexists. split; [eapply star_step; [exact H2|exact H6]|]. unfold phrase_ready. split; [|cbn; by rewrite map_get_set_eq].
  apply stage_settle; [lia|]. destruct H5. constructor; try done.
  unfold shown. rewrite <- sg_view0, <- sg_profile0. reflexivity.
Qed.

(** The inbound queue hands the packet to [handleHandshake]. *)
Lemma handshake_taken ch n v eff s :
  stage None None ch n [] v eff s -> inboundSerial s = [] ->
  (forall q, inboundRunning s = Some q -> is_Some (map_get q (promises s))) ->
  establishing s = false -> replyHandshakeSent s = false ->
  exists s', honest_step a (routeEnvelope (handshake_envelope pr payload) a s) s' /\
    stage None None ch (5 + n)
      [(3 + n, 4 + n, KHandshakeHash false key L E pr); (2 + n, 3 + n, KReturn); (1 + n, 2 + n, KReplySent hs peerKey);
       (n, 1 + n, KEnvelopeHandled)]%nat v eff s' /\
    open_call (4 + n) (CProfileHash pr) s'.
Proof.
  intros Hs Hi Hr He Hf. set (env := handshake_envelope pr payload).
  set (s1 := s <| inboundSerial := [] |> <| nextId := S (nextId s) |> <| inboundRunning := Some (nextId s) |>).
  assert (stage None None ch (S n) [] v eff s1) as H1.
  { apply stage_new in Hs. revert Hs. by apply stage_same. }
  pose proof H1 as []. set (s2 := s1 <| nextId := S (nextId s1) |>).
  assert (stage None None ch (S (S n)) [] v eff s2) as H2 by by apply stage_new.
  destruct (handshake_replies (S n) ch (S (S n)) [] v eff s2 H2 He Hf) as [H3 H4].
  exists (await n (S n) KEnvelopeHandled (handleHandshake payload (S n) s2)).
  split; [|split; [by apply (stage_await _ _ _ _ _ _ _ _ n (S n) KEnvelopeHandled) in H3|exact H4]].
  apply hs_next. cbn [step]. unfold next_inbound.
  change (inboundSerial (routeEnvelope env a s)) with (inboundSerial s ++ [IEnvelope env (secureEpoch s)]). rewrite Hi.
  change (inboundRunning (routeEnvelope env a s)) with (inboundRunning s).
  assert (match inboundRunning s with None => true
          | Some q => bool_decide (is_Some (map_get q (promises (routeEnvelope env a s)))) end = true) as ->.
  { destruct (inboundRunning s) as [q|]; [|done]. apply bool_decide_eq_true, (Hr q eq_refl). }
  f_equal. cbn [app new_promise run_inbound].
  match goal with |- onEnvelope _ _ ?p ?x = _ => change x with s1; change p with (nextId s) end.
  unfold onEnvelope. rewrite sg_epoch0. rewrite <- (sg_epoch _ _ _ _ _ _ _ _ Hs), Z.eqb_refl.
  rewrite (sg_next _ _ _ _ _ _ _ _ Hs). cbn [negb env handshake_envelope env_outerType env_streamId env_payload].
  unfold await_async, new_promise. rewrite sg_next0. unfold s2. by rewrite sg_next0.
Qed.

(** The handshake of the peer makes the chat active. *)
Lemma handshake_activates ch n v eff phrase s :
  stage None None ch n [] v eff s -> inboundSerial s = [] ->
  (forall q, inboundRunning s = Some q -> is_Some (map_get q (promises s))) ->
  establishing s = false -> replyHandshakeSent s = false -> verificationPhrase sha256 (input v) = Some phrase ->
  exists s', star (honest_step a) (routeEnvelope (handshake_envelope pr payload) a s) s' /\
    exists n', stage None (Some ch) (S ch) n' [] (shown phrase v) (eff ++ [reply]) s'.
Proof.
  intros Hs Hi Hr He Hf Hph. destruct (handshake_taken ch n v eff s Hs Hi Hr He Hf) as (s1 & T1 & H1 & O1).
  destruct (reply_goes_out _ _ _ _ _ _ _ _ _ s1 H1 O1) as (s2 & T2 & H2 & O2); [lia|lia|].
  destruct (session_opens _ _ _ _ _ _ _ s2 H2 O2) as (s3 & n3 & T3 & Hn3 & H3 & O3).
  destruct (phrase_is_shown _ _ _ _ _ _ _ phrase s3 H3 O3) as (s4 & T4 & H4 & P4); [lia|done|].
  pose proof (stage_resume _ _ _ _ _ _ _ s4 0 _ _ _ _ H4 eq_refl P4) as T5. cbn [delete list_delete resume] in T5.
  eexists. split.
  - eapply star_step; [exact T1|]. eapply star_trans; [exact T2|]. eapply star_trans; [exact T3|].
    eapply star_trans; [exact T4|]. apply star_one, T5.
  - eexists. apply stage_settle; [|apply (stage_tasks _ _ _ _ _ _ _ _ []) in H4; exact H4]. lia.
Qed.
End One.

(** ** Both sides *)

Hypothesis sha256_bytes : forall b, wf_bytes (sha256 b).
Hypothesis sha256_length : forall b, length (sha256 b) = 32%nat.
#[local] Set Default Proof Using "All".

Lemma hex_text b : wf_bytes b -> forallb is_hex_char (bytesToHex b) = true.
Proof.
  induction 1 as [|x b Hx Hb IH]; [done|]. rewrite bytesToHex_cons. cbn [forallb]. rewrite IH.
  destruct (byte_div_mod_16 x Hx) as [H1 H2]. unfold is_hex_char, hex_digit.
  repeat (simp_if; bool_facts); repeat (apply andb_true_intro; split); try done;
    repeat (rewrite ?orb_true_iff, ?andb_true_iff, ?Z.leb_le); lia.
Qed.

Lemma ascii_units l : Forall (fun c => 0 <= c < 128) l -> units_ok l = true.
Proof.
  intros H. unfold units_ok. apply forallb_forall. intros c Hc%list_elem_of_In.
  eapply Forall_forall in H; [|exact Hc]. cbn in H. apply andb_true_intro. split; [apply Z.leb_le|apply Z.ltb_lt]; lia.
Qed.

(** The handshake of a client survives the wire. *)
Lemma handshake_of_wire key i h :
  wf_bytes key -> length key = 32%nat -> profileHash sha256 (getProfile i) = Some h ->
  exists b, encodeHandshake (handshake_of key (getProfile i) h) = Some b /\
            decodeHandshake b = Ok (handshake_of key (getProfile i) h).
Proof.
  intros Hk Hl Hh. apply handshake_wire.
  - unfold handshake_valid, handshake_of. cbn [hs_publicKey hs_profileHash hs_appVersion hs_featureFlags].
    unfold str_in, zlength. rewrite length_base64Url by done. pose proof (sextets_bound key) as Hb. rewrite Hl in Hb.
    assert (is_hex 32 h = true) as ->.
    { unfold profileHash in Hh. destruct (profileHashInput _); [|done]. apply (inj Some) in Hh as <-.
      unfold is_hex, short_hash. rewrite length_bytesToHex, length_take, sha256_length.
      cbn [Nat.min Nat.mul Nat.add Nat.eqb].
      by apply hex_text, Forall_take, sha256_bytes. }
    rewrite (proj2 (Z.eqb_neq _ _)), (proj2 (Z.leb_le _ _)) by lia. by vm_compute.
  - unfold handshake_units, handshake_of. cbn [hs_publicKey hs_profileHash hs_appVersion hs_featureFlags forallb].
    rewrite ascii_units by by apply base64Url_ascii.
    destruct (profileHash_ok sha256 sha256_bytes i) as (h' & Hh' & Hu). rewrite Hh in Hh'. apply (inj Some) in Hh' as <-.
    rewrite Hu. by vm_compute.
Qed.

(** A controller that is connected and waits for its peer. *)
Record waits_for_peer (key : KeyObject) (i : TransportProfileId) (code : jstr) (s : Session) : Prop := {
  wp_reached : exists es, run es newSession = Some s;
  wp_tasks : tasks s = [];
  wp_queue : inboundSerial s = [];
  wp_key : s_localPublicKey s = Some key;
  wp_profile : profile s = getProfile i;
  wp_code : roomCode (state (view s)) = code;
  wp_secure : secure s = None;
  wp_reply : replyHandshakeSent s = false;
}.

(** The chat is open, with the phrase shown for verification. *)
Record chat_open (phrase : jstr) (s : Session) : Prop := {
  co_phase : phase (state (view s)) = Phase.active;
  co_security : security (state (view s)) = Security.encrypted_unverified;
  co_phrase : safetyPhrase (state (view s)) = Some phrase;
  co_channel : is_Some (secure s);
  co_tasks : tasks s = [];
}.

Lemma shown_state a pr phrase v :
  phase (state (shown a pr phrase v)) = Phase.active /\
  security (state (shown a pr phrase v)) = Security.encrypted_unverified /\
  safetyPhrase (state (shown a pr phrase v)) = Some phrase.
Proof.
  unfold shown, addSystem, addTranscript, trimTranscript. by repeat case_match.
Qed.

(** The packet with a client's handshake. *)
Definition handshake_frame (key : bytes) (i : TransportProfileId) : option Envelope :=
  h ← profileHash sha256 (getProfile i);
  b ← encodeHandshake (handshake_of key (getProfile i) h);
  Some (handshake_envelope (getProfile i) b).

Definition phrase_of (a b : bytes) (i : TransportProfileId) (code : jstr) : PhraseInput := {|
  localPublicKey := a; peerPublicKey := b; in_profile := getProfile i; sessionCode := code;
  peerAppVersion := APP_VERSION; peerFeatureFlags := FEATURE_FLAGS;
|}.

(** One side: the peer's handshake leads to the chat, and the reply is sent. *)
Lemma peer_handshake_opens a key peer i code env own phrase s :
  an_sent a = true -> wf_bytes (key_bytes key) -> wf_bytes peer -> length peer = 32%nat -> peer <> key_bytes key ->
  waits_for_peer key i code s -> handshake_frame peer i = Some env -> handshake_frame (key_bytes key) i = Some own ->
  verificationPhrase sha256 (phrase_of (key_bytes key) peer i code) = Some phrase ->
  exists s', star (honest_step a) (routeEnvelope env a s) s' /\
    TSendHandshake false (secureEpoch s) own ∈ effects s' /\ chat_open phrase s'.
Proof.
  intros Ha Hk Hp Hl Hne Hs Henv Hown Hph. destruct Hs as [[es Hes] Ht Hq Hkey Hpr Hco Hsec Hre].
  destruct (quiet_controller es s Hes Ht) as (Hf & He & Hr & Hch).
  unfold handshake_frame in *. destruct (profileHash sha256 (getProfile i)) as [h|] eqn:Hh; [|done].
  cbn [mbind option_bind] in *.
  destruct (handshake_of_wire peer i h Hp Hl Hh) as (b & Hb & Hd). rewrite Hb in Henv. cbn [option_bind] in Henv.
  apply (inj Some) in Henv as <-.
  destruct (encodeHandshake (handshake_of (key_bytes key) (getProfile i) h)) as [o|] eqn:Ho; [|done].
  cbn [option_bind] in Hown. apply (inj Some) in Hown as <-.
  destruct (handshake_activates a key (getProfile i) (lifecycleEpoch s) (secureEpoch s)
    (handshake_of peer (getProfile i) h) peer b Hd) with (h := h) (own := o) (ch := nextChannel s) (n := nextId s)
    (v := view s) (eff := effects s) (phrase := phrase) (s := s) as (s' & T & n' & []); try done.
  - by apply base64Url_roundtrip.
  - destruct (jstr_eqb _ _) eqn:Ej; [|done]. apply jstr_eqb_eq, (base64Url_inj sha256 sha256_bytes) in Ej; done.
  - assert (local_handshake sha256 peer (getProfile i) = Some (handshake_of peer (getProfile i) h)) as Hloc.
    { unfold local_handshake. by rewrite Hh. }
    apply (compatible_local sha256 sha256_bytes) in Hloc. unfold compatible in Hloc. by rewrite Hh in Hloc.
  - constructor; try done. intros t Htl. right. by apply Hch.
  - unfold input. by rewrite Hco.
  - destruct (shown_state a (getProfile i) phrase (view s)) as (V1 & V2 & V3).
    exists s'. split; [done|]. split; [rewrite sg_effects0; apply elem_of_app; right; by left|].
    constructor; rewrite ?sg_view0, ?sg_secure0; done.
Qed.

(** C5: two controllers that wait in the same room complete the handshake.
    When the first handshake of one reaches the other, its components
    answer, and the continuations run, the other replies and its chat opens;
    when that reply reaches the first, its chat opens too; and both show the
    same safety phrase. *)
Theorem handshake_completes a ka kb i code sa sb env_a :
  an_sent a = true ->
  wf_bytes (key_bytes ka) -> length (key_bytes ka) = 32%nat ->
  wf_bytes (key_bytes kb) -> length (key_bytes kb) = 32%nat -> key_bytes ka <> key_bytes kb ->
  waits_for_peer ka i code sa -> waits_for_peer kb i code sb ->
  handshake_frame (key_bytes ka) i = Some env_a ->
  exists phrase env_b sa' sb',
    star (honest_step a) (routeEnvelope env_a a sb) sb' /\ chat_open phrase sb' /\
    TSendHandshake false (secureEpoch sb) env_b ∈ effects sb' /\
    star (honest_step a) (routeEnvelope env_b a sa) sa' /\ chat_open phrase sa'.
Proof.
  intros Hsent Ha La Hb Lb Hne Hsa Hsb Hfa.
  destruct (verificationPhrase_local sha256 sha256_bytes (key_bytes ka) (key_bytes kb) i code Ha Hb) as [phrase Hph].
  assert (exists env_b, handshake_frame (key_bytes kb) i = Some env_b) as [env_b Hfb].
  { unfold handshake_frame in *. destruct (profileHash sha256 (getProfile i)) as [h|] eqn:Hh; [|done].
    destruct (handshake_of_wire (key_bytes kb) i h Hb Lb Hh) as (b & Hbb & _). cbn [mbind option_bind].
    rewrite Hbb. by eexists. }
  destruct (peer_handshake_opens a kb (key_bytes ka) i code env_a env_b phrase sb) as (sb' & T1 & R1 & C1); try done.
  { unfold phrase_of. by rewrite verificationPhrase_swap. }
  destruct (peer_handshake_opens a ka (key_bytes kb) i code env_b env_a phrase sa) as (sa' & T2 & _ & C2); try done.
  by exists phrase, env_b, sa', sb'.
Qed.
End Exchange.

(** ** Witness *)

(** Two browsers after [demo_room], with different keys. *)
Definition demo_start (b : Z) : list (Event * Answers) :=
  (fun e => (e, demo_answers)) <$>
    [UCreateRoom; Settle 1 (Fulfilled (VRoom (js "ABCD-EFGH") ProfileId.balanced)); Resume 0;
     Settle 4 demo_done; Resume 0; Settle 5 (Fulfilled (VKey (replicate 32 b))); Resume 1;
     Settle 6 demo_done; Resume 1; Settle 9 demo_hashed; Resume 1; Resume 1; Resume 1; Resume 0].

Definition demo_side (b : Z) : Session := default newSession (run (demo_start b) newSession).

Lemma demo_waits (b : Z) :
  run (demo_start b) newSession = Some (demo_side b) ->
  waits_for_peer {| key_id := 5; key_bytes := replicate 32 b |} ProfileId.balanced (js "ABCD-EFGH") (demo_side b).
Proof. intros H. constructor; [by exists (demo_start b)|..]; vm_compute; reflexivity. Qed.

Lemma handshake_completes_witness :
  exists env_a, handshake_frame demo_sha (replicate 32 1) ProfileId.balanced = Some env_a /\
  exists phrase env_b sa' sb',
    star (honest_step demo_sha demo_answers) (routeEnvelope env_a demo_answers (demo_side 9)) sb' /\ chat_open phrase sb' /\
    TSendHandshake false (secureEpoch (demo_side 9)) env_b ∈ effects sb' /\
    star (honest_step demo_sha demo_answers) (routeEnvelope env_b demo_answers (demo_side 1)) sa' /\ chat_open phrase sa'.
Proof.
  assert (forall x : Z, 0 <= x < 256 -> wf_bytes (replicate 32 x)) as Hw by (intros; by apply Forall_replicate).
  eexists. split; [vm_compute; reflexivity|].
  refine (handshake_completes demo_sha demo_sha_bytes _ demo_answers {| key_id := 5; key_bytes := replicate 32 1 |}
    {| key_id := 5; key_bytes := replicate 32 9 |} ProfileId.balanced (js "ABCD-EFGH") _ _ _
    eq_refl (Hw 1 _) eq_refl (Hw 9 _) eq_refl _ (demo_waits 1 _) (demo_waits 9 _) _); try lia; try discriminate;
    vm_compute; reflexivity.
Defined.
