(* ===== verification/JsString.v ===== *)
(** * More of JavaScript strings and numbers

    [split] on one character, search for a word without regard to case, and
    the double-precision arithmetic of a percentage. *)
From S2P Require Import Prelude Messages Negotiation.
From Stdlib Require Import SpecFloat.

(** ** Splitting *)

(** [s.split(c)] for a one-character separator. *)
Fixpoint split (c : Z) (s : jstr) : list jstr :=
  match s with
  | [] => [[]]
  | x :: s' =>
      if x =? c then [] :: split c s'
      else match split c s' with w :: l => (x :: w) :: l | [] => [[x]] end
  end.

(** [.filter(Boolean)]. *)
Definition filter_truthy (l : list jstr) : list jstr := filter (fun w => truthy w = true) l.

Lemma split_nonempty c s : split c s <> [].
Proof. destruct s as [|x s]; cbn [split]; [done|]. destruct (x =? c); [done|]. by destruct (split c s). Qed.

Lemma split_word c w : Forall (fun x => x <> c) w -> split c w = [w].
Proof.
  induction 1 as [|x w Hx _ IH]; [done|]. cbn [split]. rewrite IH. by destruct (Z.eqb_spec x c).
Qed.

Lemma split_word_app c w s : Forall (fun x => x <> c) w -> split c (w ++ c :: s) = w :: split c s.
Proof.
  induction 1 as [|x w Hx _ IH]; cbn [app split]; [by rewrite Z.eqb_refl|].
  destruct (Z.eqb_spec x c); [done|]. by rewrite IH.
Qed.

Lemma join_nonempty_cons sep w l : l <> [] -> join sep (w :: l) = w ++ sep ++ join sep l.
Proof. by destruct l. Qed.

(** Splitting undoes joining. *)
Lemma split_join c l :
  l <> [] -> Forall (Forall (fun x => x <> c)) l -> split c (join [c] l) = l.
Proof.
  intros Hl H. induction H as [|w l Hw Hr IH]; [done|].
  destruct l as [|w' l]; [by apply split_word|].
  rewrite join_nonempty_cons by done. change ([c] ++ ?x) with (c :: x).
  by rewrite split_word_app, IH.
Qed.

Lemma join_app sep l k : l <> [] -> k <> [] -> join sep (l ++ k) = join sep l ++ sep ++ join sep k.
Proof.
  intros Hl Hk. induction l as [|w l IH]; [done|]. destruct l as [|w' l].
  - by apply join_nonempty_cons.
  - change ((w :: w' :: l) ++ k) with (w :: ((w' :: l) ++ k)).
    rewrite (join_nonempty_cons sep w (w' :: l)) by done. rewrite join_nonempty_cons by done.
    rewrite IH by done. by rewrite <- !app_assoc.
Qed.

(** ** Search without regard to case

    A regular expression with the flag [i] compares a letter of ASCII with
    ASCII letters only. *)
Definition ascii_lower (c : Z) : Z := if (65 <=? c) && (c <=? 90) then c + 32 else c.

Fixpoint is_prefix (w s : jstr) : bool :=
  match w, s with
  | [], _ => true
  | x :: w', y :: s' => (x =? ascii_lower y) && is_prefix w' s'
  | _, _ => false
  end.

Fixpoint includes_i (w s : jstr) : bool :=
  is_prefix w s || match s with [] => false | _ :: s' => includes_i w s' end.

(** [new RegExp(words.join("|"), "i").test(s)] for lower-case words. *)
Definition test_i (words : list jstr) (s : jstr) : bool := existsb (fun w => includes_i w s) words.

(** ** Doubles *)

Definition double_of_Z (n : Z) : spec_float := binary_normalize 53 1024 n 0 false.
Definition double_div (a b : spec_float) : spec_float := SFdiv 53 1024 a b.
Definition double_mul (a b : spec_float) : spec_float := SFmul 53 1024 a b.

(** The value of a finite double as a fraction whose denominator is a power
    of two. *)
Definition double_fraction (x : spec_float) : option (Z * Z) :=
  match x with
  | S754_zero _ => Some (0, 1)
  | S754_finite s m e =>
      let n := if s then Z.neg m else Z.pos m in
      Some (if 0 <=? e then (n * 2 ^ e, 1) else (n, 2 ^ (- e)))
  | _ => None
  end.

(** [x < n], [n < x] for an integer. *)
Definition double_lt_Z (x : spec_float) (n : Z) : bool :=
  match double_fraction x, x with
  | Some (p, q), _ => p <? n * q
  | None, S754_infinity s => s
  | None, _ => false
  end.

Definition Z_lt_double (n : Z) (x : spec_float) : bool :=
  match double_fraction x, x with
  | Some (p, q), _ => n * q <? p
  | None, S754_infinity s => negb s
  | None, _ => false
  end.

Definition is_nan (x : spec_float) : bool := match x with S754_nan => true | _ => false end.

(** [Math.min(n, x)] and [Math.max(n, x)]. *)
Definition double_min_Z (n : Z) (x : spec_float) : spec_float :=
  if double_lt_Z x n then x else if is_nan x then x else double_of_Z n.
Definition double_max_Z (n : Z) (x : spec_float) : spec_float :=
  if Z_lt_double n x then x else if is_nan x then x else double_of_Z n.

(** [Math.round]: the nearest integer, upwards from the middle. *)
Definition double_round (x : spec_float) : option Z :=
  match double_fraction x with
  | Some (p, q) => Some ((2 * p + q) / (2 * q))
  | None => None
  end.

Lemma double_fraction_pos x p q : double_fraction x = Some (p, q) -> 0 < q.
Proof.
  destruct x as [s| | |s m e]; cbn [double_fraction]; try done; intros H.
  - by apply (inj Some) in H; simplify_eq.
  - apply (inj Some) in H. destruct (Z.leb_spec 0 e); simplify_eq; [done|].
    apply Z.pow_pos_nonneg; lia.
Qed.
