(* ===== verification/VoiceLevel.v ===== *)
(** * The level of a voice frame: [rmsDb] of
      [client/src/features/audio/VadGate.ts]

    Samples are doubles.  Sums, products, quotients and the square root are
    those of IEEE 754; [Math.log10] is left to the implementation by the
    language and is an argument. *)
From S2P Require Import Prelude JsMap Bytes Profiles Audio Voice JsString.
From Stdlib Require Import SpecFloat.

Section Level.
Context (log10 : spec_float -> spec_float).

Definition double_add (a b : spec_float) : spec_float := SFadd 53 1024 a b.

(** [1e-8]. *)
Definition tiny : spec_float := S754_finite false 6044629098073146 (-79).

Definition squares (frame : list spec_float) : spec_float :=
  foldl (fun sum sample => double_add sum (double_mul sample sample)) (S754_zero false) frame.

Definition rmsDb (frame : list spec_float) : spec_float :=
  match frame with
  | [] => S754_infinity true
  | _ =>
      let rms := SFsqrt 53 1024 (double_div (squares frame) (double_of_Z (zlength frame))) in
      double_mul (double_of_Z 20) (log10 (double_add rms tiny))
  end.

(** [levelDb >= threshold], the test of the gate. *)
Definition level_above (threshold : Z) (frame : list spec_float) : bool :=
  SFleb (double_of_Z threshold) (rmsDb frame).

(** ** Silence *)

Definition silent (frame : list spec_float) : Prop := Forall (fun x => exists s, x = S754_zero s) frame.

Lemma squares_silent frame : silent frame -> squares frame = S754_zero false.
Proof.
  intros H. unfold squares. induction H as [|x frame [s ->] _ IH]; [done|]. cbn [foldl].
  replace (double_add _ _) with (S754_zero false) by (by destruct s). exact IH.
Qed.

(** No division by the length of a frame goes wrong. *)
Definition divides (n : Z) : bool :=
  match double_div (S754_zero false) (double_of_Z n) with S754_zero false => true | _ => false end.

Lemma zero_over_length n : 0 < n <= 4096 -> double_div (S754_zero false) (double_of_Z n) = S754_zero false.
Proof.
  intros Hn. assert (divides n = true) as H.
  { assert (forallb divides (seqZ 1 4096) = true) as H by (vm_compute; reflexivity).
    rewrite forallb_forall in H. apply H, list_elem_of_In, elem_of_seqZ. lia. }
  revert H. unfold divides. generalize (double_div (S754_zero false) (double_of_Z n)). clear. intros [[]| | |] H; done.
Qed.

Lemma level_silent frame :
  log10 tiny = double_of_Z (-8) -> 0 < zlength frame <= 4096 -> silent frame -> rmsDb frame = double_of_Z (-160).
Proof.
  intros Hlog Hlen Hs. unfold rmsDb. destruct frame as [|x frame]; [by destruct Hlen|].
  rewrite squares_silent, zero_over_length by done.
  change (double_add (SFsqrt 53 1024 (S754_zero false)) tiny) with tiny. rewrite Hlog. by vm_compute.
Qed.

(** A gate that lets silence through would send it. *)
Lemma gate_silent cfg g fs :
  Vad.enabled cfg = true -> 0 < Vad.minSpeechFrames cfg -> Vad.speaking g = false ->
  Forall (fun f => level_above (Vad.startDb cfg) f = false) fs ->
  (Vad.run level_above cfg fs g).2 = [] /\ Vad.speaking (Vad.run level_above cfg fs g).1 = false.
Proof.
  intros He Hm Hg Hfs. revert g Hg. induction Hfs as [|f fs Hf _ IH]; intros g Hg; [done|].
  cbn [Vad.run]. unfold Vad.process. rewrite He, Hg, Hf. cbn [negb].
  rewrite (proj2 (Z.leb_gt _ _)) by lia.
  match goal with |- context [Vad.run level_above cfg fs ?x] => destruct (IH x eq_refl) as [H1 H2];
    destruct (Vad.run level_above cfg fs x) as [y out] end.
  cbn [fst snd Vad.d_frames Vad.decide_] in *. by subst out.
Qed.

(** In the profiles that gate the voice, silence is not sent: a gate that is
    not open stays closed on frames of zeros, and nothing goes out. *)
Theorem silence_not_sent i g fs (cfg := vadConfig (getProfile i)) :
  log10 tiny = double_of_Z (-8) -> Vad.enabled cfg = true -> Vad.speaking g = false ->
  Forall (fun f => 0 < zlength f <= 4096 /\ silent f) fs ->
  (Vad.run level_above cfg fs g).2 = [] /\ Vad.speaking (Vad.run level_above cfg fs g).1 = false.
Proof.
  intros Hlog He Hg Hfs. apply gate_silent; [done|by destruct i|done|].
  eapply Forall_impl; [exact Hfs|]. intros f [Hl Hf]. unfold level_above. rewrite level_silent by done.
  by destruct i; vm_compute.
Qed.
End Level.

(** A gate hears a loud frame and not the silence around it. *)
Definition demo_log10 (x : spec_float) : spec_float :=
  if SFleb x tiny then double_of_Z (-8) else double_of_Z 0.

Definition demo_silence : list spec_float := replicate 16 (S754_zero false).
Definition demo_loud : list spec_float := replicate 16 (double_div (double_of_Z 1) (double_of_Z 2)).

Example gate_on_levels :
  (Vad.run (level_above demo_log10) (vadConfig (getProfile ProfileId.balanced))
     [demo_silence; demo_silence; demo_loud; demo_loud; demo_silence] Vad.reset).2 =
  [demo_silence; demo_loud; demo_loud; demo_silence].
Proof. vm_compute. reflexivity. Qed.

Lemma silence_not_sent_witness :
  (Vad.run (level_above demo_log10) (vadConfig (getProfile ProfileId.balanced)) [demo_silence; demo_silence] Vad.reset).2 = [].
Proof.
  apply (silence_not_sent demo_log10 ProfileId.balanced Vad.reset [demo_silence; demo_silence]); try reflexivity.
  assert (0 < zlength demo_silence <= 4096 /\ silent demo_silence) as H.
  { split; [split; [reflexivity|discriminate]|]. apply Forall_replicate. by exists false. }
  by repeat (apply Forall_cons; split; [exact H|]).
Defined.
