(* ===== verification/Links.v ===== *)
(** * Room links: [roomLink] and [roomCodeFromUrl] of
      [client/src/utils/ids.ts]

    The page's address is a [Location].  The parts of the URL standard that
    the two functions use are written out: the encoding and the parsing of
    [application/x-www-form-urlencoded], with the decoder of UTF-8 that
    replaces what is ill-formed. *)
From S2P Require Import Prelude Bytes Utf8 Messages JsString Rooms.

(** The address before its query, the query with its question mark, and the
    fragment. *)
Record Location := { loc_base : jstr; loc_search : jstr; loc_hash : jstr }.

(** ** Encoding *)

Definition is_form_char (b : Z) : bool :=
  is_code_char b || ((97 <=? b) && (b <=? 122)) || (b =? 42) || (b =? 45) || (b =? 46) || (b =? 95).

Definition upper_hex (n : Z) : Z := if n <? 10 then 48 + n else 55 + n.

Definition form_encode_byte (b : Z) : jstr :=
  if b =? 32 then [43]
  else if is_form_char b then [b]
  else [37; upper_hex (b / 16); upper_hex (b mod 16)].

Definition form_encode (s : jstr) : jstr := mjoin (form_encode_byte <$> utf8Encode s).

(** ** Decoding *)

Definition hex_value (c : Z) : option Z :=
  if (48 <=? c) && (c <=? 57) then Some (c - 48)
  else if (65 <=? c) && (c <=? 70) then Some (c - 55)
  else if (97 <=? c) && (c <=? 102) then Some (c - 87)
  else None.

(** Percent-decoding, with [+] for a space. *)
Fixpoint form_decode_bytes (l : bytes) : bytes :=
  match l with
  | [] => []
  | b :: l1 =>
      if b =? 43 then 32 :: form_decode_bytes l1
      else if b =? 37 then
        match l1 with
        | h :: l :: l3 =>
            match hex_value h, hex_value l with
            | Some x, Some y => 16 * x + y :: form_decode_bytes l3
            | _, _ => b :: form_decode_bytes l1
            end
        | _ => b :: form_decode_bytes l1
        end
      else b :: form_decode_bytes l1
  end.

(** UTF-8 with replacement: the bytes still needed, the range of the next
    one, and the code point so far. *)
Inductive Utf8State := utf8_start | utf8_in (needed : nat) (lower upper point : Z).

Definition utf8_first (b : Z) : jstr * Utf8State :=
  if b <? 0x80 then ([b], utf8_start)
  else if in_range 0xC2 0xDF b then ([], utf8_in 1 0x80 0xBF (b - 0xC0))
  else if in_range 0xE0 0xEF b then
    ([], utf8_in 2 (if b =? 0xE0 then 0xA0 else 0x80) (if b =? 0xED then 0x9F else 0xBF) (b - 0xE0))
  else if in_range 0xF0 0xF4 b then
    ([], utf8_in 3 (if b =? 0xF0 then 0x90 else 0x80) (if b =? 0xF4 then 0x8F else 0xBF) (b - 0xF0))
  else ([0xFFFD], utf8_start).

Definition utf8_step (st : Utf8State) (b : Z) : jstr * Utf8State :=
  match st with
  | utf8_start => utf8_first b
  | utf8_in needed lower upper point =>
      if in_range lower upper b then
        let point := point * 64 + (b - 0x80) in
        match needed with
        | S (S n) => ([], utf8_in (S n) 0x80 0xBF point)
        | _ => (utf16_scalar point, utf8_start)
        end
      else let '(out, st) := utf8_first b in (0xFFFD :: out, st)
  end.

Fixpoint utf8_lossy (st : Utf8State) (l : bytes) : jstr :=
  match l with
  | [] => match st with utf8_start => [] | utf8_in _ _ _ _ => [0xFFFD] end
  | b :: l => let '(out, st) := utf8_step st b in out ++ utf8_lossy st l
  end.

Definition form_decode (s : jstr) : jstr := utf8_lossy utf8_start (form_decode_bytes (utf8Encode s)).

(** The name and the value of one part of the query: at its first [=]. *)
Fixpoint name_value (s : jstr) : jstr * jstr :=
  match s with
  | [] => ([], [])
  | c :: s' => if c =? 61 then ([], s') else let '(n, v) := name_value s' in (c :: n, v)
  end.

Definition parse_query (s : jstr) : list (jstr * jstr) :=
  (fun part => let '(n, v) := name_value part in (form_decode n, form_decode v))
    <$> filter_truthy (split 38 s).

(** [new URLSearchParams(search).get(name)]. *)
Definition search_get (name search : jstr) : option jstr :=
  let query := match search with 63 :: q => q | _ => search end in
  snd <$> find (fun nv => jstr_eqb (fst nv) name) (parse_query query).

(** ** The two functions *)

Definition roomLink (loc : Location) (code : jstr) : Location := {|
  loc_base := loc_base loc;
  loc_search := [63] ++ form_encode (js "room") ++ [61] ++ form_encode code;
  loc_hash := [];
|}.

(** [url.toString()]. *)
Definition location_href (loc : Location) : jstr := loc_base loc ++ loc_search loc ++ loc_hash loc.

Definition roomCodeFromLocation (loc : Location) : jstr :=
  roomCodeFromUrl (search_get (js "room") (loc_search loc)).

(** ** A shared link leads to the room *)

Definition plain (c : Z) : Prop := is_code_char c = true \/ c = 45.

Lemma plain_range c : plain c -> 45 <= c <= 90 /\ is_form_char c = true.
Proof.
  unfold plain, is_form_char, is_code_char. intros [H| ->]; [|done].
  rewrite H. cbn [orb]. split; [|done]. apply orb_true_iff in H as [H|H]; bool_facts; lia.
Qed.

Lemma utf8Encode_plain s : Forall plain s -> utf8Encode s = s.
Proof.
  induction 1 as [|c s Hc _ IH]; [done|]. apply plain_range in Hc as [Hr _]. cbn [utf8Encode].
  unfold is_high, is_low.
  destruct (Z.leb_spec 0xD800 c); [lia|]. destruct (Z.leb_spec 0xDC00 c); [lia|]. cbn [andb].
  unfold utf8_scalar. destruct (Z.ltb_spec c 0x80); [|lia]. by rewrite IH.
Qed.

Lemma form_encode_plain s : Forall plain s -> form_encode s = s.
Proof.
  intros H. unfold form_encode. rewrite utf8Encode_plain by done.
  induction H as [|c s Hc _ IH]; [done|]. cbn [fmap list_fmap mjoin list_join].
  apply plain_range in Hc as [Hr Hf]. unfold form_encode_byte at 1.
  destruct (Z.eqb_spec c 32); [lia|]. rewrite Hf. cbn [app]. f_equal. exact IH.
Qed.

Lemma form_decode_plain s : Forall plain s -> form_decode s = s.
Proof.
  intros H. unfold form_decode. rewrite utf8Encode_plain by done.
  assert (form_decode_bytes s = s) as ->.
  { induction H as [|c s Hc _ IH]; [done|]. apply plain_range in Hc as [Hr _].
    cbn [form_decode_bytes]. destruct (Z.eqb_spec c 43); [lia|]. destruct (Z.eqb_spec c 37); [lia|].
    by rewrite IH. }
  induction H as [|c s Hc _ IH]; [done|]. apply plain_range in Hc as [Hr _].
  cbn [utf8_lossy utf8_step]. unfold utf8_first. destruct (Z.ltb_spec c 0x80); [|lia].
  cbn [app]. f_equal. exact IH.
Qed.

Lemma normalizeRoomCode_plain v : Forall plain (normalizeRoomCode v).
Proof.
  destruct (normalizeRoomCode_canonical v) as (_ & _ & a & b & Hab & _ & _ & ->).
  apply Forall_app in Hab as [Ha Hb].
  assert (forall l, Forall (fun x => is_code_char x = true) l -> Forall plain l) as Hp.
  { intros l Hl. eapply Forall_impl; [exact Hl|]. intros x Hx. by left. }
  apply Forall_app. split; [by apply Hp|]. destruct (truthy b); [|constructor].
  apply Forall_app. split; [|by apply Hp]. constructor; [by right|constructor].
Qed.

Lemma split_plain s : Forall plain s -> split 38 (js "room" ++ [61] ++ s) = [js "room" ++ [61] ++ s].
Proof.
  intros H. apply split_word. apply Forall_app. split; [by repeat (constructor; [done|])|].
  constructor; [done|]. eapply Forall_impl; [exact H|]. intros c Hc%plain_range. lia.
Qed.

(** C33: the link that a room's page gives out opens on the code of the room,
    whatever query and fragment the page had, and sharing from the opened
    page gives the same link. *)
Theorem shared_link_opens_room loc v :
  let code := normalizeRoomCode v in
  roomCodeFromLocation (roomLink loc code) = code /\
  roomLink (roomLink loc code) (roomCodeFromLocation (roomLink loc code)) = roomLink loc code /\
  location_href (roomLink loc code) = loc_base loc ++ js "?room=" ++ code.
Proof.
  intros code. pose proof (normalizeRoomCode_plain v) as Hp. fold code in Hp.
  assert (roomCodeFromLocation (roomLink loc code) = code) as He.
  { unfold roomCodeFromLocation, roomLink, search_get, parse_query. cbn [loc_search app].
    rewrite (form_encode_plain code) by done. change (form_encode (js "room")) with (js "room").
    change (js "room" ++ 61 :: code) with (js "room" ++ [61] ++ code). rewrite split_plain by done.
    unfold filter_truthy. rewrite filter_cons_True by done. rewrite filter_nil. cbn [fmap list_fmap].
    change (js "room" ++ [61] ++ code) with (114 :: 111 :: 111 :: 109 :: 61 :: code). cbn [name_value Z.eqb Pos.eqb].
    rewrite (form_decode_plain code) by done. cbn [find fst snd].
    change (form_decode [114; 111; 111; 109]) with (js "room"). rewrite jstr_eqb_refl. cbn [fmap option_fmap snd].
    unfold roomCodeFromUrl. cbn [default from_option]. apply normalizeRoomCode_canonical. }
  split_and!; [exact He|rewrite He; reflexivity|]. unfold location_href, roomLink. cbn [loc_base loc_search loc_hash].
  rewrite (form_encode_plain code) by done. change (form_encode (js "room")) with (js "room"). by rewrite app_nil_r.
Qed.

Example link_of_page :
  location_href (roomLink {| loc_base := js "https://only.two/"; loc_search := js "?x=1"; loc_hash := js "#a" |}
    (js "ABCD-1234")) = js "https://only.two/?room=ABCD-1234".
Proof. reflexivity. Qed.

Example code_of_pasted_link :
  roomCodeFromLocation {| loc_base := js "https://only.two/"; loc_search := js "?a=b&room=abcd%2d12+34&room=Q";
                          loc_hash := [] |} = js "ABCD-1234".
Proof. reflexivity. Qed.
