(* ===== verification/Dom.v ===== *)
(** * Documents: [client/src/ui/dom.ts]

    A document is a tree of elements.  The event handlers that the interface
    attaches are closures; here each is a constructor of [Handler] with the
    variables it captures, and [AppView] says what it does.  The two text
    fields of the interface are referred to after they have been made, so
    they are objects of a store and the tree holds references to them. *)
From S2P Require Import Prelude Bytes Messages JsString.
From Stdlib Require Import SpecFloat.

Inductive Tag :=
  Main | Section_ | Div | H1 | H2 | P | Span | Strong | Label | Form | Select | Option_ | Button
| Header | Nav | Article | Time_ | Anchor | FileInput.

Inductive SheetName := sheet_room | sheet_verify | sheet_about | sheet_leave.

(** The closures assigned to [onclick], [onsubmit] and [onchange]. *)
Inductive Handler :=
| OnCreateRoom
| OnJoin (busy : bool)
| OnProfile
| OnOpenSheet (sheet : SheetName)
| OnCopyCode
| OnShare
| OnSecurity
| OnMore
| OnMenu (action : Handler)
| OnAccept (fileId : jstr)
| OnDecline (fileId : jstr)
| OnCancel (fileId : jstr)
| OnRemove (fileId : jstr)
| OnEnableAudio
| OnFile
| OnSubmit
| OnAttach
| OnMute
| OnStop
| OnVoice
| OnOverlay
| OnClose
| OnVerified (matches : bool)
| OnLeave.

#[export] Instance Tag_eq_dec : EqDecision Tag.
Proof. solve_decision. Defined.
#[export] Instance SheetName_eq_dec : EqDecision SheetName.
Proof. solve_decision. Defined.
#[export] Instance Handler_eq_dec : EqDecision Handler.
Proof. solve_decision. Defined.

(** What the interface sets on an element. *)
Record Attributes := {
  tag : Tag;
  className : jstr;
  submits : bool;                 (* [type = "submit"] *)
  title : jstr;
  ariaLabel : jstr;
  disabled : bool;
  value : jstr;
  selected : bool;
  href : option bytes;            (* the blob behind the address *)
  download : jstr;
  width : option spec_float;      (* [style.width], in percent *)
  on : option Handler;
}.

#[export] Instance Attributes_eta : Eta Attributes := fun a =>
  Build_Attributes (tag a) (className a) (submits a) (title a) (ariaLabel a) (disabled a) (value a)
    (selected a) (href a) (download a) (width a) (on a).

Unset Elimination Schemes.
Inductive Node :=
| Text (s : jstr)
| Field (input : nat)             (* a text field of the store *)
| Element (a : Attributes) (children : list Node).
Set Elimination Schemes.

Section Node_ind.
Context (P : Node -> Prop) (HText : forall s, P (Text s)) (HField : forall i, P (Field i))
  (HElement : forall a l, Forall P l -> P (Element a l)).

Fixpoint Node_ind (n : Node) : P n :=
  match n with
  | Text s => HText s
  | Field i => HField i
  | Element a l =>
      HElement a l ((fix go l : Forall P l :=
        match l with [] => Forall_nil_2 _ | n :: l => Forall_cons_2 _ _ _ (Node_ind n) (go l) end) l)
  end.
End Node_ind.

(** ** Building *)

Definition createElement (t : Tag) : Attributes := {|
  tag := t; className := []; submits := false; title := []; ariaLabel := []; disabled := false;
  value := []; selected := false; href := None; download := []; width := None; on := None;
|}.

(** [node.textContent = text]. *)
Definition textContent (text : jstr) : list Node := if truthy text then [Text text] else [].

(** [el] with its optional arguments. *)
Definition el (t : Tag) (className_ : option jstr) (text : option jstr) : Node :=
  let a := createElement t in
  let a := match className_ with
           | Some c => if truthy c then a <| className := c |> else a
           | None => a
           end in
  Element a (match text with Some s => textContent s | None => [] end).

Definition button (label className_ : jstr) : Node :=
  Element ((createElement Button) <| className := className_ |>) (textContent label).

(** [node.append(...)]. *)
Definition append (n : Node) (kids : list Node) : Node :=
  match n with Element a l => Element a (l ++ kids) | _ => n end.

(** An assignment to a property of the element. *)
Definition with_attr (f : Attributes -> Attributes) (n : Node) : Node :=
  match n with Element a l => Element (f a) l | _ => n end.

Definition set_on (h : Handler) (n : Node) : Node := with_attr (fun a => a <| on := Some h |>) n.
Definition set_disabled (b : bool) (n : Node) : Node := with_attr (fun a => a <| disabled := b |>) n.
Definition set_titles (text : jstr) (n : Node) : Node :=
  with_attr (fun a => a <| title := text |> <| ariaLabel := text |>) n.
Definition set_submit (n : Node) : Node := with_attr (fun a => a <| submits := true |>) n.

(** [while (node.firstChild) node.removeChild(node.firstChild)]. *)
Fixpoint clear_children (l : list Node) : list Node :=
  match l with [] => [] | _ :: l' => clear_children l' end.

Definition clear (n : Node) : Node :=
  match n with Element a l => Element a (clear_children l) | _ => n end.

(** ** Looking *)

(** Whether [c] is one of the classes of the element. *)
Definition has_class (c : jstr) (a : Attributes) : bool := existsb (jstr_eqb c) (split 32 (className a)).

(** [querySelector] for a class. *)
Fixpoint querySelector (c : jstr) (n : Node) : option Node :=
  match n with
  | Element a l =>
      if has_class c a then Some n
      else (fix go l := match l with
                        | [] => None
                        | m :: l => match querySelector c m with Some r => Some r | None => go l end
                        end) l
  | _ => None
  end.

(** Whether the text field is in the document. *)
Fixpoint attached (i : nat) (n : Node) : bool :=
  match n with
  | Text _ => false
  | Field j => (i =? j)%nat
  | Element _ l => existsb (attached i) l
  end.

Fixpoint can_submit (n : Node) : bool :=
  match n with
  | Element a l => (submits a && negb (disabled a)) || existsb can_submit l
  | _ => false
  end.

(** What the user can set off: the handlers of the elements that are not
    disabled; a form can be submitted when one of its submit buttons is
    enabled; a file field only reports what its chooser delivers. *)
Definition own_actions (a : Attributes) (l : list Node) : list Handler :=
  match on a with
  | None => []
  | Some h =>
      match tag a with
      | Form => if existsb can_submit l then [h] else []
      | FileInput => []
      | _ => if disabled a then [] else [h]
      end
  end.

Fixpoint actions (n : Node) : list Handler :=
  match n with
  | Element a l => own_actions a l ++ concat (actions <$> l)
  | _ => []
  end.

(** The text of a node and what it contains. *)
Fixpoint innerText (n : Node) : jstr :=
  match n with
  | Text s => s
  | Field _ => []
  | Element _ l => concat (innerText <$> l)
  end.
