(* ===== verification/AppView.v ===== *)
(** * User interface: [client/src/ui/AppView.ts]

    The view keeps the last state the controller gave it and some state of
    its own, and draws the whole page anew.  The page, its text fields, the
    focus, timers, animation frames and open promises of the browser are part
    of the state here.  The controller is reached through [Command]s, which
    are recorded; what it answers comes back as events.

    [Browser] holds what the browser decides: how a time is written, the
    layout, whether it can share, and the address of the page. *)
From S2P Require Import Prelude JsMap Bytes Profiles Messages Negotiation FileProtocol Rooms.
From S2P Require Import Scheduler Connection SessionView JsString Links Dom.
From Stdlib Require Import SpecFloat.

(** ** Labels *)

Definition hellip : jstr := [0x2026].

Definition profile_label (i : TransportProfileId) : jstr :=
  match i with
  | ProfileId.balanced => js "Balanced"
  | ProfileId.low_data => js "Low Data"
  | ProfileId.voice_first => js "Voice First"
  | ProfileId.maximum_privacy => js "Maximum Privacy"
  end.

Definition profilePlainDescription (i : TransportProfileId) : jstr :=
  match i with
  | ProfileId.balanced => js "Best default for normal chat, files, and voice."
  | ProfileId.low_data => js "Uses less bandwidth. Voice may feel less responsive."
  | ProfileId.voice_first => js "Keeps calls more stable. File transfer may slow down."
  | ProfileId.maximum_privacy =>
      js "Uses larger fixed-size traffic. More private against traffic patterns, but uses more bandwidth."
  end.

Inductive ToastTone := tone_info | tone_error.

Definition tone_name (t : ToastTone) : jstr :=
  match t with tone_info => js "info" | tone_error => js "error" end.

Definition error_words : list jstr :=
  [js "denied"; js "failed"; js "could not"; js "not ready"; js "blocked"; js "unstable"; js "mismatch";
   js "lost"; js "unavailable"; js "incompatible"].

Definition noticeToastTone (notice : jstr) : option ToastTone :=
  if test_i error_words notice then Some tone_error
  else if test_i [js "enabled"; js "copied"] notice then Some tone_info
  else None.

Definition connectionLabel (c : ConnectionStatus) : jstr :=
  match c with
  | Status.connected => js "Connected"
  | Status.connecting => js "Connecting"
  | Status.reconnecting => js "Reconnecting"
  | Status.failed => js "Failed"
  | Status.disconnected => js "Disconnected"
  end.

Definition encryptionLabel (s : Security.SecurityState) : jstr :=
  match s with
  | Security.verified => js "Verified"
  | Security.encrypted_unverified => js "Encrypted, not verified"
  | Security.verification_failed => js "Verification failed"
  | Security.none => js "Not ready"
  end.

(** The values of [SecurityState], which are also class names. *)
Definition security_name (s : Security.SecurityState) : jstr :=
  match s with
  | Security.none => js "none"
  | Security.encrypted_unverified => js "encrypted_unverified"
  | Security.verified => js "verified"
  | Security.verification_failed => js "verification_failed"
  end.

Definition isTerminalTransfer (st : Transfer.TransferState) : bool :=
  match st with Transfer.completed | Transfer.cancelled | Transfer.failed => true | _ => false end.

(** [a || b] on strings, the first possibly missing. *)
Definition or_text (a : option jstr) (b : jstr) : jstr :=
  match a with Some s => if truthy s then s else b | None => b end.

Definition is_receive (t : TransferView) : bool := bool_decide (tv_direction t = dir_receive).

Definition transferStateLabel (t : TransferView) : jstr :=
  match tv_state t with
  | Transfer.queued => js "Queued"
  | Transfer.offered => if is_receive t then js "Incoming file" else js "Offered"
  | Transfer.waiting => js "Waiting for peer acceptance"
  | Transfer.sending => js "Uploading"
  | Transfer.receiving => js "Downloading"
  | Transfer.paused => or_text (tv_reason t) (js "Paused")
  | Transfer.completed => if is_receive t then js "Received" else js "Sent"
  | Transfer.cancelled => js "Cancelled"
  | Transfer.failed => or_text (tv_reason t) (js "Transfer failed")
  end.

(** The double that the file services computed from the two counts. *)
Definition progress_double (progress : Z * Z) : spec_float :=
  let '(done, total) := progress in
  if total =? 0 then double_of_Z 0
  else double_min_Z 1 (double_div (double_of_Z done) (double_of_Z total)).

Definition progressPercent (progress : Z * Z) : spec_float :=
  double_max_Z 0 (double_min_Z 100 (double_mul (progress_double progress) (double_of_Z 100))).

Definition formatProgress (progress : Z * Z) : jstr :=
  match double_round (progressPercent progress) with
  | Some n => js_int n ++ js "%"
  | None => js "NaN%"
  end.

Definition in_progress (st : Transfer.TransferState) : bool :=
  negb (isTerminalTransfer st) && negb (bool_decide (st = Transfer.offered)).

Definition transferMeta (t : TransferView) : jstr :=
  join [32; 0xB7; 32]
    (transferStateLabel t :: if in_progress (tv_state t) then [formatProgress (tv_progress t)] else []).

Definition statusLabel (s : ItemStatus) : jstr :=
  match s with item_sending => js "Sending" | item_sent => js "Sent" | item_failed => js "Failed" end.

Definition status_name (s : ItemStatus) : jstr :=
  match s with item_sending => js "sending" | item_sent => js "sent" | item_failed => js "failed" end.

(** ** State *)

(** What the browser answers. *)
Record Browser := {
  intl : Z -> option jstr;        (* [DateTimeFormat.format]; [None] when it throws *)
  layout : Node -> Z * Z;         (* scrollHeight and clientHeight of the transcript of a page *)
  canShare : bool;                (* whether [navigator.share] exists *)
  location : Location;
}.

Definition formatTime (b : Browser) (timestamp : Z) : jstr := default [] (intl b timestamp).

(** A text field. *)
Record TextField := {
  f_class : jstr;
  f_placeholder : jstr;
  f_maxLength : Z;
  f_disabled : bool;
  f_value : jstr;
  f_selection : Z * Z;
}.

#[export] Instance TextField_eta : Eta TextField := fun f =>
  Build_TextField (f_class f) (f_placeholder f) (f_maxLength f) (f_disabled f) (f_value f) (f_selection f).

(** [input.value = text] puts the caret at the end of a text that is new. *)
Definition set_value (text : jstr) (f : TextField) : TextField :=
  if jstr_eqb text (f_value f) then f
  else f <| f_value := text |> <| f_selection := (zlength text, zlength text) |>.

Definition setSelectionRange (a b : Z) (f : TextField) : TextField :=
  let b := Z.min b (zlength (f_value f)) in f <| f_selection := (Z.min a b, b) |>.

(** The methods of the controller that the view calls. *)
Inductive Command :=
| CreateRoom | JoinRoom (code : jstr) | SetProfile (i : TransportProfileId)
| SendText (text : jstr) | MarkVerified (matches : bool)
| OfferFile (name : jstr) (size : Z)
| AcceptFile (fileId : jstr) | RejectFile (fileId : jstr) | CancelFile (fileId : jstr)
| RemoveFile (fileId : jstr)
| StartVoice | StopVoice | ToggleMute | EnableAudioPlayback | EndChatForBoth.

Inductive Timer := timer_toast | timer_copied.

(** What an open promise continues with. *)
Inductive Pending :=
| PCommand                        (* [.catch((err) => this.showError(err))] *)
| PCopyCode                       (* [copyRoomCode] at its await *)
| PCopyText (confirmation : jstr) (* [copyText] at its await *)
| PShare (text : jstr).           (* [shareRoom] at its first await *)

(** A thrown value: an [Error] with its message, or what [String] makes of
    another value. *)
Inductive Thrown := ErrorObject (message : jstr) | OtherValue (string : jstr).

Record AppView := {
  state : option SessionViewState;
  activeSheet : option SheetName;
  menuOpen : bool;
  messageInput : option nat;
  roomInput : option nat;
  messageDraft : jstr;
  roomDraft : jstr;
  lastError : option jstr;
  toast : option (jstr * ToastTone);
  toastTimer : option nat;
  codeCopied : bool;
  announcedIncomingOffers : list jstr;
  renderScheduled : bool;
  lastNoticeShown : option jstr;
  (* the browser *)
  root : Node;
  fields : list TextField;
  activeElement : option nat;     (* a text field with the focus *)
  scrollTop : Z;                  (* of the transcript *)
  timers : list (nat * Timer);
  nextTimer : nat;
  frames : nat;                   (* requested animation frames *)
  pending : list Pending;
  choosers : nat;                 (* open file choosers *)
  commands : list Command;
  toasts : list (jstr * ToastTone);
}.

#[export] Instance AppView_eta : Eta AppView := fun u =>
  Build_AppView (state u) (activeSheet u) (menuOpen u) (messageInput u) (roomInput u) (messageDraft u)
    (roomDraft u) (lastError u) (toast u) (toastTimer u) (codeCopied u) (announcedIncomingOffers u)
    (renderScheduled u) (lastNoticeShown u) (root u) (fields u) (activeElement u) (scrollTop u)
    (timers u) (nextTimer u) (frames u) (pending u) (choosers u) (commands u) (toasts u).

Definition newAppView (b : Browser) : AppView := {|
  state := None; activeSheet := None; menuOpen := false; messageInput := None; roomInput := None;
  messageDraft := []; roomDraft := roomCodeFromLocation (location b); lastError := None; toast := None;
  toastTimer := None; codeCopied := false; announcedIncomingOffers := []; renderScheduled := false;
  lastNoticeShown := None; root := Element (createElement Div) []; fields := []; activeElement := None;
  scrollTop := 0; timers := []; nextTimer := 1; frames := 0; pending := []; choosers := 0;
  commands := []; toasts := [];
|}.

(** ** What the state allows *)

Definition st_phase (u : AppView) : option Phase.Phase := phase <$> state u.
Definition st_security (u : AppView) : Security.SecurityState := default Security.none (security <$> state u).
Definition st_voice (u : AppView) : Voice.VoiceState := default Voice.idle (voice <$> state u).
Definition st_roomCode (u : AppView) : jstr := default [] (roomCode <$> state u).
Definition st_profileId (u : AppView) : TransportProfileId :=
  default ProfileId.balanced (vs_profileId <$> state u).
Definition st_safetyPhrase (u : AppView) : jstr :=
  default [] (st ← state u; safetyPhrase st).

Definition isPreChat (u : AppView) : bool :=
  match st_phase u with
  | None | Some (Phase.idle | Phase.creating | Phase.joining | Phase.ended) => true
  | _ => false
  end.

Definition isStarting (u : AppView) : bool :=
  bool_decide (st_phase u = Some Phase.creating) || bool_decide (st_phase u = Some Phase.joining).

Definition isVoiceActive (u : AppView) : bool :=
  match st_voice u with Voice.starting | Voice.active | Voice.muted => true | _ => false end.

Definition is_encrypted (s : Security.SecurityState) : bool :=
  match s with Security.encrypted_unverified | Security.verified => true | _ => false end.

Definition canUseChat (u : AppView) : bool :=
  bool_decide ((connection <$> state u) = Some Status.connected) && is_encrypted (st_security u).

Definition canOpenSecuritySheet (u : AppView) : bool := truthy (st_safetyPhrase u) || truthy (st_roomCode u).

(** ** Elements *)

Definition cls (s : string) : option jstr := Some (js s).

Definition div (c : string) (kids : list Node) : Node := append (el Div (cls c) None) kids.

(** [button(label, class)] with its [onclick]. *)
Definition click (label : jstr) (c : string) (h : Handler) : Node := set_on h (button label (js c)).

Definition text_el (t : Tag) (text : jstr) : Node := el t None (Some text).

Definition optional (b : bool) (n : Node) : list Node := if b then [n] else [].

Definition renderSheet (title_ : jstr) (body : Node) (extraClass : jstr) : Node :=
  let head := append (el Div (cls "sheet-head") None)
                [text_el H2 title_; click (js "Close") "btn ghost compact" OnClose] in
  let sheet := append (el Section_ (Some (trim (js "sheet " ++ extraClass))) None) [head; body] in
  append (set_on OnOverlay (el Div (cls "sheet-overlay") None)) [sheet].

Definition aboutSection (title_ text : jstr) : Node :=
  div "info-block" [el Div (cls "info-label") (Some title_); text_el P text].

Definition mode_row (i : TransportProfileId) : Node :=
  div "mode-row" [text_el Strong (profile_label i); text_el P (profilePlainDescription i)].

Definition renderAboutBody : Node :=
  append (el Div (cls "sheet-body about-body") None) [
    aboutSection (js "Encryption")
      (js "Your browser encrypts messages, files, and voice before sending them. The server only relays encrypted data.");
    aboutSection (js "Room profile")
      (js "The creator chooses one transport profile for the room. Both browsers use that locked profile, including after refresh.");
    aboutSection (js "Verification")
      (js "Encryption starts automatically. Compare the safety phrase to confirm who you are talking to.");
    aboutSection (js "Files")
      (js "Files are sent in chunks. Large files may pause during voice to keep the call stable.");
    aboutSection (js "Voice")
      (js "Voice is encrypted and sent as realtime audio frames. Late audio is dropped instead of delayed.");
    div "info-block" (el Div (cls "info-label") (Some (js "Transport profiles")) :: (mode_row <$> PROFILE_IDS))].

Definition renderKeyValueBlock (title_ : jstr) (rows : list (jstr * jstr)) : Node :=
  div "info-block" (el Div (cls "info-label") (Some title_) ::
    ((fun row => div "key-value" [text_el Span row.1; text_el Strong row.2]) <$> rows)).

(** ** The start screen *)

Definition profile_option (u : AppView) (i : TransportProfileId) : Node :=
  with_attr (fun a => a <| value := profile_key i |>
                        <| selected := bool_decide ((vs_profileId <$> state u) = Some i) |>)
    (text_el Option_ (profile_label i)).

Definition renderProfileSelect (u : AppView) (disabled_ : bool) : Node :=
  let select := append (set_on OnProfile (set_disabled disabled_ (el Select (cls "input") None)))
                  (profile_option u <$> PROFILE_IDS) in
  div "profile-select" [text_el Label (js "Room transport profile"); select;
    el P (cls "profile-note") (Some (profilePlainDescription (st_profileId u)))].

(** The text field that [this.roomInput] or [this.messageInput] refers to. *)
Definition field_node (i : option nat) : list Node :=
  match i with Some i => [Field i] | None => [] end.

Definition join_form (u : AppView) (busy : bool) : Node :=
  let joinButton :=
    set_disabled busy (set_submit (button
      (if bool_decide (st_phase u = Some Phase.joining) then js "Joining" ++ hellip else js "Join")
      (js "btn wide"))) in
  append (set_on (OnJoin busy) (el Form (cls "join-form") None)) (field_node (roomInput u) ++ [joinButton]).

Definition start_card (u : AppView) : Node :=
  let busy := isStarting u in
  let create := set_disabled busy (click
    (if bool_decide (st_phase u = Some Phase.creating) then js "Creating room" ++ hellip else js "Create room")
    "btn primary wide" OnCreateRoom) in
  div "start-card" ([
    el Div (cls "brand") (Some (js "OnlyTwo"));
    text_el H1 (js "Private room for two");
    el P (cls "start-copy")
      (Some (js "No account. No history. Messages, files, and voice are encrypted before leaving your device."));
    el Div (cls "section-label") (Some (js "Create a room"));
    renderProfileSelect u busy;
    create;
    el Div (cls "divider") (Some (js "or join with code"));
    join_form u busy;
    el P (cls "profile-note")
      (Some (js "The person creating the room chooses its locked transport profile. Joining uses that room profile automatically."));
    click (js "How OnlyTwo works") "link-btn" (OnOpenSheet sheet_about)] ++
    match lastError u with
    | Some e => optional (truthy e) (el Div (cls "error-line") (Some e))
    | None => []
    end).

Definition start_page (u : AppView) : Node :=
  append (el Section_ (cls "start-screen") None)
    (start_card u :: optional (bool_decide (activeSheet u = Some sheet_about))
                       (renderSheet (js "How OnlyTwo works") renderAboutBody [])).

(** ** The header of the chat *)

Definition menuAction (label : jstr) (action : Handler) (extraClass : jstr) : Node :=
  set_on (OnMenu action) (button label (trim (js "menu-item " ++ extraClass))).

Definition securityButtonLabel (u : AppView) : jstr :=
  match state u with
  | None => js "Connecting" ++ hellip
  | Some st =>
      if bool_decide (connection st = Status.reconnecting) then js "Reconnecting" ++ hellip
      else if bool_decide (phase st = Phase.waiting) then js "Peer offline"
      else match security st with
           | Security.verified => js "Verified"
           | Security.encrypted_unverified => js "Verify chat"
           | Security.verification_failed => js "Verify failed"
           | Security.none => js "Connecting" ++ hellip
           end
  end.

Definition securityButtonClass (u : AppView) : jstr :=
  js "btn compact security-button " ++ security_name (st_security u).

Definition renderHeader (u : AppView) : Node :=
  let code := set_on OnCopyCode (set_titles (js "Copy room code")
    (el Button (Some (js "room-code-button" ++ if codeCopied u then js " copied" else []))
       (Some (if codeCopied u then js "Copied" else or_text (Some (st_roomCode u)) (js "No room"))))) in
  let left := div "topbar-left" [el Div (cls "brand small") (Some (js "OnlyTwo")); code] in
  let verify := set_on OnSecurity (set_disabled (negb (canOpenSecuritySheet u))
    (button (securityButtonLabel u) (securityButtonClass u))) in
  let more := set_on OnMore (set_titles (js "More actions")
    (button [0x22EE] (js "btn ghost compact more-btn"))) in
  let menu := append (el Div (Some (if menuOpen u then js "mobile-menu open" else js "mobile-menu")) None) [
    menuAction (js "Room details") (OnOpenSheet sheet_room) [];
    menuAction (js "Copy room code") OnCopyCode [];
    menuAction (js "Share room") OnShare [];
    menuAction (js "End chat for both") (OnOpenSheet sheet_leave) (js "danger")] in
  append (el Header (cls "topbar") None)
    [left; append (el Nav (cls "topbar-actions") None) [verify]; more; menu].

(** ** The transcript *)

Section Page.
Context (b : Browser).

Definition renderTextBubble (item : TranscriptItem) : Node :=
  let mine := match it_from item with from_me => true | _ => false end in
  let meta := div "message-meta" (text_el Span (formatTime b (it_at item)) ::
    match it_status item with
    | Some s => optional mine (el Span (Some (js "message-status " ++ status_name s)) (Some (statusLabel s)))
    | None => []
    end) in
  append (el Article (Some (js "message-row " ++ if mine then js "me" else js "peer")) None)
    [div "message-bubble" [el Div (cls "message-text") (Some (it_text item)); meta]].

Definition renderSystemItem (item : TranscriptItem) : Node :=
  let severity := match it_severity item with Some sev_error => js "error" | _ => js "info" end in
  append (el Div (Some (js "system-line " ++ severity)) None)
    [el Span (cls "system-text") (Some (it_text item)); text_el Time_ (formatTime b (it_at item))].

(** The buttons of a transfer. *)
Definition transfer_actions (t : TransferView) : list Node :=
  let id := tv_fileId t in
  (if is_receive t && bool_decide (tv_state t = Transfer.offered) then
     [click (js "Accept") "btn compact primary" (OnAccept id); click (js "Decline") "btn compact" (OnDecline id)]
   else if negb (isTerminalTransfer (tv_state t)) then
     [click (js "Cancel") "btn compact danger" (OnCancel id)]
   else []) ++
  (if bool_decide (tv_state t = Transfer.completed) then
     match tv_blobUrl t with
     | Some url => [with_attr (fun a => a <| href := Some url |> <| download := tv_name t |>)
                     (el Anchor (cls "btn compact") (Some (js "Download")))]
     | None => []
     end
   else []) ++
  (if isTerminalTransfer (tv_state t) then [click (js "Remove") "btn ghost compact" (OnRemove id)] else []).

Definition progress_bar (t : TransferView) : Node :=
  div "progress" [with_attr (fun a => a <| width := Some (progressPercent (tv_progress t)) |>) (div "progress-bar" [])].

Definition renderTransfer (t : TransferView) : Node :=
  let top := div "transfer-top" [el Div (cls "transfer-title") (Some (tv_name t));
               el Div (cls "transfer-size") (Some (formatBytes (tv_size t)))] in
  let acts := transfer_actions t in
  append (el Article (Some (js "file-event " ++ if is_send t then js "me" else js "peer")) None)
    [div "transfer-card" ([top; el Div (cls "transfer-meta") (Some (transferMeta t))] ++
       optional (in_progress (tv_state t)) (progress_bar t) ++
       match acts with [] => [] | _ => [div "transfer-actions" acts] end)].

Definition emptyTitle (u : AppView) : jstr :=
  if bool_decide (st_phase u = Some Phase.waiting) then js "Waiting for the other person."
  else match st_security u with
       | Security.encrypted_unverified => js "Encrypted chat is ready."
       | Security.verified => js "Verified private chat."
       | _ => js "No messages yet."
       end.

Definition emptyCopy (u : AppView) : jstr :=
  if bool_decide (st_phase u = Some Phase.waiting) then js "Share the room code with one person."
  else match st_security u with
       | Security.encrypted_unverified => js "Send a message, or verify the phrase first."
       | _ => js "Say hello."
       end.

Definition item_transfer (st : SessionViewState) (item : TranscriptItem) : option TransferView :=
  find (fun t => bool_decide (Some (tv_fileId t) = it_fileId item)) (transfers st).

Definition render_item (st : SessionViewState) (item : TranscriptItem) : list Node :=
  match it_kind item with
  | item_system => [renderSystemItem item]
  | item_file => match item_transfer st item with Some t => [renderTransfer t] | None => [] end
  | item_text => [renderTextBubble item]
  end.

Definition renderTranscript (u : AppView) : Node :=
  let empty := div "empty-chat" [text_el Div (emptyTitle u); text_el P (emptyCopy u)] in
  match state u with
  | None => div "transcript" [empty]
  | Some st =>
      match transcript st with
      | [] => div "transcript" [empty]
      | items => div "transcript" (concat (render_item st <$> items))
      end
  end.

(** ** The composer *)

Definition renderInlineVoiceControls (u : AppView) : list Node :=
  if isVoiceActive u then
    [click (if bool_decide (st_voice u = Voice.muted) then js "Unmute" else js "Mute")
       "btn ghost compact voice-control" OnMute;
     click (js "Stop") "btn danger compact voice-control" OnStop]
  else
    let starting := bool_decide (st_voice u = Voice.starting) in
    [set_disabled (negb (canUseChat u) || starting) (set_titles (js "Start voice")
       (click (if starting then hellip else [0xD83C; 0xDF99]) "btn ghost compact voice-control mic" OnVoice))].

Definition playback_blocked (u : AppView) : bool := default false (audioPlaybackBlocked <$> state u).

Definition composer (u : AppView) : Node :=
  let fileInput := set_on OnFile (el FileInput (cls "hidden-input") None) in
  let attach := set_on OnAttach (set_disabled (negb (canUseChat u)) (set_titles (js "Attach file")
    (button (js "+") (js "btn icon")))) in
  let send := set_disabled (negb (canUseChat u)) (set_submit (button (js "Send") (js "btn primary composer-send"))) in
  let blocked := div "composer-activity error" [
    text_el Span (js "Incoming voice is blocked by this browser.");
    click (js "Enable audio") "link-btn small" OnEnableAudio] in
  div "composer-wrap" (optional (playback_blocked u) blocked ++
    [append (set_on OnSubmit (el Form (cls "composer") None))
       ([attach] ++ field_node (messageInput u) ++ renderInlineVoiceControls u ++ [send; fileInput])]).

(** ** Sheets *)

Definition renderRoomBody (u : AppView) : Node :=
  let i := st_profileId u in
  let codeBlock := div "info-block" [el Div (cls "info-label") (Some (js "Room code"));
    el Div (cls "room-code-large") (Some (st_roomCode u));
    div "button-row" [click (js "Copy code") "btn compact" OnCopyCode;
                      click (js "Share room") "btn compact" OnShare]] in
  let status := renderKeyValueBlock (js "Status") [
    (js "Connection", connectionLabel (default Status.disconnected (connection <$> state u)));
    (js "Encryption", encryptionLabel (st_security u));
    (js "Profile", profile_label i)] in
  let profileBlock := div "info-block" [el Div (cls "info-label") (Some (js "Locked room profile"));
    text_el Strong (profile_label i); text_el P (profilePlainDescription i);
    el P (cls "profile-note")
      (Some (js "The creator selected this profile when the room was created. Both peers use the same profile, including after refresh."))] in
  div "sheet-body" [codeBlock; status; profileBlock;
    click (js "How OnlyTwo works") "link-btn" (OnOpenSheet sheet_about)].

(** The lines in which the phrase is shown. *)
Definition phrase_lines (phrase : jstr) : list jstr :=
  let words := filter_truthy (split 32 phrase) in
  let half := Z.to_nat (ceil_div (zlength words) 2) in
  join (js " ") (take half words) ::
    if (half <? length words)%nat then [join (js " ") (drop half words)] else [].

Definition renderVerifyBody (u : AppView) : Node :=
  let verified := bool_decide (st_security u = Security.verified) in
  div "sheet-body" [
    text_el P (js "Compare this phrase with the other person using a different channel or by speaking it aloud.");
    div "safety-phrase" (text_el Div <$> phrase_lines (st_safetyPhrase u));
    div "button-row" [
      set_disabled verified (click (if verified then js "Verified" else js "Mark as verified") "btn primary"
        (OnVerified true));
      click (js "Does not match") "btn danger" (OnVerified false)]].

Definition renderLeaveBody : Node :=
  div "sheet-body" [
    text_el P (js "This ends the room for both people. Voice, transfers, local chat views, and cryptographic state are cleared. The old room code cannot be reused.");
    div "button-row" [click (js "End chat for both") "btn danger" OnLeave; click (js "Stay") "btn" OnClose]].

Definition renderActiveSheet (u : AppView) : list Node :=
  match activeSheet u with
  | Some sheet_room => [renderSheet (js "Room details") (renderRoomBody u) []]
  | Some sheet_verify => [renderSheet (js "Verify chat") (renderVerifyBody u) []]
  | Some sheet_about => [renderSheet (js "How OnlyTwo works") renderAboutBody []]
  | Some sheet_leave => [renderSheet (js "End chat for both?") renderLeaveBody (js "danger-sheet")]
  | None => []
  end.

Definition chat_page (u : AppView) : Node :=
  append (el Section_ (cls "chat-screen") None)
    ([renderHeader u; renderTranscript u; composer u] ++ renderActiveSheet u).

Definition renderToast (u : AppView) : list Node :=
  match toast u with
  | Some (message, tone) => [el Div (Some (js "toast " ++ tone_name tone)) (Some message)]
  | None => []
  end.

(** The page below the root, once the text field of its screen is made. *)
Definition shell (u : AppView) : Node :=
  append (el Main (cls "app-shell") None)
    ((if isPreChat u then start_page u else chat_page u) :: renderToast u).

(** ** Drawing *)

Definition scheduleRender (u : AppView) : AppView :=
  if renderScheduled u then u else u <| renderScheduled := true |> <| frames := S (frames u) |>.

(** [setTimeout]. *)
Definition set_timer (t : Timer) (u : AppView) : AppView :=
  u <| timers := timers u ++ [(nextTimer u, t)] |> <| nextTimer := S (nextTimer u) |>.

Definition clear_timer (i : nat) (u : AppView) : AppView :=
  u <| timers := filter (fun t => fst t <> i) (timers u) |>.

Definition setToast (message : jstr) (tone : ToastTone) (render_ : bool) (u : AppView) : AppView :=
  let u := u <| toast := Some (message, tone) |> <| toasts := toasts u ++ [(message, tone)] |> in
  let u := match toastTimer u with Some i => clear_timer i u | None => u end in
  let u := (set_timer timer_toast u) <| toastTimer := Some (nextTimer u) |> in
  if render_ then scheduleRender u else u.

Definition showToast (message : jstr) (tone : ToastTone) (u : AppView) : AppView := setToast message tone true u.

Definition thrown_text (e : Thrown) : jstr := match e with ErrorObject m => m | OtherValue s => s end.

Definition showError (e : Thrown) (u : AppView) : AppView :=
  showToast (thrown_text e) tone_error (u <| lastError := Some (thrown_text e) |>).

Definition is_new_offer (u : AppView) (t : TransferView) : bool :=
  is_receive t && bool_decide (tv_state t = Transfer.offered) &&
  negb (set_has (tv_fileId t) (announcedIncomingOffers u)).

Definition announce (u : AppView) (t : TransferView) : AppView :=
  if is_new_offer u t then
    setToast (js "Incoming file: " ++ tv_name t) tone_info false
      (u <| announcedIncomingOffers := set_add (tv_fileId t) (announcedIncomingOffers u) |>)
  else u.

Definition announceIncomingOffers (u : AppView) : AppView :=
  match state u with None => u | Some st => foldl announce u (transfers st) end.

Record RenderPosition := {
  messageFocused : bool;
  roomFocused : bool;
  selectionStart : option Z;
  selectionEnd : option Z;
  transcriptScrollTop : Z;
  transcriptNearBottom : bool;
}.

(** Whether the text field that a reference points to has the focus. *)
Definition focused (field : option nat) (u : AppView) : bool :=
  match activeElement u, field with Some i, Some j => (i =? j)%nat | _, _ => false end.

Definition transcript_of (u : AppView) : option Node := querySelector (js "transcript") (root u).

Definition captureRenderPosition (u : AppView) : RenderPosition :=
  let isMessage := focused (messageInput u) u in
  let isRoom := focused (roomInput u) u in
  let selection := if isMessage || isRoom then i ← activeElement u; f_selection <$> fields u !! i else None in
  {| messageFocused := isMessage; roomFocused := isRoom;
     selectionStart := fst <$> selection; selectionEnd := snd <$> selection;
     transcriptScrollTop := match transcript_of u with Some _ => scrollTop u | None => 0 end;
     transcriptNearBottom :=
       match transcript_of u with
       | Some _ => let '(scrollHeight, clientHeight) := layout b (root u) in
                   scrollHeight - scrollTop u - clientHeight <? 72
       | None => true
       end |}.

(** [element.scrollTop = y]: the browser keeps it within the content. *)
Definition clamp_scroll (y : Z) (page : Node) : Z :=
  let '(scrollHeight, clientHeight) := layout b page in Z.max 0 (Z.min y (scrollHeight - clientHeight)).

Definition set_scrollTop (y : Z) (u : AppView) : AppView := u <| scrollTop := clamp_scroll y (root u) |>.

Definition update_field (i : nat) (f : TextField -> TextField) (u : AppView) : AppView :=
  u <| fields := alter f i (fields u) |>.

Definition restore_scroll (p : RenderPosition) (u : AppView) : AppView :=
  match transcript_of u with
  | Some _ => set_scrollTop (if transcriptNearBottom p then (layout b (root u)).1 else transcriptScrollTop p) u
  | None => u
  end.

(** [input.focus()] does nothing on a field that is not in the document. *)
Definition restore_focus (p : RenderPosition) (u : AppView) : AppView :=
  match (if messageFocused p then messageInput u else if roomFocused p then roomInput u else None) with
  | None => u
  | Some i =>
      match fields u !! i with
      | None => u
      | Some f =>
          if f_disabled f then u
          else
            let u := if attached i (root u) then u <| activeElement := Some i |> else u in
            match selectionStart p, selectionEnd p with
            | Some x, Some y => update_field i (setSelectionRange x y) u
            | _, _ => u
            end
      end
  end.

Definition restoreRenderPosition (p : RenderPosition) (u : AppView) : AppView :=
  restore_focus p (restore_scroll p u).

(** [clear(this.root)]: what is removed loses the focus. *)
Definition clear_root (u : AppView) : AppView :=
  u <| root := clear (root u) |> <| activeElement := None |> <| scrollTop := 0 |>.

Definition room_field (u : AppView) : TextField :=
  set_value (roomDraft u) {| f_class := js "input room-input"; f_placeholder := js "ABCD-EFGH"; f_maxLength := 9;
    f_disabled := isStarting u; f_value := []; f_selection := (0, 0) |}.

Definition message_field (u : AppView) : TextField :=
  set_value (messageDraft u) {| f_class := js "input message-input";
    f_placeholder := if canUseChat u then js "Message" ++ hellip else js "Waiting for peer" ++ hellip;
    f_maxLength := MAX_TEXT_MESSAGE_CHARS; f_disabled := negb (canUseChat u); f_value := []; f_selection := (0, 0) |}.

(** [this.roomInput = document.createElement("input")], or the other one. *)
Definition make_field (u : AppView) : AppView :=
  let i := length (fields u) in
  if isPreChat u then u <| roomInput := Some i |> <| fields := fields u ++ [room_field u] |>
  else u <| messageInput := Some i |> <| fields := fields u ++ [message_field u] |>.

(** [renderStart] and [renderChat] make their text field. *)
Definition draw (u : AppView) : AppView :=
  let u := make_field (clear_root u) in u <| root := append (root u) [shell u] |>.

Definition render (u : AppView) : AppView :=
  match state u with
  | None => u
  | Some _ =>
      let u := announceIncomingOffers u in
      restoreRenderPosition (captureRenderPosition u) (draw u)
  end.

Definition frame (u : AppView) : AppView :=
  render (u <| renderScheduled := false |> <| frames := pred (frames u) |>).

(** ** A new state *)

Definition is_over (p : Phase.Phase) : bool := match p with Phase.idle | Phase.ended => true | _ => false end.

Definition leftChat (previous next : SessionViewState) : bool :=
  negb (is_over (phase previous)) && is_over (phase next).

Definition forget_chat (u : AppView) : AppView :=
  u <| messageDraft := [] |> <| announcedIncomingOffers := [] |> <| activeSheet := None |>
    <| menuOpen := false |> <| codeCopied := false |> <| lastError := None |>.

Definition syncLocalState (previous : option SessionViewState) (next : SessionViewState) (u : AppView) : AppView :=
  let u :=
    match previous with
    | None => u
    | Some old =>
        let left := leftChat old next in
        if negb (jstr_eqb (roomCode old) (roomCode next)) || left then
          if left then (forget_chat u) <| roomDraft := [] |> else forget_chat u
        else u
    end in
  match phase next with Phase.waiting | Phase.active => u <| lastError := None |> | _ => u end.

Definition surfaceNotice (notice_ : option jstr) (u : AppView) : AppView :=
  match notice_ with
  | None | Some [] => u <| lastNoticeShown := None |>
  | Some n =>
      if bool_decide (lastNoticeShown u = Some n) then u
      else
        let u := u <| lastNoticeShown := Some n |> in
        match noticeToastTone n with Some tone => setToast n tone false u | None => u end
  end.

(** The listener that the constructor subscribes. *)
Definition on_state (next : SessionViewState) (u : AppView) : AppView :=
  let u := syncLocalState (state u) next u in
  let u := u <| state := Some next |> in
  scheduleRender (surfaceNotice (notice next) u).

(** ** Handlers *)

Definition issue (c : Command) (u : AppView) : AppView := u <| commands := commands u ++ [c] |>.

(** [void this.controller....catch((err) => this.showError(err))]. *)
Definition issue_async (c : Command) (u : AppView) : AppView :=
  let u := issue c u in u <| pending := pending u ++ [PCommand] |>.

Definition wait (p : Pending) (u : AppView) : AppView := u <| pending := pending u ++ [p] |>.

Definition openSheet (s : SheetName) (u : AppView) : AppView :=
  render (u <| activeSheet := Some s |> <| menuOpen := false |>).

Definition closeSheet (u : AppView) : AppView := render (u <| activeSheet := None |>).

Definition openSecuritySheet (u : AppView) : AppView :=
  openSheet (if truthy (st_safetyPhrase u) then sheet_verify else sheet_room) u.

Definition copyText (text confirmation : jstr) (u : AppView) : AppView :=
  if truthy text then wait (PCopyText confirmation) u else u.

Definition copyRoomCode (u : AppView) : AppView := if truthy (st_roomCode u) then wait PCopyCode u else u.

Definition room_link_copied : jstr := js "Room link copied.".

Definition shareRoom (u : AppView) : AppView :=
  let code := st_roomCode u in
  let url := location_href (roomLink (location b) code) in
  let text := js "Join my OnlyTwo room: " ++ code ++ [10] ++ url in
  if canShare b then wait (PShare text) u else copyText text room_link_copied u.

Definition submit_message (u : AppView) : AppView :=
  let text := trim (messageDraft u) in
  if negb (truthy text) then u
  else
    let u := u <| messageDraft := [] |> in
    let u := match messageInput u with Some i => update_field i (set_value []) u | None => u end in
    issue_async (SendText text) u.

Fixpoint handle (h : Handler) (u : AppView) : AppView :=
  match h with
  | OnCreateRoom => issue_async CreateRoom u
  | OnJoin busy => if busy then u else issue_async (JoinRoom (roomDraft u)) u
  | OnOpenSheet s => openSheet s u
  | OnCopyCode => copyRoomCode u
  | OnShare => shareRoom u
  | OnSecurity => openSecuritySheet u
  | OnMore => render (u <| menuOpen := negb (menuOpen u) |>)
  | OnMenu action => handle action (u <| menuOpen := false |>)
  | OnAccept fileId => issue_async (AcceptFile fileId) u
  | OnDecline fileId => issue_async (RejectFile fileId) u
  | OnCancel fileId => issue_async (CancelFile fileId) u
  | OnRemove fileId => issue (RemoveFile fileId) u
  | OnEnableAudio => issue_async EnableAudioPlayback u
  | OnSubmit => submit_message u
  | OnAttach => u <| choosers := S (choosers u) |>
  | OnMute => issue ToggleMute u
  | OnStop => issue_async StopVoice u
  | OnVoice => issue_async StartVoice u
  | OnOverlay | OnClose => closeSheet u
  | OnVerified matches => issue_async (MarkVerified matches) (closeSheet u)
  | OnLeave => issue EndChatForBoth (closeSheet u)
  | OnProfile | OnFile => u       (* they read their element: see [step] *)
  end.

(** The user changes the text of a field. *)
Definition type_text (i : nat) (text : jstr) (caret : Z) (u : AppView) : AppView :=
  let u := update_field i (fun f => f <| f_value := text |> <| f_selection := (caret, caret) |>) u in
  if bool_decide (Some i = messageInput u) then u <| messageDraft := text |>
  else
    let u := u <| roomDraft := normalizeRoomCode text |> in
    update_field i (set_value (normalizeRoomCode text)) u.

(** The continuation of an open promise. *)
Definition settled (p : Pending) (error : option Thrown) (u : AppView) : AppView :=
  match p, error with
  | PCommand, None => u
  | PCommand, Some e | PCopyCode, Some e | PCopyText _, Some e => showError e u
  | PCopyCode, None => set_timer timer_copied (showToast (js "Room code copied.") tone_info (u <| codeCopied := true |>))
  | PCopyText confirmation, None => showToast confirmation tone_info (u <| lastError := None |>)
  | PShare _, None => u
  | PShare text, Some _ => copyText text room_link_copied u
  end.

Definition timer_fired (t : Timer) (u : AppView) : AppView :=
  match t with
  | timer_toast => scheduleRender (u <| toast := None |> <| toastTimer := None |>)
  | timer_copied => scheduleRender (u <| codeCopied := false |>)
  end.

(** ** Events *)

Inductive UiEvent :=
| Snapshot (next : SessionViewState)          (* the controller calls its listener *)
| Frame
| TimerFires (i : nat)
| Settles (k : nat) (error : option Thrown)   (* an open promise *)
| Act (h : Handler)                           (* the user clicks a button or submits a form *)
| Choose (i : TransportProfileId)             (* in the list of profiles *)
| Types (i : nat) (text : jstr) (caret : Z)
| Picks (file : option (jstr * Z))            (* in an open file chooser *)
| Focuses (i : option nat)
| Scrolls (y : Z).

Definition enabled_field (i : nat) (u : AppView) : option TextField :=
  f ← fields u !! i; if attached i (root u) && negb (f_disabled f) then Some f else None.

Definition step (e : UiEvent) (u : AppView) : option AppView :=
  match e with
  | Snapshot next => Some (on_state next u)
  | Frame => if (0 <? frames u)%nat then Some (frame u) else None
  | TimerFires i =>
      t ← find (fun t => (fst t =? i)%nat) (timers u); Some (timer_fired (snd t) (clear_timer i u))
  | Settles k error => p ← pending u !! k; Some (settled p error (u <| pending := delete k (pending u) |>))
  | Act h => if bool_decide (h ∈ actions (root u)) then Some (handle h u) else None
  | Choose i => if bool_decide (OnProfile ∈ actions (root u)) then Some (issue (SetProfile i) u) else None
  | Types i text caret =>
      f ← enabled_field i u;
      if (zlength text <=? f_maxLength f) && (0 <=? caret) && (caret <=? zlength text)
      then Some (type_text i text caret u) else None
  | Picks file =>
      if (0 <? choosers u)%nat then
        let u := u <| choosers := pred (choosers u) |> in
        Some (match file with Some (name, size) => issue_async (OfferFile name size) u | None => u end)
      else None
  | Focuses None => Some (u <| activeElement := None |>)
  | Focuses (Some i) => _ ← enabled_field i u; Some (u <| activeElement := Some i |>)
  | Scrolls y => match transcript_of u with Some _ => Some (set_scrollTop y u) | None => None end
  end.

Fixpoint run (es : list UiEvent) (u : AppView) : option AppView :=
  match es with
  | [] => Some u
  | e :: es' => match step e u with Some u' => run es' u' | None => None end
  end.
End Page.
