(* ===== verification/AppActions.v ===== *)
(** * What the page offers

    Which handlers the user can set off on each screen, as a specification on
    the state ([permitted]) and as a fact about the tree that [shell] builds. *)
From S2P Require Import Prelude JsMap Bytes Profiles Messages Negotiation FileProtocol Rooms.
From S2P Require Import Scheduler Connection SessionView JsString Links Dom AppView.

(** ** Handlers of a tree *)

Definition acts (l : list Node) : list Handler := concat (actions <$> l).

Create Rewrite HintDb dom.

Lemma actions_Element a l : actions (Element a l) = own_actions a l ++ acts l.
Proof. done. Qed.

Lemma acts_nil : acts [] = [].
Proof. done. Qed.

Lemma acts_cons n l : acts (n :: l) = actions n ++ acts l.
Proof. done. Qed.

Lemma acts_app l k : acts (l ++ k) = acts l ++ acts k.
Proof. unfold acts. by rewrite fmap_app, concat_app. Qed.

Lemma acts_optional c n : acts (optional c n) = if c then actions n else [].
Proof. destruct c; [apply app_nil_r|done]. Qed.

Lemma acts_text s : acts (textContent s) = [].
Proof. by destruct s. Qed.

(** An element that [el] makes has no handler of its own. *)
Lemma el_shape t c s : exists a, el t c s = Element a (match s with Some s => textContent s | None => [] end) /\
  tag a = t /\ on a = None /\ disabled a = false /\ submits a = false.
Proof. unfold el. eexists. split; [done|]. by destruct c as [c|]; [destruct (truthy c)|]. Qed.

Lemma actions_el t c s : actions (el t c s) = [].
Proof.
  destruct (el_shape t c s) as (a & -> & _ & Ho & _). rewrite actions_Element. unfold own_actions. rewrite Ho.
  destruct s; [apply acts_text|done].
Qed.

Lemma actions_append t c kids : actions (append (el t c None) kids) = acts kids.
Proof.
  destruct (el_shape t c None) as (a & -> & _ & Ho & _). cbn [append app]. rewrite actions_Element. unfold own_actions. by rewrite Ho.
Qed.

Lemma actions_div c kids : actions (div c kids) = acts kids.
Proof. apply actions_append. Qed.

Lemma actions_text_el t s : actions (text_el t s) = [].
Proof. apply actions_el. Qed.

Lemma actions_button label c : actions (button label c) = [].
Proof. apply acts_text. Qed.

Lemma actions_on_button h label c d :
  actions (set_on h (set_disabled d (button label c))) = if d then [] else [h].
Proof.
  unfold button, set_on, set_disabled. cbn [with_attr].
  rewrite actions_Element, acts_text, app_nil_r. by destruct d.
Qed.

Lemma actions_click label c h : actions (click label c h) = [h].
Proof. apply (actions_on_button h label (js c) false). Qed.

Lemma actions_click_disabled d label c h :
  actions (set_disabled d (click label c h)) = if d then [] else [h].
Proof.
  unfold click, button, set_on, set_disabled. cbn [with_attr].
  rewrite actions_Element, acts_text, app_nil_r. by destruct d.
Qed.

Lemma actions_on_el h t c s :
  t <> Form -> t <> FileInput -> actions (set_on h (el t c s)) = [h].
Proof.
  intros Hf Hi. destruct (el_shape t c s) as (a & -> & Ht & _ & Hd & _). cbn [set_on with_attr].
  rewrite actions_Element. unfold own_actions. cbn [update on tag disabled]. rewrite Ht, Hd.
  destruct s; [rewrite acts_text|change (acts []) with (@nil Handler)]; by destruct t.
Qed.

Lemma actions_on_plain_button h label c : actions (set_on h (button label c)) = [h].
Proof. apply (actions_on_button h label c false). Qed.

Lemma actions_on_titles h text n : actions (set_on h (set_titles text n)) = actions (set_on h n).
Proof. by destruct n. Qed.

Lemma actions_titles text n : actions (set_titles text n) = actions n.
Proof. by destruct n. Qed.

Lemma own_actions_with f a l :
  (forall a, on (f a) = on a /\ tag (f a) = tag a /\ disabled (f a) = disabled a) ->
  own_actions (f a) l = own_actions a l.
Proof. intros H. unfold own_actions. by destruct (H a) as (-> & -> & ->). Qed.

Lemma actions_with f n :
  (forall a, on (f a) = on a /\ tag (f a) = tag a /\ disabled (f a) = disabled a) ->
  actions (with_attr f n) = actions n.
Proof. intros H. destruct n as [| |a l]; [done..|]. cbn [with_attr]. by rewrite !actions_Element, own_actions_with. Qed.

Lemma actions_field i : acts (field_node i) = [].
Proof. by destruct i. Qed.

(** A form whose only submit button has the given state. *)
Lemma actions_form h c kids :
  actions (append (set_on h (el Form c None)) kids) =
  (if existsb can_submit kids then [h] else []) ++ acts kids.
Proof.
  destruct (el_shape Form c None) as (a & -> & Ht & _). cbn [set_on with_attr append app].
  rewrite actions_Element. unfold own_actions. cbn [update on tag]. by rewrite Ht.
Qed.

Lemma acts_fmap_none {A} (f : A -> Node) l : (forall x, actions (f x) = []) -> acts (f <$> l) = [].
Proof. intros H. induction l as [|x l IH]; [done|]. change (actions (f x) ++ acts (f <$> l) = []). by rewrite H, IH. Qed.

Lemma actions_submit label c d : actions (set_disabled d (set_submit (button label c))) = [].
Proof. apply acts_text. Qed.

#[export] Hint Rewrite acts_nil acts_cons acts_app acts_optional actions_el actions_append actions_div
  actions_text_el actions_button actions_on_button actions_on_plain_button actions_on_titles actions_click actions_click_disabled actions_titles
  actions_field actions_form actions_submit : dom.

Ltac dom := autorewrite with dom.

(** *** Submit buttons *)

Lemma can_submit_text s : existsb can_submit (textContent s) = false.
Proof. by destruct s. Qed.

Lemma can_submit_submit label c d : can_submit (set_disabled d (set_submit (button label c))) = negb d.
Proof.
  unfold button. cbn [set_submit set_disabled with_attr can_submit update submits disabled].
  rewrite can_submit_text, orb_false_r. by destruct d.
Qed.

Lemma can_submit_plain (f : Attributes -> Attributes) label c :
  (forall a, submits (f a) = submits a) -> can_submit (with_attr f (button label c)) = false.
Proof. intros H. unfold button. cbn [with_attr can_submit]. rewrite H. by rewrite can_submit_text. Qed.

(** ** Handlers of the parts of the page *)

Lemma actions_about : actions renderAboutBody = [].
Proof. reflexivity. Qed.

Lemma actions_sheet t body extra :
  actions (renderSheet t body extra) = OnOverlay :: OnClose :: actions body.
Proof.
  unfold renderSheet. destruct (el_shape Div (cls "sheet-overlay") None) as (a & -> & Ht & _ & Hd & _).
  cbn [set_on with_attr append app]. rewrite actions_Element. unfold own_actions. cbn [update on tag disabled].
  rewrite Ht, Hd. dom. cbn [app]. by rewrite !app_nil_r.
Qed.

Lemma actions_key_values t rows : actions (renderKeyValueBlock t rows) = [].
Proof. unfold renderKeyValueBlock. dom. apply acts_fmap_none. intros x. by dom. Qed.

Lemma actions_profile_select u d : actions (renderProfileSelect u d) = if d then [] else [OnProfile].
Proof.
  unfold renderProfileSelect. dom. rewrite app_nil_r.
  destruct (el_shape Select (cls "input") None) as (a & -> & Ht & _).
  cbn [set_on set_disabled with_attr append app]. rewrite actions_Element. unfold own_actions.
  cbn [update on tag disabled]. rewrite Ht, acts_fmap_none; [by destruct d|].
  intros i. unfold profile_option. rewrite actions_with; [apply actions_text_el|by intros []].
Qed.

Lemma actions_join_form u d : actions (join_form u d) = if d then [] else [OnJoin d].
Proof.
  unfold join_form. rewrite actions_form. dom. rewrite existsb_app. cbn [existsb].
  rewrite can_submit_submit, orb_false_r. destruct (roomInput u); by destruct d.
Qed.

Lemma actions_start_card u :
  actions (start_card u) =
  (if isStarting u then [] else [OnProfile; OnCreateRoom; OnJoin false]) ++ [OnOpenSheet sheet_about].
Proof.
  unfold start_card. dom. rewrite actions_profile_select, actions_join_form.
  assert (acts (match lastError u with
                | Some e => optional (truthy e) (el Div (cls "error-line") (Some e)) | None => [] end) = []) as ->.
  { destruct (lastError u) as [e|]; [|done]. dom. by destruct (truthy e). }
  by destruct (isStarting u).
Qed.

Lemma actions_start_page u :
  actions (start_page u) =
  (if isStarting u then [] else [OnProfile; OnCreateRoom; OnJoin false]) ++ [OnOpenSheet sheet_about] ++
  (if bool_decide (activeSheet u = Some sheet_about) then [OnOverlay; OnClose] else []).
Proof.
  unfold start_page. dom. rewrite actions_start_card, actions_sheet, actions_about. by rewrite <- app_assoc.
Qed.

Lemma actions_header u :
  actions (renderHeader u) =
  [OnCopyCode] ++ (if canOpenSecuritySheet u then [OnSecurity] else []) ++
  [OnMore; OnMenu (OnOpenSheet sheet_room); OnMenu OnCopyCode; OnMenu OnShare; OnMenu (OnOpenSheet sheet_leave)].
Proof.
  unfold renderHeader, menuAction. dom. rewrite actions_on_el by done.
  by destruct (canOpenSecuritySheet u).
Qed.

Lemma actions_room_body u :
  actions (renderRoomBody u) = [OnCopyCode; OnShare; OnOpenSheet sheet_about].
Proof. unfold renderRoomBody. dom. by rewrite actions_key_values. Qed.

Lemma actions_verify_body u :
  actions (renderVerifyBody u) =
  (if bool_decide (st_security u = Security.verified) then [] else [OnVerified true]) ++ [OnVerified false].
Proof.
  unfold renderVerifyBody. dom. rewrite acts_fmap_none by (intros; apply actions_text_el).
  by case_bool_decide.
Qed.

Lemma actions_voice u :
  acts (renderInlineVoiceControls u) =
  if isVoiceActive u then [OnMute; OnStop] else if canUseChat u then [OnVoice] else [].
Proof.
  unfold renderInlineVoiceControls, isVoiceActive.
  destruct (st_voice u); dom; try done; unfold set_titles, set_disabled, click, set_on, button;
    cbn [with_attr]; rewrite actions_Element, acts_text, !app_nil_r; by destruct (canUseChat u).
Qed.

Lemma can_submit_voice u : existsb can_submit (renderInlineVoiceControls u) = false.
Proof.
  unfold renderInlineVoiceControls. destruct (isVoiceActive u); cbn [existsb];
    unfold set_titles, set_disabled, click, set_on, button; cbn [with_attr can_submit];
    by rewrite !can_submit_text.
Qed.

Lemma actions_composer u :
  actions (composer u) =
  (if playback_blocked u then [OnEnableAudio] else []) ++
  (if canUseChat u then [OnSubmit; OnAttach] else []) ++
  (if isVoiceActive u then [OnMute; OnStop] else if canUseChat u then [OnVoice] else []).
Proof.
  unfold composer. dom. rewrite actions_voice, !existsb_app, can_submit_voice. cbn [existsb].
  rewrite can_submit_submit.
  assert (existsb can_submit (field_node (messageInput u)) = false) as -> by (by destruct (messageInput u)).
  assert (forall h n, can_submit (set_on h n) = can_submit n) as Hon by (by intros h []).
  rewrite !Hon. unfold set_titles, set_disabled, button. cbn [with_attr can_submit update submits disabled].
  rewrite can_submit_text. destruct (el_shape FileInput (cls "hidden-input") None) as (a & -> & Ht & _ & _ & Hs).
  cbn [can_submit set_on with_attr existsb]. rewrite Hs. rewrite !actions_Element. unfold own_actions.
  cbn [update on tag disabled]. rewrite Ht, !acts_text, !app_nil_r.
  destruct (playback_blocked u), (canUseChat u), (isVoiceActive u); reflexivity.
Qed.

(** The handlers of one transfer. *)
Definition transfer_handlers (t : TransferView) : list Handler :=
  let id := tv_fileId t in
  match tv_direction t, tv_state t with
  | dir_receive, Transfer.offered => [OnAccept id; OnDecline id]
  | _, (Transfer.completed | Transfer.cancelled | Transfer.failed) => [OnRemove id]
  | _, _ => [OnCancel id]
  end.

Lemma acts_transfer_actions t : acts (transfer_actions t) = transfer_handlers t.
Proof.
  unfold transfer_actions, transfer_handlers, is_receive.
  destruct (tv_direction t), (tv_state t); cbn -[click el js]; dom; try done;
    destruct (tv_blobUrl t); dom; try done; rewrite actions_with by done; by dom.
Qed.

Lemma actions_transfer t : actions (renderTransfer t) = transfer_handlers t.
Proof.
  unfold renderTransfer. dom. unfold progress_bar. dom.
  rewrite actions_with, actions_div by done. rewrite <- acts_transfer_actions.
  destruct (in_progress (tv_state t)), (transfer_actions t) as [|n l]; dom; cbn [app]; by rewrite ?app_nil_r.
Qed.

Section Page.
Context (b : Browser).

Lemma actions_bubble item : actions (renderTextBubble b item) = [].
Proof. unfold renderTextBubble. dom. destruct (it_status item); dom; by repeat case_match. Qed.

Lemma actions_system item : actions (renderSystemItem b item) = [].
Proof. unfold renderSystemItem. by dom. Qed.

Lemma acts_item st item :
  acts (render_item b st item) =
  match it_kind item, item_transfer st item with
  | item_file, Some t => transfer_handlers t
  | _, _ => []
  end.
Proof.
  unfold render_item. destruct (it_kind item); [by dom; rewrite actions_bubble|by dom; rewrite actions_system|].
  destruct (item_transfer st item); dom; [by rewrite actions_transfer, app_nil_r|done].
Qed.

(** A transfer is on the page where the transcript has an entry for it. *)
Definition shown (st : SessionViewState) (t : TransferView) : Prop :=
  exists item, item ∈ transcript st /\ it_kind item = item_file /\ item_transfer st item = Some t.

Lemma elem_of_acts h l : h ∈ acts l <-> exists n, n ∈ l /\ h ∈ actions n.
Proof. unfold acts. rewrite list_elem_of_In, in_concat. setoid_rewrite <- list_elem_of_In. set_solver. Qed.

Lemma transcript_actions u st h :
  state u = Some st ->
  h ∈ actions (renderTranscript b u) <-> exists t, shown st t /\ h ∈ transfer_handlers t.
Proof.
  intros Hst. unfold renderTranscript. rewrite Hst. unfold shown.
  destruct (transcript st) as [|i l] eqn:Ht.
  { dom. cbn [app]. split; [by intros ?%elem_of_nil|]. intros (t & (item & Hi & _) & _). by apply elem_of_nil in Hi. }
  rewrite <- Ht. clear i l Ht. dom. rewrite elem_of_acts. setoid_rewrite list_elem_of_In.
  setoid_rewrite in_concat. setoid_rewrite <- list_elem_of_In. split.
  - intros (n & (k & Hk & Hn) & Hh). apply list_elem_of_fmap in Hk as (item & -> & Hitem).
    assert (h ∈ acts (render_item b st item)) as Ha by (apply elem_of_acts; eauto).
    rewrite acts_item in Ha. destruct (it_kind item) eqn:Hkind; try (by apply elem_of_nil in Ha).
    destruct (item_transfer st item) as [t|] eqn:Htr; [|by apply elem_of_nil in Ha].
    exists t. split; [by exists item|done].
  - intros (t & (item & Hitem & Hk & Htr) & Hh).
    assert (h ∈ acts (render_item b st item)) as Ha by (by rewrite acts_item, Hk, Htr).
    apply elem_of_acts in Ha as (n & Hn & Hh'). exists n. split; [|done].
    exists (render_item b st item). split; [|done]. apply list_elem_of_fmap. eauto.
Qed.

(** ** The specification *)

Definition can_chat (st : SessionViewState) : Prop :=
  connection st = Status.connected /\
  (security st = Security.encrypted_unverified \/ security st = Security.verified).

Definition voice_on (st : SessionViewState) : Prop :=
  voice st = Voice.starting \/ voice st = Voice.active \/ voice st = Voice.muted.

Definition before_chat (st : SessionViewState) : Prop :=
  phase st = Phase.idle \/ phase st = Phase.creating \/ phase st = Phase.joining \/ phase st = Phase.ended.

Definition permitted_start (u : AppView) (st : SessionViewState) (h : Handler) : Prop :=
  match h with
  | OnCreateRoom | OnProfile => phase st = Phase.idle \/ phase st = Phase.ended
  | OnJoin busy => busy = false /\ (phase st = Phase.idle \/ phase st = Phase.ended)
  | OnOpenSheet s => s = sheet_about
  | OnOverlay | OnClose => activeSheet u = Some sheet_about
  | _ => False
  end.

Definition permitted_chat (u : AppView) (st : SessionViewState) (h : Handler) : Prop :=
  match h with
  | OnCopyCode | OnMore => True
  | OnMenu a =>
      a = OnOpenSheet sheet_room \/ a = OnCopyCode \/ a = OnShare \/ a = OnOpenSheet sheet_leave
  | OnSecurity => roomCode st <> [] \/ default [] (safetyPhrase st) <> []
  | OnAccept id | OnDecline id =>
      exists t, shown st t /\ tv_fileId t = id /\ tv_direction t = dir_receive /\ tv_state t = Transfer.offered
  | OnCancel id =>
      exists t, shown st t /\ tv_fileId t = id /\ finished (tv_state t) = false /\
        ~ (tv_direction t = dir_receive /\ tv_state t = Transfer.offered)
  | OnRemove id => exists t, shown st t /\ tv_fileId t = id /\ finished (tv_state t) = true
  | OnEnableAudio => audioPlaybackBlocked st = true
  | OnAttach | OnSubmit => can_chat st
  | OnVoice => can_chat st /\ ~ voice_on st
  | OnMute | OnStop => voice_on st
  | OnShare => activeSheet u = Some sheet_room
  | OnOpenSheet s => s = sheet_about /\ activeSheet u = Some sheet_room
  | OnOverlay | OnClose => activeSheet u <> None
  | OnVerified true => activeSheet u = Some sheet_verify /\ security st <> Security.verified
  | OnVerified false => activeSheet u = Some sheet_verify
  | OnLeave => activeSheet u = Some sheet_leave
  | _ => False
  end.

Definition permitted (u : AppView) (h : Handler) : Prop :=
  match state u with
  | None => False
  | Some st =>
      (before_chat st /\ permitted_start u st h) \/ (~ before_chat st /\ permitted_chat u st h)
  end.

Lemma isPreChat_spec u st : state u = Some st -> isPreChat u = true <-> before_chat st.
Proof.
  intros Hst. unfold isPreChat, st_phase, before_chat. rewrite Hst. cbn. destruct (phase st); naive_solver.
Qed.

Lemma isStarting_spec u st :
  state u = Some st -> before_chat st -> isStarting u = false <-> phase st = Phase.idle \/ phase st = Phase.ended.
Proof.
  intros Hst. unfold isStarting, st_phase, before_chat. rewrite Hst. cbn.
  destruct (phase st); cbn; naive_solver.
Qed.

Lemma canUseChat_spec u st : state u = Some st -> canUseChat u = true <-> can_chat st.
Proof.
  intros Hst. unfold canUseChat, st_security, can_chat. rewrite Hst. cbn.
  destruct (connection st), (security st); cbn; naive_solver.
Qed.

Lemma isVoiceActive_spec u st : state u = Some st -> isVoiceActive u = true <-> voice_on st.
Proof. intros Hst. unfold isVoiceActive, st_voice, voice_on. rewrite Hst. cbn. destruct (voice st); naive_solver. Qed.

Lemma canOpenSecuritySheet_spec u st :
  state u = Some st -> canOpenSecuritySheet u = true <-> roomCode st <> [] \/ default [] (safetyPhrase st) <> [].
Proof.
  intros Hst. unfold canOpenSecuritySheet, st_safetyPhrase, st_roomCode. rewrite Hst. cbn.
  rewrite orb_true_iff. destruct (roomCode st), (safetyPhrase st) as [[|]|]; cbn; naive_solver.
Qed.

(** The handlers of an open sheet. *)
Definition sheet_handlers (u : AppView) : list Handler :=
  match activeSheet u with
  | Some sheet_room => [OnOverlay; OnClose; OnCopyCode; OnShare; OnOpenSheet sheet_about]
  | Some sheet_verify =>
      [OnOverlay; OnClose] ++
      (if bool_decide (st_security u = Security.verified) then [] else [OnVerified true]) ++ [OnVerified false]
  | Some sheet_about => [OnOverlay; OnClose]
  | Some sheet_leave => [OnOverlay; OnClose; OnLeave; OnClose]
  | None => []
  end.

Lemma acts_active_sheet u : acts (renderActiveSheet u) = sheet_handlers u.
Proof.
  unfold renderActiveSheet, sheet_handlers, renderLeaveBody.
  destruct (activeSheet u) as [[]|]; dom; rewrite ?actions_sheet, ?actions_room_body, ?actions_verify_body,
    ?actions_about; dom; cbn [app]; by rewrite ?app_nil_r.
Qed.

Lemma actions_toast u : acts (renderToast u) = [].
Proof. unfold renderToast. destruct (toast u) as [[]|]; by dom. Qed.

Lemma actions_shell u :
  actions (shell b u) = if isPreChat u then actions (start_page u) else
    actions (renderHeader u) ++ actions (renderTranscript b u) ++ actions (composer u) ++ sheet_handlers u.
Proof.
  unfold shell. dom. rewrite actions_toast, app_nil_r. destruct (isPreChat u); [done|].
  unfold chat_page. dom. rewrite acts_active_sheet. by rewrite <- !app_assoc.
Qed.

Lemma elem_of_if {A} (c : bool) (x : A) l : x ∈ (if c then l else []) <-> c = true /\ x ∈ l.
Proof. destruct c; set_solver. Qed.

Lemma start_actions_spec u st h :
  state u = Some st -> before_chat st -> h ∈ actions (start_page u) <-> permitted_start u st h.
Proof.
  intros Hst Hb. rewrite actions_start_page. pose proof (isStarting_spec u st Hst Hb) as Hi.
  destruct (isStarting u).
  - assert (~ (phase st = Phase.idle \/ phase st = Phase.ended)) by (intros H%Hi; done).
    case_bool_decide; destruct h; unfold permitted_start; set_solver.
  - destruct Hi as [Hi _]. specialize (Hi eq_refl).
    case_bool_decide; destruct h; unfold permitted_start; set_solver.
Qed.

(** What a handler asks of the transfer it belongs to. *)
Definition transfer_allows (t : TransferView) (h : Handler) : Prop :=
  match h with
  | OnAccept id | OnDecline id =>
      tv_fileId t = id /\ tv_direction t = dir_receive /\ tv_state t = Transfer.offered
  | OnCancel id =>
      tv_fileId t = id /\ finished (tv_state t) = false /\
      ~ (tv_direction t = dir_receive /\ tv_state t = Transfer.offered)
  | OnRemove id => tv_fileId t = id /\ finished (tv_state t) = true
  | _ => False
  end.

Lemma transfer_handlers_spec t h : h ∈ transfer_handlers t <-> transfer_allows t h.
Proof.
  unfold transfer_handlers, transfer_allows.
  destruct (tv_direction t) eqn:Hd, (tv_state t) eqn:Hs; destruct h; cbn [finished]; set_solver.
Qed.

(** The handlers outside the transcript. *)
Definition fixed_actions (u : AppView) : list Handler :=
  actions (renderHeader u) ++ actions (composer u) ++ sheet_handlers u.

Definition permitted_fixed (u : AppView) (st : SessionViewState) (h : Handler) : Prop :=
  match h with
  | OnAccept _ | OnDecline _ | OnCancel _ | OnRemove _ => False
  | _ => permitted_chat u st h
  end.

Lemma sheet_actions_spec u st h :
  state u = Some st ->
  h ∈ sheet_handlers u <->
  match h with
  | OnCopyCode | OnShare => activeSheet u = Some sheet_room
  | OnOpenSheet s => s = sheet_about /\ activeSheet u = Some sheet_room
  | OnOverlay | OnClose => activeSheet u <> None
  | OnVerified true => activeSheet u = Some sheet_verify /\ security st <> Security.verified
  | OnVerified false => activeSheet u = Some sheet_verify
  | OnLeave => activeSheet u = Some sheet_leave
  | _ => False
  end.
Proof.
  intros Hst. unfold sheet_handlers, st_security. rewrite Hst. cbn [fmap option_fmap option_map default from_option].
  change (default Security.none (Some (security st))) with (security st).
  destruct (activeSheet u) as [[]|]; try case_bool_decide; destruct h; try (case_match; set_solver); set_solver.
Qed.

Lemma fixed_actions_spec u st h :
  state u = Some st -> h ∈ fixed_actions u <-> permitted_fixed u st h.
Proof.
  intros Hst. unfold fixed_actions. rewrite !elem_of_app, (sheet_actions_spec u st h Hst).
  rewrite actions_header, actions_composer, !elem_of_app, !elem_of_if.
  pose proof (canUseChat_spec u st Hst) as Hc. pose proof (isVoiceActive_spec u st Hst) as Hv.
  pose proof (canOpenSecuritySheet_spec u st Hst) as Ho.
  assert (playback_blocked u = true <-> audioPlaybackBlocked st = true) as Hp.
  { unfold playback_blocked. by rewrite Hst. }
  assert (h ∈ (if isVoiceActive u then [OnMute; OnStop] else if canUseChat u then [OnVoice] else []) <->
          (voice_on st /\ h ∈ [OnMute; OnStop]) \/ (~ voice_on st /\ can_chat st /\ h = OnVoice)) as ->.
  { rewrite <- Hv, <- Hc. destruct (isVoiceActive u), (canUseChat u); set_solver. }
  rewrite Hc, Ho, Hp. clear. unfold permitted_fixed, permitted_chat. destruct h; set_solver.
Qed.

Lemma chat_actions_spec u st h :
  state u = Some st ->
  h ∈ actions (renderHeader u) ++ actions (renderTranscript b u) ++ actions (composer u) ++ sheet_handlers u <->
  permitted_chat u st h.
Proof.
  intros Hst. rewrite !elem_of_app, (transcript_actions u st h Hst). setoid_rewrite transfer_handlers_spec.
  pose proof (fixed_actions_spec u st h Hst) as Hf. unfold fixed_actions in Hf. rewrite !elem_of_app in Hf.
  assert ((exists t, shown st t /\ transfer_allows t h) \/ permitted_fixed u st h <-> permitted_chat u st h) as <-;
    [|rewrite <- Hf; tauto]. clear Hf.
  destruct h; cbn [transfer_allows permitted_fixed permitted_chat];
    (split; [intros [(t & _ & [])|H]; exact H|intros H; right; exact H]) ||
    (split; [intros [H|[]]; exact H|intros H; left; exact H]).
Qed.

Lemma actions_spec u h : is_Some (state u) -> h ∈ actions (shell b u) <-> permitted u h.
Proof.
  intros [st Hst]. rewrite actions_shell. unfold permitted. rewrite Hst.
  pose proof (isPreChat_spec u st Hst) as Hp. destruct (isPreChat u).
  - assert (before_chat st) as Hb by (by apply Hp). rewrite (start_actions_spec u st h Hst Hb). tauto.
  - assert (~ before_chat st) as Hb by (intros H%Hp; done). rewrite (chat_actions_spec u st h Hst). tauto.
Qed.
End Page.

(** ** Text fields of a tree *)

Definition holds (i : nat) (l : list Node) : bool := existsb (attached i) l.

Create Rewrite HintDb held.

Lemma attached_Element i a l : attached i (Element a l) = holds i l.
Proof. done. Qed.

Lemma holds_nil i : holds i [] = false.
Proof. done. Qed.

Lemma holds_cons i n l : holds i (n :: l) = attached i n || holds i l.
Proof. done. Qed.

Lemma holds_app i l k : holds i (l ++ k) = holds i l || holds i k.
Proof. apply existsb_app. Qed.

Lemma holds_optional i c n : holds i (optional c n) = c && attached i n.
Proof. destruct c; [apply orb_false_r|done]. Qed.

Lemma holds_text i s : holds i (textContent s) = false.
Proof. by destruct s. Qed.

Lemma holds_field i r : holds i (field_node r) = bool_decide (r = Some i).
Proof.
  destruct r as [j|]; cbn; [|done]. rewrite orb_false_r. destruct (Nat.eqb_spec i j) as [->|H].
  - by rewrite bool_decide_eq_true_2.
  - rewrite bool_decide_eq_false_2; [done|]. congruence.
Qed.

Lemma attached_el i t c s : attached i (el t c s) = false.
Proof. destruct (el_shape t c s) as (a & -> & _). destruct s; [apply holds_text|done]. Qed.

Lemma attached_with i f n : attached i (with_attr f n) = attached i n.
Proof. by destruct n. Qed.

Lemma attached_button i label c : attached i (button label c) = false.
Proof. apply holds_text. Qed.

Lemma attached_append i n kids :
  (exists a l, n = Element a l) -> attached i (append n kids) = attached i n || holds i kids.
Proof. intros (a & l & ->). apply holds_app. Qed.

Lemma attached_append_el i t c kids : attached i (append (el t c None) kids) = holds i kids.
Proof. rewrite attached_append; [by rewrite attached_el|]. destruct (el_shape t c None) as (a & -> & _). eauto. Qed.

Lemma attached_append_on i h t c kids : attached i (append (set_on h (el t c None)) kids) = holds i kids.
Proof. destruct (el_shape t c None) as (a & -> & _). done. Qed.

Lemma attached_append_select i h d c kids :
  attached i (append (set_on h (set_disabled d (el Select c None))) kids) = holds i kids.
Proof. destruct (el_shape Select c None) as (a & -> & _). done. Qed.

Lemma attached_div i c kids : attached i (div c kids) = holds i kids.
Proof. apply attached_append_el. Qed.

Lemma attached_text_el i t s : attached i (text_el t s) = false.
Proof. apply attached_el. Qed.

Lemma attached_on i h n : attached i (set_on h n) = attached i n.
Proof. apply attached_with. Qed.

Lemma attached_disabled i d n : attached i (set_disabled d n) = attached i n.
Proof. apply attached_with. Qed.

Lemma attached_titles i t n : attached i (set_titles t n) = attached i n.
Proof. apply attached_with. Qed.

Lemma attached_submit i n : attached i (set_submit n) = attached i n.
Proof. apply attached_with. Qed.

Lemma attached_click i label c h : attached i (click label c h) = false.
Proof. unfold click. by rewrite attached_on, attached_button. Qed.

Lemma holds_fmap_none {A} i (f : A -> Node) l : (forall x, attached i (f x) = false) -> holds i (f <$> l) = false.
Proof. intros H. induction l as [|x l IH]; [done|]. change (attached i (f x) || holds i (f <$> l) = false). by rewrite H, IH. Qed.

#[export] Hint Rewrite holds_nil holds_cons holds_app holds_optional holds_field attached_el
  attached_append_el attached_append_on attached_append_select attached_div attached_text_el attached_button
  attached_click attached_on attached_disabled attached_titles attached_submit @andb_false_r @orb_false_r : held.

Ltac held := autorewrite with held; cbn [orb andb].

Lemma attached_sheet i t body extra : attached i (renderSheet t body extra) = attached i body.
Proof. unfold renderSheet. by held. Qed.

Lemma attached_about i : attached i renderAboutBody = false.
Proof. reflexivity. Qed.

Lemma attached_start_card u i : attached i (start_card u) = bool_decide (roomInput u = Some i).
Proof.
  unfold start_card, renderProfileSelect, join_form. held.
  destruct (lastError u); held; reflexivity.
Qed.

Lemma attached_start_page u i : attached i (start_page u) = bool_decide (roomInput u = Some i).
Proof. unfold start_page. held. rewrite ?attached_start_card, ?attached_sheet, ?attached_about. by held. Qed.

Lemma attached_header u i : attached i (renderHeader u) = false.
Proof. unfold renderHeader, menuAction. by held. Qed.

Lemma attached_composer u i : attached i (composer u) = bool_decide (messageInput u = Some i).
Proof. unfold composer, renderInlineVoiceControls. destruct (isVoiceActive u); by held. Qed.

Lemma attached_active_sheet u i : holds i (renderActiveSheet u) = false.
Proof.
  unfold renderActiveSheet. destruct (activeSheet u) as [[]|]; held; rewrite ?attached_sheet, ?attached_about; try done.
  - unfold renderRoomBody, renderKeyValueBlock. held. rewrite holds_fmap_none; [done|]. intros x. by held.
  - unfold renderVerifyBody. held. rewrite holds_fmap_none; [done|]. intros x. by held.
Qed.

Lemma attached_transfer t i : attached i (renderTransfer t) = false.
Proof.
  unfold renderTransfer, progress_bar. held. rewrite ?attached_with. held.
  assert (holds i (transfer_actions t) = false) as Ha.
  { unfold transfer_actions. rewrite !holds_app. repeat case_match; held; rewrite ?attached_with; by held. }
  destruct (transfer_actions t); held; [done|]. rewrite <- Ha. by held.
Qed.

Section Attached.
Context (b : Browser).

Lemma attached_item st item i : holds i (render_item b st item) = false.
Proof.
  unfold render_item, renderTextBubble, renderSystemItem. destruct (it_kind item).
  - destruct (it_status item); by held.
  - by held.
  - destruct (item_transfer st item); held; [apply attached_transfer|done].
Qed.

Lemma attached_transcript u i : attached i (renderTranscript b u) = false.
Proof.
  unfold renderTranscript. destruct (state u) as [st|]; [|by held]. destruct (transcript st) as [|x l]; [by held|].
  held. generalize (x :: l). clear x l. intros l. induction l as [|item l IH]; [done|].
  change (holds i (render_item b st item ++ concat (render_item b st <$> l)) = false).
  by rewrite holds_app, attached_item, IH.
Qed.

(** The page has exactly one text field, that of its screen. *)
Lemma attached_shell u i :
  attached i (shell b u) = bool_decide ((if isPreChat u then roomInput u else messageInput u) = Some i).
Proof.
  unfold shell. held. assert (holds i (renderToast u) = false) as ->.
  { unfold renderToast. destruct (toast u) as [[]|]; by held. }
  held. destruct (isPreChat u); [apply attached_start_page|]. unfold chat_page. held.
  by rewrite attached_header, attached_transcript, attached_composer, attached_active_sheet, orb_false_r.
Qed.
End Attached.
