(* ===== verification/AppProps.v ===== *)
(** * Runs of the user interface

    What every run of [AppView] keeps: the page shows the current state or a
    frame is under way, a notice has one timer, an offer is announced once. *)
From S2P Require Import Prelude JsMap Bytes Profiles Messages Negotiation FileProtocol Rooms.
From S2P Require Import Scheduler Connection SessionView JsString Links Dom AppView AppActions.

Ltac ui_simpl :=
  cbn [update state activeSheet menuOpen messageInput roomInput messageDraft roomDraft lastError toast toastTimer
       codeCopied announcedIncomingOffers renderScheduled lastNoticeShown root fields activeElement scrollTop timers
       nextTimer frames pending choosers commands toasts] in *.

Section Runs.
Context (b : Browser).

(** The constructor: it subscribes, and the controller answers at once. *)
Definition constructor (st : SessionViewState) : AppView := on_state st (newAppView b).

(** ** What the page depends on *)

Record looks (u v : AppView) : Prop := {
  lk_state : state v = state u;
  lk_sheet : activeSheet v = activeSheet u;
  lk_room : roomInput v = roomInput u;
  lk_message : messageInput v = messageInput u;
  lk_error : lastError v = lastError u;
  lk_toast : toast v = toast u;
  lk_copied : codeCopied v = codeCopied u;
}.

Lemma shell_looks u v m : looks u v -> shell b (v <| menuOpen := m |>) = shell b (u <| menuOpen := m |>).
Proof.
  intros []. destruct u, v. ui_simpl. subst. reflexivity.
Qed.

(** The field that the current screen uses. *)
Definition screen_field (u : AppView) : option nat := if isPreChat u then roomInput u else messageInput u.
Definition drawn_field (u : AppView) : TextField := if isPreChat u then room_field u else message_field u.

(** Equal but for the selection. *)
Definition same_field (f g : TextField) : Prop :=
  f_class f = f_class g /\ f_placeholder f = f_placeholder g /\ f_maxLength f = f_maxLength g /\
  f_disabled f = f_disabled g /\ f_value f = f_value g.

(** The page is what [shell] makes of the state, except that a menu may still
    be open that should be closed. *)
Record current (u : AppView) : Prop := {
  cu_root : exists m, root u = Element (createElement Div) [shell b (u <| menuOpen := m |>)] /\
                      (menuOpen u = true -> m = true);
  cu_field : exists i f, screen_field u = Some i /\ fields u !! i = Some f /\ same_field f (drawn_field u);
}.

(** The root has the page below it, whose text field is one of the two. *)
Definition rooted (u : AppView) : Prop :=
  exists kids, root u = Element (createElement Div) kids /\
  forall i, attached i (root u) = true -> Some i = messageInput u \/ Some i = roomInput u.

Record ui_ok (u : AppView) : Prop := {
  uo_state : is_Some (state u);
  uo_frames : frames u = if renderScheduled u then 1%nat else 0%nat;
  uo_root : rooted u;
  uo_refs : forall i j, messageInput u = Some i -> roomInput u = Some j -> i <> j;
  uo_bound : forall i, messageInput u = Some i \/ roomInput u = Some i -> (i < length (fields u))%nat;
  uo_page : renderScheduled u = true \/ current u;
}.

(** *** Fields *)

Lemma f_value_set_value t f : f_value (set_value t f) = t.
Proof. unfold set_value. destruct (jstr_eqb t (f_value f)) eqn:E; [|done]. by apply jstr_eqb_eq in E. Qed.

Lemma set_value_rest t f :
  f_class (set_value t f) = f_class f /\ f_placeholder (set_value t f) = f_placeholder f /\
  f_maxLength (set_value t f) = f_maxLength f /\ f_disabled (set_value t f) = f_disabled f.
Proof. unfold set_value. by destruct (jstr_eqb t (f_value f)). Qed.

(** A field whose text is replaced is the one drawn with that text. *)
Lemma same_field_set_value t s f g : same_field f (set_value s g) -> same_field (set_value t f) (set_value t g).
Proof.
  unfold same_field. intros (H1 & H2 & H3 & H4 & _). rewrite !f_value_set_value.
  destruct (set_value_rest t f) as (? & ? & ? & ?), (set_value_rest t g) as (? & ? & ? & ?),
    (set_value_rest s g) as (? & ? & ? & ?). split_and!; congruence.
Qed.

Lemma same_field_typed t c s f g :
  same_field f (set_value s g) -> same_field (f <| f_value := t |> <| f_selection := c |>) (set_value t g).
Proof.
  unfold same_field. cbn [update f_class f_placeholder f_maxLength f_disabled f_value].
  rewrite !f_value_set_value. destruct (set_value_rest t g) as (-> & -> & -> & ->).
  destruct (set_value_rest s g) as (-> & -> & -> & ->). tauto.
Qed.

Lemma same_field_selection f x y : same_field (setSelectionRange x y f) f.
Proof. by destruct f. Qed.

(** *** Steps that only schedule *)

Lemma scheduleRender_scheduled u : renderScheduled (scheduleRender u) = true.
Proof. unfold scheduleRender. by destruct (renderScheduled u) eqn:E. Qed.

(** The parts of the invariant that do not concern the page. *)
Record skeleton (u v : AppView) : Prop := {
  sk_state : is_Some (state v);
  sk_root : root v = root u;
  sk_room : roomInput v = roomInput u;
  sk_message : messageInput v = messageInput u;
  sk_fields : length (fields v) = length (fields u);
  sk_scheduled : renderScheduled v = renderScheduled u;
  sk_frames : frames v = frames u;
}.

Lemma schedule_ok u v : ui_ok u -> skeleton u v -> ui_ok (scheduleRender v).
Proof.
  intros [H1 H2 H3 H4 H5 H6] [S1 S2 S3 S4 S5 S6 S7].
  assert (renderScheduled (scheduleRender v) = true) as Hs by apply scheduleRender_scheduled.
  unfold rooted in *. split; [..|by left]; unfold rooted; rewrite ?Hs; unfold scheduleRender; destruct (renderScheduled v) eqn:E; ui_simpl;
    rewrite ?S2, ?S3, ?S4, ?S5, ?S7; try done; by rewrite H2, <- S6, ?E.
Qed.

(** A step that leaves the page and what it depends on. *)
Lemma looks_ok u v :
  ui_ok u -> skeleton u v -> looks u v -> (menuOpen v = true -> menuOpen u = true) ->
  fields v = fields u -> drawn_field v = drawn_field u -> ui_ok v.
Proof.
  intros [H1 H2 H3 H4 H5 H6] [S1 S2 S3 S4 S5 S6 S7] Hl Hm Hf Hd.
  unfold rooted in *. split; unfold rooted; rewrite ?S2, ?S3, ?S4, ?S5, ?S6, ?S7; try done.
  destruct H6 as [H6|[(m & Hr & Hmo) (i & f & Hi & Hg & Hs)]]; [by left|right]. split.
  - exists m. rewrite S2, (shell_looks u v m Hl). split; [done|]. intros ?. by apply Hmo, Hm.
  - exists i, f. rewrite Hf, Hd. split_and!; try done. revert Hi. unfold screen_field, isPreChat, st_phase.
    destruct Hl as [-> _ -> -> _ _ _]. done.
Qed.

(** *** Notices touch nothing but themselves *)

(** Equal but for the notice, its timer and what was announced. *)
Record quiet (u v : AppView) : Prop := {
  q_state : state v = state u;
  q_sheet : activeSheet v = activeSheet u;
  q_menu : menuOpen v = menuOpen u;
  q_message : messageInput v = messageInput u;
  q_room : roomInput v = roomInput u;
  q_messageDraft : messageDraft v = messageDraft u;
  q_roomDraft : roomDraft v = roomDraft u;
  q_error : lastError v = lastError u;
  q_copied : codeCopied v = codeCopied u;
  q_scheduled : renderScheduled v = renderScheduled u;
  q_root : root v = root u;
  q_fields : fields v = fields u;
  q_active : activeElement v = activeElement u;
  q_scroll : scrollTop v = scrollTop u;
  q_frames : frames v = frames u;
  q_pending : pending v = pending u;
  q_choosers : choosers v = choosers u;
  q_commands : commands v = commands u;
}.

#[local] Instance quiet_preorder : PreOrder quiet.
Proof. split; [by intros u; split|]. intros u v w [] []. split; congruence. Qed.

Lemma quiet_clear_timer i u : quiet u (clear_timer i u).
Proof. by split. Qed.

Lemma setToast_quiet message tone u : quiet u (setToast message tone false u).
Proof. unfold setToast. ui_simpl. destruct (toastTimer u); by split. Qed.

Lemma announce_quiet u t : quiet u (announce u t).
Proof.
  unfold announce. destruct (is_new_offer u t); [|done]. etransitivity; [|apply setToast_quiet]. by split.
Qed.

Lemma announce_all_quiet l u : quiet u (foldl announce u l).
Proof. revert u. induction l as [|t l IH]; intros u; [done|]. etransitivity; [apply announce_quiet|apply IH]. Qed.

Lemma announceIncomingOffers_quiet u : quiet u (announceIncomingOffers u).
Proof. unfold announceIncomingOffers. destruct (state u); [apply announce_all_quiet|done]. Qed.

Lemma quiet_skeleton u v : is_Some (state u) -> quiet u v -> skeleton u v.
Proof. intros Hs []. split; try done; congruence. Qed.

Lemma quiet_skeleton_trans u v w : skeleton u v -> quiet v w -> skeleton u w.
Proof. intros [] []. split; congruence. Qed.

(** *** Drawing *)

(** What is left alone when the position is restored. *)
Record restored (u v : AppView) : Prop := {
  rs_looks : looks u v;
  rs_menu : menuOpen v = menuOpen u;
  rs_root : root v = root u;
  rs_scheduled : renderScheduled v = renderScheduled u;
  rs_frames : frames v = frames u;
  rs_drafts : messageDraft v = messageDraft u /\ roomDraft v = roomDraft u;
  rs_length : length (fields v) = length (fields u);
  rs_fields : forall i f, fields u !! i = Some f -> exists g, fields v !! i = Some g /\ same_field g f;
}.

Lemma restored_refl u v :
  looks u v -> menuOpen v = menuOpen u -> root v = root u -> renderScheduled v = renderScheduled u ->
  frames v = frames u -> messageDraft v = messageDraft u -> roomDraft v = roomDraft u -> fields v = fields u ->
  restored u v.
Proof. intros. split; try done; [congruence|]. intros i f Hf. exists f. by rewrite H6. Qed.

Lemma restored_select i x y u : restored u (update_field i (setSelectionRange x y) u).
Proof.
  unfold update_field. split; ui_simpl; try done; [apply length_alter|].
  intros j f Hf. destruct (decide (j = i)) as [->|Hne].
  - exists (setSelectionRange x y f). rewrite list_lookup_alter_eq, Hf. split; [done|apply same_field_selection].
  - exists f. by rewrite list_lookup_alter_ne.
Qed.

Lemma restored_trans u v w : restored u v -> restored v w -> restored u w.
Proof.
  intros [[] A2 A3 A4 A5 [A6 A6'] A7 A8] [[] B2 B3 B4 B5 [B6 B6'] B7 B8].
  split; try congruence; [split; congruence|split; congruence|].
  intros i f (g & Hg & Hs)%A8. apply B8 in Hg as (h & Hh & Hs'). exists h. split; [done|].
  unfold same_field in *. intuition congruence.
Qed.

Lemma restore_restored p u : restored u (restoreRenderPosition b p u).
Proof.
  unfold restoreRenderPosition. eapply restored_trans with (v := restore_scroll b p u).
  { unfold restore_scroll. destruct (transcript_of u); by apply restored_refl. }
  generalize (restore_scroll b p u). clear u. intros u. unfold restore_focus.
  destruct (if messageFocused p then _ else _) as [i|]; [|by apply restored_refl].
  destruct (fields u !! i) as [f|]; [|by apply restored_refl].
  destruct (f_disabled f); [by apply restored_refl|].
  eapply restored_trans with (v := if attached i (root u) then u <| activeElement := Some i |> else u).
  { destruct (attached i (root u)); by apply restored_refl. }
  destruct (selectionStart p), (selectionEnd p); try (by apply restored_refl). apply restored_select.
Qed.

(** The invariant without the page. *)
Record ui_shape (u : AppView) : Prop := {
  us_state : is_Some (state u);
  us_frames : frames u = if renderScheduled u then 1%nat else 0%nat;
  us_root : rooted u;
  us_refs : forall i j, messageInput u = Some i -> roomInput u = Some j -> i <> j;
  us_bound : forall i, messageInput u = Some i \/ roomInput u = Some i -> (i < length (fields u))%nat;
}.

Lemma ui_ok_shape u : ui_ok u -> ui_shape u.
Proof. by intros []. Qed.

(** A page drawn from the state as it is. *)
Definition exact (u : AppView) : Prop :=
  root u = Element (createElement Div) [shell b u] /\
  exists i f, screen_field u = Some i /\ fields u !! i = Some f /\ same_field f (drawn_field u).

Lemma shell_menu u : shell b (u <| menuOpen := menuOpen u |>) = shell b u.
Proof. by destruct u. Qed.

Lemma exact_current u : exact u -> current u.
Proof. intros [Hr Hf]. split; [|done]. exists (menuOpen u). by rewrite shell_menu. Qed.

Lemma shell_ext u v : looks u v -> menuOpen v = menuOpen u -> shell b v = shell b u.
Proof. intros Hl Hm. rewrite <- (shell_menu u), <- (shell_menu v), Hm. by apply shell_looks. Qed.

Lemma isPreChat_ext u v : state v = state u -> isPreChat v = isPreChat u.
Proof. unfold isPreChat, st_phase. by intros ->. Qed.

Lemma drawn_ext u v :
  state v = state u -> messageDraft v = messageDraft u -> roomDraft v = roomDraft u ->
  drawn_field v = drawn_field u.
Proof.
  intros Hs Hm Hr. unfold drawn_field, message_field, room_field, canUseChat, st_security, isStarting, st_phase.
  by rewrite (isPreChat_ext u v Hs), Hs, Hm, Hr.
Qed.

Lemma clear_children_nil l : clear_children l = [].
Proof. by induction l. Qed.

Lemma draw_exact u :
  ui_shape u -> exact (draw b u) /\ ui_shape (draw b u) /\ renderScheduled (draw b u) = renderScheduled u.
Proof.
  intros [Hs Hf (kids & Hr & _) Hx Hb]. set (v := make_field (clear_root u)).
  assert (root v = Element (createElement Div) [] /\ state v = state u /\ messageDraft v = messageDraft u /\
          roomDraft v = roomDraft u /\ fields v = fields u ++ [drawn_field u] /\ frames v = frames u /\
          renderScheduled v = renderScheduled u /\
          (if isPreChat u then roomInput v = Some (length (fields u)) /\ messageInput v = messageInput u
           else messageInput v = Some (length (fields u)) /\ roomInput v = roomInput u)) as
    (Vr & Vs & Vm & Vd & Vf & Vn & Vq & Vi).
  { assert (clear (root u) = Element (createElement Div) []) as Hc by (by rewrite Hr; cbn; rewrite clear_children_nil).
    rewrite <- (drawn_ext u (clear_root u)) by done. unfold v, make_field, drawn_field.
    change (isPreChat (clear_root u)) with (isPreChat u). rewrite <- Hc. by destruct (isPreChat u). }
  unfold draw. fold v. set (w := v <| root := append (root v) [shell b v] |>).
  assert (root w = Element (createElement Div) [shell b w]) as Hw.
  { unfold w. ui_simpl. rewrite Vr. reflexivity. }
  assert (isPreChat w = isPreChat u) as Hp by (by apply isPreChat_ext).
  split_and!; [split; [done|]| |done].
  - exists (length (fields u)), (drawn_field u). unfold screen_field. rewrite Hp.
    change (fields w) with (fields v). change (roomInput w) with (roomInput v).
    change (messageInput w) with (messageInput v). rewrite Vf, (drawn_ext u w) by done.
    rewrite list_lookup_middle by done. split_and!; [|done|by unfold same_field].
    destruct (isPreChat u); tauto.
  - split; [by change (state w) with (state v); rewrite Vs| | |..]; [|exists [shell b w]; split; [done|]|..].
    + change (frames w) with (frames v). change (renderScheduled w) with (renderScheduled v). by rewrite Vn, Vq.
    + intros i. rewrite Hw. cbn [attached existsb]. rewrite attached_shell, orb_false_r, Hp. intros Hi.
      apply bool_decide_eq_true in Hi. destruct (isPreChat u); [by right|by left].
    + intros i j. change (messageInput w) with (messageInput v). change (roomInput w) with (roomInput v).
      destruct (isPreChat u), Vi as [-> ->]; intros Hi Hj.
      * specialize (Hb i (or_introl Hi)). apply (inj Some) in Hj. lia.
      * specialize (Hb j (or_intror Hj)). apply (inj Some) in Hi. lia.
    + intros i. change (messageInput w) with (messageInput v). change (roomInput w) with (roomInput v).
      change (fields w) with (fields v). rewrite Vf, length_app. cbn [length]. specialize (Hb i).
      destruct (isPreChat u), Vi as [-> ->]; intros [Hi|Hi]; try (apply (inj Some) in Hi; lia);
        (assert (i < length (fields u))%nat by auto; lia).
Qed.

Lemma restored_exact u v : restored u v -> exact u -> ui_shape u -> exact v /\ ui_shape v.
Proof.
  intros [Hl Hm Hr Hq Hn [Hd Hd'] Hlen Hf] [Er (i & f & Ei & Ef & Es)] [S1 S2 S3 S4 S5]. pose proof Hl as [].
  split; [split|split].
  - by rewrite Hr, Er, (shell_ext u v).
  - apply Hf in Ef as (g & Hg & Hs). exists i, g. rewrite (drawn_ext u v) by done. split_and!; [|done|].
    + rewrite <- Ei. unfold screen_field. by rewrite (isPreChat_ext u v), lk_room0, lk_message0.
    + unfold same_field in *. intuition congruence.
  - by rewrite lk_state0.
  - by rewrite Hn, Hq.
  - unfold rooted. by rewrite Hr, lk_room0, lk_message0.
  - by rewrite lk_room0, lk_message0.
  - by rewrite lk_room0, lk_message0, Hlen.
Qed.

Lemma quiet_shape u v : quiet u v -> ui_shape u -> ui_shape v.
Proof.
  intros Q []. unfold rooted in *. split; unfold rooted; rewrite ?(q_state _ _ Q), ?(q_frames _ _ Q), ?(q_scheduled _ _ Q), ?(q_root _ _ Q),
    ?(q_message _ _ Q), ?(q_room _ _ Q), ?(q_fields _ _ Q); done.
Qed.

Lemma render_exact u :
  ui_shape u -> exact (render b u) /\ ui_shape (render b u) /\ renderScheduled (render b u) = renderScheduled u.
Proof.
  intros Hs. pose proof Hs as [[st Hst] _ _ _ _]. unfold render. rewrite Hst.
  pose proof (announceIncomingOffers_quiet u) as Hq. set (v := announceIncomingOffers u) in *.
  destruct (draw_exact v (quiet_shape u v Hq Hs)) as (He & Hd & Hr).
  pose proof (restore_restored (captureRenderPosition b v) (draw b v)) as Hrs.
  destruct (restored_exact _ _ Hrs He Hd) as [He' Hd']. split_and!; [done|done|].
  rewrite (rs_scheduled _ _ Hrs), Hr. apply Hq.
Qed.

Lemma render_ok u : ui_shape u -> ui_ok (render b u).
Proof.
  intros Hs. destruct (render_exact u Hs) as (He & [] & _). split; try done. right. by apply exact_current.
Qed.

(** *** Steps *)

(** A step that leaves the page, the drafts and the schedule alone. *)
Record idle (u v : AppView) : Prop := {
  id_looks : looks u v;
  id_menu : menuOpen v = true -> menuOpen u = true;
  id_drafts : messageDraft v = messageDraft u /\ roomDraft v = roomDraft u;
  id_root : root v = root u;
  id_fields : fields v = fields u;
  id_scheduled : renderScheduled v = renderScheduled u;
  id_frames : frames v = frames u;
}.

Lemma idle_ok u v : idle u v -> ui_ok u -> ui_ok v.
Proof.
  intros [Hl Hm [Hd Hd'] Hr Hf Hq Hn] Hu. pose proof Hl as []. pose proof (uo_state _ Hu).
  apply (looks_ok u); try done; [split; congruence|by apply drawn_ext].
Qed.

Ltac by_idle u := apply (idle_ok u); [by repeat split|done].

Lemma schedule_of u v w : ui_ok u -> skeleton u v -> quiet v w -> ui_ok (scheduleRender w).
Proof. intros Hu Hs Hq. by apply (schedule_ok u); [|eapply quiet_skeleton_trans]. Qed.

Lemma setToast_true message tone u : setToast message tone true u = scheduleRender (setToast message tone false u).
Proof. done. Qed.

Lemma showToast_ok message tone u v : ui_ok u -> skeleton u v -> ui_ok (showToast message tone v).
Proof.
  intros Hu Hs. unfold showToast. rewrite setToast_true. eapply schedule_of; [exact Hu|exact Hs|].
  apply setToast_quiet.
Qed.

Lemma skeleton_refl u : is_Some (state u) -> skeleton u u.
Proof. by split. Qed.

Lemma sync_skeleton previous next u : is_Some (state u) -> skeleton u (syncLocalState previous next u).
Proof.
  intros Hs. unfold syncLocalState.
  set (v := match previous with Some old => _ | None => u end).
  assert (skeleton u v) as Hv.
  { unfold v. destruct previous as [old|]; [|by apply skeleton_refl].
    destruct (_ || _); [|by apply skeleton_refl]. destruct (leftChat old next); by split. }
  clearbody v. destruct Hv. destruct (phase next); by split.
Qed.

Lemma surfaceNotice_quiet_of n u : exists v, quiet v (surfaceNotice n u) /\
  (v = u \/ exists x, v = u <| lastNoticeShown := x |>).
Proof.
  unfold surfaceNotice. destruct n as [[|c n]|]; [by eexists; split; [reflexivity|right; eexists]| |
    by eexists; split; [reflexivity|right; eexists]].
  case_bool_decide; [exists u; by split; [reflexivity|left]|].
  exists (u <| lastNoticeShown := Some (c :: n) |>). split; [|by right; eexists].
  destruct (noticeToastTone (c :: n)); [apply setToast_quiet|reflexivity].
Qed.

Lemma on_state_ok st u : ui_ok u -> ui_ok (on_state st u).
Proof.
  intros Hu. unfold on_state. pose proof (uo_state _ Hu) as Hs.
  pose proof (sync_skeleton (state u) st u Hs) as [S1 S2 S3 S4 S5 S6 S7].
  set (v := syncLocalState (state u) st u) in *. clearbody v.
  destruct (surfaceNotice_quiet_of (notice st) (v <| state := Some st |>)) as (w & Hq & Hw).
  eapply schedule_of; [exact Hu| |exact Hq]. destruct Hw as [->|[x ->]]; by split.
Qed.

Lemma update_field_skeleton i f u : is_Some (state u) -> skeleton u (update_field i f u).
Proof. intros. split; try done. apply length_alter. Qed.

(** Changing the field and the draft together. *)
Definition redrawn (u v : AppView) (draft : AppView -> TextField) (i : nat) : Prop :=
  forall f, fields u !! i = Some f -> same_field f (draft u) ->
  exists g, fields v !! i = Some g /\ same_field g (draft v).

Lemma edit_ok u v :
  ui_ok u -> skeleton u v -> looks u v -> menuOpen v = menuOpen u ->
  (forall i, isPreChat u = true -> roomInput u = Some i -> redrawn u v room_field i) ->
  (forall i, isPreChat u = false -> messageInput u = Some i -> redrawn u v message_field i) -> ui_ok v.
Proof.
  intros [H1 H2 H3 H4 H5 H6] [S1 S2 S3 S4 S5 S6 S7] Hl Hm Hroom Hmsg.
  unfold rooted in *. split; unfold rooted; rewrite ?S2, ?S3, ?S4, ?S5, ?S6, ?S7; try done.
  destruct H6 as [H6|[(m & Hr & Hmo) (i & f & Hi & Hg & Hs)]]; [by left|right]. split.
  - exists m. rewrite S2, (shell_looks u v m Hl), Hm. done.
  - unfold screen_field, drawn_field in *. rewrite (isPreChat_ext u v) by apply Hl. rewrite S3, S4.
    destruct (isPreChat u) eqn:Hp; [destruct (Hroom i eq_refl Hi f Hg Hs) as (g & ? & ?)
      |destruct (Hmsg i eq_refl Hi f Hg Hs) as (g & ? & ?)]; by exists i, g.
Qed.

Lemma redrawn_same u v draft i :
  fields v !! i = fields u !! i -> draft v = draft u -> redrawn u v draft i.
Proof. intros Hf Hd f Hg Hs. exists f. by rewrite Hf, Hd. Qed.

Lemma submit_ok u : ui_ok u -> ui_ok (submit_message u).
Proof.
  intros Hu. pose proof (uo_state _ Hu). unfold submit_message. destruct (negb _); [done|].
  change (messageInput (u <| messageDraft := [] |>)) with (messageInput u).
  destruct (messageInput u) as [i|] eqn:Hi.
  - apply (edit_ok u); [done|by split; try done; apply length_alter|by split|done|..].
    + intros j _ Hj. apply redrawn_same; [|done]. apply list_lookup_alter_ne. by apply (uo_refs _ Hu).
    + intros j _ Hj. rewrite Hi in Hj. apply (inj Some) in Hj as <-. intros f Hf Hs.
      exists (set_value [] f). split; [|eapply same_field_set_value; exact Hs].
      unfold issue_async, issue, update_field. ui_simpl. by rewrite list_lookup_alter_eq, Hf.
  - apply (edit_ok u); [done|by split|by split|done|..]; intros j _ Hj; [by apply redrawn_same|congruence].
Qed.

Lemma type_ok i text caret u :
  ui_ok u -> Some i = messageInput u \/ Some i = roomInput u -> ui_ok (type_text i text caret u).
Proof.
  intros Hu Hi. pose proof (uo_state _ Hu). unfold type_text.
  change (messageInput (update_field i _ u)) with (messageInput u). case_bool_decide as Hm.
  - apply (edit_ok u); [done|by split; try done; apply length_alter|by split|done|..]; intros j _ Hj.
    + apply redrawn_same; [|done]. apply list_lookup_alter_ne. intros <-. by apply (uo_refs _ Hu i i).
    + rewrite Hj in Hm. apply (inj Some) in Hm as <-. intros f Hf Hs. eexists. unfold update_field. ui_simpl.
      rewrite list_lookup_alter_eq, Hf. split; [done|]. eapply same_field_typed. exact Hs.
  - destruct Hi as [Hi|Hi]; [done|].
    apply (edit_ok u); [done|split; try done; unfold update_field; ui_simpl; by rewrite !length_alter|by split|done|..];
      intros j _ Hj.
    + rewrite Hj in Hi. apply (inj Some) in Hi as <-. intros f Hf Hs. eexists. unfold update_field. ui_simpl.
      rewrite !list_lookup_alter_eq, Hf. split; [done|]. eapply same_field_set_value, same_field_typed. exact Hs.
    + apply redrawn_same; [|done]. unfold update_field. ui_simpl.
      rewrite !list_lookup_alter_ne; [done| |]; intros <-; by rewrite Hj in Hm.
Qed.

Lemma shape_of u v : ui_ok u -> skeleton u v -> ui_shape v.
Proof.
  intros [] []. unfold rooted in *. split; unfold rooted;
    rewrite ?sk_root0, ?sk_room0, ?sk_message0, ?sk_fields0, ?sk_scheduled0, ?sk_frames0; done.
Qed.

Lemma render_of u v : ui_ok u -> skeleton u v -> ui_ok (render b v).
Proof. intros Hu Hs. by apply render_ok, (shape_of u). Qed.

Lemma handle_ok h u : ui_ok u -> ui_ok (handle b h u).
Proof.
  revert u. induction h; intros u Hu; pose proof (uo_state _ Hu) as Hst; cbn [handle]; try done;
    try (by_idle u); try (by apply (render_of u); [|split]).
  - destruct busy; [done|by_idle u].
  - unfold copyRoomCode. destruct (truthy _); [by_idle u|done].
  - unfold shareRoom, copyText. destruct (canShare b); [by_idle u|]. destruct (truthy _); [by_idle u|done].
  - apply IHh. by_idle u.
  - by apply submit_ok.
  - assert (ui_ok (closeSheet b u)) by (by apply (render_of u); [|split]). by_idle (closeSheet b u).
  - assert (ui_ok (closeSheet b u)) by (by apply (render_of u); [|split]). by_idle (closeSheet b u).
Qed.

Lemma settled_ok p error u : ui_ok u -> ui_ok (settled p error u).
Proof.
  intros Hu. pose proof (uo_state _ Hu) as Hst. destruct p, error; cbn [settled]; try done;
    try (by apply (showToast_ok _ _ u); [|split]).
  - assert (ui_ok (showToast (js "Room code copied.") tone_info (u <| codeCopied := true |>))) as Hv
      by (by apply (showToast_ok _ _ u); [|split]).
    revert Hv. generalize (showToast (js "Room code copied.") tone_info (u <| codeCopied := true |>)).
    intros v Hv. by_idle v.
  - unfold copyText. destruct (truthy text); [by_idle u|done].
Qed.

Lemma frame_ok u : ui_ok u -> (0 < frames u)%nat -> ui_ok (frame b u).
Proof.
  intros Hu Hf. unfold frame. apply render_ok. destruct Hu as [H1 H2 H3 H4 H5 _].
  rewrite H2 in Hf. destruct (renderScheduled u) eqn:Hr; [|lia]. split; ui_simpl; try done. by rewrite H2.
Qed.

Lemma timer_ok t u : ui_ok u -> ui_ok (timer_fired t u).
Proof.
  intros Hu. pose proof (uo_state _ Hu). destruct t; apply (schedule_ok u); try done; by split.
Qed.

Lemma ui_step_ok e u u' : step b e u = Some u' -> ui_ok u -> ui_ok u'.
Proof.
  intros He Hu. destruct e as [next| |i|k error|h|i|i text caret|file|i|y]; cbn [step] in He.
  - apply (inj Some) in He as <-. by apply on_state_ok.
  - destruct (Nat.ltb_spec 0 (frames u)); [|done]. apply (inj Some) in He as <-. by apply frame_ok.
  - destruct (find _ (timers u)) as [t|]; [|done]. apply (inj Some) in He as <-. apply timer_ok. by_idle u.
  - destruct (pending u !! k) as [p|]; [|done]. apply (inj Some) in He as <-. apply settled_ok. by_idle u.
  - case_bool_decide; [|done]. apply (inj Some) in He as <-. by apply handle_ok.
  - case_bool_decide; [|done]. apply (inj Some) in He as <-. by_idle u.
  - unfold enabled_field in He. destruct (fields u !! i) as [f|]; [|done]. cbn in He.
    destruct (attached i (root u)) eqn:Ha; [|done]. destruct (uo_root _ Hu) as (kids & _ & Hr).
    apply Hr in Ha. destruct (negb (f_disabled f)); [|done]. cbn in He.
    destruct (_ && _); [|done]. apply (inj Some) in He as <-. by apply type_ok.
  - destruct (0 <? choosers u)%nat; [|done]. apply (inj Some) in He as <-. destruct file as [[name size]|]; by_idle u.
  - destruct i as [i|]; [|apply (inj Some) in He as <-; by_idle u].
    destruct (enabled_field i u); [|done]. apply (inj Some) in He as <-. by_idle u.
  - destruct (transcript_of u); [|done]. apply (inj Some) in He as <-. by_idle u.
Qed.

Lemma constructor_ok st : ui_ok (constructor st).
Proof.
  unfold constructor, on_state. set (u := newAppView b).
  destruct (surfaceNotice_quiet_of (notice st) ((syncLocalState (state u) st u) <| state := Some st |>)) as (w & Hq & Hw).
  set (v := surfaceNotice _ _) in *. clearbody v.
  assert (state w = Some st /\ root w = root u /\ messageInput w = None /\ roomInput w = None /\
          frames w = 0%nat /\ renderScheduled w = false /\ fields w = []) as (W1 & W2 & W3 & W4 & W5 & W6 & W7).
  { unfold syncLocalState in Hw. destruct Hw as [->|[x ->]]; by destruct (phase st). }
  destruct Hq. unfold scheduleRender. rewrite q_scheduled0, W6.
  split; ui_simpl; rewrite ?q_state0, ?q_root0, ?q_message0, ?q_room0, ?q_frames0, ?q_fields0, ?W1, ?W2, ?W3, ?W4, ?W5, ?W7;
    try done; [|by intros i [?|?]|by left].
  by exists [].
Qed.

Lemma ui_run_ok es u u' : run b es u = Some u' -> ui_ok u -> ui_ok u'.
Proof.
  revert u. induction es as [|e es IH]; intros u H Hu; cbn [run] in H; [by apply (inj Some) in H as <-|].
  destruct (step b e u) as [v|] eqn:He; [|done]. eapply IH; [exact H|]. by eapply ui_step_ok.
Qed.

(** ** The page and the state *)

(** Drawing changes nothing that the page depends on, except that it may
    announce an offer. *)
Record redraws (u v : AppView) : Prop := {
  rd_state : state v = state u;
  rd_sheet : activeSheet v = activeSheet u;
  rd_menu : menuOpen v = menuOpen u;
  rd_drafts : messageDraft v = messageDraft u /\ roomDraft v = roomDraft u;
  rd_error : lastError v = lastError u;
  rd_copied : codeCopied v = codeCopied u;
}.

Lemma draw_redraws u : redraws u (draw b u).
Proof. unfold draw, make_field. destruct (isPreChat _); by split. Qed.

Lemma render_redraws u : redraws u (render b u).
Proof.
  unfold render. destruct (state u) eqn:Hs; [|by split]. destruct (announceIncomingOffers_quiet u).
  set (v := announceIncomingOffers u) in *.
  destruct (draw_redraws v) as [? ? ? [? ?] ? ?].
  destruct (restore_restored (captureRenderPosition b v) (draw b v)) as [[] ? ? ? ? [? ?] ? ?].
  split; try congruence. split; congruence.
Qed.

Lemma frame_exact u :
  ui_ok u -> renderScheduled u = true ->
  step b Frame u = Some (frame b u) /\ exact (frame b u) /\ renderScheduled (frame b u) = false /\
  state (frame b u) = state u.
Proof.
  intros Hu Hr. cbn [step]. rewrite (uo_frames _ Hu), Hr. split; [done|]. unfold frame.
  assert (ui_shape (u <| renderScheduled := false |> <| frames := pred (frames u) |>)) as Hs.
  { destruct Hu as [H1 H2 H3 H4 H5 _]. split; ui_simpl; try done. by rewrite H2, Hr. }
  destruct (render_exact _ Hs) as (He & _ & Hq). split_and!; [done|done|].
  by rewrite (rd_state _ _ (render_redraws _)).
Qed.

(** No update of the page is lost.  Whenever no frame is under way the page
    is the one that the state describes, but for a menu that may still be
    open, and its text field has the text of the draft; when a frame is under
    way, it draws exactly the page of the state. *)
Theorem page_up_to_date st es u :
  run b es (constructor st) = Some u ->
  (renderScheduled u = false ->
     (exists m, root u = Element (createElement Div) [shell b (u <| menuOpen := m |>)] /\
                (menuOpen u = true -> m = true)) /\
     exists i f, screen_field u = Some i /\ fields u !! i = Some f /\ same_field f (drawn_field u)) /\
  (renderScheduled u = true ->
     exists u', step b Frame u = Some u' /\ exact u' /\ renderScheduled u' = false /\ state u' = state u).
Proof.
  intros H. apply ui_run_ok in H; [|apply constructor_ok]. split; intros Hr.
  - destruct (uo_page _ H) as [Hp|[]]; [congruence|done].
  - exists (frame b u). by apply frame_exact.
Qed.

Lemma actions_menu u m : actions (shell b (u <| menuOpen := m |>)) = actions (shell b u).
Proof. rewrite !actions_shell. unfold start_page. rewrite !actions_header. reflexivity. Qed.

Lemma current_actions u h : ui_ok u -> renderScheduled u = false -> h ∈ actions (root u) <-> permitted u h.
Proof.
  intros Hu Hr. destruct (uo_page _ Hu) as [Hp|[(m & -> & _) _]]; [congruence|].
  rewrite actions_Element, acts_cons, acts_nil, app_nil_r. cbn [own_actions on createElement app].
  rewrite actions_menu. apply actions_spec, Hu.
Qed.

End Runs.

(** ** A demonstration *)

Definition demo_browser : Browser := {|
  intl := fun t => Some (js_int t);
  layout := fun _ => (1000, 400);
  canShare := true;
  location := {| loc_base := js "https://only.two/"; loc_search := js "?room=abcd1234"; loc_hash := [] |};
|}.

(** A chat over an encrypted session. *)
Definition demo_chat : SessionViewState :=
  initial_view <| phase := Phase.active |> <| roomCode := js "ABCD-1234" |> <| connection := Status.connected |>
    <| security := Security.encrypted_unverified |> <| safetyPhrase := Some (js "amber anchor") |>.

Definition ui_reaches (es : list UiEvent) (P : AppView -> bool) : bool :=
  match run demo_browser es (constructor demo_browser demo_chat) with Some u => P u | None => false end.

Lemma ui_reached es P :
  ui_reaches es P = true ->
  exists u, run demo_browser es (constructor demo_browser demo_chat) = Some u /\ P u = true.
Proof. unfold ui_reaches. destruct (run _ _ _) as [u|]; [|done]. intros H. by exists u. Qed.

Lemma page_up_to_date_witness :
  exists u u', run demo_browser [Frame; Types 0 (js "hi") 2; Snapshot demo_chat]
      (constructor demo_browser demo_chat) = Some u /\
    step demo_browser Frame u = Some u' /\ exact demo_browser u'.
Proof.
  destruct (ui_reached [Frame; Types 0 (js "hi") 2; Snapshot demo_chat] renderScheduled) as (u & Hu & Hr);
    [vm_compute; reflexivity|].
  destruct (page_up_to_date demo_browser demo_chat _ u Hu) as [_ H]. destruct (H Hr) as (u' & H1 & H2 & _).
  exists u, u'. split; [exact Hu|]. split; [exact H1|exact H2].
Defined.

