(* ===== verification/AppNotices.v ===== *)
(** * Notices, focus and what the sheets show

    Further facts about [AppView]: the timer of a notice, the announcement of
    offers, what is forgotten when a chat is left, the focus across redraws,
    the safety phrase as it is shown, and percentages. *)
From S2P Require Import Prelude JsMap Bytes Profiles Messages Negotiation FileProtocol Rooms.
From S2P Require Import Scheduler Connection SessionView JsString Links Dom AppView AppActions AppProps.
From Stdlib Require Import SpecFloat.

Section Notices.
Context (b : Browser).

(** ** Timers *)

Definition toast_timers (u : AppView) : list (nat * Timer) :=
  filter (fun t => match snd t with timer_toast => true | timer_copied => false end = true) (timers u).

Record toast_ok (u : AppView) : Prop := {
  to_timer : match toastTimer u with
             | Some i => is_Some (toast u) /\ toast_timers u = [(i, timer_toast)]
             | None => toast u = None /\ toast_timers u = []
             end;
  to_nodup : NoDup (timers u).*1;
  to_bound : Forall (fun t => (fst t < nextTimer u)%nat) (timers u);
}.

(** A step that sets no timer and no notice. *)
Record untimed (u v : AppView) : Prop := {
  ut_toast : toast v = toast u;
  ut_toastTimer : toastTimer v = toastTimer u;
  ut_timers : timers v = timers u;
  ut_next : nextTimer v = nextTimer u;
}.

#[local] Instance untimed_preorder : PreOrder untimed.
Proof. split; [by intros u; split|]. intros u v w [] []. split; congruence. Qed.

Lemma untimed_ok u v : untimed u v -> toast_ok u -> toast_ok v.
Proof.
  intros [H1 H2 H3 H4] []. unfold toast_timers in *. split; unfold toast_timers; by rewrite ?H1, ?H2, ?H3, ?H4.
Qed.

Lemma Forall_filtered {A} (P Q : A -> Prop) `{!forall x, Decision (Q x)} l : Forall P l -> Forall P (filter Q l).
Proof. intros Hl. apply Forall_forall. intros x [_ Hx]%list_elem_of_filter. revert x Hx. by apply Forall_forall. Qed.

(** A timer with the next number. *)
Lemma fresh_timer n t (l : list (nat * Timer)) :
  NoDup l.*1 -> Forall (fun t => (fst t < n)%nat) l ->
  NoDup (l ++ [(n, t)]).*1 /\ Forall (fun t => (fst t < S n)%nat) (l ++ [(n, t)]).
Proof.
  intros Hn Hb. split.
  - rewrite fmap_app. apply NoDup_app. split_and!; [done| |apply NoDup_singleton].
    intros i (x & -> & Hi)%list_elem_of_fmap Hs. apply list_elem_of_singleton in Hs. cbn in Hs.
    rewrite Forall_forall in Hb. apply Hb in Hi. lia.
  - apply Forall_app. split; [|constructor; [cbn; lia|constructor]]. eapply Forall_impl; [exact Hb|]. cbn. lia.
Qed.

Lemma clear_timer_ok i u :
  toast_ok u -> (forall k, toastTimer u = Some k -> k <> i) -> toast_ok (clear_timer i u).
Proof.
  intros [Ht Hn Hb] Hi. split.
  - change (toastTimer (clear_timer i u)) with (toastTimer u). change (toast (clear_timer i u)) with (toast u).
    assert (toast_timers (clear_timer i u) = filter (fun t => fst t <> i) (toast_timers u)) as ->.
    { unfold toast_timers, clear_timer. ui_simpl. rewrite !list_filter_filter. apply list_filter_iff. tauto. }
    destruct (toastTimer u) as [k|]; destruct Ht as [? ->]; [|done]. split; [done|].
    rewrite filter_cons_True; [done|]. by apply Hi.
  - unfold clear_timer. ui_simpl. eapply sublist_NoDup; [exact Hn|]. apply fmap_sublist, sublist_filter.
  - unfold clear_timer. ui_simpl. by apply Forall_filtered.
Qed.

(** Without its notice, only the timer of a notice may be left. *)
Lemma set_timer_ok t u : t <> timer_toast -> toast_ok u -> toast_ok (set_timer t u).
Proof.
  intros Hne [Ht Hn Hb]. destruct t; [done|]. unfold set_timer. split; ui_simpl.
  - unfold toast_timers in *. ui_simpl. by rewrite filter_app, filter_cons_False, filter_nil, app_nil_r.
  - by apply (fresh_timer _ _ _ Hn Hb).
  - by apply (fresh_timer _ _ _ Hn Hb).
Qed.

(** Setting a notice replaces the timer of the one before. *)
Lemma setToast_ok message tone r u : toast_ok u -> toast_ok (setToast message tone r u).
Proof.
  intros Hu. assert (toast_ok (setToast message tone false u)) as H.
  2:{ destruct r; [|done]. rewrite setToast_true. eapply untimed_ok; [|exact H].
      unfold scheduleRender. by destruct (renderScheduled _). }
  set (w := match toastTimer u with Some i => clear_timer i u | None => u end).
  assert (toast_timers w = [] /\ NoDup (timers w).*1 /\ Forall (fun t => (fst t < nextTimer u)%nat) (timers w))
    as (Ht & Hn & Hb).
  { destruct Hu as [Ht Hn Hb]. unfold w. destruct (toastTimer u) as [i|]; destruct Ht as [_ Ht]; [|done].
    unfold toast_timers, clear_timer in *. ui_simpl. split_and!.
    - assert (filter (fun t => fst t <> i) (toast_timers u) = []) as He.
      { unfold toast_timers. rewrite Ht. by rewrite filter_cons_False by naive_solver. }
      rewrite <- He. unfold toast_timers. rewrite !list_filter_filter. apply list_filter_iff. tauto.
    - eapply sublist_NoDup; [exact Hn|]. apply fmap_sublist, sublist_filter.
    - by apply Forall_filtered. }
  assert (timers (setToast message tone false u) = timers w ++ [(nextTimer u, timer_toast)] /\
          nextTimer (setToast message tone false u) = S (nextTimer u) /\
          toastTimer (setToast message tone false u) = Some (nextTimer u) /\
          toast (setToast message tone false u) = Some (message, tone)) as (E1 & E2 & E3 & E4).
  { unfold w, setToast. ui_simpl. by destruct (toastTimer u). }
  split; unfold toast_timers in *; rewrite ?E1, ?E2, ?E3, ?E4.
  - split; [done|]. by rewrite filter_app, Ht, filter_cons_True.
  - by apply (fresh_timer _ _ _ Hn Hb).
  - by apply (fresh_timer _ _ _ Hn Hb).
Qed.

Lemma schedule_untimed u : untimed u (scheduleRender u).
Proof. unfold scheduleRender. by destruct (renderScheduled u). Qed.

Lemma announce_toast_ok l u : toast_ok u -> toast_ok (foldl announce u l).
Proof.
  revert u. induction l as [|t l IH]; intros u Hu; [done|]. apply IH. unfold announce.
  destruct (is_new_offer u t); [|done]. apply setToast_ok. by eapply untimed_ok; [|exact Hu].
Qed.

Lemma draw_untimed u : untimed u (draw b u).
Proof. unfold draw, make_field. by destruct (isPreChat _). Qed.

Lemma restore_untimed p u : untimed u (restoreRenderPosition b p u).
Proof.
  unfold restoreRenderPosition. transitivity (restore_scroll b p u).
  { unfold restore_scroll. by destruct (transcript_of u). }
  generalize (restore_scroll b p u). clear u. intros u. unfold restore_focus.
  repeat case_match; by try split.
Qed.

Lemma render_toast_ok u : toast_ok u -> toast_ok (render b u).
Proof.
  intros Hu. unfold render, announceIncomingOffers. destruct (state u) as [st|]; [|done].
  set (v := foldl announce u (transfers st)). assert (toast_ok v) as Hv by (by apply announce_toast_ok).
  eapply untimed_ok; [|exact Hv]. transitivity (draw b v); [apply draw_untimed|apply restore_untimed].
Qed.

Ltac untimed_from H := eapply untimed_ok; [|exact H]; by split.

Lemma handle_toast_ok h u : toast_ok u -> toast_ok (handle b h u).
Proof.
  revert u. induction h; intros u Hu; cbn [handle]; try done; try (untimed_from Hu);
    try (apply render_toast_ok; untimed_from Hu).
  - destruct busy; [done|untimed_from Hu].
  - unfold copyRoomCode. destruct (truthy _); [untimed_from Hu|done].
  - unfold shareRoom, copyText. destruct (canShare b); [untimed_from Hu|]. destruct (truthy _); [untimed_from Hu|done].
  - apply IHh. untimed_from Hu.
  - unfold submit_message. destruct (negb _); [done|]. destruct (messageInput _); untimed_from Hu.
  - apply (untimed_ok (closeSheet b u)); [by split|]. apply render_toast_ok. untimed_from Hu.
  - apply (untimed_ok (closeSheet b u)); [by split|]. apply render_toast_ok. untimed_from Hu.
Qed.

Lemma sync_untimed previous next u : untimed u (syncLocalState previous next u).
Proof.
  unfold syncLocalState. set (v := match previous with Some old => _ | None => u end).
  assert (untimed u v) as [] by (unfold v; repeat case_match; by split).
  clearbody v. destruct (phase next); by split.
Qed.

Lemma on_state_toast_ok next u : toast_ok u -> toast_ok (on_state next u).
Proof.
  intros Hu. unfold on_state. eapply untimed_ok; [apply schedule_untimed|].
  set (v := (syncLocalState (state u) next u) <| state := Some next |>).
  assert (toast_ok v) as Hv.
  { eapply untimed_ok; [|exact Hu]. transitivity (syncLocalState (state u) next u); [apply sync_untimed|by split]. }
  clearbody v. unfold surfaceNotice. destruct (notice next) as [[|c n]|]; try (untimed_from Hv).
  case_bool_decide; [done|].
  destruct (noticeToastTone (c :: n)); [apply setToast_ok|]; untimed_from Hv.
Qed.

(** The timer that fires is taken off the list first. *)
Lemma timer_toast_ok i t u :
  toast_ok u -> find (fun t => (fst t =? i)%nat) (timers u) = Some t ->
  toast_ok (timer_fired (snd t) (clear_timer i u)).
Proof.
  intros Hu Hf. apply find_some in Hf as [Hin Hi]. apply Nat.eqb_eq in Hi. apply list_elem_of_In in Hin.
  destruct t as [k t]. cbn in Hi. subst k. destruct t; cbn [snd timer_fired].
  - eapply untimed_ok; [apply schedule_untimed|]. destruct Hu as [Ht Hn Hb]. split; ui_simpl.
    + split; [done|]. unfold toast_timers, clear_timer. ui_simpl. rewrite list_filter_filter.
      transitivity (filter (fun t : nat * Timer => fst t <> i) (toast_timers u)).
      { unfold toast_timers. rewrite list_filter_filter. apply list_filter_iff. tauto. }
      assert ((i, timer_toast) ∈ toast_timers u) as Hm by (by apply list_elem_of_filter).
      destruct (toastTimer u) as [k|]; destruct Ht as [_ Ht]; rewrite Ht in *; [|by apply elem_of_nil in Hm].
      apply list_elem_of_singleton in Hm. simplify_eq. by rewrite filter_cons_False by naive_solver.
    + unfold clear_timer. ui_simpl. eapply sublist_NoDup; [exact Hn|]. apply fmap_sublist, sublist_filter.
    + unfold clear_timer. ui_simpl. by apply Forall_filtered.
  - eapply untimed_ok; [apply schedule_untimed|].
    assert (toast_ok (clear_timer i u)) as Hc; [|untimed_from Hc].
    apply clear_timer_ok; [done|]. intros k Hk ->. destruct Hu as [Ht Hn _]. rewrite Hk in Ht. destruct Ht as [_ Ht].
    assert ((i, timer_toast) ∈ timers u) as Hm.
    { assert ((i, timer_toast) ∈ toast_timers u) as H by (rewrite Ht; by apply list_elem_of_singleton).
      by apply list_elem_of_filter in H as [_ H]. }
    apply list_elem_of_lookup_1 in Hin as [x Hx], Hm as [y Hy].
    assert (x = y) as ->; [|congruence].
    eapply NoDup_lookup; [exact Hn| |]; rewrite list_lookup_fmap; [by rewrite Hx|by rewrite Hy].
Qed.

Lemma settled_toast_ok p error u : toast_ok u -> toast_ok (settled p error u).
Proof.
  intros Hu. destruct p, error; cbn [settled]; try done; try (apply setToast_ok; untimed_from Hu).
  - apply set_timer_ok; [done|]. apply setToast_ok. untimed_from Hu.
  - unfold copyText. destruct (truthy text); [untimed_from Hu|done].
Qed.

Lemma step_toast_ok e u u' : step b e u = Some u' -> toast_ok u -> toast_ok u'.
Proof.
  intros He Hu. destruct e as [next| |i|k error|h|i|i text caret|file|i|y]; cbn [step] in He.
  - apply (inj Some) in He as <-. by apply on_state_toast_ok.
  - destruct (0 <? frames u)%nat; [|done]. apply (inj Some) in He as <-. apply render_toast_ok. untimed_from Hu.
  - destruct (find _ (timers u)) as [t|] eqn:Hf; [|done]. apply (inj Some) in He as <-. by apply timer_toast_ok.
  - destruct (pending u !! k) as [p|]; [|done]. apply (inj Some) in He as <-. apply settled_toast_ok. untimed_from Hu.
  - case_bool_decide; [|done]. apply (inj Some) in He as <-. by apply handle_toast_ok.
  - case_bool_decide; [|done]. apply (inj Some) in He as <-. untimed_from Hu.
  - destruct (enabled_field i u) as [f|]; [|done]. cbn in He. destruct (_ && _); [|done].
    apply (inj Some) in He as <-. unfold type_text. case_bool_decide; untimed_from Hu.
  - destruct (0 <? choosers u)%nat; [|done]. apply (inj Some) in He as <-. destruct file as [[name size]|]; untimed_from Hu.
  - destruct i as [i|]; [|apply (inj Some) in He as <-; untimed_from Hu].
    destruct (enabled_field i u); [|done]. apply (inj Some) in He as <-. untimed_from Hu.
  - destruct (transcript_of u); [|done]. apply (inj Some) in He as <-. untimed_from Hu.
Qed.

Lemma run_toast_ok es u u' : run b es u = Some u' -> toast_ok u -> toast_ok u'.
Proof.
  revert u. induction es as [|e es IH]; intros u H Hu; cbn [run] in H; [by apply (inj Some) in H as <-|].
  destruct (step b e u) as [v|] eqn:He; [|done]. eapply IH; [exact H|]. by eapply step_toast_ok.
Qed.

(** A notice is shown exactly as long as its own timer runs: there is one
    timer for notices when one is shown and none otherwise, and when it fires
    the notice is gone and a frame is under way.  A later notice is not cut
    short by the timer of an earlier one. *)
Theorem notice_lifetime st es u :
  run b es (constructor b st) = Some u ->
  (toast u = None <-> toast_timers u = []) /\
  (forall i, (i, timer_toast) ∈ timers u -> toastTimer u = Some i /\
     exists u', step b (TimerFires i) u = Some u' /\ toast u' = None /\ renderScheduled u' = true).
Proof.
  intros H. apply run_toast_ok in H as [Ht Hn Hb].
  2:{ apply on_state_toast_ok. split; [done|constructor|constructor]. }
  split; [destruct (toastTimer u); destruct Ht as [H1 ->]; [destruct H1 as [? ->]|]; done|].
  intros i Hi. assert ((i, timer_toast) ∈ toast_timers u) as Hm by (by apply list_elem_of_filter).
  destruct (toastTimer u) as [k|]; destruct Ht as [_ Ht]; rewrite Ht in Hm; [|by apply elem_of_nil in Hm].
  apply list_elem_of_singleton in Hm. simplify_eq. split; [done|]. cbn [step].
  destruct (find (fun t : nat * Timer => (t.1 =? k)%nat) (timers u)) as [t|] eqn:Hf.
  - eexists. split; [done|]. apply find_some in Hf as [Hin Hk]. apply Nat.eqb_eq in Hk. destruct t as [i t]. cbn in Hk. subst i.
    apply list_elem_of_In, list_elem_of_lookup_1 in Hin as [x Hx]. apply list_elem_of_lookup_1 in Hi as [y Hy].
    assert (x = y) as -> by (eapply NoDup_lookup; [exact Hn| |]; rewrite list_lookup_fmap;
      [by rewrite Hx|by rewrite Hy]).
    rewrite Hx in Hy. simplify_eq. cbn [snd timer_fired]. unfold scheduleRender. by destruct (renderScheduled _) eqn:E.
  - eapply find_none in Hf; [|by apply list_elem_of_In]. cbn in Hf. by rewrite Nat.eqb_refl in Hf.
Qed.
End Notices.
