(* ===== verification/AppDetails.v ===== *)
(** * What the page keeps and shows

    The focus and the scroll position across redraws, the announcement of
    offers, what is forgotten when a chat is left, the safety phrase as it is
    shown, percentages, and a menu that stays open. *)
From S2P Require Import Prelude JsMap Bytes Profiles Messages Negotiation FileProtocol Rooms.
From S2P Require Import Scheduler Connection SessionView JsString Links Dom AppView AppActions AppProps.
From Stdlib Require Import SpecFloat.

(** ** Focus and scroll position *)

Section Position.
Context (b : Browser).

(** The scroll position that a redraw leaves. *)
Definition kept_scroll (u v : AppView) : Z :=
  match transcript_of u with
  | Some _ =>
      let '(scrollHeight, clientHeight) := layout b (root u) in
      if scrollHeight - scrollTop u - clientHeight <? 72
      then clamp_scroll b (layout b (root v)).1 (root v) else clamp_scroll b (scrollTop u) (root v)
  | None => clamp_scroll b (layout b (root v)).1 (root v)
  end.

Lemma restore_focus_scroll p u : scrollTop (restore_focus p u) = scrollTop u /\ root (restore_focus p u) = root u.
Proof.
  unfold restore_focus. destruct (if messageFocused p then _ else _) as [i|]; [|done].
  destruct (fields u !! i); [|done]. destruct (f_disabled _); [done|].
  destruct (attached i (root u)), (selectionStart p), (selectionEnd p); done.
Qed.

Lemma render_scroll u :
  is_Some (state u) -> transcript_of (render b u) <> None -> scrollTop (render b u) = kept_scroll u (render b u).
Proof.
  intros [st Hst]. unfold render. rewrite Hst. destruct (announceIncomingOffers_quiet u).
  set (v := announceIncomingOffers u) in *. unfold restoreRenderPosition.
  destruct (restore_focus_scroll (captureRenderPosition b v)
    (restore_scroll b (captureRenderPosition b v) (draw b v))) as [H1 H2].
  unfold transcript_of at 1, kept_scroll. rewrite H1, H2.
  assert (root (restore_scroll b (captureRenderPosition b v) (draw b v)) = root (draw b v)) as Hr.
  { unfold restore_scroll. by destruct (transcript_of _). }
  rewrite Hr. intros Ht. unfold restore_scroll. unfold transcript_of at 1.
  destruct (querySelector (js "transcript") (root (draw b v))) as [n|]; [|done]. unfold set_scrollTop. ui_simpl.
  unfold captureRenderPosition, transcript_of. cbn [transcriptNearBottom transcriptScrollTop].
  rewrite q_root, q_scroll. destruct (querySelector _ (root u)); [|done].
  destruct (layout b (root u)) as [sh ch]. by destruct (_ <? 72).
Qed.

Lemma message_field_spec w :
  f_disabled (message_field w) = negb (canUseChat w) /\ f_value (message_field w) = messageDraft w.
Proof.
  unfold message_field. rewrite f_value_set_value. split; [|done].
  match goal with |- f_disabled (set_value ?t ?f) = _ => by destruct (set_value_rest t f) as (_ & _ & _ & ->) end.
Qed.

(** The field that a drawn chat page has. *)
Lemma draw_message w :
  ui_shape w -> isPreChat w = false ->
  let n := length (fields w) in
  messageInput (draw b w) = Some n /\ fields (draw b w) !! n = Some (message_field w) /\
  attached n (root (draw b w)) = true.
Proof.
  intros Hw Hp n. destruct (draw_exact b w Hw) as [[Hr _] _].
  assert (messageInput (draw b w) = Some n /\ fields (draw b w) = fields w ++ [message_field w]) as [E1 E2].
  { unfold draw, make_field, n. change (isPreChat (clear_root w)) with (isPreChat w). rewrite Hp. by split. }
  split_and!; [done|by rewrite E2, list_lookup_middle|]. rewrite Hr. cbn [attached existsb].
  rewrite attached_shell, orb_false_r. apply bool_decide_eq_true.
  rewrite (isPreChat_ext w (draw b w)), Hp; [done|]. apply (draw_redraws b w).
Qed.

(** A redraw keeps the writer in place: the field with the focus is replaced
    by a new one with the same text, the focus and the same selection, and
    the transcript stays at its end if it was near it and else where it
    was. *)
Theorem position_kept u i f :
  ui_ok b u -> isPreChat u = false -> canUseChat u = true ->
  activeElement u = Some i -> messageInput u = Some i -> fields u !! i = Some f ->
  f_value f = messageDraft u ->
  0 <= (f_selection f).1 <= (f_selection f).2 -> (f_selection f).2 <= zlength (f_value f) ->
  let v := render b u in
  exists j g, j <> i /\ messageInput v = Some j /\ attached j (root v) = true /\ activeElement v = Some j /\
    fields v !! j = Some g /\ f_value g = f_value f /\ f_selection g = f_selection f /\
    (transcript_of v <> None -> scrollTop v = kept_scroll u v).
Proof.
  intros Hu Hp Hc Ha Hm Hf Hv Hs Hl v. pose proof (uo_state _ _ Hu) as [st Hst].
  set (w := announceIncomingOffers u). pose proof (announceIncomingOffers_quiet u : quiet u w) as Hq.
  set (p := captureRenderPosition b w). set (d := draw b w). set (n := length (fields u)).
  assert (v = restore_focus p (restore_scroll b p d)) as Ev by (unfold v, render; by rewrite Hst).
  assert (i < n)%nat as Hin by (apply (uo_bound _ _ Hu); by left).
  assert (messageFocused p = true /\ selectionStart p = Some (f_selection f).1 /\
          selectionEnd p = Some (f_selection f).2) as (P1 & P2 & P3).
  { unfold p, captureRenderPosition, focused. cbn [messageFocused selectionStart selectionEnd]. destruct Hq.
    rewrite q_active, q_message, q_fields, Ha, Hm, Nat.eqb_refl. cbn [orb]. by cbn; rewrite Hf. }
  assert (isPreChat w = false) as Hpw by (rewrite <- Hp; apply isPreChat_ext, Hq).
  assert (messageInput d = Some n /\ fields d !! n = Some (message_field w) /\ attached n (root d) = true) as (D1 & D2 & D3).
  { replace n with (length (fields w)) by (unfold n; by rewrite (q_fields _ _ Hq)).
    apply draw_message; [|done]. eapply quiet_shape; [exact Hq|by apply (ui_ok_shape b)]. }
  assert (f_disabled (message_field w) = false /\ f_value (message_field w) = f_value f) as [M1 M2].
  { destruct (message_field_spec w) as [-> ->]. destruct Hq. unfold canUseChat, st_security in *.
    by rewrite q_state, Hc, q_messageDraft. }
  set (s := restore_scroll b p d).
  assert (messageInput s = Some n /\ fields s = fields d /\ root s = root d) as (S1 & S2 & S3).
  { unfold s, restore_scroll. by destruct (transcript_of d). }
  assert (v = update_field n (setSelectionRange (f_selection f).1 (f_selection f).2) (s <| activeElement := Some n |>))
    as Ev'.
  { rewrite Ev. unfold restore_focus. fold s. by rewrite P1, S1, S2, D2, M1, S3, D3, P2, P3. }
  exists n, (setSelectionRange (f_selection f).1 (f_selection f).2 (message_field w)).
  split_and!; [lia|by rewrite Ev'|by rewrite Ev'; ui_simpl; unfold update_field; ui_simpl; rewrite S3|by rewrite Ev'| |done| |].
  - rewrite Ev'. unfold update_field. ui_simpl. by rewrite S2, list_lookup_alter_eq, D2.
  - unfold setSelectionRange. cbn [update f_selection]. rewrite M2. destruct (f_selection f) as [x y]. cbn in *.
    f_equal; lia.
  - intros Ht. apply render_scroll; [by eexists|exact Ht].
Qed.
End Position.

(** ** The safety phrase *)

Definition proper_word (w : jstr) : Prop := truthy w = true /\ Forall (fun c => c <> 32) w.

Lemma no_space_Forall w : no_space w = true -> Forall (fun c => c <> 32) w.
Proof.
  induction w as [|c w IH]; [constructor|]. cbn. intros [H1 H2]%andb_prop. constructor; [|by apply IH].
  by apply negb_true_iff, Z.eqb_neq in H1.
Qed.

Lemma word_proper c : proper_word (word c).
Proof.
  split; [|apply no_space_Forall, word_spaceless]. pose proof (word_lookup c) as H.
  apply list_elem_of_lookup_2, list_elem_of_In in H.
  assert (forallb truthy WORDS = true) as Ht by (by vm_compute).
  by apply (proj1 (forallb_forall _ _) Ht).
Qed.

Lemma words_of_phrase ws :
  ws <> [] -> Forall proper_word ws -> filter_truthy (split 32 (join (js " ") ws)) = ws.
Proof.
  intros Hne Hw. unfold filter_truthy. change (js " ") with [32]. rewrite split_join; [|done|].
  - apply filter_all. eapply Forall_impl; [exact Hw|]. by intros w [].
  - eapply Forall_impl; [exact Hw|]. by intros w [].
Qed.

(** The lines of a phrase of at least two words, read one after the other. *)
Lemma phrase_lines_join ws :
  (2 <= length ws)%nat -> Forall proper_word ws ->
  let half := Z.to_nat (ceil_div (zlength ws) 2) in
  phrase_lines (join (js " ") ws) = [join (js " ") (take half ws); join (js " ") (drop half ws)] /\
  join (js " ") (take half ws) ++ js " " ++ join (js " ") (drop half ws) = join (js " ") ws.
Proof.
  intros Hl Hw half. pose proof (ceil_div_spec (zlength ws) 2 ltac:(lia)) as Hc. unfold zlength in Hc.
  assert (0 < half < length ws)%nat as Hh by (unfold half, zlength; lia).
  unfold phrase_lines. rewrite words_of_phrase; [|by destruct ws; cbn in Hl; [lia|]|done]. fold half. split.
  - by destruct (Nat.ltb_spec half (length ws)); [|lia].
  - rewrite <- join_app, take_drop; [done|..]; intros He; apply (f_equal length) in He; cbn in He;
      rewrite ?length_take, ?length_drop in He; lia.
Qed.

Lemma split_length ws :
  ws <> [] -> Forall proper_word ws -> length (split 32 (join (js " ") ws)) = length ws.
Proof.
  intros Hne Hw. change (js " ") with [32]. rewrite split_join; [done|done|].
  eapply Forall_impl; [exact Hw|]. by intros w [].
Qed.

(** C32: the sheet for verifying shows the safety phrase whole: two lines of
    four words which, read one after the other, are the phrase.  Two sheets
    that look the same therefore show the same phrase. *)
Theorem phrase_shown u d :
  8 <= zlength d -> st_safetyPhrase u = phrase_of_digest d ->
  exists x y,
    querySelector (js "safety-phrase") (renderVerifyBody u) =
      Some (div "safety-phrase" [text_el Div x; text_el Div y]) /\
    x ++ js " " ++ y = phrase_of_digest d /\ length (split 32 x) = 4%nat /\ length (split 32 y) = 4%nat.
Proof.
  intros Hd Hs. change (phrase_of_digest d) with (join (js " ") (word <$> take 8 d)) in *.
  set (ws := word <$> take 8 d) in *.
  assert (length ws = 8)%nat as Hl by (unfold ws; rewrite length_fmap, length_take; unfold zlength in Hd; lia).
  assert (Forall proper_word ws) as Hw by (unfold ws; apply Forall_fmap, Forall_true; intros; apply word_proper).
  destruct (phrase_lines_join ws ltac:(lia) Hw) as [Hlines Hj].
  assert (Z.to_nat (ceil_div (zlength ws) 2) = 4%nat) as Hh by (unfold zlength; by rewrite Hl).
  rewrite Hh in *. exists (join (js " ") (take 4 ws)), (join (js " ") (drop 4 ws)). split_and!; [|done|..].
  - unfold renderVerifyBody. rewrite Hs, Hlines. reflexivity.
  - rewrite split_length, length_take; [by rewrite Hl| |by apply Forall_take].
    intros He. apply (f_equal length) in He. rewrite length_take, Hl in He. done.
  - rewrite split_length, length_drop; [by rewrite Hl| |by apply Forall_drop].
    intros He. apply (f_equal length) in He. rewrite length_drop, Hl in He. done.
Qed.

(** ** Percentages *)

(** A number is a fraction unless it is infinite or not a number. *)
Lemma fraction_nan x f : double_fraction x = Some f -> is_nan x = false.
Proof. by destruct x. Qed.

Lemma double_min_upper n r x p q :
  double_fraction (double_of_Z n) = Some (n * r, r) ->
  double_fraction (double_min_Z n x) = Some (p, q) -> p <= n * q.
Proof.
  intros Hn. unfold double_min_Z, double_lt_Z. destruct (double_fraction x) as [[p' q']|] eqn:Hx.
  - rewrite (fraction_nan _ _ Hx). destruct (Z.ltb_spec p' (n * q')); [rewrite Hx|rewrite Hn];
      intros H'; apply (inj Some) in H'; simplify_eq; lia.
  - destruct x as [| [] | |]; cbn [is_nan]; try done. rewrite Hn. intros H'. apply (inj Some) in H'. simplify_eq. lia.
Qed.

Lemma double_max_bounds n r hi x p q :
  n <= hi -> 0 < r -> double_fraction (double_of_Z n) = Some (n * r, r) ->
  (forall p q, double_fraction x = Some (p, q) -> p <= hi * q) ->
  double_fraction (double_max_Z n x) = Some (p, q) -> n * q <= p <= hi * q.
Proof.
  intros Hle Hr Hn Hx. unfold double_max_Z, Z_lt_double. destruct (double_fraction x) as [[p' q']|] eqn:Ex.
  - rewrite (fraction_nan _ _ Ex). specialize (Hx p' q' eq_refl).
    destruct (Z.ltb_spec (n * q') p'); [rewrite Ex|rewrite Hn]; intros H'; apply (inj Some) in H'; simplify_eq; nia.
  - destruct x as [| [] | |]; cbn [is_nan negb]; try done. rewrite Hn. intros H'. apply (inj Some) in H'. simplify_eq. nia.
Qed.

(** The percentage that is printed is between 0 and 100. *)
Theorem percent_bounded progress n : double_round (progressPercent progress) = Some n -> 0 <= n <= 100.
Proof.
  unfold double_round. destruct (double_fraction (progressPercent progress)) as [[p q]|] eqn:Hf; [|done].
  pose proof (double_fraction_pos _ _ _ Hf) as Hq.
  assert (0 * q <= p <= 100 * q) as Hb.
  { unfold progressPercent in Hf. revert Hf. apply (double_max_bounds 0 1 100); [lia|lia|reflexivity|].
    intros p' q'. apply (double_min_upper 100 (2 ^ 46)). reflexivity. }
  intros H. apply (inj Some) in H as <-. split.
  - apply Z.div_pos; lia.
  - assert ((2 * p + q) / (2 * q) < 101) by (apply Z.div_lt_upper_bound; lia). lia.
Qed.

Example percent_thirds : formatProgress <$> [(0, 3); (1, 3); (2, 3); (3, 3); (0, 0)] =
  [js "0%"; js "33%"; js "67%"; js "100%"; js "0%"].
Proof. reflexivity. Qed.

(** A product that is below the middle in binary is rounded down. *)
Example percent_of_double : formatProgress (29, 200) = js "14%".
Proof. reflexivity. Qed.

(** ** Leaving a chat *)

Section Leaving.
Context (b : Browser).

Lemma surfaceNotice_local n u :
  messageDraft (surfaceNotice n u) = messageDraft u /\ roomDraft (surfaceNotice n u) = roomDraft u /\
  announcedIncomingOffers (surfaceNotice n u) = announcedIncomingOffers u /\
  state (surfaceNotice n u) = state u /\ activeSheet (surfaceNotice n u) = activeSheet u /\
  menuOpen (surfaceNotice n u) = menuOpen u /\ codeCopied (surfaceNotice n u) = codeCopied u /\
  lastError (surfaceNotice n u) = lastError u.
Proof.
  unfold surfaceNotice. destruct n as [[|c n]|]; try done. case_bool_decide; [done|].
  destruct (noticeToastTone (c :: n)) as [tone|]; [|done]. unfold setToast. ui_simpl. by destruct (toastTimer u).
Qed.

Lemma scheduleRender_local u :
  let v := scheduleRender u in
  messageDraft v = messageDraft u /\ roomDraft v = roomDraft u /\
  announcedIncomingOffers v = announcedIncomingOffers u /\
  state v = state u /\ activeSheet v = activeSheet u /\ menuOpen v = menuOpen u /\ codeCopied v = codeCopied u /\
  lastError v = lastError u.
Proof. unfold scheduleRender. by destruct (renderScheduled u). Qed.

(** Apart from the state, only [syncLocalState] changes these. *)
Lemma on_state_local next u :
  let v := on_state next u in
  let w := syncLocalState (state u) next u in
  messageDraft v = messageDraft w /\ roomDraft v = roomDraft w /\
  announcedIncomingOffers v = announcedIncomingOffers w /\
  state v = Some next /\ activeSheet v = activeSheet w /\ menuOpen v = menuOpen w /\ codeCopied v = codeCopied w /\
  lastError v = lastError w.
Proof.
  cbn zeta. unfold on_state. set (w := (syncLocalState (state u) next u) <| state := Some next |>).
  destruct (scheduleRender_local (surfaceNotice (notice next) w)) as (-> & -> & -> & -> & -> & -> & -> & ->).
  by destruct (surfaceNotice_local (notice next) w) as (-> & -> & -> & -> & -> & -> & -> & ->).
Qed.

(** The start screen shows the state, the sheet and the last error. *)
Lemma shell_start x y r t :
  isPreChat x = true -> state x = state y -> activeSheet x = activeSheet y -> lastError x = lastError y ->
  shell b (x <| roomInput := r |> <| toast := t |>) = shell b (y <| roomInput := r |> <| toast := t |>).
Proof.
  intros Hp Hs Ha Hl. assert (isPreChat y = true) as Hp' by (by rewrite <- (isPreChat_ext y x Hs)).
  assert (forall z, isPreChat z = true -> shell b (z <| roomInput := r |> <| toast := t |>) =
    append (el Main (cls "app-shell") None)
      (start_page (z <| roomInput := r |>) :: renderToast (z <| toast := t |>))) as Hsh.
  { intros z Hz. unfold shell. by change (isPreChat (z <| roomInput := r |> <| toast := t |>)) with (isPreChat z); rewrite Hz. }
  rewrite !Hsh by done. destruct x, y. ui_simpl. by subst.
Qed.

(** When a chat is left nothing of it stays in the interface: the drafts, the
    open sheet, the menu, the last error and the memory of announced offers
    are reset, and the page is the one that a new interface draws for the
    same state, but for a notice. *)
Theorem leaving_forgets old next u :
  state u = Some old -> leftChat old next = true ->
  let v := on_state next u in
  messageDraft v = [] /\ roomDraft v = [] /\ announcedIncomingOffers v = [] /\ activeSheet v = None /\
  menuOpen v = false /\
  forall r t, shell b (v <| roomInput := r |> <| toast := t |>) =
              shell b ((constructor b next) <| roomInput := r |> <| toast := t |>).
Proof.
  intros Hs Hl v. destruct (on_state_local next u) as (V1 & V2 & V3 & V4 & V5 & V6 & _ & V8). fold v in V1, V2, V3, V4, V5, V6, V8.
  assert (forall f : AppView -> Prop, f ((forget_chat u) <| roomDraft := [] |>) ->
    f (syncLocalState (state u) next u)) as Hw.
  { intros f Hf. unfold syncLocalState. rewrite Hs, Hl, orb_true_r. by destruct (phase next). }
  rewrite V1, V2, V3, V5, V6. split_and!; try (by pattern (syncLocalState (state u) next u); apply Hw).
  intros r t. apply shell_start.
  - unfold isPreChat, st_phase. rewrite V4. cbn. unfold leftChat in Hl. apply andb_prop in Hl as [_ Hl].
    by destruct (phase next).
  - rewrite V4. unfold constructor. by destruct (on_state_local next (newAppView b)) as (_ & _ & _ & -> & _).
  - rewrite V5. unfold constructor. destruct (on_state_local next (newAppView b)) as (_ & _ & _ & _ & -> & _).
    pattern (syncLocalState (state u) next u). apply Hw. unfold syncLocalState. by destruct (phase next).
  - rewrite V8. unfold constructor. destruct (on_state_local next (newAppView b)) as (_ & _ & _ & _ & _ & _ & _ & ->).
    pattern (syncLocalState (state u) next u). apply Hw. unfold syncLocalState. by destruct (phase next).
Qed.
End Leaving.

(** ** Announcing offers *)

Definition offer_notice (t : TransferView) : jstr * ToastTone := (js "Incoming file: " ++ tv_name t, tone_info).

Definition is_incoming_offer (t : TransferView) : bool := is_receive t && bool_decide (tv_state t = Transfer.offered).

Definition new_offers (u : AppView) (l : list TransferView) : list TransferView :=
  filter (fun t => is_new_offer u t = true) l.

Lemma setToast_log message tone u :
  toasts (setToast message tone false u) = toasts u ++ [(message, tone)] /\
  announcedIncomingOffers (setToast message tone false u) = announcedIncomingOffers u.
Proof. unfold setToast. ui_simpl. by destruct (toastTimer u). Qed.

Lemma announce_log u t :
  toasts (announce u t) = toasts u ++ (offer_notice <$> new_offers u [t]) /\
  announcedIncomingOffers (announce u t) = announcedIncomingOffers u ++ ids (new_offers u [t]).
Proof.
  unfold announce, new_offers. destruct (is_new_offer u t) eqn:Hn.
  - rewrite filter_cons_True, filter_nil by done. destruct (setToast_log (js "Incoming file: " ++ tv_name t) tone_info
      (u <| announcedIncomingOffers := set_add (tv_fileId t) (announcedIncomingOffers u) |>)) as [-> ->].
    ui_simpl. split; [done|]. unfold is_new_offer in Hn. apply andb_prop in Hn as [_ Hn]. apply negb_true_iff in Hn.
    unfold set_add. by rewrite Hn.
  - rewrite filter_cons_False, filter_nil by (by rewrite Hn). by rewrite !app_nil_r.
Qed.

(** Announcing one file leaves the others as new as they were. *)
Lemma is_new_offer_announce u t x : tv_fileId x <> tv_fileId t -> is_new_offer (announce u t) x = is_new_offer u x.
Proof.
  intros Hne. unfold is_new_offer at 1 2. do 2 f_equal. destruct (announce_log u t) as [_ ->].
  unfold set_has. apply bool_decide_ext. rewrite elem_of_app. split; [|tauto]. intros [?|Hi]; [done|].
  unfold ids in Hi. apply list_elem_of_fmap in Hi as (y & Hy & Hi). apply list_elem_of_filter in Hi as [_ Hi].
  apply list_elem_of_singleton in Hi as ->. congruence.
Qed.

Lemma new_offers_announce u t l : tv_fileId t ∉ ids l -> new_offers (announce u t) l = new_offers u l.
Proof.
  unfold new_offers, ids. induction l as [|x l IH]; intros Hn; [done|].
  rewrite fmap_cons, not_elem_of_cons in Hn. destruct Hn as [Hx Hn].
  rewrite !filter_cons, is_new_offer_announce by congruence. by rewrite IH.
Qed.

Lemma announce_all_log l u :
  NoDup (ids l) ->
  toasts (foldl announce u l) = toasts u ++ (offer_notice <$> new_offers u l) /\
  announcedIncomingOffers (foldl announce u l) = announcedIncomingOffers u ++ ids (new_offers u l).
Proof.
  revert u. induction l as [|t l IH]; intros u Hn; [by rewrite !app_nil_r|].
  apply NoDup_cons in Hn as [Ht Hn]. cbn [foldl]. destruct (IH (announce u t) Hn) as [-> ->].
  destruct (announce_log u t) as [-> ->]. rewrite new_offers_announce by done.
  assert (new_offers u (t :: l) = new_offers u [t] ++ new_offers u l) as ->.
  { unfold new_offers. rewrite !filter_cons, filter_nil. by case_decide. }
  unfold ids. by rewrite !fmap_app, !app_assoc.
Qed.

(** Drawing the page announces each incoming offer that was not announced
    before, once and in the order of the list, and nothing else; afterwards
    none is left to announce. *)
Theorem offers_announced_once u st :
  state u = Some st -> NoDup (ids (transfers st)) ->
  let v := announceIncomingOffers u in
  toasts v = toasts u ++ (offer_notice <$> new_offers u (transfers st)) /\
  (forall t, t ∈ transfers st -> is_incoming_offer t = true -> tv_fileId t ∈ announcedIncomingOffers v) /\
  announceIncomingOffers v = v.
Proof.
  intros Hs Hn v. assert (v = foldl announce u (transfers st)) as Ev by (unfold v, announceIncomingOffers; by rewrite Hs).
  destruct (announce_all_log (transfers st) u Hn) as [Ht Ha]. rewrite <- Ev in Ht, Ha.
  assert (forall t, t ∈ transfers st -> is_incoming_offer t = true -> tv_fileId t ∈ announcedIncomingOffers v) as Hall.
  { intros t Hi Ho. rewrite Ha. apply elem_of_app. destruct (set_has (tv_fileId t) (announcedIncomingOffers u)) eqn:E.
    - left. by apply set_has_spec.
    - right. apply list_elem_of_fmap. exists t. split; [done|]. apply list_elem_of_filter. split; [|done].
      unfold is_new_offer, is_incoming_offer in *. by rewrite Ho, E. }
  split_and!; [done|done|].
  unfold announceIncomingOffers. rewrite (q_state _ _ (announceIncomingOffers_quiet u) : state v = state u), Hs.
  assert (forall l, (forall t, t ∈ l -> t ∈ transfers st) -> foldl announce v l = v) as Hf; [|by apply Hf].
  intros l. induction l as [|t l IH]; intros Hl; [done|]. cbn [foldl].
  assert (announce v t = v) as ->; [|apply IH; intros x Hx; apply Hl; by right].
  unfold announce. destruct (is_new_offer v t) eqn:E; [|done]. exfalso.
  unfold is_new_offer in E. apply andb_prop in E as [Ho E]. apply negb_true_iff in E.
  assert (set_has (tv_fileId t) (announcedIncomingOffers v) = true) as E'; [|congruence].
  apply set_has_spec, Hall; [apply Hl; by left|exact Ho].
Qed.

(** ** A menu that stays open *)

(** Whether the page shows the menu open. *)
Definition menu_shown (page : Node) : bool := match querySelector (js "open") page with Some _ => true | None => false end.

(** The search within the children of an element. *)
Fixpoint search (c : jstr) (l : list Node) : option Node :=
  match l with
  | [] => None
  | n :: l => match querySelector c n with Some r => Some r | None => search c l end
  end.

Lemma querySelector_Element c a l :
  querySelector c (Element a l) = if has_class c a then Some (Element a l) else search c l.
Proof.
  cbn [querySelector]. destruct (has_class c a); [done|]. induction l as [|n l IH]; [done|].
  cbn [search]. destruct (querySelector c n); [done|exact IH].
Qed.

Lemma search_in c n l : n ∈ l -> is_Some (querySelector c n) -> is_Some (search c l).
Proof.
  intros Hn [r Hr]. induction l as [|x l IH]; [by apply elem_of_nil in Hn|]. cbn [search].
  apply elem_of_cons in Hn as [<-|Hn]; [rewrite Hr; by eexists|].
  destruct (querySelector c x); [by eexists|by apply IH].
Qed.

Lemma querySelector_child c n m :
  (exists a l, n = Element a l /\ m ∈ l) -> is_Some (querySelector c m) -> is_Some (querySelector c n).
Proof.
  intros (a & l & -> & Hm) Hq. rewrite querySelector_Element. destruct (has_class c a); [by eexists|].
  by eapply search_in.
Qed.

Lemma append_el_child t c kids m : m ∈ kids -> exists a l, append (el t c None) kids = Element a l /\ m ∈ l.
Proof. intros Hm. destruct (el_shape t c None) as (a & -> & _). by exists a, kids. Qed.

Lemma header_menu u : menuOpen u = true -> is_Some (querySelector (js "open") (renderHeader u)).
Proof.
  intros Hm. unfold renderHeader. rewrite Hm.
  eapply querySelector_child; [apply append_el_child; do 3 right; by left|].
  unfold append, el. rewrite querySelector_Element. vm_compute. by eexists.
Qed.

Section Menu.
Context (b : Browser).

Lemma shell_menu_shown u :
  isPreChat u = false -> menuOpen u = true -> menu_shown (Element (createElement Div) [shell b u]) = true.
Proof.
  intros Hp Hm. unfold menu_shown.
  assert (is_Some (querySelector (js "open") (Element (createElement Div) [shell b u]))) as [r ->]; [|done].
  eapply querySelector_child; [eexists _, _; split; [done|by left]|]. unfold shell. rewrite Hp.
  eapply querySelector_child; [apply append_el_child; by left|]. unfold chat_page.
  eapply querySelector_child; [apply append_el_child; by left|]. by apply header_menu.
Qed.

(** C40: sharing through the browser leaves the menu open.  With the menu open,
    choosing "Share room" closes it only in the state: when the share has
    succeeded, no promise, timer or frame of it is left that would draw the
    page, the page still shows the menu, and the button that toggles it
    leaves it open. *)
Theorem share_leaves_menu_open st es u :
  canShare b = true -> run b es (constructor b st) = Some u -> renderScheduled u = false ->
  isPreChat u = false -> menuOpen u = true ->
  exists v w, run b [Act (OnMenu OnShare); Settles (length (pending u)) None] u = Some v /\
    menuOpen v = false /\ renderScheduled v = false /\ timers v = timers u /\ pending v = pending u /\
    menu_shown (root v) = true /\
    step b (Act OnMore) v = Some w /\ menuOpen w = true /\ menu_shown (root w) = true.
Proof.
  intros Hsh Hrun Hr Hp Hm. apply ui_run_ok in Hrun; [|apply constructor_ok].
  pose proof (uo_state _ _ Hrun) as [s Hs].
  assert (~ before_chat s) as Hb by (intros H%(isPreChat_spec u s Hs); congruence).
  assert (menu_shown (root u) = true) as Hshow.
  { destruct (uo_page _ _ Hrun) as [?|[(m & -> & Hmo) _]]; [congruence|].
    specialize (Hmo Hm) as ->. by apply shell_menu_shown. }
  set (text := js "Join my OnlyTwo room: " ++ st_roomCode u ++ [10] ++
    location_href (roomLink (AppView.location b) (st_roomCode u))).
  set (x := (u <| menuOpen := false |>) <| pending := pending u ++ [PShare text] |>).
  assert (step b (Act (OnMenu OnShare)) u = Some x) as E1.
  { cbn [step]. rewrite bool_decide_eq_true_2.
    - cbn [handle]. unfold shareRoom. by rewrite Hsh.
    - apply (current_actions b u _ Hrun Hr). unfold permitted. rewrite Hs. right. split; [done|]. cbn. tauto. }
  set (v := x <| pending := pending u |>).
  assert (step b (Settles (length (pending u)) None) x = Some v) as E2.
  { cbn [step]. assert (pending x !! length (pending u) = Some (PShare text)) as -> by (by apply list_lookup_middle).
    assert (delete (length (pending u)) (pending x) = pending u) as Hd; [|unfold mbind, option_bind, settled; by rewrite Hd].
    unfold x. ui_simpl. by rewrite delete_middle, app_nil_r. }
  assert (ui_ok b v) as Hv by (eapply ui_step_ok, (ui_step_ok b _ _ _ E1); done).
  assert (OnMore ∈ actions (root v)) as Hmore.
  { apply (current_actions b v _ Hv Hr). unfold permitted. change (state v) with (state u). rewrite Hs. by right. }
  exists v, (render b (v <| menuOpen := true |>)). split_and!; try done.
  - cbn [run]. by rewrite E1, E2.
  - cbn [step]. by rewrite bool_decide_eq_true_2.
  - by rewrite (rd_menu _ _ (render_redraws b (v <| menuOpen := true |>))).
  - assert (ui_shape (v <| menuOpen := true |>)) as Hshape by (by destruct (ui_ok_shape b v Hv)).
    destruct (render_exact b _ Hshape) as [[-> _] _]. apply shell_menu_shown.
    + rewrite (isPreChat_ext u); [done|]. by rewrite (rd_state _ _ (render_redraws b _)).
    + by rewrite (rd_menu _ _ (render_redraws b (v <| menuOpen := true |>))).
Qed.
End Menu.

(** ** Witnesses *)

Lemma share_leaves_menu_open_witness :
  exists u v w, run demo_browser [Frame; Act OnMore] (constructor demo_browser demo_chat) = Some u /\
    run demo_browser [Act (OnMenu OnShare); Settles (length (pending u)) None] u = Some v /\
    menuOpen v = false /\ menu_shown (root v) = true /\
    step demo_browser (Act OnMore) v = Some w /\ menu_shown (root w) = true.
Proof.
  destruct (ui_reached [Frame; Act OnMore] (fun u => negb (renderScheduled u) && negb (isPreChat u) && menuOpen u))
    as (u & Hu & Hr); [vm_compute; reflexivity|].
  apply andb_prop in Hr as [[Hr Hp]%andb_prop Hm]. apply negb_true_iff in Hr, Hp.
  destruct (share_leaves_menu_open demo_browser demo_chat _ u eq_refl Hu Hr Hp Hm)
    as (v & w & H1 & H2 & _ & _ & _ & H3 & H4 & _ & H5).
  exists u, v, w. split_and!; [exact Hu|exact H1|exact H2|exact H3|exact H4|exact H5].
Defined.

Lemma phrase_shown_witness :
  exists x y,
    querySelector (js "safety-phrase") (renderVerifyBody (constructor demo_browser
      (demo_chat <| safetyPhrase := Some (phrase_of_digest (be 8 0x0102030405060708)) |>))) =
      Some (div "safety-phrase" [text_el Div x; text_el Div y]) /\
    x ++ js " " ++ y = phrase_of_digest (be 8 0x0102030405060708).
Proof.
  destruct (phrase_shown (constructor demo_browser
      (demo_chat <| safetyPhrase := Some (phrase_of_digest (be 8 0x0102030405060708)) |>))
    (be 8 0x0102030405060708)) as (x & y & H1 & H2 & _); [vm_compute; discriminate|vm_compute; reflexivity|].
  exists x, y. split; [exact H1|exact H2].
Defined.

(** The caret is inside a word when a packet from the peer makes the page
    draw again. *)
Lemma position_kept_witness :
  exists u j g, run demo_browser [Frame; Types 0 (js "hello") 2; Focuses (Some 0%nat)]
      (constructor demo_browser demo_chat) = Some u /\
    activeElement (render demo_browser u) = Some j /\ j <> 0%nat /\
    fields (render demo_browser u) !! j = Some g /\ f_value g = js "hello" /\ f_selection g = (2, 2).
Proof.
  set (es := [Frame; Types 0 (js "hello") 2; Focuses (Some 0%nat)]).
  destruct (ui_reached es (fun u => negb (isPreChat u) && canUseChat u && bool_decide (activeElement u = Some 0%nat) &&
    bool_decide (messageInput u = Some 0%nat) && bool_decide (messageDraft u = js "hello") &&
    bool_decide (f_value <$> fields u !! 0%nat = Some (js "hello")) &&
    bool_decide (f_selection <$> fields u !! 0%nat = Some (2, 2)))) as (u & Hu & Hr); [vm_compute; reflexivity|].
  repeat (apply andb_prop in Hr as [Hr ?]). bool_facts.
  destruct (fields u !! 0%nat) as [f|] eqn:Hf; [|discriminate].
  apply (inj Some) in H as Hsel. apply (inj Some) in H0 as Hval.
  destruct (position_kept demo_browser u 0 f) as (j & g & Hj & _ & _ & Ha & Hg & Hv & Hs & _);
    try assumption; try (rewrite Hsel; cbn; lia).
  - apply (ui_run_ok demo_browser es (constructor demo_browser demo_chat)); [exact Hu|apply constructor_ok].
  - congruence.
  - rewrite Hsel, Hval. vm_compute. discriminate.
  - exists u, j, g. split_and!; [exact Hu|exact Ha|exact Hj|exact Hg|congruence|congruence].
Defined.
