(* ===== verification/SessionSync.v ===== *)
(** * Every change of the view is announced

    The controller tells its listeners about its state with [emit].  Here:
    after every step of the controller the last snapshot it gave out is its
    state, so a listener that keeps the last snapshot never falls behind. *)
From S2P Require Import Prelude JsMap Bytes Profiles Envelope RelayControl Scheduler Messages Json.
From S2P Require Import Negotiation Reliable FileProtocol FileReceiver FileSender Audio Rooms Connection.
From S2P Require Import SessionView Voice Session.

(** ** Snapshots *)

Definition snapshot_of (o : ViewOutput) : option SessionViewState :=
  match o with VSnapshot s => Some s | _ => None end.

(** The snapshots of a stretch of outputs. *)
Definition snapshots (l : list ViewOutput) : list SessionViewState := omap snapshot_of l.

(** What a listener holds after a stretch of outputs. *)
Definition latest (old : SessionViewState) (l : list ViewOutput) : SessionViewState :=
  default old (last (snapshots l)).

(** The outputs grow, and the state is the last snapshot, or the old state
    if there was none. *)
Definition emits (v v' : View) : Prop :=
  exists l, outs v' = outs v ++ l /\ state v' = latest (state v) l.

Lemma snapshots_app l k : snapshots (l ++ k) = snapshots l ++ snapshots k.
Proof. apply omap_app. Qed.

Lemma latest_app old l k : latest old (l ++ k) = latest (latest old l) k.
Proof.
  unfold latest. rewrite snapshots_app. destruct (snapshots k) as [|s k'] using rev_ind; [by rewrite app_nil_r|].
  by rewrite app_assoc, !last_snoc.
Qed.

Lemma emits_refl v : emits v v.
Proof. exists []. by rewrite app_nil_r. Qed.

Lemma emits_trans u v w : emits u v -> emits v w -> emits u w.
Proof.
  intros (l & Ho & Hs) (k & Ho' & Hs'). exists (l ++ k). by rewrite latest_app, <- Hs, Ho', Ho, app_assoc.
Qed.

#[local] Instance emits_preorder : PreOrder emits.
Proof. split; [exact emits_refl|exact emits_trans]. Qed.

(** Whatever was done to the state, [emit] announces the result. *)
Lemma emits_emit v v' :
  (exists l, outs v' = outs v ++ l) -> emits v (emit v').
Proof.
  intros (l & Ho). exists (l ++ [VSnapshot (state v')]). unfold emit, vout. cbn [update outs state].
  rewrite Ho, app_assoc. split; [done|]. unfold latest. rewrite snapshots_app.
  change (snapshots [VSnapshot (state v')]) with [state v']. by rewrite last_snoc.
Qed.

Lemma emits_silent v v' : outs v' = outs v -> state v' = state v -> emits v v'.
Proof. intros Ho Hs. exists []. by rewrite app_nil_r. Qed.

Lemma emits_out o v : snapshot_of o = None -> emits v (vout o v).
Proof. intros Ho. exists [o]. split; [done|]. unfold latest, snapshots. cbn. by rewrite Ho. Qed.

(** ** The methods on the view *)

Create HintDb view_emits.

Definition only_grows (v v' : View) : Prop := exists l, outs v' = outs v ++ l.

#[local] Instance only_grows_preorder : PreOrder only_grows.
Proof.
  split; [intros v; exists []; by rewrite app_nil_r|].
  intros u v w (l & Hl) (k & Hk). exists (l ++ k). by rewrite Hk, Hl, app_assoc.
Qed.

Lemma grows_same v v' : outs v' = outs v -> only_grows v v'.
Proof. intros H. exists []. by rewrite app_nil_r. Qed.

Lemma emits_patch f v : emits v (patch f v).
Proof. apply emits_emit, grows_same. done. Qed.

Lemma emits_addTranscript item v : emits v (addTranscript item v).
Proof. apply emits_emit, grows_same. done. Qed.

Lemma emits_addSystem id now text sev v : emits v (addSystem id now text sev v).
Proof.
  unfold addSystem. destruct (match last _ with Some _ => _ | None => _ end); [done|]. by apply emits_emit, grows_same.
Qed.

Lemma emits_status id st v : emits v (updateTranscriptStatus id st v).
Proof. by apply emits_emit, grows_same. Qed.

Lemma emits_order fileId v : emits v (ensureTransferOrder fileId v).
Proof. unfold ensureTransferOrder. case_bool_decide; by apply emits_silent. Qed.

Lemma grows_forget v fileId : only_grows v (forget v fileId).
Proof. by exists [VForget fileId]. Qed.

Lemma grows_trim v : only_grows v (trimRetainedTransfers v).
Proof.
  unfold trimRetainedTransfers. generalize (drop (Z.to_nat MAX_RETAINED_TRANSFERS) (retained v)). intros l.
  revert v. induction l as [|x l IH]; intros v; [done|]. cbn [foldl]. etransitivity; [apply grows_forget|apply IH].
Qed.

Lemma emits_upsert id now view v : emits v (upsertTransfer id now view v).
Proof.
  unfold upsertTransfer. apply emits_emit. change (only_grows v (trimRetainedTransfers
    (let v := ensureTransferOrder (tv_fileId view) v in
     let existing := map_set (tv_fileId view) view (by_id (transfers (state v))) in
     let v := set_transfers (omap (fun fileId => map_get fileId existing) (transferOrder v)) v in
     if existsb (is_file_item (tv_fileId view)) (transcript (state v)) then v
     else append {| it_id := id; it_kind := item_file;
                    it_from := match tv_direction view with dir_send => from_me | dir_receive => from_peer end;
                    it_text := tv_name view; it_at := now; it_status := None; it_severity := None;
                    it_fileId := Some (tv_fileId view) |} v))).
  etransitivity; [|apply grows_trim]. apply grows_same. cbn zeta. unfold ensureTransferOrder.
  destruct (existsb _ _); by case_bool_decide.
Qed.

Lemma emits_remove fileId v : emits v (removeFile fileId v).
Proof.
  unfold removeFile. destruct (find _ _) as [t|]; [|done]. destruct (finished (tv_state t)); [|done].
  apply emits_emit, grows_forget.
Qed.

Lemma emits_next v : emits v (startNextQueuedFileIfAllowed v).
Proof.
  unfold startNextQueuedFileIfAllowed. destruct (_ || _); [done|]. destruct (negb _); [done|].
  destruct (find _ _); [|done]. destruct (hasActiveSendingFileExceptQueued _ _); [done|]. by apply emits_out.
Qed.

Lemma emits_sender id now snap v : emits v (updateSender id now snap v).
Proof.
  unfold updateSender. destruct (Sender.ss_status snap); try apply emits_upsert;
    (etransitivity; [apply emits_upsert|apply emits_next]).
Qed.

Lemma emits_receiver id now snap v : emits v (updateReceiver id now snap v).
Proof. apply emits_upsert. Qed.

#[export] Hint Resolve emits_patch emits_addTranscript emits_addSystem emits_status emits_order emits_remove
  emits_next emits_sender emits_receiver : view_emits.

(** ** The controller *)

Definition heard (s s' : Session) : Prop := emits (view s) (view s').

Lemma heard_refl s : heard s s.
Proof. apply emits_refl. Qed.

Lemma heard_same s x y : view y = view x -> heard s x -> heard s y.
Proof. unfold heard. by intros ->. Qed.

Lemma heard_view f s x : (forall v, emits v (f v)) -> heard s x -> heard s (on_view f x).
Proof. intros Hf H. eapply emits_trans; [exact H|apply Hf]. Qed.

Create HintDb heard discriminated.
#[export] Hint Constants Opaque : heard.
#[export] Hint Extern 0 (heard ?x ?y) => constr_eq x y; apply heard_refl : heard.
(** A field other than the view.  Its value is put out of the way, so that
    only the fields are compared. *)
Ltac heard_field s x := cut (heard s x); [generalize x; intros ?; apply heard_same; reflexivity|].
#[export] Hint Extern 1 (heard ?s (@update _ _ _ _ _ ?x)) => heard_field s x : heard.
#[export] Hint Extern 1 (heard ?s (on_view _ ?x)) => apply (heard_view _ s x); [auto with view_emits|] : heard.

Lemma heard_effect e s x : heard s x -> heard s (effect e x).
Proof. by apply heard_same. Qed.
Lemma heard_settle p o s x : heard s x -> heard s (settle p o x).
Proof. by apply heard_same. Qed.
Lemma heard_ret p s x : heard s x -> heard s (ret p x).
Proof. by apply heard_same. Qed.
Lemma heard_ret_bool p b s x : heard s x -> heard s (ret_bool p b x).
Proof. by apply heard_same. Qed.
Lemma heard_throw p e s x : heard s x -> heard s (throw p e x).
Proof. by apply heard_same. Qed.
Lemma heard_await p q k s x : heard s x -> heard s (await p q k x).
Proof. by apply heard_same. Qed.
Lemma heard_call c s x : heard s x -> heard s (call c x).1.
Proof. by apply heard_same. Qed.
Lemma heard_await_call p c k s x : heard s x -> heard s (await_call p c k x).
Proof. by apply heard_same. Qed.
Lemma heard_runCrypto p task k s x : heard s x -> heard s (runCrypto p task k x).
Proof.
  unfold runCrypto, serial_tail. cbn [new_promise]. destruct (last _); by apply heard_same.
Qed.
Lemma heard_run_task task t s x : heard s x -> heard s (run_task task t x).
Proof. destruct task; by apply heard_same. Qed.
Lemma heard_drop r n s x : heard s x -> heard s (record_drop r n x).
Proof. unfold record_drop. destruct (n =? 0); by apply heard_same. Qed.
Lemma heard_flags s x : heard s x -> heard s (clear_handshake_flags x).
Proof. by apply heard_same. Qed.
Lemma heard_forget s x : heard s x -> heard s (forget_keys x).
Proof. by apply heard_same. Qed.
Lemma heard_establishing s x : heard s x -> heard s (end_establishing x).
Proof. by apply heard_same. Qed.
Lemma heard_enqueue t s x : heard s x -> heard s (enqueueInbound t x).
Proof. by apply heard_same. Qed.
Lemma heard_scheduleVoice s x : heard s x -> heard s (scheduleInboundVoice x).
Proof. unfold scheduleInboundVoice. destruct (inboundVoiceScheduled x); by apply heard_same. Qed.
Lemma heard_patch f s x : heard s x -> heard s (patch_view f x).
Proof. apply heard_view, emits_patch. Qed.
Lemma heard_notice t s x : heard s x -> heard s (set_notice t x).
Proof. apply heard_patch. Qed.
Lemma heard_system a t sev s x : heard s x -> heard s (system a t sev x).
Proof. apply heard_view. intros. apply emits_addSystem. Qed.
Lemma heard_remoteVoice b s x : heard s x -> heard s (set_remoteVoice b x).
Proof. apply heard_view. intros. by apply emits_silent. Qed.
Lemma heard_order s x : heard s x -> heard s (clear_order x).
Proof. apply heard_view. intros. by apply emits_silent. Qed.

(** A method that is started, or awaited, is heard like its body. *)
Lemma heard_await_async p m k s x :
  (forall q y, heard s y -> heard s (m q y)) -> heard s x -> heard s (await_async p m k x).
Proof. intros Hm H. unfold await_async. cbn [new_promise]. apply heard_await, Hm. by eapply heard_same. Qed.

Lemma heard_start_async m s x :
  (forall q y, heard s y -> heard s (m q y)) -> heard s x -> heard s (start_async m x).
Proof. intros Hm H. unfold start_async. cbn [new_promise]. apply Hm. by eapply heard_same. Qed.

#[export] Hint Resolve heard_effect heard_settle heard_ret heard_ret_bool heard_throw heard_await heard_call
  heard_await_call heard_runCrypto heard_run_task heard_drop heard_flags heard_forget heard_establishing
  heard_enqueue heard_scheduleVoice
  heard_patch heard_notice heard_system heard_remoteVoice heard_order heard_await_async heard_start_async : heard.

(** The cases of a method, each a composition of the above. *)
Ltac heard := intros; repeat case_match; auto 20 with heard.

Lemma heard_clearOutbound s x : heard s x -> heard s (clearOutboundVoiceQueue x).
Proof. unfold clearOutboundVoiceQueue. heard. Qed.
#[export] Hint Resolve heard_clearOutbound : heard.
Lemma heard_clearVoice s x : heard s x -> heard s (clearVoiceQueues x).
Proof. unfold clearVoiceQueues. heard. Qed.
#[export] Hint Resolve heard_clearVoice : heard.
Lemma heard_filePause s x : heard s x -> heard s (updateFilePauseForVoice x).
Proof. unfold updateFilePauseForVoice. heard. Qed.
#[export] Hint Resolve heard_filePause : heard.
Lemma heard_limits s x : heard s x -> heard s (updateVoiceQueueLimits x).
Proof. unfold updateVoiceQueueLimits. heard. Qed.
#[export] Hint Resolve heard_limits : heard.
Lemma heard_applyProfile p s x : heard s x -> heard s (apply_profile p x).
Proof. unfold apply_profile. heard. Qed.
#[export] Hint Resolve heard_applyProfile : heard.

(** *** Starting, ending and handshakes *)

Lemma heard_setProfile i s x : heard s x -> heard s (setProfile i x).
Proof. unfold setProfile. heard. Qed.
Lemma heard_disconnect silent forgetSlot text s x : heard s x -> heard s (disconnect silent forgetSlot text x).
Proof. unfold disconnect, drop_session, reset_transfers, new_lifecycle. heard. Qed.
#[export] Hint Resolve heard_setProfile heard_disconnect : heard.
Lemma heard_endChat a s x : heard s x -> heard s (endChatForBoth a x).
Proof. unfold endChatForBoth. heard. Qed.
Lemma heard_endTimer s x : heard s x -> heard s (end_timer_fired x).
Proof. unfold end_timer_fired. heard. Qed.
Lemma heard_sendHandshake b p s x : heard s x -> heard s (sendHandshake b p x).
Proof. unfold sendHandshake. heard. Qed.
#[export] Hint Resolve heard_endChat heard_endTimer heard_sendHandshake : heard.
Lemma heard_handshake_resume b key l e pr hash p a s x :
  heard s x -> heard s (sendHandshake_resume b key l e pr hash p a x).
Proof. unfold sendHandshake_resume. heard. Qed.
Lemma heard_initial p s x : heard s x -> heard s (sendInitialHandshake p x).
Proof. unfold sendInitialHandshake. heard. Qed.
Lemma heard_reply p s x : heard s x -> heard s (sendReplyHandshake p x).
Proof. unfold sendReplyHandshake. heard. Qed.
#[export] Hint Resolve heard_handshake_resume heard_initial heard_reply : heard.
Lemma heard_start code ph i p s x : heard s x -> heard s (start code ph i p x).
Proof. unfold start, start_reset. heard. Qed.
Lemma heard_start_configured l code p s x : heard s x -> heard s (start_configured l code p x).
Proof. unfold start_configured. heard. Qed.
Lemma heard_start_identity l code key p s x : heard s x -> heard s (start_identity l code key p x).
Proof. unfold start_identity. heard. Qed.
Lemma heard_start_connected l p s x : heard s x -> heard s (start_connected l p x).
Proof. unfold start_connected. heard. Qed.
Lemma heard_createRoom p s x : heard s x -> heard s (createRoom p x).
Proof. unfold createRoom. heard. Qed.
Lemma heard_joinRoom code p s x : heard s x -> heard s (joinRoom code p x).
Proof. unfold joinRoom. heard. Qed.
Lemma heard_startup_failed e p s x : heard s x -> heard s (startup_failed e p x).
Proof. unfold startup_failed. heard. Qed.
#[export] Hint Resolve heard_start heard_start_configured heard_start_identity heard_start_connected
  heard_createRoom heard_joinRoom heard_startup_failed : heard.
Lemma heard_onDelivered id s x : heard s x -> heard s (onDelivered id x).
Proof. unfold onDelivered. heard. Qed.
Lemma heard_onFailed a id r s x : heard s x -> heard s (onFailed a id r x).
Proof. unfold onFailed. heard. Qed.
#[export] Hint Resolve heard_onDelivered heard_onFailed : heard.
Lemma heard_failures a s x : heard s x -> heard s (fail_messages a x).
Proof.
  intros H. unfold fail_messages. generalize (an_failed a). intros l.
  assert (heard s (effect (ReliableFailAll session_changed) x)) as H' by auto with heard. revert H'.
  generalize (effect (ReliableFailAll session_changed) x). clear H x.
  induction l as [|id l IH]; intros x H; [done|]. apply IH. auto with heard.
Qed.
#[export] Hint Resolve heard_failures : heard.
Lemma heard_fresh text a s x : heard s x -> heard s (fresh_epoch text a x).
Proof. unfold fresh_epoch, reset_transfers, new_epoch. heard. Qed.
#[export] Hint Resolve heard_fresh : heard.
Lemma heard_prepare text a p s x : heard s x -> heard s (prepareFreshCryptoEpoch text a p x).
Proof. unfold prepareFreshCryptoEpoch, prepare_work, new_promise. heard. Qed.
Lemma heard_work_reset l w s x : heard s x -> heard s (work_reset l w x).
Proof. unfold work_reset. heard. Qed.
Lemma heard_work_identity l key a w s x : heard s x -> heard s (work_identity l key a w x).
Proof. unfold work_identity. heard. Qed.
Lemma heard_prepared w p o s x : heard s x -> heard s (prepared w p o x).
Proof. unfold prepared. heard. Qed.
#[export] Hint Resolve heard_prepare heard_work_reset heard_work_identity heard_prepared : heard.

(** *** Messages, files and voice *)

Lemma heard_sendRawApp m lane a p s x : heard s x -> heard s (sendRawApp m lane a p x).
Proof. unfold sendRawApp. heard. Qed.
#[export] Hint Resolve heard_sendRawApp : heard.
Lemma heard_encrypted e ch o a p s x : heard s x -> heard s (encrypted e ch o a p x).
Proof. unfold encrypted. heard. Qed.
Lemma heard_sendApp m lane id a p s x : heard s x -> heard s (sendApp m lane id a p x).
Proof. unfold sendApp. heard. Qed.
#[export] Hint Resolve heard_encrypted heard_sendApp : heard.
Lemma heard_sendText body a p s x : heard s x -> heard s (sendText body a p x).
Proof. unfold sendText, no_encryption. heard. Qed.
Lemma heard_text_sent id ok p s x : heard s x -> heard s (text_sent id ok p x).
Proof. unfold text_sent. heard. Qed.
Lemma heard_markVerified m a p s x : heard s x -> heard s (markVerified m a p x).
Proof. unfold markVerified, no_encryption. heard. Qed.
Lemma heard_offerFile name size p s x : heard s x -> heard s (offerFile name size p x).
Proof. unfold offerFile. heard. Qed.
Lemma heard_file_offered q v id a p s x : heard s x -> heard s (file_offered q v id a p x).
Proof. unfold file_offered. heard. Qed.
Lemma heard_cancelFile id p s x : heard s x -> heard s (cancelFile id p x).
Proof. unfold cancelFile. heard. Qed.
Lemma heard_startVoice p s x : heard s x -> heard s (startVoice p x).
Proof. unfold startVoice. heard. Qed.
Lemma heard_voice_started a p s x : heard s x -> heard s (voice_started a p x).
Proof. unfold voice_started. heard. Qed.
Lemma heard_voice_failed r a p s x : heard s x -> heard s (voice_failed r a p x).
Proof. unfold voice_failed. heard. Qed.
Lemma heard_fail_timer s x : heard s x -> heard s (fail_timer_fired x).
Proof. unfold fail_timer_fired. heard. Qed.
Lemma heard_stopVoice a p s x : heard s x -> heard s (stopVoice a p x).
Proof. unfold stopVoice. heard. Qed.
Lemma heard_voice_stopped a p s x : heard s x -> heard s (voice_stopped a p x).
Proof. unfold voice_stopped. heard. Qed.
Lemma heard_toggleMute s x : heard s x -> heard s (toggleMute x).
Proof. unfold toggleMute. heard. Qed.
Lemma heard_playback b p s x : heard s x -> heard s (playback_enabled b p x).
Proof. unfold playback_enabled. heard. Qed.
#[export] Hint Resolve heard_sendText heard_text_sent heard_markVerified heard_offerFile heard_file_offered
  heard_cancelFile heard_startVoice heard_voice_started heard_voice_failed heard_fail_timer heard_stopVoice
  heard_voice_stopped heard_toggleMute heard_playback : heard.

(** *** Voice frames *)

Lemma heard_pump_turn e a p s x : heard s x -> heard s (pump_turn e a p x).1.
Proof. intros H. unfold pump_turn. repeat case_match; cbn [fst]; auto 20 with heard. Qed.
Lemma heard_pump_again a p s x : heard s x -> heard s (pump_again a p x).
Proof.
  intros H. unfold pump_again. assert (heard s (x <| outboundVoicePumping := true |>)) as H' by auto with heard.
  apply (heard_pump_turn (voiceQueueEpoch x) a p) in H'. destruct (pump_turn _ _ _ _) as [y []]; auto with heard.
Qed.
#[export] Hint Resolve heard_pump_again : heard.
Lemma heard_pump_finally e a p s x : heard s x -> heard s (pump_finally e a p x).
Proof. unfold pump_finally. heard. Qed.
#[export] Hint Resolve heard_pump_finally : heard.
Lemma heard_pump_resume e a p s x : heard s x -> heard s (pump_resume e a p x).
Proof.
  intros H. unfold pump_resume. apply (heard_pump_turn e a p) in H. destruct (pump_turn e a p x) as [y []]; auto with heard.
Qed.
#[export] Hint Resolve heard_pump_resume : heard.
Lemma heard_pump a p s x : heard s x -> heard s (pumpOutboundVoice a p x).
Proof. unfold pumpOutboundVoice. heard. Qed.
#[export] Hint Resolve heard_pump : heard.
Lemma heard_queueOutbound f a s x : heard s x -> heard s (queueOutboundVoice f a x).
Proof. unfold queueOutboundVoice. heard. Qed.
Lemma heard_queueInbound env e a s x : heard s x -> heard s (queueInboundVoice env e a x).
Proof. unfold queueInboundVoice. heard. Qed.
#[export] Hint Resolve heard_queueOutbound heard_queueInbound : heard.
Lemma heard_route env a s x : heard s x -> heard s (routeEnvelope env a x).
Proof. unfold routeEnvelope. heard. Qed.
#[export] Hint Resolve heard_route : heard.

(** *** Inbound *)

Lemma heard_handleHandshake payload p s x : heard s x -> heard s (handleHandshake payload p x).
Proof. unfold handleHandshake. heard. Qed.
Lemma heard_reply_sent hs key p s x : heard s x -> heard s (reply_sent hs key p x).
Proof. unfold reply_sent. heard. Qed.
Lemma heard_peer_hash hs key h a p s x : heard s x -> heard s (peer_hash hs key h a p x).
Proof. unfold peer_hash. heard. Qed.
Lemma heard_established hs key p s x : heard s x -> heard s (established hs key p x).
Proof. unfold established, new_promise. heard. Qed.
Lemma heard_phrase_ready t a p s x : heard s x -> heard s (phrase_ready t a p x).
Proof. unfold phrase_ready. heard. Qed.
Lemma heard_core m a p s x : heard s x -> heard s (handleCoreMessage m a p x).
Proof. unfold handleCoreMessage. heard. Qed.
#[export] Hint Resolve heard_handleHandshake heard_reply_sent heard_peer_hash heard_established heard_phrase_ready
  heard_core : heard.
Lemma heard_app m a p s x : heard s x -> heard s (handleAppMessage m a p x).
Proof. unfold handleAppMessage. heard. Qed.
#[export] Hint Resolve heard_app : heard.
Lemma heard_received body a p s x : heard s x -> heard s (received body a p x).
Proof. unfold received. heard. Qed.
Lemma heard_played b a p s x : heard s x -> heard s (played b a p x).
Proof. unfold played. heard. Qed.
(** The count of dropped packets changes before it is announced. *)
Lemma heard_dropped p s x : heard s x -> heard s (packet_dropped p x).
Proof.
  intros H. unfold packet_dropped. apply heard_ret. eapply emits_trans; [exact H|].
  destruct (_ || _); apply emits_emit, grows_same; done.
Qed.
#[export] Hint Resolve heard_received heard_played heard_dropped : heard.
Lemma heard_onEnvelope env e p s x : heard s x -> heard s (onEnvelope env e p x).
Proof. unfold onEnvelope. heard. Qed.
#[export] Hint Resolve heard_onEnvelope : heard.
Lemma heard_decrypted e ch env m a p s x : heard s x -> heard s (decrypted e ch env m a p x).
Proof. unfold decrypted. heard. Qed.
Lemma heard_inbound_finally p o s x : heard s x -> heard s (inbound_voice_finally p o x).
Proof. unfold inbound_voice_finally. heard. Qed.
#[export] Hint Resolve heard_decrypted heard_inbound_finally : heard.
Lemma heard_processOne a p s x : heard s x -> heard s (processOneInboundVoice a p x).
Proof. unfold processOneInboundVoice. heard. Qed.
Lemma heard_connected_prepared p s x : heard s x -> heard s (connected_prepared p x).
Proof. unfold connected_prepared. heard. Qed.
#[export] Hint Resolve heard_processOne heard_connected_prepared : heard.
Lemma heard_onStatus st a p s x : heard s x -> heard s (onConnectionStatus st a p x).
Proof. unfold onConnectionStatus. heard. Qed.
Lemma heard_peer_disconnected a p s x : heard s x -> heard s (Session.peer_disconnected a p x).
Proof. unfold Session.peer_disconnected. heard. Qed.
Lemma heard_peer_rejoined a p s x : heard s x -> heard s (Session.peer_rejoined a p x).
Proof. unfold Session.peer_rejoined. heard. Qed.
Lemma heard_onRelay ev a p s x : heard s x -> heard s (onRelayEvent ev a p x).
Proof. unfold onRelayEvent. heard. Qed.
#[export] Hint Resolve heard_onStatus heard_peer_disconnected heard_peer_rejoined heard_onRelay : heard.

(** ** Every step *)

Lemma heard_or_throw o p k s x :
  (forall v y, heard s y -> heard s (k v y)) -> heard s x -> heard s (or_throw o p k x).
Proof. intros Hk H. unfold or_throw. destruct o; auto with heard. Qed.
Lemma heard_or_end o p k s x :
  (forall v y, heard s y -> heard s (k v y)) -> heard s x -> heard s (or_end_establishing o p k x).
Proof. intros Hk H. unfold or_end_establishing. destruct o; auto with heard. Qed.
#[export] Hint Resolve heard_or_throw heard_or_end : heard.

Lemma heard_resume p q k o a s x : heard s x -> heard s (resume p q k o a x).
Proof. intros H. destruct k; cbn [resume]; repeat case_match; auto 20 with heard. Qed.
#[export] Hint Resolve heard_resume : heard.

Lemma heard_run_inbound t a p s x : heard s x -> heard s (run_inbound t a p x).
Proof. unfold run_inbound. heard. Qed.
#[export] Hint Resolve heard_run_inbound : heard.

Lemma heard_step e a s s' : step e a s = Some s' -> heard s s'.
Proof.
  intros He. destruct e; cbn [step] in He;
    try (apply (inj Some) in He as <-; auto 20 with heard).
  - unfold settle_call in He. repeat case_match; try done; apply (inj Some) in He as <-; auto with heard.
  - unfold resume_task in He. repeat case_match; try done; apply (inj Some) in He as <-; auto with heard.
  - unfold next_inbound, new_promise in He. repeat case_match; try done; apply (inj Some) in He as <-; auto with heard.
  - destruct (endSessionTimer s); [|done]. apply (inj Some) in He as <-. auto with heard.
  - destruct (0 <? failTimers s)%nat; [|done]. apply (inj Some) in He as <-. auto with heard.
Qed.
