(* ===== verification/System.v ===== *)
(** * The controller and its interface together

    [AppView] subscribes to the controller and calls its methods.  A step of
    the whole page is an event of the interface, whose commands the
    controller carries out, or an event of the controller (a packet, a timer,
    a promise); in both cases the snapshots the controller gives out are
    delivered to the interface at once, as [emit] does. *)
From S2P Require Import Prelude JsMap Bytes Profiles Messages Negotiation FileProtocol Rooms.
From S2P Require Import Scheduler Connection SessionView Session SessionSync SessionProps.
From S2P Require Import JsString Links Dom AppView AppActions AppProps.

(** The method of the controller behind a command. *)
Definition event_of (c : Command) : Event :=
  match c with
  | CreateRoom => UCreateRoom
  | JoinRoom code => UJoinRoom code
  | SetProfile i => USetProfile i
  | SendText text => USendText text
  | MarkVerified m => UMarkVerified m
  | OfferFile name size => UOfferFile name size
  | AcceptFile id => UAcceptFile id
  | RejectFile id => URejectFile id
  | CancelFile id => UCancelFile id
  | RemoveFile id => URemoveFile id
  | StartVoice => UStartVoice
  | StopVoice => UStopVoice
  | ToggleMute => UToggleMute
  | EnableAudioPlayback => UEnableAudio
  | EndChatForBoth => UEndChat
  end.

Record Page := { ui : AppView; controller : Session }.

(** The snapshots of a step, delivered to the listener. *)
Definition deliver (s s' : Session) (u : AppView) : AppView :=
  foldl (fun u st => on_state st u) u (snapshots (drop (length (outs (view s))) (outs (view s')))).

Definition controller_step (e : Event) (a : Answers) (p : Page) : option Page :=
  s' ← Session.step e a (controller p);
  Some {| ui := deliver (controller p) s' (ui p); controller := s' |}.

(** The commands that a handler has issued. *)
Fixpoint carry_out (cs : list Command) (a : Answers) (p : Page) : option Page :=
  match cs with
  | [] => Some p
  | c :: cs => p' ← controller_step (event_of c) a p; carry_out cs a p'
  end.

Inductive PageEvent := FromUi (e : UiEvent) | FromController (e : Event).

(** The interface's own events; a snapshot comes only from the controller,
    and a command only from the interface. *)
Definition is_ui_event (e : UiEvent) : bool := match e with Snapshot _ => false | _ => true end.
Definition is_command (e : Event) : bool :=
  match e with
  | UCreateRoom | UJoinRoom _ | USetProfile _ | USendText _ | UMarkVerified _ | UOfferFile _ _ | UAcceptFile _
  | URejectFile _ | UCancelFile _ | URemoveFile _ | UStartVoice | UStopVoice | UToggleMute | UEnableAudio
  | UEndChat => true
  | _ => false
  end.

Section Page.
Context (b : Browser).

Definition page_step (e : PageEvent) (a : Answers) (p : Page) : option Page :=
  match e with
  | FromUi e =>
      if is_ui_event e then
        u ← AppView.step b e (ui p);
        carry_out (drop (length (commands (ui p))) (commands u)) a {| ui := u; controller := controller p |}
      else None
  | FromController e => if is_command e then None else controller_step e a p
  end.

Fixpoint page_run (es : list (PageEvent * Answers)) (p : Page) : option Page :=
  match es with
  | [] => Some p
  | (e, a) :: es' => match page_step e a p with Some p' => page_run es' p' | None => None end
  end.

(** The page as it is loaded. *)
Definition newPage : Page :=
  {| ui := constructor b (SessionView.state (view newSession)); controller := newSession |}.

(** ** The state of the interface is the controller's *)

Lemma setToast_state message tone r u : AppView.state (setToast message tone r u) = AppView.state u.
Proof.
  assert (AppView.state (setToast message tone false u) = AppView.state u) as H by apply (setToast_quiet message tone u).
  destruct r; [|done]. rewrite setToast_true. unfold scheduleRender. by destruct (renderScheduled _).
Qed.

Lemma render_state u : AppView.state (render b u) = AppView.state u.
Proof. apply (render_redraws b u). Qed.

Lemma handle_state h u : AppView.state (handle b h u) = AppView.state u.
Proof.
  revert u. induction h; intros u; cbn [handle]; try reflexivity;
    try (unfold openSecuritySheet, openSheet, closeSheet; by rewrite render_state).
  - by destruct busy.
  - unfold copyRoomCode. by destruct (truthy _).
  - unfold shareRoom. destruct (canShare b); [reflexivity|]. unfold copyText. by destruct (truthy _).
  - by rewrite IHh.
  - unfold submit_message. destruct (negb _); [reflexivity|]. by destruct (messageInput _).
  - transitivity (AppView.state (closeSheet b u)); [reflexivity|]. unfold closeSheet. by rewrite render_state.
  - transitivity (AppView.state (closeSheet b u)); [reflexivity|]. unfold closeSheet. by rewrite render_state.
Qed.

Lemma set_timer_state t u : AppView.state (set_timer t u) = AppView.state u.
Proof. reflexivity. Qed.

Lemma showError_state e u : AppView.state (showError e u) = AppView.state u.
Proof. unfold showError, showToast. by rewrite setToast_state. Qed.

Lemma settled_state q error u : AppView.state (settled q error u) = AppView.state u.
Proof.
  destruct q, error; cbn [settled].
  - apply showError_state.
  - reflexivity.
  - apply showError_state.
  - rewrite set_timer_state. unfold showToast. by rewrite setToast_state.
  - apply showError_state.
  - unfold showToast. by rewrite setToast_state.
  - unfold copyText. by destruct (truthy text).
  - reflexivity.
Qed.

Lemma ui_step_state e u u' : is_ui_event e = true -> AppView.step b e u = Some u' -> AppView.state u' = AppView.state u.
Proof.
  intros Hi He. destruct e as [next| |i|k error|h|i|i text caret|file|i|y]; cbn [AppView.step] in He; [done|..].
  - destruct (0 <? frames u)%nat; [|done]. apply (inj Some) in He as <-. unfold frame. by rewrite render_state.
  - destruct (find _ (timers u)) as [t|]; [|done]. apply (inj Some) in He as <-.
    destruct (snd t); cbn [timer_fired]; unfold scheduleRender; by case_match.
  - destruct (pending u !! k) as [q|]; [|done]. apply (inj Some) in He as <-. by rewrite settled_state.
  - case_bool_decide; [|done]. apply (inj Some) in He as <-. apply handle_state.
  - case_bool_decide; [|done]. by apply (inj Some) in He as <-.
  - destruct (enabled_field i u) as [f|]; [|done]. cbn in He. destruct (_ && _); [|done].
    apply (inj Some) in He as <-. unfold type_text. by case_bool_decide.
  - destruct (0 <? choosers u)%nat; [|done]. apply (inj Some) in He as <-. by destruct file as [[name size]|].
  - destruct i as [i|]; [|by apply (inj Some) in He as <-].
    destruct (enabled_field i u); [|done]. by apply (inj Some) in He as <-.
  - destruct (transcript_of u); [|done]. by apply (inj Some) in He as <-.
Qed.

Definition shows (p : Page) : Prop :=
  ui_ok b (ui p) /\ AppView.state (ui p) = Some (SessionView.state (view (controller p))).

Lemma on_state_state st u : AppView.state (on_state st u) = Some st.
Proof.
  unfold on_state. destruct (surfaceNotice_quiet_of (notice st) ((syncLocalState (AppView.state u) st u) <| AppView.state := Some st |>))
    as (w & Hq & Hw).
  set (v := surfaceNotice _ _) in *. clearbody v.
  assert (AppView.state v = Some st) as Hv by (rewrite (q_state _ _ Hq); by destruct Hw as [->|[x ->]]).
  unfold scheduleRender. by destruct (renderScheduled v).
Qed.

Lemma deliver_all l u st :
  ui_ok b u -> AppView.state u = Some st ->
  ui_ok b (foldl (fun u st => on_state st u) u l) /\
  AppView.state (foldl (fun u st => on_state st u) u l) = Some (default st (last l)).
Proof.
  revert u st. induction l as [|x l IH]; intros u st Hu Hs; [done|]. cbn [foldl].
  destruct (IH (on_state x u) x) as [H1 H2]; [by apply on_state_ok|apply on_state_state|]. split; [done|].
  rewrite H2. f_equal. destruct l as [|y l] using rev_ind; [done|]. by rewrite app_comm_cons, !last_snoc.
Qed.

Lemma controller_step_shows e a p p' : controller_step e a p = Some p' -> shows p -> shows p'.
Proof.
  intros He [Hu Hs]. unfold controller_step in He.
  destruct (Session.step e a (controller p)) as [s'|] eqn:Hstep; [|done]. apply (inj Some) in He as <-.
  apply heard_step in Hstep as (l & Ho & Hl). unfold deliver. rewrite Ho, drop_app_length.
  destruct (deliver_all (snapshots l) (ui p) _ Hu Hs) as [H1 H2]. split; [exact H1|].
  cbn [ui controller]. rewrite H2, Hl. done.
Qed.

Lemma carry_out_shows cs a p p' : carry_out cs a p = Some p' -> shows p -> shows p'.
Proof.
  revert p. induction cs as [|c cs IH]; intros p H Hp; cbn [carry_out] in H; [by apply (inj Some) in H as <-|].
  destruct (controller_step (event_of c) a p) as [x|] eqn:Hx; [|done]. eapply IH; [exact H|].
  by eapply controller_step_shows.
Qed.

Lemma page_step_shows e a p p' : page_step e a p = Some p' -> shows p -> shows p'.
Proof.
  intros He Hp. destruct e as [e|e]; cbn [page_step] in He.
  - destruct (is_ui_event e) eqn:Hi; [|done]. destruct (AppView.step b e (ui p)) as [u|] eqn:Hu; [|done].
    eapply carry_out_shows; [exact He|]. destruct Hp as [Ho Hs]. split; cbn [ui controller].
    + by eapply ui_step_ok.
    + by rewrite (ui_step_state e _ _ Hi Hu).
  - destruct (is_command e); [done|]. by eapply controller_step_shows.
Qed.

Lemma newPage_shows : shows newPage.
Proof. split; [apply constructor_ok|apply on_state_state]. Qed.

Lemma page_run_shows es p p' : page_run es p = Some p' -> shows p -> shows p'.
Proof.
  revert p. induction es as [|[e a] es IH]; intros p H Hp; cbn [page_run] in H; [by apply (inj Some) in H as <-|].
  destruct (page_step e a p) as [x|] eqn:Hx; [|done]. eapply IH; [exact H|]. by eapply page_step_shows.
Qed.

(** C15: the page shows the controller.  In every run of the whole page, after
    any interleaving of packets, promises, timers and actions of the user, the
    interface holds the controller's present state; when no frame is under way
    the document is the page of that state (but for a menu that may still be
    open), and otherwise the next frame makes it so. *)
Theorem page_shows_controller es p :
  page_run es newPage = Some p ->
  AppView.state (ui p) = Some (SessionView.state (view (controller p))) /\
  (renderScheduled (ui p) = false ->
     exists m, root (ui p) = Element (createElement Div) [shell b ((ui p) <| menuOpen := m |>)] /\
               (menuOpen (ui p) = true -> m = true)) /\
  (renderScheduled (ui p) = true ->
     exists u, AppView.step b Frame (ui p) = Some u /\ exact b u /\ AppView.state u = AppView.state (ui p)).
Proof.
  intros H. apply page_run_shows in H as [Hu Hs]; [|apply newPage_shows]. split_and!; [done|..]; intros Hr.
  - destruct (uo_page _ _ Hu) as [Hp|[Hp _]]; [congruence|done].
  - destruct (frame_exact b (ui p) Hu Hr) as (H1 & H2 & _ & H3). by exists (frame b (ui p)).
Qed.

(** What the user sets off is allowed by the controller's state.  When no
    frame is under way a message can be sent, a file attached or voice
    started exactly over a connected and encrypted session of a chat, a file
    accepted or declined exactly while its offer is open, a file cancelled
    exactly while it is not finished, and a room created or joined exactly
    when none is open. *)
Theorem actions_follow_controller es p (st := SessionView.state (view (controller p))) :
  page_run es newPage = Some p -> renderScheduled (ui p) = false ->
  (forall h, h = OnSubmit \/ h = OnAttach ->
     (exists u, AppView.step b (Act h) (ui p) = Some u) <-> ~ before_chat st /\ can_chat st) /\
  ((exists u, AppView.step b (Act OnVoice) (ui p) = Some u) <->
     ~ before_chat st /\ can_chat st /\ ~ voice_on st) /\
  (forall h id, h = OnAccept id \/ h = OnDecline id ->
     (exists u, AppView.step b (Act h) (ui p) = Some u) <->
     ~ before_chat st /\ exists t, shown st t /\ tv_fileId t = id /\ tv_direction t = dir_receive /\
                                   tv_state t = Transfer.offered) /\
  (forall id, (exists u, AppView.step b (Act (OnCancel id)) (ui p) = Some u) <->
     ~ before_chat st /\ exists t, shown st t /\ tv_fileId t = id /\ finished (tv_state t) = false /\
                                   ~ (tv_direction t = dir_receive /\ tv_state t = Transfer.offered)) /\
  (forall h, h = OnCreateRoom \/ h = OnJoin false ->
     (exists u, AppView.step b (Act h) (ui p) = Some u) <-> phase st = Phase.idle \/ phase st = Phase.ended).
Proof.
  intros H Hr. apply page_run_shows in H as [Hu Hs]; [|apply newPage_shows]. fold st in Hs.
  assert (forall h, (exists u, AppView.step b (Act h) (ui p) = Some u) <->
    (before_chat st /\ permitted_start (ui p) st h) \/ (~ before_chat st /\ permitted_chat (ui p) st h)) as Hact.
  { intros h. pose proof (current_actions b (ui p) h Hu Hr) as Hc. unfold permitted in Hc. rewrite Hs in Hc.
    rewrite <- Hc. cbn [AppView.step]. case_bool_decide; split; try done; [by eexists|by intros [? ?]]. }
  split_and!.
  - intros h Hh. rewrite Hact. destruct Hh as [-> | ->]; cbn; tauto.
  - rewrite Hact. cbn. tauto.
  - intros h id Hh. rewrite Hact. destruct Hh as [-> | ->]; cbn; tauto.
  - intros id. rewrite Hact. cbn. tauto.
  - intros h Hh. rewrite Hact. unfold before_chat. destruct Hh as [-> | ->]; cbn; tauto.
Qed.
End Page.

(** ** A demonstration *)

(** The user creates a room, the peer's handshake arrives, the connection is
    reported and the page is drawn. *)
Definition demo_page : list (PageEvent * Answers) :=
  (fun e => (e, demo_answers)) <$>
  ([FromUi Frame; FromUi (Act OnCreateRoom)] ++
   (FromController <$> (tail demo_room ++ demo_establish ++
      [Settle 20 (Fulfilled (VText (js "alpha beta"))); Resume 1; Resume 0; OnStatus Status.connected; NextInbound])) ++
   [FromUi Frame]).

(** Then a message is typed and sent. *)
Definition demo_typed : list (PageEvent * Answers) :=
  demo_page ++ ((fun e => (FromUi e, demo_answers)) <$> [Types 1 (js " hello ") 7; Act OnSubmit; Frame]).

Definition demo_reaches (es : list (PageEvent * Answers)) (P : Page -> bool) : bool :=
  match page_run demo_browser es (newPage demo_browser) with Some p => P p | None => false end.

Example demo_page_active :
  demo_reaches demo_page (fun p => bool_decide (phase (SessionView.state (view (controller p))) = Phase.active) &&
    negb (renderScheduled (ui p)) && bool_decide (OnSubmit ∈ actions (root (ui p)))) = true.
Proof. vm_compute. reflexivity. Qed.

Lemma demo_page_reached es P :
  demo_reaches es P = true ->
  exists p, page_run demo_browser es (newPage demo_browser) = Some p /\ P p = true.
Proof. unfold demo_reaches. destruct (page_run _ _ _) as [p|]; [|done]. intros H. by exists p. Qed.

Lemma page_shows_controller_witness :
  exists p, page_run demo_browser demo_typed (newPage demo_browser) = Some p /\
    negb (renderScheduled (ui p)) && bool_decide (length (transcript (SessionView.state (view (controller p)))) = 2%nat)
      = true /\
    AppView.state (ui p) = Some (SessionView.state (view (controller p))).
Proof.
  destruct (demo_page_reached demo_typed (fun p => negb (renderScheduled (ui p)) &&
    bool_decide (length (transcript (SessionView.state (view (controller p)))) = 2%nat))) as (p & Hp & Hr);
    [vm_compute; reflexivity|].
  exists p. split; [exact Hp|]. split; [exact Hr|].
  exact (proj1 (page_shows_controller demo_browser demo_typed p Hp)).
Defined.

Lemma actions_follow_controller_witness :
  exists p u, page_run demo_browser demo_page (newPage demo_browser) = Some p /\
    AppView.step demo_browser (Act OnSubmit) (ui p) = Some u /\
    can_chat (SessionView.state (view (controller p))).
Proof.
  destruct (demo_page_reached demo_page (fun p => negb (renderScheduled (ui p)) &&
    bool_decide (OnSubmit ∈ actions (root (ui p))))) as (p & Hp & Hr); [vm_compute; reflexivity|].
  apply andb_prop in Hr as [Hr Ha]. apply negb_true_iff in Hr.
  exists p, (handle demo_browser OnSubmit (ui p)). split; [exact Hp|].
  assert (AppView.step demo_browser (Act OnSubmit) (ui p) = Some (handle demo_browser OnSubmit (ui p))) as Hu.
  { cbn [AppView.step]. rewrite Ha. reflexivity. }
  split; [exact Hu|].
  destruct (actions_follow_controller demo_browser demo_page p Hp Hr) as [Hs _].
  destruct (Hs OnSubmit (or_introl eq_refl)) as [Hs' _]. apply Hs'. eexists. exact Hu.
Defined.

(** The text that was typed goes to the controller without its blanks, and
    the field is empty again. *)
Example demo_sent :
  demo_reaches demo_typed (fun p =>
    match last (commands (ui p)) with Some (SendText t) => jstr_eqb t (js "hello") | _ => false end &&
    bool_decide (messageDraft (ui p) = [])) = true.
Proof. vm_compute. reflexivity. Qed.
