(* ===== verification/Runtime.v ===== *)
(** * Session runtime: [client/src/runtime] and
      [client/src/session/SessionStateMachine.ts]

    A queue that runs asynchronous tasks one after the other, whether they
    succeed or fail, and the phase holder. *)
From S2P Require Import Prelude Connection SessionView.

(** ** [SessionStateMachine] *)

Record SessionStateMachine := { phaseValue : Phase.Phase }.

Definition newStateMachine : SessionStateMachine := {| phaseValue := Phase.idle |}.
Definition set_phase (p : Phase.Phase) (m : SessionStateMachine) : SessionStateMachine := {| phaseValue := p |}.
Definition canSendEncrypted (m : SessionStateMachine) : bool :=
  bool_decide (phaseValue m = Phase.active) || bool_decide (phaseValue m = Phase.waiting).

(** ** [SessionQueue]

    [chain.then(task, task)] starts a task when the one before it has
    settled, with whatever outcome; the promise that [enqueue] returns settles
    as its task does. *)
Section Queue.
Context {A : Type}.

Inductive Settled := Done (a : A) | Failed (e : jstr).

Record SessionQueue := {
  waiting_tasks : list nat;             (* enqueued and not started *)
  running : option nat;
  outcomes : list (nat * Settled);      (* of the promises that have settled *)
  started : list nat;
  nextTask : nat;
}.

Definition newQueue : SessionQueue :=
  {| waiting_tasks := []; running := None; outcomes := []; started := []; nextTask := 0 |}.

Inductive QueueEvent := Enqueue | Start | Settle (o : Settled).

Definition enqueue (q : SessionQueue) : SessionQueue :=
  {| waiting_tasks := waiting_tasks q ++ [nextTask q]; running := running q; outcomes := outcomes q;
     started := started q; nextTask := S (nextTask q) |}.

Definition queue_step (e : QueueEvent) (q : SessionQueue) : option SessionQueue :=
  match e with
  | Enqueue => Some (enqueue q)
  | Start =>
      match running q, waiting_tasks q with
      | None, t :: l =>
          Some {| waiting_tasks := l; running := Some t; outcomes := outcomes q; started := started q ++ [t];
                  nextTask := nextTask q |}
      | _, _ => None
      end
  | Settle o =>
      match running q with
      | Some t => Some {| waiting_tasks := waiting_tasks q; running := None; outcomes := outcomes q ++ [(t, o)];
                          started := started q; nextTask := nextTask q |}
      | None => None
      end
  end.

Fixpoint queue_run (es : list QueueEvent) (q : SessionQueue) : option SessionQueue :=
  match es with
  | [] => Some q
  | e :: es => match queue_step e q with Some q' => queue_run es q' | None => None end
  end.

(** Every task is settled, running or waiting, in the order of the calls. *)
Definition queue_ok (q : SessionQueue) : Prop :=
  (outcomes q).*1 ++ option_list (running q) = started q /\ started q ++ waiting_tasks q = seq 0 (nextTask q).

Lemma queue_step_ok e q q' : queue_step e q = Some q' -> queue_ok q -> queue_ok q'.
Proof.
  unfold queue_ok. intros He [H1 H2]. destruct e as [| |o]; cbn [queue_step] in He.
  - apply (inj Some) in He as <-. cbn. split; [done|]. rewrite app_assoc, H2. symmetry. apply (seq_S (nextTask q) 0).
  - destruct (running q); [done|]. destruct (waiting_tasks q) as [|t l]; [done|]. apply (inj Some) in He as <-. cbn in *.
    rewrite app_nil_r in H1. split; [by rewrite H1|]. by rewrite <- app_assoc.
  - destruct (running q) as [t|]; [|done]. apply (inj Some) in He as <-. cbn in *.
    split; [|done]. by rewrite fmap_app, app_nil_r.
Qed.

(** Tasks start in the order of [enqueue], one at a time, and a task that
    fails does not keep the next from starting: when nothing runs and a task
    waits, it can start, and when all have settled every promise has its
    outcome, in order. *)
Theorem session_queue_serial es q :
  queue_run es newQueue = Some q ->
  started q ++ waiting_tasks q = seq 0 (nextTask q) /\
  (running q = None -> (outcomes q).*1 = started q /\
     (waiting_tasks q <> [] -> exists q', queue_step Start q = Some q')).
Proof.
  intros H. assert (queue_ok q) as [H1 H2].
  { assert (queue_ok newQueue) as H0 by done. revert H H0. generalize newQueue. induction es as [|e es IH];
      intros x H Hx; cbn [queue_run] in H; [by apply (inj Some) in H as <-|].
    destruct (queue_step e x) as [y|] eqn:He; [|done]. eapply IH; [exact H|]. by eapply queue_step_ok. }
  split; [done|]. intros Hr. rewrite Hr, app_nil_r in H1. split; [done|]. intros Hw. cbn [queue_step]. rewrite Hr.
  destruct (waiting_tasks q); [done|by eexists].
Qed.
End Queue.
